(* ===== verification/_CoqProject ===== *)
-Q . S2P
Prelude.v
WaitQueue.v
TraceFormat.v
State.v
Stack.v
TraceBuffer.v
Trace.v
Runtime.v
Replay.v
Fuzz.v
Sched.v
Thread.v
Mutex.v
Sem.v
Cond.v
Lifecycle.v
Recorder.v
Machine.v
Scripts.v
Invariant.v
Ops.v
Switching.v
Safety.v
SyncSpec.v
Frame.v
Exclusion.v
Waiting.v
ThreadSpec.v
Slots.v
Steps.v
Queues.v
Counting.v
Stacks.v
ApiSpec.v
Agree.v
Lockstep.v
Reproducible.v
Determinism.v
Setup.v
Coop.v
Context.v
Layout.v
Coroutines.v
Clients.v
Progress.v
ForkJoin.v
Crew.v
Benchmarks.v
Examples.v
Tests.v
Findings.v
