(* ===== verification/Prelude.v ===== *)
(** * gthreads: a verification development

    gthreads is a C library of cooperative (green) threads for x86-64: a
    runtime with a table of 128 threads, a scheduler with round-robin and
    priority policies, mutexes, semaphores and condition variables, a binary
    trace of all scheduling events, replay of such a trace, and fuzzing of
    scheduling decisions.  This library models its code as executable functions
    and proves what the parts promise, from the ring buffer of a wait queue to
    whole executions of arbitrary user programs.

    ** The program and its model

    The C code is a set of functions on one global [gth_runtime_state_t], on
    synchronisation objects the user owns, on files and on memory it maps.  A
    function is a computation [M A] (State.v) on a [world]: the runtime state,
    mutexes, semaphores and condition variables by address, files, the mapped
    pages with their protection, and the operating system.  A computation ends in [Done], in
    [Undef] (out-of-range index, NULL dereference, modulo zero, a jump to a
    stack that is gone) or in [NoFuel].  Functions, fields and constants have
    their C names; NULL is [None] or address 0; a function with an
    out-parameter returns a [resp]: the status and what it stores.  Unsigned
    arithmetic is written with its wrap-around ([u8], [u32], [u64]).

    The operating system is a parameter: [OS] gives, for the n-th call, whether
    [malloc], [mmap], [mprotect], [fopen], [fread] succeed, how much [fwrite]
    accepts, and what the clocks say.  [mmap], [mprotect] and [munmap] work on
    the pages of the range they are given.  Theorems hold for every [OS] unless
    they say otherwise; what is documented of the addresses [mmap] returns
    (aligned, in range, pages that were free) is a hypothesis where stacks are
    allocated ([mmap_sound], [os_sound]).

    A call that switches stacks is cut at the switch: it returns [Swap from to
    k], where the frame [k] names the code that runs when the stack is resumed
    ([gth_mutex_lock_resume], [gth_scheduler_run_next_resume], ...).  Machine.v
    composes these pieces: the main stack and the threads' stacks, each running
    user code, suspended, or about to continue a call, move control by saving
    and loading contexts as [gth_ctx_swap] does.  User code is a parameter
    ([program]): any transition system over its own stacks and a memory they
    share that calls the public functions ([api]).

    ** Files

    Prelude.v      machine integers, the outcome monad, [returns] and [safe]
                   (postconditions), list and byte lemmas, tactics
    WaitQueue.v    src/src/sync/wait_queue.h
    TraceFormat.v  src/src/trace/trace_format.h
    State.v        src/src/internal/runtime_state.h, ctx.h, the structs of
                   gthreads.h; the world
    Stack.v        src/src/context/stack.c
    TraceBuffer.v  src/src/trace/trace_buffer.c
    Trace.v        src/src/trace/trace.c
    Runtime.v      src/src/runtime/runtime.c: table, configuration, statistics
    Replay.v       src/src/trace/replay.c and [gth_replay_from] of trace.c
    Fuzz.v         src/src/trace/fuzz.c
    Sched.v        src/src/sched/scheduler.c
    Thread.v       src/src/thread/thread.c and the C part of context.c
    Mutex.v, Sem.v, Cond.v    src/src/sync/mutex.c, sem.c, cond.c
    Lifecycle.v    src/src/runtime/runtime.c: initialisation and shutdown
    Recorder.v     recording sessions: trace.c, trace_buffer.c and replay.c together
    Machine.v      the public interface and the machine
    Scripts.v      programs that run fixed lists of calls
    Invariant.v, Ops.v, Switching.v    the invariant [world_ok]; each function keeps it
    Safety.v       the invariant of the machine, [mach_ok]
    SyncSpec.v     [Module Sync]: the abstract synchronisation objects, and the refinement
    Frame.v        what functions leave alone, against the interface [Frame]
    Exclusion.v    invariants of synchronisation, against the interface [SyncInv]; mutual exclusion
    Waiting.v      no waiter is lost
    ThreadSpec.v   outcomes of create, join, cancel, exit, statistics, shutdown
    Slots.v        what functions do to the slots of the table
    Steps.v        a machine step as a library task with its effect ([task_effect])
    Queues.v       wait queues list exactly the threads that wait
    Counting.v     semaphores conserve their units
    Stacks.v       no stack is leaked
    ApiSpec.v      what holds of every public function
    Agree.v        two runs side by side, [agree]: functions other than the scheduler
                   do the same in worlds that look the same to the program
    Lockstep.v     the scheduler, against the interface [Follows]; runs are determined
    Reproducible.v whole executions on two operating systems
    Determinism.v  replay, as an instance of [Follows]; a recorded run can be repeated
    Setup.v        the configuration, counters and memory that functions leave alone
    Coop.v         an abstract machine of cooperative threads, and the refinement
    Context.v      src/src/context/ctx_x86_64.S, instruction by instruction
    Layout.v       sizes, alignments and offsets of the C structures
    Coroutines.v   executions with any number of stacks, on the assembly of Context.v
    Clients.v      client code as a monad
    Progress.v     [leads]: programs that get somewhere however threads are scheduled
    ForkJoin.v     rules for client code; joins succeed, against the interface [Pool]
    Crew.v         the threads a program creates, against the interface [Shift]
    Benchmarks.v   src/benchmarks/: four client programs, for any sizes
    Examples.v     src/examples/: three client programs, on the machine
    Tests.v        src/tests/: the repository's tests, on the machine
    Findings.v     behaviour the code does not intend, for all consistent states
                   or in closed runs

    ** What the theorems show

    Whole executions (Safety, Exclusion, Waiting, Queues, Counting, Stacks): an execution of any
    program whose threads neither join nor shut the runtime down has no
    undefined behaviour, only the executing stack's record is RUNNING, the
    counters are exact, thread ids are unique, a mutex stays with its owner
    until the owner lets go of it, a blocked thread is in a queue, the queues
    list exactly the threads that wait for the object and a semaphore's count,
    posts and successful waits add up as long as no waiter is cancelled or
    its object discarded, and the mapped memory is exactly the stacks in the
    table.  The restriction on
    threads is necessary: a join from a green thread loses the point at which
    main is suspended, in every state in which it has to wait
    ([nested_join_loses_main], Findings.v).  These hold for up
    to 2^64 - 3 machine steps, because a step can use up one 64-bit thread id.
    Every step returns, but for the rejection loop of the fuzzer's random
    numbers ([hang_only_in_fuzz_mode]).

    The library as a whole (Coop): on a system that grants memory, executions
    without calls about tracing, replay, fuzzing and modes
    are executions of an abstract machine on which threads run one at a time
    and hand over at calls that wait, with thread states, ids, results and
    abstract objects, and with the scheduler's choices left open.  Proofs about
    client programs are made there (Progress, ForkJoin, Crew): a client states
    an invariant of its threads while main has control and gets that every
    join returns.  The benchmark programs are proved so, for any number of
    threads and rounds.

    Two executions (Agree, Lockstep, Reproducible, Determinism): a run is
    determined by what the program sees and the state of the scheduler, in all
    four modes; starting the recorder does not
    change what a program does; and replaying the file it leaves, from the state
    in which the recording began, repeats the run step for step.  These are
    instances of one simulation, whose interface [Follows] says when the
    scheduler of one world makes the choices of another.  From its start and
    with all calls but those on trace files, an execution is the same on every
    two systems that never refuse memory, so that a fuzzed schedule is
    reproduced by its seed ([whole_run_determined]).  The others are about runs
    in which the program makes no calls about tracing, replay, modes and the
    life of the runtime, and memory for stacks is not refused ([grants]), since
    a refusal is not in the trace; replay needs thread ids below 2^32, the
    width a record has for them.

    Contracts (SyncSpec, ThreadSpec, ApiSpec, Stack, Sched): each operation on
    every branch, errors included; synchronisation objects as refinements of
    abstract owner/count/FIFO objects; the round-robin choice, its freedom from
    starvation, and the priority order.

    Data (WaitQueue, TraceBuffer, TraceFormat, Recorder, Replay, Fuzz): the ring
    buffer implements a bounded FIFO; the trace buffer stays in its allocation;
    a recording leaves a file that [gth_replay_from] loads with exactly the
    recorded events, up to 256 MiB; a corrupted file is rejected; replay follows
    the file; [gth_fuzz_random_range] returns every value for equally many
    states of the generator.

    Assembly and memory (Context, Layout, Coroutines): a swap and the swap back
    restore the caller; a made context enters its function on an aligned stack;
    with any number of stacks, made, switched between and released in any
    order, a switch continues its target as the target left off, which is what
    the machine assumes of contexts; synchronisation objects fit the storage
    users declare; the bytes in trace files are the packed structures.

    Clients (Examples, Tests, Benchmarks): two of the examples, and the
    repository's own tests but those on trace files, succeed on every system
    that never refuses memory and has pages of 4 KiB (evaluated on one such
    system and carried over by Reproducible.v; what works on a trace file is
    evaluated on [sunny_os] only), and the benchmarks end and print the figures
    that follow from their sizes, which fit [int] ([bench_fits]).

    Behaviour that is not intended (Findings): for every consistent state, that
    a nested join loses main and that a post is lost on a cancelled waiter; as
    closed runs, what follows from them and six others.

    ** Bounds and fuel

    Loops with a bound in the code recurse on it.  [lock_wait] has fuel 53 (one
    more than the queue has slots: each refused block lengthens the queue by
    one) and [broadcast_loop] the number of waiters; the refinement theorems
    show that neither runs out.  The rejection loop of [gth_fuzz_random_range]
    has no bound in C; its fuel is [w_fuel], a constant of an execution, and
    [hang_only_in_fuzz_mode] shows it is the only loop that can run out, and
    that it does only when so many draws in a row are rejected.  Thread ids and addresses in traces
    are kept at their width.

    ** Idealisations

    Distinct synchronisation objects do not overlap and are changed by the
    library only.  The record of a file is what has been handed to [fwrite] when
    the stream is flushed or closed.  [gth_context_init_thread] leaves an entry
    point in a context instead of raw registers; Context.v and Coroutines.v
    prove what [gth_ctx_make] and [gth_ctx_swap] do with registers and memory.  There an
    instruction is one address long, memory is 64-bit words at 8-aligned
    addresses, and the 464 bytes that [fxsave] writes are the FPU state.
    [gth_trace_buffer_destroy] only frees memory and is not a definition.

    ** Not modelled

    Preemption and signals (the library has none: [quantum_us] is checked and
    never used); more than one OS thread; the heap beyond success or failure of
    an allocation; [printf] formatting; the clock readings of the benchmarks and
    the time figures computed from them in floating point, which influence
    nothing else; the build files.  The branch of trace.c for machines
    other than x86-64 is left out, as ctx_x86_64.S exists for that machine
    only. *)

From stdpp Require Export functions base numbers list gmap strings.
From Stdlib Require Export Lia ZArith.

#[export] Set Default Goal Selector "!".

Declare Scope gth_scope.
Delimit Scope gth_scope with gth.
Open Scope Z_scope.

(** ** Machine integers

    A [w]-bit unsigned C integer is a [Z]; every arithmetic result that C
    reduces modulo [2^w] is reduced here by [wrap w]. *)

Definition wrap (w : Z) (z : Z) : Z := z mod 2 ^ w.

Abbreviation u8 := (wrap 8).
Abbreviation u16 := (wrap 16).
Abbreviation u32 := (wrap 32).
Abbreviation u64 := (wrap 64).

Definition fits (w z : Z) : Prop := 0 ≤ z < 2 ^ w.

Create HintDb gth.

Lemma wrap_fits w z : 0 ≤ w → fits w (wrap w z).
Proof. intros. unfold fits, wrap. apply Z.mod_pos_bound. by apply Z.pow_pos_nonneg. Qed.

Lemma wrap_small w z : fits w z → wrap w z = z.
Proof. unfold fits, wrap. intros. by apply Z.mod_small. Qed.

Lemma wrap_wrap w z : wrap w (wrap w z) = wrap w z.
Proof.
  unfold wrap. destruct (decide (2 ^ w = 0)) as [E|E].
  - by rewrite E, !Z.mod_0_r.
  - by rewrite Z.mod_mod.
Qed.

Lemma wrap_land_ones w z : 0 ≤ w → wrap w z = Z.land z (Z.ones w).
Proof. intros. unfold wrap. by rewrite Z.land_ones. Qed.

#[export] Instance fits_dec w z : Decision (fits w z).
Proof. unfold fits. apply _. Defined.

#[export] Hint Resolve wrap_fits : gth.

(** ** Computations

    A C function is a computation that reads and writes a state and either
    returns ([Done]), has undefined behaviour ([Undef]: an out-of-bounds
    access, a NULL dereference, a jump to a dead stack), or is a loop whose
    fuel is exhausted ([NoFuel]). *)

Inductive outcome (A : Type) : Type :=
| Done (a : A)
| Undef
| NoFuel.
Arguments Done {A} _.
Arguments Undef {A}.
Arguments NoFuel {A}.

Definition comp (S A : Type) : Type := S → outcome (A * S).

Section comp.
Context {S : Type}.
Definition ret {A} (a : A) : comp S A := λ s, Done (a, s).
Definition bind {A B} (m : comp S A) (k : A → comp S B) : comp S B := λ s,
  match m s with
  | Done (a, s') => k a s'
  | Undef => Undef
  | NoFuel => NoFuel
  end.
Definition gets {A} (f : S → A) : comp S A := λ s, Done (f s, s).
Definition modify (f : S → S) : comp S unit := λ s, Done (tt, f s).
Definition undef {A} : comp S A := λ _, Undef.
(** An access that is defined only when it is in bounds. *)
Definition deref {A} (o : option A) : comp S A := λ s,
  match o with Some a => Done (a, s) | None => Undef end.
End comp.

Notation "x <- m ;; k" := (bind m (λ x, k))
  (at level 100, m at next level, right associativity) : gth_scope.
Notation "m ;; k" := (bind m (λ _, k))
  (at level 100, right associativity) : gth_scope.
Open Scope gth_scope.

(** The value returned. *)
Definition result_of {S A} (o : outcome (A * S)) : option A :=
  match o with Done (a, _) => Some a | _ => None end.

Lemma result_of_Done {S A} (o : outcome (A * S)) a :
  result_of o = Some a → ∃ s, o = Done (a, s).
Proof. destruct o as [[b s]| |]; cbn; [intros [= ->]; eauto|done|done]. Qed.

(** Weakest precondition of a computation that must return: no undefined
    behaviour and no exhausted loop. *)
Definition returns {S A} (m : comp S A) (s : S) (Q : A → S → Prop) : Prop :=
  match m s with Done (a, s') => Q a s' | _ => False end.

Section returns.
Context {S : Type}.
Lemma returns_ret {A} (a : A) (s : S) Q : Q a s → returns (ret a) s Q.
Proof. done. Qed.
Lemma returns_bind {A B} (m : comp S A) (k : A → comp S B) s Q :
  returns m s (λ a s', returns (k a) s' Q) → returns (bind m k) s Q.
Proof. unfold returns, bind. by destruct (m s) as [[a s']| |]. Qed.
Lemma returns_fold {A} (m : comp S A) (s : S) (Q : A → S → Prop) :
  returns m s Q → match m s with Done (a, s') => Q a s' | _ => False end.
Proof. done. Qed.
Lemma returns_gets {A} (f : S → A) s Q : Q (f s) s → returns (gets f) s Q.
Proof. done. Qed.
Lemma returns_modify f (s : S) Q : Q tt (f s) → returns (modify f) s Q.
Proof. done. Qed.
Lemma returns_deref {A} (o : option A) a (s : S) Q :
  o = Some a → Q a s → returns (deref o) s Q.
Proof. by intros ->. Qed.
Lemma returns_mono {A} (m : comp S A) s (P Q : A → S → Prop) :
  returns m s P → (∀ a s', P a s' → Q a s') → returns m s Q.
Proof. unfold returns. destruct (m s) as [[a s']| |]; auto. Qed.
Lemma returns_and {A} (m : comp S A) s (P Q : A → S → Prop) :
  returns m s P → returns m s Q → returns m s (λ a s', P a s' ∧ Q a s').
Proof. unfold returns. by destruct (m s) as [[a s']| |]. Qed.
Lemma returns_Done {A} (m : comp S A) s Q :
  returns m s Q ↔ ∃ a s', m s = Done (a, s') ∧ Q a s'.
Proof.
  unfold returns. destruct (m s) as [[a s']| |]; naive_solver.
Qed.
End returns.

(** The same without ruling out an exhausted loop: undefined behaviour is
    excluded, and the fuel runs out only under [F]. *)
Definition safe {S A} (F : Prop) (m : comp S A) (s : S) (Q : A → S → Prop) : Prop :=
  match m s with Done (a, s') => Q a s' | Undef => False | NoFuel => F end.

Section safe.
Context {S : Type} (F : Prop).
Lemma safe_bind {A B} (m : comp S A) (k : A → comp S B) s Q :
  safe F m s (λ a s', safe F (k a) s' Q) → safe F (bind m k) s Q.
Proof. unfold safe, bind. by destruct (m s) as [[a s']| |]. Qed.
Lemma safe_mono {A} (m : comp S A) s (P Q : A → S → Prop) :
  safe F m s P → (∀ a s', P a s' → Q a s') → safe F m s Q.
Proof. unfold safe. destruct (m s) as [[a s']| |]; auto. Qed.
Lemma safe_returns {A} (m : comp S A) s Q : returns m s Q → safe F m s Q.
Proof. unfold safe, returns. by destruct (m s) as [[a s']| |]. Qed.
Lemma safe_fold {A} (m : comp S A) (s : S) (Q : A → S → Prop) :
  safe F m s Q → match m s with Done (a, s') => Q a s' | Undef => False | NoFuel => F end.
Proof. done. Qed.
End safe.

(** ** Little-endian bytes

    A byte is a [Z] in [0, 256); multi-byte integers are stored
    little-endian, as on x86-64. *)

Definition is_byte (b : Z) : Prop := 0 ≤ b < 256.

Fixpoint le_bytes (n : nat) (z : Z) : list Z :=
  match n with
  | O => []
  | S n' => z mod 256 :: le_bytes n' (z / 256)
  end.

Fixpoint le_val (bs : list Z) : Z :=
  match bs with
  | [] => 0
  | b :: bs' => b + 256 * le_val bs'
  end.

Lemma length_le_bytes n : ∀ z, length (le_bytes n z) = n.
Proof. induction n; intros; simpl; auto. Qed.

Lemma le_bytes_are_bytes n : ∀ z, Forall is_byte (le_bytes n z).
Proof.
  induction n; intros; simpl; constructor; auto. unfold is_byte. apply Z.mod_pos_bound. lia.
Qed.

Lemma le_val_le_bytes n : ∀ z, fits (8 * Z.of_nat n) z → le_val (le_bytes n z) = z.
Proof.
  unfold fits. induction n as [|n IH]; intros z Hz; simpl.
  { simpl in Hz. lia. }
  replace (8 * Z.of_nat (S n)) with (8 + 8 * Z.of_nat n) in Hz by lia.
  rewrite Z.pow_add_r in Hz by lia. change (2 ^ 8) with 256 in Hz.
  rewrite IH.
  - pose proof (Z.div_mod z 256). lia.
  - split; [apply Z.div_pos; lia|]. apply Z.div_lt_upper_bound; lia.
Qed.

Lemma le_bytes_le_val bs : Forall is_byte bs → le_bytes (length bs) (le_val bs) = bs.
Proof.
  unfold is_byte. induction 1 as [|b bs Hb Hbs IH]; simpl; [done|]. f_equal.
  - rewrite (Z.mul_comm 256), Z.mod_add by lia. by apply Z.mod_small.
  - rewrite (Z.mul_comm 256), Z.div_add, (Z.div_small b) by lia. done.
Qed.

Lemma le_val_inj bs1 bs2 :
  Forall is_byte bs1 → Forall is_byte bs2 → length bs1 = length bs2 →
  le_val bs1 = le_val bs2 → bs1 = bs2.
Proof.
  intros H1 H2 Hl Hv.
  by rewrite <- (le_bytes_le_val bs1), <- (le_bytes_le_val bs2), Hl, Hv by done.
Qed.

Lemma le_val_fits bs : Forall is_byte bs → fits (8 * Z.of_nat (length bs)) (le_val bs).
Proof.
  unfold fits, is_byte. induction 1 as [|b bs Hb Hbs IH]; simpl length; simpl le_val; [done|].
  replace (8 * Z.of_nat (S (length bs))) with (8 + 8 * Z.of_nat (length bs)) by lia.
  rewrite Z.pow_add_r by lia. change (2 ^ 8) with 256. lia.
Qed.

(** ** Bit operations keep their width *)

Lemma fits_bits w z : 0 ≤ w → fits w z ↔ ∀ i, w ≤ i → Z.testbit z i = false.
Proof.
  intros Hw. split.
  - intros Hz i Hi. rewrite <- (wrap_small w z Hz). unfold wrap. by apply Z.mod_pow2_bits_high.
  - intros H. replace z with (wrap w z); [by apply wrap_fits|].
    unfold wrap. apply Z.bits_inj'. intros i Hi. destruct (decide (i < w)).
    + by apply Z.mod_pow2_bits_low.
    + rewrite Z.mod_pow2_bits_high by lia. rewrite H by lia. done.
Qed.

Section bit_fits.
Context (w a b : Z) (Hw : 0 ≤ w) (Ha : fits w a) (Hb : fits w b).
Lemma lxor_fits : fits w (Z.lxor a b).
Proof using Hw Ha Hb.
  apply fits_bits; [done|]. intros i Hi.
  rewrite Z.lxor_spec, (proj1 (fits_bits w a Hw) Ha), (proj1 (fits_bits w b Hw) Hb); done.
Qed.
Lemma lor_fits : fits w (Z.lor a b).
Proof using Hw Ha Hb.
  apply fits_bits; [done|]. intros i Hi.
  rewrite Z.lor_spec, (proj1 (fits_bits w a Hw) Ha), (proj1 (fits_bits w b Hw) Hb); done.
Qed.
Lemma land_fits c : fits w (Z.land a c).
Proof using Hw Ha.
  apply fits_bits; [done|]. intros i Hi.
  by rewrite Z.land_spec, (proj1 (fits_bits w a Hw) Ha).
Qed.
Lemma shiftr_fits n : 0 ≤ n → fits w (Z.shiftr a n).
Proof using Hw Ha.
  intros Hn. apply fits_bits; [done|]. intros i Hi.
  rewrite Z.shiftr_spec by lia. apply (proj1 (fits_bits w a Hw) Ha). lia.
Qed.
End bit_fits.
#[export] Hint Resolve lxor_fits lor_fits land_fits shiftr_fits : gth.

(** ** Scanning an array

    [find_index p l] is the loop
    [for (i = 0; i < N; ++i) if (p(l[i])) return i;]. *)

Fixpoint find_index {A} (p : A → bool) (l : list A) : option nat :=
  match l with
  | [] => None
  | x :: l' => if p x then Some O else S <$> find_index p l'
  end.

Lemma find_index_Some {A} (p : A → bool) (l : list A) i :
  find_index p l = Some i ↔
  (∃ x, l !! i = Some x ∧ p x = true) ∧ (∀ j x, (j < i)%nat → l !! j = Some x → p x = false).
Proof.
  revert i. induction l as [|y l IH]; intros i; simpl.
  { split; [done|]. intros [(x & Hx & _) _]. done. }
  destruct (p y) eqn:Hy.
  - split.
    + intros [= <-]. split; [by exists y|]. intros j x. lia.
    + intros [(x & Hx & Hp) Hlt]. destruct i as [|i]; [done|].
      rewrite (Hlt 0%nat y) in Hy by (done || lia). done.
  - destruct i as [|i]; simpl.
    + split.
      * intros E. by destruct (find_index p l).
      * intros [(x & [= ->] & Hp) _]. congruence.
    + rewrite fmap_Some. split.
      * intros (k & Hk & [= ->]). apply IH in Hk as [Hx Hlt]. split; [done|].
        intros [|j] x Hj Hx'; simpl in Hx'; [congruence|]. eapply Hlt; [|done]. lia.
      * intros [Hx Hlt]. exists i. split; [|done]. apply IH. split; [done|].
        intros j x Hj Hx'. by apply (Hlt (S j) x); [lia|].
Qed.

Lemma find_index_None {A} (p : A → bool) (l : list A) :
  find_index p l = None ↔ ∀ i x, l !! i = Some x → p x = false.
Proof.
  induction l as [|y l IH]; simpl; [split; [by intros _ [] ?|done]|].
  destruct (p y) eqn:Hy; (split; [|intros H]).
  - done.
  - by rewrite (H 0%nat y) in Hy.
  - rewrite fmap_None. intros H [|i] x Hx; simpl in Hx; [congruence|]. by eapply IH.
  - apply fmap_None, IH. intros i x Hx. by apply (H (S i)).
Qed.

(** The number of elements that satisfy a test. *)
Definition countb {A} (p : A → bool) (l : list A) : Z :=
  Z.of_nat (length (List.filter p l)).

Lemma countb_cons {A} (p : A → bool) x l :
  countb p (x :: l) = (if p x then 1 else 0) + countb p l.
Proof. unfold countb. simpl. destruct (p x); simpl; lia. Qed.

Lemma countb_nonneg {A} (p : A → bool) l : 0 ≤ countb p l ≤ Z.of_nat (length l).
Proof. induction l as [|x l IH]; [done|]. rewrite countb_cons. simpl. destruct (p x); lia. Qed.

(** Changing one cell changes the count by the difference at that cell. *)
Lemma countb_alter {A} (p : A → bool) (f : A → A) l i x :
  l !! i = Some x →
  countb p (alter f i l) = countb p l - (if p x then 1 else 0) + (if p (f x) then 1 else 0).
Proof.
  revert i. induction l as [|y l IH]; intros [|i] Hi; simpl in Hi; try done.
  - injection Hi as ->. change (alter f 0%nat (x :: l)) with (f x :: l).
    rewrite !countb_cons. lia.
  - change (alter f (S i) (y :: l)) with (y :: alter f i l).
    rewrite !countb_cons, (IH _ Hi). lia.
Qed.

Lemma countb_pos {A} (p : A → bool) l i x : l !! i = Some x → p x = true → 0 < countb p l.
Proof.
  revert i. induction l as [|y l IH]; intros [|i] Hi Hp; simpl in Hi; try done;
    rewrite countb_cons; pose proof (countb_nonneg p l).
  - injection Hi as ->. rewrite Hp. lia.
  - specialize (IH _ Hi Hp). destruct (p y); lia.
Qed.

Lemma alter_alter {A} (g f : A → A) (i : nat) (l : list A) : alter g i (alter f i l) = alter (λ x, g (f x)) i l.
Proof.
  apply list_eq. intros j. destruct (decide (j = i)) as [->|Hne].
  - rewrite !list_lookup_alter_eq. by destruct (l !! i).
  - by rewrite !list_lookup_alter_ne.
Qed.
