(* ===== verification/WaitQueue.v ===== *)
(** * The bounded wait queue (src/src/sync/wait_queue.h)

    The ring buffer that a mutex, a semaphore and a condition variable embed
    to remember the slots of their blocked threads.  [Module Spec] is the
    abstract FIFO of slot numbers; the theorems show that the ring buffer,
    operated on through its bytes [head], [tail], [count] and [capacity],
    implements it, never leaves its array, and never divides by zero. *)

From S2P Require Import Prelude.

Definition GTH_WQ_FIXED_SLOTS : Z := 52.

Record gth_wait_queue_t := mk_wq {
  wq_head : Z;
  wq_tail : Z;
  wq_count : Z;
  wq_capacity : Z;
  wq_slots : list Z
}.

(** The all-zero object that [memset] leaves behind. *)
Definition wq_zero : gth_wait_queue_t :=
  mk_wq 0 0 0 0 (replicate (Z.to_nat GTH_WQ_FIXED_SLOTS) 0).

Definition gth_wq_init (wq : gth_wait_queue_t) (capacity : Z) : gth_wait_queue_t :=
  {| wq with wq_head := 0; wq_tail := 0; wq_count := 0; wq_capacity := capacity |}.

Definition gth_wq_is_empty (wq : gth_wait_queue_t) : bool := wq_count wq =? 0.

Definition gth_wq_is_full (wq : gth_wait_queue_t) : bool := wq_capacity wq <=? wq_count wq.

(** [slots[i]] as an lvalue: a write outside the array is undefined. *)
Definition slot_store (slots : list Z) (i x : Z) : option (list Z) :=
  if (0 <=? i) && (i <? Z.of_nat (length slots))
  then Some (<[Z.to_nat i := x]> slots) else None.

(** [slots[i]] as an rvalue. *)
Definition slot_load (slots : list Z) (i : Z) : option Z :=
  if 0 <=? i then slots !! Z.to_nat i else None.

(** [a % b] on non-negative operands; [% 0] is undefined. *)
Definition c_mod (a b : Z) : option Z := if b =? 0 then None else Some (a mod b).

Definition gth_wq_enqueue (wq : gth_wait_queue_t) (slot_index : Z) : option gth_wait_queue_t :=
  if wq_capacity wq <=? wq_count wq then Some wq
  else
    slots ← slot_store (wq_slots wq) (wq_tail wq) slot_index;
    t ← c_mod (wq_tail wq + 1) (wq_capacity wq);
    Some {| wq with wq_slots := slots; wq_tail := u8 t; wq_count := u8 (wq_count wq + 1) |}.

Definition gth_wq_dequeue (wq : gth_wait_queue_t) : option (Z * gth_wait_queue_t) :=
  if wq_count wq =? 0 then Some (0xFF, wq)
  else
    slot_index ← slot_load (wq_slots wq) (wq_head wq);
    h ← c_mod (wq_head wq + 1) (wq_capacity wq);
    Some (slot_index, {| wq with wq_head := u8 h; wq_count := u8 (wq_count wq - 1) |}).

(** The inner loop of [gth_wq_remove]; [n] is the number of iterations left,
    [count - 1 - j], so the loop condition [j + 1 < count] is [n > 0]. *)
Fixpoint gth_wq_remove_shift (wq : gth_wait_queue_t) (slots : list Z) (j : Z) (n : nat)
    : option (list Z) :=
  match n with
  | O => Some slots
  | S n' =>
      cur ← c_mod (wq_head wq + j) (wq_capacity wq);
      nxt ← c_mod (wq_head wq + j + 1) (wq_capacity wq);
      x ← slot_load slots (u8 nxt);
      slots' ← slot_store slots (u8 cur) x;
      gth_wq_remove_shift wq slots' (u8 (j + 1)) n'
  end.

(** The outer loop; [n] is [count - i]. *)
Fixpoint gth_wq_remove_scan (wq : gth_wait_queue_t) (slot_value i : Z) (n : nat)
    : option (bool * gth_wait_queue_t) :=
  match n with
  | O => Some (false, wq)
  | S n' =>
      idx ← c_mod (wq_head wq + i) (wq_capacity wq);
      x ← slot_load (wq_slots wq) (u8 idx);
      if x =? slot_value then
        slots ← gth_wq_remove_shift wq (wq_slots wq) i n';
        t ← c_mod (wq_tail wq + wq_capacity wq - 1) (wq_capacity wq);
        Some (true, {| wq with wq_slots := slots; wq_tail := u8 t;
                               wq_count := u8 (wq_count wq - 1) |})
      else gth_wq_remove_scan wq slot_value (u8 (i + 1)) n'
  end.

Definition gth_wq_remove (wq : gth_wait_queue_t) (slot_value : Z)
    : option (bool * gth_wait_queue_t) :=
  if wq_count wq =? 0 then Some (false, wq)
  else gth_wq_remove_scan wq slot_value 0 (Z.to_nat (wq_count wq)).

(** ** Specification: a bounded FIFO of slot numbers *)

Module Spec.
Definition enqueue (cap : nat) (q : list Z) (x : Z) : list Z :=
  if decide (length q < cap)%nat then q ++ [x] else q.
Definition dequeue (q : list Z) : Z * list Z :=
  match q with [] => (0xFF, []) | x :: q' => (x, q') end.
Fixpoint remove (q : list Z) (x : Z) : bool * list Z :=
  match q with
  | [] => (false, [])
  | y :: q' => if y =? x then (true, q') else
      let '(b, r) := remove q' x in (b, y :: r)
  end.
End Spec.

(** ** Representation *)

(** The array index of the [i]-th queued element. *)
Definition wq_pos (wq : gth_wait_queue_t) (i : nat) : nat :=
  Z.to_nat ((wq_head wq + Z.of_nat i) mod wq_capacity wq).

(** The queued slot numbers, oldest first. *)
Definition wq_elems (wq : gth_wait_queue_t) : list Z :=
  (λ i, wq_slots wq !!! wq_pos wq i) <$> seq 0 (Z.to_nat (wq_count wq)).

Record wq_wf (wq : gth_wait_queue_t) : Prop := {
  wf_slots : length (wq_slots wq) = Z.to_nat GTH_WQ_FIXED_SLOTS;
  wf_capacity : 0 < wq_capacity wq ≤ GTH_WQ_FIXED_SLOTS;
  wf_head : 0 ≤ wq_head wq < wq_capacity wq;
  wf_count : 0 ≤ wq_count wq ≤ wq_capacity wq;
  wf_tail : wq_tail wq = (wq_head wq + wq_count wq) mod wq_capacity wq
}.

Ltac wq_unfold := unfold GTH_WQ_FIXED_SLOTS in *.

Lemma u8_small z : 0 ≤ z < 256 → u8 z = z.
Proof. intros. by apply wrap_small. Qed.

Lemma c_mod_pos a b : 0 < b → c_mod a b = Some (a mod b).
Proof. intros. unfold c_mod. by destruct (Z.eqb_spec b 0); [lia|]. Qed.

Lemma slot_load_pos (l : list Z) i : 0 ≤ i → slot_load l i = l !! Z.to_nat i.
Proof. intros. unfold slot_load. by destruct (Z.leb_spec 0 i); [|lia]. Qed.

Lemma slot_store_pos (l : list Z) i x :
  0 ≤ i < Z.of_nat (length l) → slot_store l i x = Some (<[Z.to_nat i := x]> l).
Proof.
  intros. unfold slot_store.
  by destruct (Z.leb_spec 0 i), (Z.ltb_spec i (Z.of_nat (length l))); try lia.
Qed.

(** Two offsets below the capacity name the same cell only when equal. *)
Lemma ring_inj h c a b :
  0 < c → 0 ≤ a < c → 0 ≤ b < c → (h + a) mod c = (h + b) mod c → a = b.
Proof.
  intros Hc Ha Hb E.
  pose proof (Z.div_mod (h + a) c ltac:(lia)). pose proof (Z.div_mod (h + b) c ltac:(lia)).
  assert (c * ((h + a) / c - (h + b) / c) = a - b) by lia.
  assert (- c < c * ((h + a) / c - (h + b) / c) < c) by lia.
  assert ((h + a) / c - (h + b) / c = 0) by nia. nia.
Qed.

Section wf.
Context (wq : gth_wait_queue_t) (Hwf : wq_wf wq).

Lemma ring_bound z : 0 ≤ (wq_head wq + z) mod wq_capacity wq < wq_capacity wq.
Proof. destruct Hwf. apply Z.mod_pos_bound. lia. Qed.

Lemma ring_u8 z :
  u8 ((wq_head wq + z) mod wq_capacity wq) = (wq_head wq + z) mod wq_capacity wq.
Proof. pose proof (ring_bound z). destruct Hwf. wq_unfold. apply u8_small. lia. Qed.

Lemma wq_pos_lt i : (wq_pos wq i < length (wq_slots wq))%nat.
Proof.
  pose proof (ring_bound (Z.of_nat i)). destruct Hwf. wq_unfold. unfold wq_pos. lia.
Qed.

Lemma wq_pos_inj i j :
  (Z.of_nat i < wq_capacity wq) → (Z.of_nat j < wq_capacity wq) →
  wq_pos wq i = wq_pos wq j → i = j.
Proof.
  intros Hi Hj E. unfold wq_pos in E.
  pose proof (ring_bound (Z.of_nat i)). pose proof (ring_bound (Z.of_nat j)).
  destruct Hwf. apply Nat2Z.inj, (ring_inj (wq_head wq) (wq_capacity wq)); lia.
Qed.

Lemma wq_elems_length : length (wq_elems wq) = Z.to_nat (wq_count wq).
Proof. unfold wq_elems. by rewrite length_fmap, length_seq. Qed.

Lemma wq_elems_lookup i :
  (i < Z.to_nat (wq_count wq))%nat → wq_elems wq !! i = wq_slots wq !! wq_pos wq i.
Proof.
  intros Hi. unfold wq_elems. rewrite list_lookup_fmap, lookup_seq_lt by lia. simpl.
  symmetry. apply list_lookup_lookup_total_lt, wq_pos_lt.
Qed.
End wf.

(** The elements are determined by the cells. *)
Lemma wq_elems_eq wq q :
  wq_wf wq → length q = Z.to_nat (wq_count wq) →
  (∀ i, (i < length q)%nat → wq_slots wq !! wq_pos wq i = q !! i) → wq_elems wq = q.
Proof.
  intros Hwf Hlen H. apply list_eq. intros i.
  destruct (decide (i < length q)%nat) as [Hi|Hi].
  - rewrite wq_elems_lookup by (auto; lia). by apply H.
  - rewrite !lookup_ge_None_2; [done|lia|]. rewrite wq_elems_length. lia.
Qed.

Lemma gth_wq_init_wf wq cap :
  length (wq_slots wq) = Z.to_nat GTH_WQ_FIXED_SLOTS → 0 < cap ≤ GTH_WQ_FIXED_SLOTS →
  wq_wf (gth_wq_init wq cap) ∧ wq_elems (gth_wq_init wq cap) = [].
Proof.
  intros. split; [|done].
  constructor; simpl; auto; wq_unfold; lia.
Qed.

Lemma gth_wq_is_empty_spec wq : wq_wf wq → gth_wq_is_empty wq = bool_decide (wq_elems wq = []).
Proof.
  intros Hwf. unfold gth_wq_is_empty. pose proof (wq_elems_length wq) as Hl. destruct Hwf.
  destruct (Z.eqb_spec (wq_count wq) 0); symmetry.
  - apply bool_decide_eq_true. apply nil_length_inv. lia.
  - apply bool_decide_eq_false. intros E. rewrite E in Hl. simpl in Hl. lia.
Qed.

Lemma gth_wq_is_full_spec wq :
  wq_wf wq → gth_wq_is_full wq = bool_decide (Z.to_nat (wq_capacity wq) ≤ length (wq_elems wq))%nat.
Proof.
  intros Hwf. unfold gth_wq_is_full. rewrite wq_elems_length. destruct Hwf.
  destruct (Z.leb_spec (wq_capacity wq) (wq_count wq)); symmetry;
    [apply bool_decide_eq_true|apply bool_decide_eq_false]; lia.
Qed.

Lemma enqueue_refines wq x :
  wq_wf wq →
  ∃ wq', gth_wq_enqueue wq x = Some wq' ∧ wq_wf wq' ∧
    wq_capacity wq' = wq_capacity wq ∧
    wq_elems wq' = Spec.enqueue (Z.to_nat (wq_capacity wq)) (wq_elems wq) x.
Proof.
  intros Hwf. pose proof (wq_elems_length wq) as Hl.
  pose proof (ring_bound wq Hwf (wq_count wq)) as Hb.
  assert (Hwf' := Hwf). destruct Hwf' as [Hs Hc Hh Hn Ht]. wq_unfold.
  unfold gth_wq_enqueue, Spec.enqueue.
  destruct (Z.leb_spec (wq_capacity wq) (wq_count wq)).
  { exists wq. rewrite decide_False by lia. done. }
  rewrite decide_True by lia.
  rewrite slot_store_pos by lia. simpl. rewrite c_mod_pos by lia. simpl.
  rewrite Ht, Zplus_mod_idemp_l.
  set (wq' := mk_wq _ _ _ _ _).
  assert (Hcnt : wq_count wq' = wq_count wq + 1) by (simpl; apply u8_small; lia).
  assert (Hwf' : wq_wf wq').
  { constructor; simpl; wq_unfold; auto; try lia.
    - by rewrite length_insert.
    - rewrite u8_small; lia.
    - rewrite <- Z.add_assoc, ring_u8 by done. by rewrite u8_small by lia. }
  exists wq'. split_and!; auto.
  assert (Hpos : ∀ i, wq_pos wq' i = wq_pos wq i) by done.
  apply wq_elems_eq; auto.
  { rewrite length_app, Hcnt, Hl. simpl. lia. }
  rewrite length_app. simpl length. intros i Hi. rewrite Hpos. subst wq'. simpl wq_slots.
  assert (Hlast : Z.to_nat ((wq_head wq + wq_count wq) mod wq_capacity wq)
                  = wq_pos wq (length (wq_elems wq))).
  { unfold wq_pos. do 3 f_equal. lia. }
  rewrite Hlast. destruct (decide (i = length (wq_elems wq))) as [->|Hne].
  - rewrite list_lookup_insert_eq by (by apply wq_pos_lt).
    rewrite lookup_app_r by lia. by rewrite Nat.sub_diag.
  - assert (wq_pos wq (length (wq_elems wq)) ≠ wq_pos wq i)
      by (intros E%wq_pos_inj; auto; lia).
    by rewrite list_lookup_insert_ne, lookup_app_l, wq_elems_lookup by (auto; lia).
Qed.

Lemma dequeue_refines wq :
  wq_wf wq →
  ∃ wq', gth_wq_dequeue wq = Some (fst (Spec.dequeue (wq_elems wq)), wq') ∧ wq_wf wq' ∧
    wq_capacity wq' = wq_capacity wq ∧
    wq_elems wq' = snd (Spec.dequeue (wq_elems wq)).
Proof.
  intros Hwf. pose proof (wq_elems_length wq) as Hl.
  assert (Hwf' := Hwf). destruct Hwf' as [Hs Hc Hh Hn Ht]. wq_unfold.
  unfold gth_wq_dequeue. destruct (Z.eqb_spec (wq_count wq) 0) as [E|E].
  { exists wq. by rewrite (nil_length_inv (wq_elems wq)) by lia. }
  destruct (wq_elems wq) as [|x q] eqn:Eq; [simpl in Hl; lia|]. simpl.
  assert (Hx : wq_slots wq !! wq_pos wq 0 = Some x).
  { rewrite <- wq_elems_lookup by (auto; lia). by rewrite Eq. }
  unfold wq_pos in Hx. rewrite Z.add_0_r, Z.mod_small in Hx by lia.
  rewrite slot_load_pos, Hx by lia. simpl. rewrite c_mod_pos by lia. simpl.
  set (wq' := mk_wq _ _ _ _ _).
  assert (Hcnt : wq_count wq' = wq_count wq - 1) by (simpl; apply u8_small; lia).
  assert (Hhd : wq_head wq' = (wq_head wq + 1) mod wq_capacity wq) by (simpl; by apply ring_u8).
  assert (Hwf' : wq_wf wq').
  { constructor; simpl; wq_unfold; auto; try lia.
    - rewrite ring_u8 by done. by apply ring_bound.
    - rewrite u8_small; lia.
    - rewrite ring_u8, u8_small by (done || lia). rewrite Zplus_mod_idemp_l, Ht. f_equal. lia. }
  exists wq'. split_and!; auto.
  assert (Hpos : ∀ i, wq_pos wq' i = wq_pos wq (S i)).
  { intros i. unfold wq_pos. rewrite Hhd. change (wq_capacity wq') with (wq_capacity wq).
    rewrite Zplus_mod_idemp_l. do 2 f_equal. lia. }
  apply wq_elems_eq; auto.
  { rewrite Hcnt. simpl in Hl. lia. }
  intros i Hi. rewrite Hpos. change (wq_slots wq') with (wq_slots wq).
  rewrite <- wq_elems_lookup by (auto; simpl in Hl; lia). by rewrite Eq.
Qed.

Lemma remove_shift_spec wq n : ∀ slots j,
  wq_wf wq → length slots = Z.to_nat GTH_WQ_FIXED_SLOTS →
  Z.of_nat j + Z.of_nat n + 1 = wq_count wq →
  ∃ slots', gth_wq_remove_shift wq slots (Z.of_nat j) n = Some slots' ∧
    length slots' = length slots ∧
    (∀ i, (i < j)%nat → slots' !! wq_pos wq i = slots !! wq_pos wq i) ∧
    (∀ i, (j ≤ i < j + n)%nat → slots' !! wq_pos wq i = slots !! wq_pos wq (S i)).
Proof.
  induction n as [|n IH]; intros slots j Hwf Hlen Hsum; simpl.
  { exists slots. split_and!; auto. lia. }
  assert (Hwf' := Hwf). destruct Hwf' as [Hs Hc Hh Hn Ht].
  rewrite !c_mod_pos by lia. simpl. rewrite <- Z.add_assoc, !ring_u8 by done.
  pose proof (ring_bound wq Hwf (Z.of_nat j)).
  pose proof (ring_bound wq Hwf (Z.of_nat j + 1)).
  rewrite slot_load_pos by lia.
  assert (Hnxt : Z.to_nat ((wq_head wq + (Z.of_nat j + 1)) mod wq_capacity wq) = wq_pos wq (S j))
    by (unfold wq_pos; do 3 f_equal; lia).
  rewrite Hnxt.
  destruct (slots !! wq_pos wq (S j)) as [x|] eqn:Hx; last first.
  { apply lookup_ge_None in Hx. pose proof (wq_pos_lt wq Hwf (S j)). lia. }
  simpl. rewrite slot_store_pos by (wq_unfold; lia). simpl.
  change (Z.to_nat ((wq_head wq + Z.of_nat j) mod wq_capacity wq)) with (wq_pos wq j).
  rewrite u8_small by (wq_unfold; lia).
  replace (Z.of_nat j + 1) with (Z.of_nat (S j)) by lia.
  destruct (IH (<[wq_pos wq j := x]> slots) (S j)) as (slots' & E & Hl' & Hlow & Hmid); auto.
  { by rewrite length_insert. }
  { lia. }
  rewrite length_insert in Hl'.
  exists slots'. split_and!; auto.
  - intros i Hi. rewrite Hlow by lia. apply list_lookup_insert_ne.
    intros E'%wq_pos_inj; auto; lia.
  - intros i Hi. destruct (decide (i = j)) as [->|Hne].
    + rewrite Hlow by lia. rewrite Hx. apply list_lookup_insert_eq.
      pose proof (wq_pos_lt wq Hwf j). lia.
    + rewrite Hmid by lia. apply list_lookup_insert_ne.
      intros E'%wq_pos_inj; auto; lia.
Qed.

Lemma Spec_remove_app pre x q :
  x ∉ pre → Spec.remove (pre ++ x :: q) x = (true, pre ++ q).
Proof.
  induction pre as [|y pre IH]; simpl; intros Hx.
  - by rewrite Z.eqb_refl.
  - apply not_elem_of_cons in Hx as [Hne Hx]. rewrite IH by done.
    by destruct (Z.eqb_spec y x); [congruence|].
Qed.

Lemma Spec_remove_notin q x : x ∉ q → Spec.remove q x = (false, q).
Proof.
  induction q as [|y q IH]; simpl; intros Hx; [done|].
  apply not_elem_of_cons in Hx as [Hne Hx]. rewrite IH by done.
  by destruct (Z.eqb_spec y x); [congruence|].
Qed.

(** Removing the element at position [i] closes the gap. *)
Lemma remove_at wq i slots' :
  wq_wf wq → (i < Z.to_nat (wq_count wq))%nat →
  gth_wq_remove_shift wq (wq_slots wq) (Z.of_nat i) (Z.to_nat (wq_count wq) - S i) = Some slots' →
  let wq' := {| wq with wq_slots := slots';
                        wq_tail := u8 ((wq_tail wq + wq_capacity wq - 1) mod wq_capacity wq);
                        wq_count := u8 (wq_count wq - 1) |} in
  wq_wf wq' ∧ wq_elems wq' = take i (wq_elems wq) ++ drop (S i) (wq_elems wq).
Proof.
  intros Hwf Hi Hshift wq'. assert (Hwf0 := Hwf). destruct Hwf0 as [Hs Hc Hh Hn Ht].
  destruct (remove_shift_spec wq (Z.to_nat (wq_count wq) - S i) (wq_slots wq) i)
    as (s & E & Hl & Hlow & Hmid); auto; [lia|].
  rewrite E in Hshift. injection Hshift as <-. wq_unfold.
  assert (Hcnt : wq_count wq' = wq_count wq - 1) by (simpl; apply u8_small; lia).
  assert (Htl : wq_tail wq' = (wq_head wq + (wq_count wq - 1)) mod wq_capacity wq).
  { simpl. rewrite Ht.
    replace ((wq_head wq + wq_count wq) mod wq_capacity wq + wq_capacity wq - 1)
      with ((wq_head wq + wq_count wq) mod wq_capacity wq + (wq_capacity wq - 1)) by lia.
    rewrite Zplus_mod_idemp_l.
    replace (wq_head wq + wq_count wq + (wq_capacity wq - 1))
      with (wq_head wq + (wq_count wq - 1) + 1 * wq_capacity wq) by lia.
    rewrite Z.mod_add by lia. by apply ring_u8. }
  assert (Hwf' : wq_wf wq').
  { constructor; try rewrite Hcnt; try rewrite Htl; simpl; wq_unfold; auto; lia. }
  split; [done|].
  assert (Hpos : ∀ k, wq_pos wq' k = wq_pos wq k) by done.
  pose proof (wq_elems_length wq) as Hel.
  apply wq_elems_eq; auto.
  { rewrite length_app, length_take, length_drop, Hcnt. lia. }
  rewrite length_app, length_take, length_drop. intros k Hk. rewrite Hpos. simpl wq_slots.
  destruct (decide (k < i)%nat).
  - rewrite Hlow, lookup_app_l, lookup_take_lt by (rewrite ?length_take; lia).
    by rewrite wq_elems_lookup by (auto; lia).
  - rewrite Hmid, lookup_app_r, length_take, lookup_drop by (rewrite ?length_take; lia).
    rewrite <- wq_elems_lookup by (auto; lia). f_equal. lia.
Qed.

Lemma remove_scan_spec wq x n : ∀ i,
  wq_wf wq → (i + n = Z.to_nat (wq_count wq))%nat → x ∉ take i (wq_elems wq) →
  ∃ wq', gth_wq_remove_scan wq x (Z.of_nat i) n = Some (fst (Spec.remove (wq_elems wq) x), wq') ∧
    wq_wf wq' ∧ wq_capacity wq' = wq_capacity wq ∧
    wq_elems wq' = snd (Spec.remove (wq_elems wq) x).
Proof.
  induction n as [|n IH]; intros i Hwf Hsum Hnot.
  { exists wq. rewrite take_ge in Hnot by (rewrite wq_elems_length; lia).
    by rewrite Spec_remove_notin. }
  assert (Hwf0 := Hwf). destruct Hwf0 as [Hs Hc Hh Hn Ht]. wq_unfold. simpl.
  rewrite !c_mod_pos by lia. simpl. rewrite ring_u8 by done.
  pose proof (ring_bound wq Hwf (Z.of_nat i)). rewrite slot_load_pos by lia.
  change (Z.to_nat ((wq_head wq + Z.of_nat i) mod wq_capacity wq)) with (wq_pos wq i).
  destruct (wq_elems wq !! i) as [y|] eqn:Hy; last first.
  { apply lookup_ge_None in Hy. rewrite wq_elems_length in Hy. lia. }
  pose proof Hy as Hy'. rewrite wq_elems_lookup in Hy' by (auto; lia).
  rewrite Hy'. simpl. destruct (Z.eqb_spec y x) as [->|Hne].
  - destruct (remove_shift_spec wq n (wq_slots wq) i) as (s & E & _); auto; [lia|].
    rewrite E. simpl.
    destruct (remove_at wq i s) as [Hwf' Hel]; auto; [lia| |].
    { rewrite <- E. f_equal. lia. }
    eexists. split; [|split; [exact Hwf'|split; [done|]]].
    + rewrite <- (take_drop_middle (wq_elems wq) i x) at 1 by done.
      by rewrite Spec_remove_app.
    + rewrite Hel. rewrite <- (take_drop_middle (wq_elems wq) i x) at 3 by done.
      by rewrite Spec_remove_app.
  - rewrite u8_small by lia. replace (Z.of_nat i + 1) with (Z.of_nat (S i)) by lia.
    apply IH; auto; [lia|]. rewrite (take_S_r _ _ y) by done.
    rewrite elem_of_app, list_elem_of_singleton. naive_solver.
Qed.

Lemma remove_refines wq x :
  wq_wf wq →
  ∃ wq', gth_wq_remove wq x = Some (fst (Spec.remove (wq_elems wq) x), wq') ∧ wq_wf wq' ∧
    wq_capacity wq' = wq_capacity wq ∧
    wq_elems wq' = snd (Spec.remove (wq_elems wq) x).
Proof.
  intros Hwf. unfold gth_wq_remove. destruct (Z.eqb_spec (wq_count wq) 0) as [E|E].
  - exists wq. pose proof (wq_elems_length wq).
    by rewrite (nil_length_inv (wq_elems wq)) by lia.
  - destruct (remove_scan_spec wq x (Z.to_nat (wq_count wq)) 0 Hwf) as (wq' & H); [lia| |].
    { set_solver. }
    by exists wq'.
Qed.

(** ** Sequences of operations *)

Inductive wq_op := OpEnqueue (x : Z) | OpDequeue | OpRemove (x : Z) | OpIsEmpty | OpIsFull.

(** What an operation answers: nothing, a slot, or a truth value. *)
Inductive wq_answer := AnsNone | AnsSlot (x : Z) | AnsBool (b : bool).

Definition wq_apply (wq : gth_wait_queue_t) (op : wq_op) : option (wq_answer * gth_wait_queue_t) :=
  match op with
  | OpEnqueue x => wq' ← gth_wq_enqueue wq x; Some (AnsNone, wq')
  | OpDequeue => p ← gth_wq_dequeue wq; Some (AnsSlot (fst p), snd p)
  | OpRemove x => p ← gth_wq_remove wq x; Some (AnsBool (fst p), snd p)
  | OpIsEmpty => Some (AnsBool (gth_wq_is_empty wq), wq)
  | OpIsFull => Some (AnsBool (gth_wq_is_full wq), wq)
  end.

Fixpoint wq_run (wq : gth_wait_queue_t) (ops : list wq_op)
    : option (list wq_answer * gth_wait_queue_t) :=
  match ops with
  | [] => Some ([], wq)
  | op :: ops' =>
      p ← wq_apply wq op;
      r ← wq_run (snd p) ops';
      Some (fst p :: fst r, snd r)
  end.

Definition spec_apply (cap : nat) (q : list Z) (op : wq_op) : wq_answer * list Z :=
  match op with
  | OpEnqueue x => (AnsNone, Spec.enqueue cap q x)
  | OpDequeue => (AnsSlot (fst (Spec.dequeue q)), snd (Spec.dequeue q))
  | OpRemove x => (AnsBool (fst (Spec.remove q x)), snd (Spec.remove q x))
  | OpIsEmpty => (AnsBool (bool_decide (q = [])), q)
  | OpIsFull => (AnsBool (bool_decide (cap ≤ length q)%nat), q)
  end.

Fixpoint spec_run (cap : nat) (q : list Z) (ops : list wq_op) : list wq_answer * list Z :=
  match ops with
  | [] => ([], q)
  | op :: ops' =>
      let '(a, q') := spec_apply cap q op in
      let '(r, q'') := spec_run cap q' ops' in (a :: r, q'')
  end.

Lemma wq_apply_refines wq op :
  wq_wf wq →
  let cap := Z.to_nat (wq_capacity wq) in
  ∃ wq', wq_apply wq op = Some (fst (spec_apply cap (wq_elems wq) op), wq') ∧ wq_wf wq' ∧
    wq_capacity wq' = wq_capacity wq ∧ wq_elems wq' = snd (spec_apply cap (wq_elems wq) op).
Proof.
  intros Hwf cap. destruct op as [x| |x| |]; cbn [wq_apply spec_apply fst snd].
  - destruct (enqueue_refines wq x Hwf) as (wq' & -> & ?). by exists wq'.
  - destruct (dequeue_refines wq Hwf) as (wq' & -> & ?). by exists wq'.
  - destruct (remove_refines wq x Hwf) as (wq' & -> & ?). by exists wq'.
  - exists wq. by rewrite gth_wq_is_empty_spec.
  - exists wq. by rewrite gth_wq_is_full_spec.
Qed.

Lemma wq_run_refines ops : ∀ wq,
  wq_wf wq →
  let cap := Z.to_nat (wq_capacity wq) in
  ∃ wq', wq_run wq ops = Some (fst (spec_run cap (wq_elems wq) ops), wq') ∧ wq_wf wq' ∧
    wq_elems wq' = snd (spec_run cap (wq_elems wq) ops).
Proof.
  induction ops as [|op ops IH]; intros wq Hwf cap; cbn [wq_run spec_run]; [by exists wq|].
  destruct (wq_apply_refines wq op Hwf) as (wq1 & -> & Hwf1 & Hcap & Hel). fold cap in Hel |- *.
  destruct (IH wq1 Hwf1) as (wq2 & E & Hwf2 & Hel2). rewrite Hcap, Hel in E, Hel2. fold cap in E, Hel2.
  cbn [mbind option_bind fst snd]. rewrite E. cbn [mbind option_bind fst snd].
  destruct (spec_apply cap (wq_elems wq) op) as [a q'], (spec_run cap q' ops) as [r q''] eqn:Er.
  cbn [fst snd] in *. rewrite Er in *. by exists wq2.
Qed.

(** C22. The ring buffer is a bounded FIFO: any sequence of enqueues, dequeues,
    removals and tests on an initialised wait queue of any capacity up to its
    52 slots stays inside the array, never divides by zero, and gives the
    answers of a bounded list. *)
Theorem wait_queue_refines_fifo wq cap ops :
  length (wq_slots wq) = Z.to_nat GTH_WQ_FIXED_SLOTS → 0 < cap ≤ GTH_WQ_FIXED_SLOTS →
  ∃ wq', wq_run (gth_wq_init wq cap) ops = Some (fst (spec_run (Z.to_nat cap) [] ops), wq') ∧
    wq_wf wq' ∧ wq_elems wq' = snd (spec_run (Z.to_nat cap) [] ops).
Proof.
  intros Hl Hcap. destruct (gth_wq_init_wf wq cap Hl Hcap) as [Hwf He].
  pose proof (wq_run_refines ops _ Hwf) as H. rewrite He in H. exact H.
Qed.

(** Fill a queue of two, overflow it, and drain it out of order. *)
Lemma wait_queue_refines_fifo_witness :
  ∃ wq', wq_run (gth_wq_init wq_zero 2)
           [OpEnqueue 5; OpEnqueue 6; OpIsFull; OpEnqueue 7; OpRemove 5; OpEnqueue 8; OpDequeue; OpDequeue; OpDequeue] =
    Some ([AnsNone; AnsNone; AnsBool true; AnsNone; AnsBool true; AnsNone; AnsSlot 6; AnsSlot 8; AnsSlot 255], wq')
    ∧ wq_wf wq' ∧ wq_elems wq' = [].
Proof.
  apply (wait_queue_refines_fifo wq_zero 2
    [OpEnqueue 5; OpEnqueue 6; OpIsFull; OpEnqueue 7; OpRemove 5; OpEnqueue 8; OpDequeue; OpDequeue; OpDequeue]).
  - reflexivity.
  - vm_compute. split; congruence.
Defined.
