(* ===== verification/TraceFormat.v ===== *)
(** * The trace file format (src/src/trace/trace_format.h)

    The packed 32-byte header and event records, their little-endian byte
    layout, and the FNV-1a checksum that guards each record.  The theorems
    show that the layout is a bijection between records and 32-byte blocks
    and that a record in which any single byte was changed is rejected. *)

From S2P Require Import Prelude.

Definition GTH_TRACE_MAGIC : Z := 0x32525447.
Definition GTH_TRACE_VERSION : Z := 2.
Definition GTH_TRACE_RECORD_SIZE : nat := 32.
Definition GTH_TRACE_HEADER_SIZE : nat := 32.
Definition GTH_TRACE_BUFFER_COUNT : Z := 256.

(** [gth_event_type_t] *)
Definition GTH_EVT_NONE : Z := 0.
Definition GTH_EVT_THREAD_CREATE : Z := 1.
Definition GTH_EVT_THREAD_EXIT : Z := 2.
Definition GTH_EVT_THREAD_CANCEL : Z := 3.
Definition GTH_EVT_CONTEXT_SWITCH : Z := 10.
Definition GTH_EVT_THREAD_YIELD : Z := 11.
Definition GTH_EVT_THREAD_BLOCK : Z := 20.
Definition GTH_EVT_THREAD_UNBLOCK : Z := 21.
Definition GTH_EVT_MUTEX_LOCK : Z := 30.
Definition GTH_EVT_MUTEX_UNLOCK : Z := 31.
Definition GTH_EVT_MUTEX_WAIT : Z := 32.
Definition GTH_EVT_MUTEX_WAKE : Z := 33.
Definition GTH_EVT_SEM_WAIT : Z := 40.
Definition GTH_EVT_SEM_POST : Z := 41.
Definition GTH_EVT_SEM_WAKE : Z := 42.
Definition GTH_EVT_COND_WAIT : Z := 50.
Definition GTH_EVT_COND_SIGNAL : Z := 51.
Definition GTH_EVT_COND_BROADCAST : Z := 52.
Definition GTH_EVT_RUNTIME_INIT : Z := 90.
Definition GTH_EVT_RUNTIME_SHUTDOWN : Z := 91.

(** [gth_block_reason_t]; the runtime only ever records this one. *)
Definition GTH_BLOCK_REASON_NONE : Z := 0.

Record gth_trace_header_t := mk_header {
  hd_magic : Z;
  hd_version : Z;
  hd_creation_time : Z;
  hd_timestamp_freq : Z;
  hd_reserved0 : Z;
  hd_reserved1 : Z
}.

Record gth_trace_record_t := mk_record {
  rec_timestamp : Z;
  rec_type : Z;
  rec_reserved : Z;
  rec_tid : Z;
  rec_slot_index : Z;
  rec_data_raw : Z;
  rec_pad : Z;
  rec_checksum : Z
}.

(** The bytes of the packed structs. *)
Definition header_bytes (h : gth_trace_header_t) : list Z :=
  le_bytes 4 (hd_magic h) ++ le_bytes 4 (hd_version h) ++ le_bytes 8 (hd_creation_time h) ++
  le_bytes 8 (hd_timestamp_freq h) ++ le_bytes 4 (hd_reserved0 h) ++ le_bytes 4 (hd_reserved1 h).

(** The record without its checksum: the bytes the checksum covers. *)
Definition record_body (r : gth_trace_record_t) : list Z :=
  le_bytes 8 (rec_timestamp r) ++ le_bytes 1 (rec_type r) ++ le_bytes 1 (rec_reserved r) ++
  le_bytes 4 (rec_tid r) ++ le_bytes 4 (rec_slot_index r) ++ le_bytes 8 (rec_data_raw r) ++
  le_bytes 2 (rec_pad r).

Definition record_bytes (r : gth_trace_record_t) : list Z :=
  record_body r ++ le_bytes 4 (rec_checksum r).

(** Reading a [len]-byte little-endian field at offset [off]. *)
Definition field (off len : nat) (bs : list Z) : Z := le_val (take len (drop off bs)).

(** The casts [(const gth_trace_header_t * )data] and
    [(const gth_trace_record_t * )bytes]. *)
Definition header_of_bytes (bs : list Z) : gth_trace_header_t :=
  mk_header (field 0 4 bs) (field 4 4 bs) (field 8 8 bs) (field 16 8 bs)
            (field 24 4 bs) (field 28 4 bs).

Definition record_of_bytes (bs : list Z) : gth_trace_record_t :=
  mk_record (field 0 8 bs) (field 8 1 bs) (field 9 1 bs) (field 10 4 bs)
            (field 14 4 bs) (field 18 8 bs) (field 26 2 bs) (field 28 4 bs).

(** One iteration of the loop of [gth_trace_calc_checksum]. *)
Definition fnv_step (hash b : Z) : Z := u32 (Z.lxor hash b * 16777619).

Definition gth_trace_calc_checksum (r : gth_trace_record_t) : Z :=
  foldl fnv_step 2166136261 (take (GTH_TRACE_RECORD_SIZE - 4) (record_bytes r)).

Definition gth_trace_validate_record (r : gth_trace_record_t) : bool :=
  rec_checksum r =? gth_trace_calc_checksum r.

(** ** Layout *)

Record record_fits (r : gth_trace_record_t) : Prop := {
  rf_timestamp : fits 64 (rec_timestamp r);
  rf_type : fits 8 (rec_type r);
  rf_reserved : fits 8 (rec_reserved r);
  rf_tid : fits 32 (rec_tid r);
  rf_slot_index : fits 32 (rec_slot_index r);
  rf_data_raw : fits 64 (rec_data_raw r);
  rf_pad : fits 16 (rec_pad r);
  rf_checksum : fits 32 (rec_checksum r)
}.

Record header_fits (h : gth_trace_header_t) : Prop := {
  hf_magic : fits 32 (hd_magic h);
  hf_version : fits 32 (hd_version h);
  hf_creation_time : fits 64 (hd_creation_time h);
  hf_timestamp_freq : fits 64 (hd_timestamp_freq h);
  hf_reserved0 : fits 32 (hd_reserved0 h);
  hf_reserved1 : fits 32 (hd_reserved1 h)
}.

Lemma length_record_body r : length (record_body r) = 28%nat.
Proof. done. Qed.

Lemma length_record_bytes r : length (record_bytes r) = GTH_TRACE_RECORD_SIZE.
Proof. done. Qed.

Lemma length_header_bytes h : length (header_bytes h) = GTH_TRACE_HEADER_SIZE.
Proof. done. Qed.

Lemma record_bytes_are_bytes r : Forall is_byte (record_bytes r).
Proof. unfold record_bytes, record_body. rewrite !Forall_app. auto 20 using le_bytes_are_bytes. Qed.

Lemma header_bytes_are_bytes h : Forall is_byte (header_bytes h).
Proof. unfold header_bytes. rewrite !Forall_app. auto 20 using le_bytes_are_bytes. Qed.

Lemma record_of_bytes_bytes r : record_fits r → record_of_bytes (record_bytes r) = r.
Proof.
  intros []. destruct r. unfold record_of_bytes. f_equal; simpl in *.
  - exact (le_val_le_bytes 8 _ rf_timestamp0).
  - exact (le_val_le_bytes 1 _ rf_type0).
  - exact (le_val_le_bytes 1 _ rf_reserved0).
  - exact (le_val_le_bytes 4 _ rf_tid0).
  - exact (le_val_le_bytes 4 _ rf_slot_index0).
  - exact (le_val_le_bytes 8 _ rf_data_raw0).
  - exact (le_val_le_bytes 2 _ rf_pad0).
  - exact (le_val_le_bytes 4 _ rf_checksum0).
Qed.

Lemma header_of_bytes_bytes h : header_fits h → header_of_bytes (header_bytes h) = h.
Proof.
  intros []. destruct h. unfold header_of_bytes. f_equal; simpl in *.
  - exact (le_val_le_bytes 4 _ hf_magic0).
  - exact (le_val_le_bytes 4 _ hf_version0).
  - exact (le_val_le_bytes 8 _ hf_creation_time0).
  - exact (le_val_le_bytes 8 _ hf_timestamp_freq0).
  - exact (le_val_le_bytes 4 _ hf_reserved2).
  - exact (le_val_le_bytes 4 _ hf_reserved3).
Qed.

Lemma le_bytes_field off len bs :
  Forall is_byte bs → (off + len ≤ length bs)%nat →
  le_bytes len (field off len bs) = take len (drop off bs).
Proof.
  intros Hb Hl. unfold field.
  rewrite <- (le_bytes_le_val (take len (drop off bs))) at 2.
  - rewrite length_take, length_drop. f_equal. lia.
  - by apply Forall_take, Forall_drop.
Qed.

Lemma field_fits off len w bs :
  Forall is_byte bs → (off + len ≤ length bs)%nat → w = 8 * Z.of_nat len → fits w (field off len bs).
Proof.
  intros Hb Hl ->. unfold field.
  pose proof (le_val_fits (take len (drop off bs))) as H.
  rewrite length_take, length_drop, Nat.min_l in H by lia.
  apply H. by apply Forall_take, Forall_drop.
Qed.

Lemma record_of_bytes_fits bs :
  Forall is_byte bs → length bs = GTH_TRACE_RECORD_SIZE → record_fits (record_of_bytes bs).
Proof.
  unfold GTH_TRACE_RECORD_SIZE. intros Hb Hl.
  constructor; simpl; apply field_fits; auto; lia.
Qed.

Lemma record_bytes_of_bytes bs :
  Forall is_byte bs → length bs = GTH_TRACE_RECORD_SIZE → record_bytes (record_of_bytes bs) = bs.
Proof.
  unfold GTH_TRACE_RECORD_SIZE. intros Hb Hl. unfold record_bytes, record_body.
  cbn [record_of_bytes rec_timestamp rec_type rec_reserved rec_tid rec_slot_index
       rec_data_raw rec_pad rec_checksum].
  rewrite !le_bytes_field by (auto; lia).
  do 32 (destruct bs as [|? bs]; [discriminate Hl|]). by destruct bs.
Qed.

(** ** FNV-1a *)

(** The FNV prime is odd, so multiplying by it modulo [2^32] is invertible. *)
Lemma fnv_mul_inj a b :
  fits 32 a → fits 32 b → u32 (a * 16777619) = u32 (b * 16777619) → a = b.
Proof.
  intros Ha Hb E. apply (f_equal (λ z, u32 (z * 899433627))) in E.
  unfold wrap in E. rewrite !Zmult_mod_idemp_l, <- !Z.mul_assoc in E.
  rewrite <- (Zmult_mod_idemp_r (16777619 * 899433627) a) in E.
  rewrite <- (Zmult_mod_idemp_r (16777619 * 899433627) b) in E.
  change ((16777619 * 899433627) mod 2 ^ 32) with 1 in E. rewrite !Z.mul_1_r in E.
  unfold fits in *. rewrite !Z.mod_small in E by lia. done.
Qed.

Lemma fnv_step_fits h b : fits 32 (fnv_step h b).
Proof. by apply wrap_fits. Qed.

Lemma byte_fits32 b : is_byte b → fits 32 b.
Proof. unfold is_byte, fits. lia. Qed.

(** A step is injective in the running hash and in the byte. *)
Lemma fnv_step_inj h1 h2 b1 b2 :
  fits 32 h1 → fits 32 h2 → is_byte b1 → is_byte b2 →
  fnv_step h1 b1 = fnv_step h2 b2 → Z.lxor h1 b1 = Z.lxor h2 b2.
Proof.
  intros ?? ?%byte_fits32 ?%byte_fits32. unfold fnv_step.
  apply fnv_mul_inj; by apply lxor_fits.
Qed.

Lemma fnv_step_inj_hash h1 h2 b :
  fits 32 h1 → fits 32 h2 → is_byte b → fnv_step h1 b = fnv_step h2 b → h1 = h2.
Proof.
  intros ??? E%fnv_step_inj; auto. apply (f_equal (λ z, Z.lxor z b)) in E.
  by rewrite !Z.lxor_assoc, !Z.lxor_nilpotent, !Z.lxor_0_r in E.
Qed.

Lemma fnv_step_inj_byte h b1 b2 :
  fits 32 h → is_byte b1 → is_byte b2 → fnv_step h b1 = fnv_step h b2 → b1 = b2.
Proof.
  intros ??? E%fnv_step_inj; auto. apply (f_equal (Z.lxor h)) in E.
  by rewrite <- !Z.lxor_assoc, !Z.lxor_nilpotent, !Z.lxor_0_l in E.
Qed.

Lemma fnv_fold_fits bs : ∀ h, fits 32 h → fits 32 (foldl fnv_step h bs).
Proof. induction bs; simpl; auto using fnv_step_fits. Qed.

Lemma fnv_fold_inj bs : ∀ h1 h2,
  fits 32 h1 → fits 32 h2 → Forall is_byte bs →
  foldl fnv_step h1 bs = foldl fnv_step h2 bs → h1 = h2.
Proof.
  induction bs as [|b bs IH]; simpl; intros h1 h2 ?? Hb E; [done|].
  apply Forall_cons in Hb as [Hb Hbs].
  apply IH in E; auto using fnv_step_fits. eauto using fnv_step_inj_hash.
Qed.

(** Changing one byte of the input always changes the hash. *)
Lemma fnv_single_byte pre post b1 b2 h :
  fits 32 h → Forall is_byte pre → Forall is_byte post → is_byte b1 → is_byte b2 →
  foldl fnv_step h (pre ++ b1 :: post) = foldl fnv_step h (pre ++ b2 :: post) → b1 = b2.
Proof.
  intros Hh Hpre Hpost H1 H2 E. rewrite !foldl_app in E. simpl in E.
  apply fnv_fold_inj in E; auto using fnv_step_fits.
  apply (fnv_step_inj_byte (foldl fnv_step h pre)); auto using fnv_fold_fits.
Qed.

Lemma checksum_body r : gth_trace_calc_checksum r = foldl fnv_step 2166136261 (record_body r).
Proof.
  unfold gth_trace_calc_checksum, record_bytes.
  by rewrite take_app_length' by (by rewrite length_record_body).
Qed.

Lemma checksum_fits r : fits 32 (gth_trace_calc_checksum r).
Proof. rewrite checksum_body. by apply fnv_fold_fits. Qed.

(** The checksum does not depend on the checksum field. *)
Lemma checksum_ignores_checksum r c :
  gth_trace_calc_checksum {| r with rec_checksum := c |} = gth_trace_calc_checksum r.
Proof. by rewrite !checksum_body. Qed.

Lemma record_body_of_bytes bs :
  Forall is_byte bs → length bs = GTH_TRACE_RECORD_SIZE →
  record_body (record_of_bytes bs) = take 28 bs.
Proof.
  intros Hb Hl. pose proof (record_bytes_of_bytes bs Hb Hl) as E.
  rewrite <- E at 2. unfold record_bytes.
  by rewrite take_app_length' by (by rewrite length_record_body).
Qed.

Lemma record_checksum_of_bytes bs :
  Forall is_byte bs → length bs = GTH_TRACE_RECORD_SIZE →
  le_bytes 4 (rec_checksum (record_of_bytes bs)) = drop 28 bs.
Proof.
  intros Hb Hl. pose proof (record_bytes_of_bytes bs Hb Hl) as E.
  rewrite <- E at 2. unfold record_bytes.
  by rewrite drop_app_length' by (by rewrite length_record_body).
Qed.

(** A block is accepted exactly when its last four bytes are the hash of the
    first twenty-eight. *)
Lemma validate_bytes bs :
  Forall is_byte bs → length bs = GTH_TRACE_RECORD_SIZE →
  gth_trace_validate_record (record_of_bytes bs) = true ↔
  drop 28 bs = le_bytes 4 (foldl fnv_step 2166136261 (take 28 bs)).
Proof.
  intros Hb Hl. unfold gth_trace_validate_record.
  rewrite checksum_body, record_body_of_bytes, Z.eqb_eq by done.
  rewrite <- record_checksum_of_bytes by done. split; [by intros ->|].
  intros E%(f_equal le_val). rewrite !le_val_le_bytes in E; [done| |].
  - by apply fnv_fold_fits.
  - by apply record_of_bytes_fits.
Qed.

(** Any single changed byte of a valid record, in the hashed part or in the
    stored checksum, makes [gth_trace_validate_record] reject it. *)
Lemma single_byte_corruption_detected bs i old b :
  Forall is_byte bs → length bs = GTH_TRACE_RECORD_SIZE →
  gth_trace_validate_record (record_of_bytes bs) = true →
  bs !! i = Some old → is_byte b → b ≠ old →
  gth_trace_validate_record (record_of_bytes (<[i := b]> bs)) = false.
Proof.
  intros Hb Hl Hv Hi Hbb Hne. apply not_true_iff_false. intros Hv'.
  pose proof (lookup_lt_Some _ _ _ Hi) as Hlt.
  rewrite validate_bytes in Hv by done.
  rewrite validate_bytes in Hv' by (rewrite ?length_insert; auto using Forall_insert).
  destruct (decide (i < 28)%nat) as [Hlo|Hhi].
  - rewrite drop_insert_lt, Hv in Hv' by done.
    apply (f_equal le_val) in Hv'. rewrite !le_val_le_bytes in Hv' by (by apply fnv_fold_fits).
    rewrite take_insert_lt in Hv' by done.
    assert (Hi' : take 28 bs !! i = Some old) by (by rewrite lookup_take_lt).
    rewrite <- (take_drop_middle _ _ _ Hi') in Hv' at 1.
    rewrite insert_take_drop in Hv' by (rewrite length_take; lia).
    apply fnv_single_byte in Hv'; auto using Forall_take, Forall_drop; [done|].
    by eapply Forall_lookup_1.
  - rewrite take_insert_ge, <- Hv in Hv' by lia.
    apply (f_equal (.!! (i - 28)%nat)) in Hv'. rewrite !lookup_drop in Hv'.
    replace (28 + (i - 28))%nat with i in Hv' by lia.
    rewrite list_lookup_insert_eq, Hi in Hv' by done. congruence.
Qed.

(** A changed byte changes the field that holds it. *)
Lemma field_corrupted off len bs k b old :
  Forall is_byte bs → bs !! k = Some old → is_byte b → b ≠ old → (off ≤ k < off + len)%nat →
  field off len (<[k := b]> bs) ≠ field off len bs.
Proof.
  intros Hb Hk Hbb Hne Hr E. unfold field in E.
  rewrite drop_insert_ge, take_insert_lt in E by lia. apply le_val_inj in E.
  - apply (f_equal (.!! (k - off)%nat)) in E. pose proof (lookup_lt_Some _ _ _ Hk).
    rewrite list_lookup_insert_eq, lookup_take_lt, lookup_drop in E
      by (rewrite ?length_take, ?length_drop; lia).
    replace (off + (k - off))%nat with k in E by lia. congruence.
  - auto using Forall_insert, Forall_take, Forall_drop.
  - auto using Forall_take, Forall_drop.
  - by rewrite length_insert.
Qed.

#[global] Arguments record_bytes : simpl never.
#[global] Arguments record_body : simpl never.
#[global] Arguments header_bytes : simpl never.
#[global] Arguments record_of_bytes : simpl never.
#[global] Arguments header_of_bytes : simpl never.
#[global] Arguments gth_trace_calc_checksum : simpl never.
