(* ===== verification/State.v ===== *)
(** * Shared state (src/src/internal/runtime_state.h, src/include/gthreads/gthreads.h)

    The public types, the global [gth_runtime_state_t] with its thread table
    and subsystem states, the storage of the synchronisation objects, and the
    operating system as the runtime sees it.  A pointer into the thread table
    is a slot number; a pointer to a heap object that the runtime owns alone
    (trace, replay and fuzz state) is an [option] of the object.  C [int]
    flags are [bool]s. *)

From S2P Require Import Prelude WaitQueue TraceFormat.

(** ** Public types *)

Inductive gth_status_t :=
| GTH_OK | GTH_EINVAL | GTH_ENOMEM | GTH_ESTATE | GTH_EBUSY
| GTH_ETIMEDOUT | GTH_ENOTFOUND | GTH_EINTERNAL.

#[export] Instance gth_status_eq_dec : EqDecision gth_status_t.
Proof. solve_decision. Defined.

(** [gth_sched_policy_t]; kept as a number because callers can pass any. *)
Definition GTH_SCHED_RR : Z := 0.
Definition GTH_SCHED_PRIORITY : Z := 1.

Record gth_runtime_config_t := mk_config {
  cfg_stack_size_bytes : Z;
  cfg_policy : Z;
  cfg_quantum_us : Z;
  cfg_replay_seed : Z;
  cfg_enable_deterministic_trace : Z;
  cfg_enable_schedule_fuzzing : Z
}.

Definition config_zero : gth_runtime_config_t := mk_config 0 0 0 0 0 0.

(** The fields of [gth_thread_attr_t] that the runtime reads. *)
Record gth_thread_attr_t := mk_attr { attr_priority : Z }.

(** ** Threads *)

Definition GTH_MAX_THREADS : nat := 128.

Inductive gth_thread_state_t :=
| GTH_THREAD_EMPTY | GTH_THREAD_READY | GTH_THREAD_RUNNING
| GTH_THREAD_BLOCKED | GTH_THREAD_DONE | GTH_THREAD_CANCELED.

#[export] Instance gth_thread_state_eq_dec : EqDecision gth_thread_state_t.
Proof. solve_decision. Defined.

Definition is_empty_st (s : gth_thread_state_t) : bool :=
  match s with GTH_THREAD_EMPTY => true | _ => false end.
Definition is_ready_st (s : gth_thread_state_t) : bool :=
  match s with GTH_THREAD_READY => true | _ => false end.
Definition is_blocked_st (s : gth_thread_state_t) : bool :=
  match s with GTH_THREAD_BLOCKED => true | _ => false end.

Record gth_stack_allocation_t := mk_stack {
  stk_memory : Z;
  stk_total_size : Z;
  stk_stack_size : Z;
  stk_stack_top : Z;
  stk_guard_page : Z
}.

Definition stack_zero : gth_stack_allocation_t := mk_stack 0 0 0 0 0.

(** Who executes: the C stack of the process's main thread, or the stack of a
    thread slot. *)
Inductive owner := Main | Thr (slot : nat).

#[export] Instance owner_eq_dec : EqDecision owner.
Proof. solve_decision. Defined.

(** What a register save area stands for: nothing yet ([memset]), a fresh
    thread made by [gth_ctx_make] that will enter the trampoline with its slot
    number, or a C stack suspended in [gth_ctx_swap]; [serial] numbers the
    swap, so that a save area whose stack has moved on can be told from one
    that can be resumed.  [Context.v] relates this to the registers. *)
Inductive ctx_point :=
| CtxZero
| CtxEntry (slot : nat) (stack_top : Z)
| CtxSaved (o : owner) (serial : nat).

#[export] Instance ctx_point_eq_dec : EqDecision ctx_point.
Proof. solve_decision. Defined.

Record gth_ctx_t := mk_ctx {
  ctx_resume : ctx_point;
  ctx_fxsave_area : bool (* non-NULL *)
}.

Definition ctx_zero : gth_ctx_t := mk_ctx CtxZero false.

Record gth_thread_record_t := mk_thread {
  th_tid : Z;
  th_fn : Z;
  th_arg : Z;
  th_retval : Z;
  th_priority : Z;
  th_state : gth_thread_state_t;
  th_ctx : gth_ctx_t;
  th_stack : gth_stack_allocation_t;
  th_slot_index : nat
}.

(** [memset(thread, 0, sizeof( *thread))] *)
Definition thread_zero : gth_thread_record_t :=
  mk_thread 0 0 0 0 0 GTH_THREAD_EMPTY ctx_zero stack_zero 0.

Definition is_ready (t : gth_thread_record_t) : bool := is_ready_st (th_state t).
Definition is_blocked (t : gth_thread_record_t) : bool := is_blocked_st (th_state t).
Definition is_empty (t : gth_thread_record_t) : bool := is_empty_st (th_state t).

Lemma is_ready_true t : is_ready t = true ↔ th_state t = GTH_THREAD_READY.
Proof. unfold is_ready. by destruct (th_state t). Qed.
Lemma is_blocked_true t : is_blocked t = true ↔ th_state t = GTH_THREAD_BLOCKED.
Proof. unfold is_blocked. by destruct (th_state t). Qed.
Lemma is_empty_true t : is_empty t = true ↔ th_state t = GTH_THREAD_EMPTY.
Proof. unfold is_empty. by destruct (th_state t). Qed.
Lemma is_empty_false t : is_empty t = false ↔ th_state t ≠ GTH_THREAD_EMPTY.
Proof. unfold is_empty. by destruct (th_state t). Qed.

(** ** Subsystems *)

Inductive gth_scheduler_mode_t :=
| GTH_MODE_NORMAL | GTH_MODE_RECORD | GTH_MODE_REPLAY | GTH_MODE_FUZZ.

#[export] Instance gth_scheduler_mode_eq_dec : EqDecision gth_scheduler_mode_t.
Proof. solve_decision. Defined.

Record gth_trace_buffer_t := mk_buffer {
  tb_buffer : list Z;
  tb_capacity : Z;
  tb_count : Z;
  tb_record_size : Z
}.

(** A [FILE *] opened for writing: the path, and the bytes accepted by
    [fwrite] that [fflush] or [fclose] has not handed to the file yet. *)
Record FILE := mk_file { f_path : string; f_pending : list Z }.

Record gth_trace_state_t := mk_trace {
  tr_file : option FILE;
  tr_buffer : option gth_trace_buffer_t;
  tr_event_count : Z;
  tr_timestamp_freq : Z;
  tr_start_time : Z;
  tr_active : bool
}.

Record gth_replay_state_t := mk_replay {
  rp_events : list Z;
  rp_event_count : nat;
  rp_current_idx : nat;
  rp_diverged : bool;
  rp_last_timestamp : Z
}.

Record gth_fuzz_state_t := mk_fuzz {
  fz_state0 : Z;
  fz_state1 : Z;
  fz_seed : Z;
  fz_decision_count : Z;
  fz_perturbation_rate : Z
}.

(** ** The runtime *)

Record gth_runtime_state_t := mk_rt {
  rt_initialized : bool;
  rt_shutting_down : bool;
  rt_config : gth_runtime_config_t;
  rt_next_tid : Z;
  rt_current_tid : Z;
  rt_context_switches : Z;
  rt_runnable_threads : Z;
  rt_blocked_threads : Z;
  rt_finished_threads : Z;
  rt_trace_enabled : bool;
  rt_scheduler_ctx : gth_ctx_t;
  rt_threads : list gth_thread_record_t;
  rt_last_rr_slot : nat;
  rt_mode : gth_scheduler_mode_t;
  rt_trace : option gth_trace_state_t;
  rt_replay : option gth_replay_state_t;
  rt_fuzz : option gth_fuzz_state_t
}.

(** [memset(&g_state, 0, sizeof(g_state))], also the initial value of the
    static object. *)
Definition rt_zero : gth_runtime_state_t :=
  mk_rt false false config_zero 0 0 0 0 0 0 false ctx_zero
        (replicate GTH_MAX_THREADS thread_zero) 0 GTH_MODE_NORMAL None None None.

(** ** Synchronisation objects *)

Record gth_mutex_impl_t := mk_mutex {
  mx_initialized : Z;
  mx_locked : Z;
  mx_owner : Z;
  mx_wq : gth_wait_queue_t
}.

Record gth_cond_impl_t := mk_cond {
  cv_initialized : Z;
  cv_pad : Z;
  cv_wq : gth_wait_queue_t
}.

Record gth_sem_impl_t := mk_sem {
  sm_initialized : Z;
  sm_count : Z;
  sm_wq : gth_wait_queue_t
}.

Definition mutex_zero : gth_mutex_impl_t := mk_mutex 0 0 0 wq_zero.
Definition cond_zero : gth_cond_impl_t := mk_cond 0 0 wq_zero.
Definition sem_zero : gth_sem_impl_t := mk_sem 0 0 wq_zero.

(** ** The operating system

    The results of the calls the runtime makes, as functions of the number
    of the call, so that a theorem over all [os] covers every behaviour,
    failures included. *)
Record OS := mk_os {
  os_page_size : Z;                      (* sysconf(_SC_PAGESIZE) *)
  os_malloc : nat → bool;                (* malloc succeeds *)
  os_mmap : nat → Z → option Z;          (* address, or MAP_FAILED *)
  os_mprotect : nat → bool;              (* mprotect returns 0 *)
  os_rdtsc : nat → Z;
  os_realtime : nat → option (Z * Z);    (* clock_gettime: seconds, nanoseconds *)
  os_fopen : nat → bool;                 (* fopen(path, "wb") succeeds *)
  os_fwrite : nat → nat → nat;           (* bytes accepted of those offered *)
  os_fread : nat → bool                  (* reading a file back succeeds *)
}.

(** An operating system on which everything succeeds. *)
Definition sunny_os : OS :=
  mk_os 4096 (λ _, true) (λ n _, Some (0x100000000 + Z.of_nat n * 0x10000000)) (λ _, true)
        (λ n, 1000 + Z.of_nat n) (λ n, Some (1700000000, Z.of_nat n)) (λ _, true) (λ _ k, k) (λ _, true).

(** ** The world *)

(** The protections of stack.c: [PROT_NONE], and [PROT_READ | PROT_WRITE]. *)
Inductive page_prot := PROT_NONE | PROT_READ_WRITE.

#[export] Instance page_prot_eq_dec : EqDecision page_prot.
Proof. solve_decision. Defined.

Record world := mk_world {
  w_rt : gth_runtime_state_t;                (* g_state *)
  w_mutexes : gmap Z gth_mutex_impl_t;       (* mutexes, by address *)
  w_sems : gmap Z gth_sem_impl_t;
  w_conds : gmap Z gth_cond_impl_t;
  w_files : gmap string (list Z);
  w_mapped : gmap Z page_prot;               (* mapped pages, by page number *)
  w_page_size : Z;                           (* cached_page_size of stack.c *)
  w_os : OS;
  w_tick : nat;                              (* number of the next OS call *)
  w_fuel : nat                               (* bound on rejection sampling *)
}.

Definition M (A : Type) : Type := comp world A.

(** Storage that was never written holds zeros. *)
Definition mutex_at (w : world) (m : Z) : gth_mutex_impl_t := default mutex_zero (w_mutexes w !! m).
Definition sem_at (w : world) (s : Z) : gth_sem_impl_t := default sem_zero (w_sems w !! s).
Definition cond_at (w : world) (c : Z) : gth_cond_impl_t := default cond_zero (w_conds w !! c).

Definition set_mutex (m : Z) (x : gth_mutex_impl_t) (w : world) : world :=
  {| w with w_mutexes := <[m := x]> (w_mutexes w) |}.
Definition set_sem (s : Z) (x : gth_sem_impl_t) (w : world) : world :=
  {| w with w_sems := <[s := x]> (w_sems w) |}.
Definition set_cond (c : Z) (x : gth_cond_impl_t) (w : world) : world :=
  {| w with w_conds := <[c := x]> (w_conds w) |}.

Definition upd_rt (f : gth_runtime_state_t → gth_runtime_state_t) (w : world) : world :=
  {| w with w_rt := f (w_rt w) |}.

(** Assigning to fields of [state->threads[i]]. *)
Definition upd_thread (i : nat) (f : gth_thread_record_t → gth_thread_record_t)
    (s : gth_runtime_state_t) : gth_runtime_state_t :=
  {| s with rt_threads := alter f i (rt_threads s) |}.

Definition set_state (st : gth_thread_state_t) (t : gth_thread_record_t) : gth_thread_record_t :=
  {| t with th_state := st |}.

(** [state->threads[i]] as an rvalue; out of the table it is undefined. *)
Definition thread_at (i : nat) : M gth_thread_record_t := λ w, deref (rt_threads (w_rt w) !! i) w.

(** The next OS call. *)
Definition next_tick (w : world) : nat * world := (w_tick w, {| w with w_tick := S (w_tick w) |}).

Definition malloc : M bool := λ w,
  let '(n, w) := next_tick w in Done (os_malloc (w_os w) n, w).

(** ** Calls that switch stacks

    A public function either returns or switches stacks in the middle; [frame]
    names the switch point, that is, the code that runs when the suspended
    stack is resumed. *)

Inductive run_next_caller :=
| InYield                                    (* gth_thread_yield, from main *)
| InJoin (tid : Z) (target : nat).           (* gth_scheduler_run_until, from gth_thread_join *)

Inductive frame :=
| KYield                                     (* thread.c:156 *)
| KLock (m : Z) (my_slot : nat)              (* mutex.c:83 and mutex.c:92, via gth_thread_block *)
| KCondWait (m : Z)                          (* cond.c:89 *)
| KSemWait                                   (* sem.c:80 *)
| KRunNext (previous_tid : Z) (k : run_next_caller).  (* scheduler.c:212 *)

(** The status a call returns, and what it stores through its out-pointer. *)
Record resp := mk_resp { r_status : gth_status_t; r_out : list Z }.

Definition status (s : gth_status_t) : resp := mk_resp s [].

(** [&thread->ctx] or [&state->scheduler_ctx]. *)
Inductive ctx_ref := SchedCtx | ThreadCtx (slot : nat).

Inductive result :=
| Return (r : resp)
| Swap (from to : ctx_ref) (k : frame).      (* gth_ctx_swap(from, to) *)

Definition ret_status (s : gth_status_t) : M result := ret (Return (status s)).
