(* ===== verification/Stack.v ===== *)
(** * Thread stacks (src/src/context/stack.c)

    Stacks are [mmap]ed with one inaccessible guard page at the low end.  The
    theorems give the layout of every successful allocation, show that the
    size arithmetic cannot overflow within the accepted range, and that every
    failing path leaves nothing mapped. *)

From S2P Require Import Prelude WaitQueue TraceFormat State.

Definition GTH_MAX_STACK_SIZE : Z := 64 * 1024 * 1024.
Definition GTH_MIN_STACK_SIZE : Z := 16 * 1024.

(** The static cache is filled by the first positive [sysconf] result. *)
Definition gth_page_size : M Z := λ w,
  if w_page_size w =? 0 then
    let ps := os_page_size (w_os w) in
    if 0 <? ps then Done (ps, {| w with w_page_size := ps |}) else Done (w_page_size w, w)
  else Done (w_page_size w, w).

Definition gth_is_power_of_two (value : Z) : bool :=
  negb (value =? 0) && (Z.land value (u64 (value - 1)) =? 0).

Definition gth_align_up (value alignment : Z) : Z :=
  Z.land (u64 (value + alignment - 1)) (u64 (Z.lnot (u64 (alignment - 1)))).

(** [gth_stack_clear] *)
Definition gth_stack_clear : gth_stack_allocation_t := stack_zero.

(** The page size [gth_page_size] will report. *)
Definition page_of (w : world) : Z :=
  if w_page_size w =? 0 then os_page_size (w_os w) else w_page_size w.

(** *** Mapped memory

    The operating system keeps a protection for each mapped page. *)

(** The numbers of the pages that contain a part of [a, a + len). *)
Definition pages (page a len : Z) : list Z := seqZ (a / page) ((a + len - 1) / page + 1 - a / page).

Definition set_pages (ps : list Z) (x : option page_prot) (m : gmap Z page_prot) : gmap Z page_prot :=
  foldr (partial_alter (λ _, x)) m ps.

(** mmap(NULL, len, prot, MAP_PRIVATE | MAP_ANONYMOUS, -1, 0); [None] is MAP_FAILED. *)
Definition mmap (len : Z) (prot : page_prot) : M (option Z) := λ w,
  let '(n, w) := next_tick w in
  match os_mmap (w_os w) n len with
  | Some a => Done (Some a, {| w with w_mapped := set_pages (pages (page_of w) a len) (Some prot) (w_mapped w) |})
  | None => Done (None, w)
  end.

(** Whether the call returned 0. *)
Definition mprotect (a len : Z) (prot : page_prot) : M bool := λ w,
  let '(n, w) := next_tick w in
  if os_mprotect (w_os w) n
  then Done (true, {| w with w_mapped := set_pages (pages (page_of w) a len) (Some prot) (w_mapped w) |})
  else Done (false, w).

Definition munmap (a len : Z) (w : world) : world :=
  {| w with w_mapped := set_pages (pages (page_of w) a len) None (w_mapped w) |}.

(** Returns the status and the new value of [*out_stack]; [out_stack] itself is
    always the address of a field of a thread record. *)
Definition gth_stack_allocate (stack_size_bytes : Z) : M (gth_status_t * gth_stack_allocation_t) :=
  page_size <- gth_page_size;;
  if (page_size =? 0) || negb (gth_is_power_of_two page_size)
  then ret (GTH_EINTERNAL, gth_stack_clear)
  else if (stack_size_bytes <? GTH_MIN_STACK_SIZE) || (GTH_MAX_STACK_SIZE <? stack_size_bytes)
  then ret (GTH_EINVAL, gth_stack_clear)
  else
    let aligned_stack_size := gth_align_up stack_size_bytes page_size in
    if aligned_stack_size <? stack_size_bytes then ret (GTH_EINVAL, gth_stack_clear)
    else
      let total_size := u64 (aligned_stack_size + page_size) in
      if total_size <? aligned_stack_size then ret (GTH_EINVAL, gth_stack_clear)
      else
        mem <- mmap total_size PROT_READ_WRITE;;
        match mem with
        | None => ret (GTH_ENOMEM, gth_stack_clear)
        | Some memory =>
            ok <- mprotect memory page_size PROT_NONE;;
            if negb ok then
              modify (munmap memory total_size);;
              ret (GTH_EINTERNAL, gth_stack_clear)
            else
              ret (GTH_OK,
                   {| stk_memory := memory; stk_total_size := total_size;
                      stk_stack_size := aligned_stack_size; stk_guard_page := memory;
                      stk_stack_top := u64 (memory + total_size) |})
        end.

(** The memory effect of [gth_stack_free]; the record is then cleared. *)
Definition gth_stack_free (stack : gth_stack_allocation_t) (w : world) : world :=
  if negb (stk_memory stack =? 0) && negb (stk_total_size stack =? 0)
  then munmap (stk_memory stack) (stk_total_size stack) w else w.

(** ** Size arithmetic *)

Lemma power_of_two_spec v :
  fits 64 v → gth_is_power_of_two v = true ↔ ∃ k, 0 ≤ k < 64 ∧ v = 2 ^ k.
Proof.
  intros Hv. unfold gth_is_power_of_two. rewrite andb_true_iff, negb_true_iff, Z.eqb_neq, Z.eqb_eq.
  split.
  - intros [Hne Hland]. unfold fits in Hv. rewrite wrap_small in Hland by (unfold fits; lia).
    exists (Z.log2 v). pose proof (Z.log2_spec v ltac:(lia)) as [Hlo Hhi].
    pose proof (Z.log2_nonneg v). split.
    { split; [lia|]. apply Z.log2_lt_pow2; lia. }
    destruct (decide (v = 2 ^ Z.log2 v)) as [|Hne2]; [done|].
    (* otherwise bit [log2 v] is set in both [v] and [v - 1] *)
    exfalso. assert (Z.testbit (Z.land v (v - 1)) (Z.log2 v) = true) as Hb.
    { rewrite Z.land_spec, Z.bit_log2 by lia. simpl.
      replace (Z.log2 v) with (Z.log2 (v - 1)) at 1.
      - apply Z.bit_log2. lia.
      - apply Z.log2_unique; lia. }
    by rewrite Hland, Z.bits_0 in Hb.
  - intros (k & Hk & ->). pose proof (Z.pow_pos_nonneg 2 k). split; [lia|].
    unfold fits in Hv. rewrite wrap_small by (unfold fits; lia).
    rewrite Z.sub_1_r, <- Z.ones_equiv, Z.land_ones, Z.mod_same by lia. done.
Qed.

Lemma align_up_spec v k :
  0 ≤ k < 64 → 0 ≤ v → v + 2 ^ k - 1 < 2 ^ 64 →
  gth_align_up v (2 ^ k) = (v + 2 ^ k - 1) / 2 ^ k * 2 ^ k.
Proof.
  intros Hk Hv Hlt. pose proof (Z.pow_pos_nonneg 2 k).
  assert (2 ^ k < 2 ^ 64) by (apply Z.pow_lt_mono_r; lia).
  unfold gth_align_up. rewrite (wrap_small 64 (v + _ - 1)) by (unfold fits; lia).
  rewrite (wrap_small 64 (2 ^ k - 1)) by (unfold fits; lia).
  set (x := v + 2 ^ k - 1).
  rewrite wrap_land_ones, Z.sub_1_r, <- Z.ones_equiv by lia.
  rewrite <- Z.shiftr_div_pow2, <- Z.shiftl_mul_pow2 by lia.
  apply Z.bits_inj'. intros i Hi. rewrite !Z.land_spec, Z.lnot_spec by lia.
  destruct (decide (i < k)).
  - rewrite Z.shiftl_spec_low, Z.ones_spec_low by lia. simpl. by rewrite andb_false_r.
  - rewrite Z.shiftl_spec, Z.shiftr_spec by lia. replace (i - k + k) with i by lia.
    rewrite Z.ones_spec_high by lia. simpl. destruct (decide (i < 64)).
    + by rewrite Z.ones_spec_low, andb_true_r by lia.
    + rewrite (proj1 (fits_bits 64 x ltac:(lia))); [done|unfold fits, x; lia|lia].
Qed.

Lemma align_up_bounds v k :
  0 ≤ k < 64 → 0 ≤ v → v + 2 ^ k - 1 < 2 ^ 64 →
  v ≤ gth_align_up v (2 ^ k) < v + 2 ^ k ∧ (2 ^ k | gth_align_up v (2 ^ k)).
Proof.
  intros Hk Hv Hlt. rewrite align_up_spec by lia. pose proof (Z.pow_pos_nonneg 2 k).
  split; [|apply Z.divide_factor_r].
  pose proof (Z.div_mod (v + 2 ^ k - 1) (2 ^ k)).
  pose proof (Z.mod_pos_bound (v + 2 ^ k - 1) (2 ^ k)). lia.
Qed.

(** ** Pages *)

Lemma elem_of_pages page a len p : p ∈ pages page a len ↔ a / page ≤ p ≤ (a + len - 1) / page.
Proof. unfold pages. rewrite elem_of_seqZ. lia. Qed.

Lemma lookup_set_pages ps x m p : set_pages ps x m !! p = if decide (p ∈ ps) then x else m !! p.
Proof.
  induction ps as [|q ps IH]; [done|]. change (set_pages (q :: ps) x m) with (partial_alter (λ _, x) q (set_pages ps x m)).
  destruct (decide (p = q)) as [->|Hne].
  - rewrite lookup_partial_alter_eq, decide_True; [done|by left].
  - rewrite lookup_partial_alter_ne, IH by done. apply decide_ext. rewrite elem_of_cons. naive_solver.
Qed.

(** ** Allocation *)

(** What [mmap] documents about the address its next call returns: not NULL, page
    aligned, the region inside the address space and not mapped before.  (The
    library never asks for 4 GiB or more.) *)
Definition mmap_sound (w : world) : Prop :=
  ∀ size a, 0 < size < 2 ^ 32 → os_mmap (w_os w) (w_tick w) size = Some a →
    0 < a ∧ a + size < 2 ^ 64 ∧ (page_of w | a) ∧ ∀ p, p ∈ pages (page_of w) a size → w_mapped w !! p = None.

Record stack_layout (size page : Z) (stk : gth_stack_allocation_t) : Prop := {
  sl_enough : size ≤ stk_stack_size stk < size + page;
  sl_aligned : (page | stk_stack_size stk);
  sl_total : stk_total_size stk = page + stk_stack_size stk;
  sl_guard : stk_guard_page stk = stk_memory stk;
  sl_top : stk_stack_top stk = stk_memory stk + page + stk_stack_size stk;
  sl_memory : 0 < stk_memory stk;
  sl_space : stk_stack_top stk < 2 ^ 64;
  sl_top_aligned : (page | stk_stack_top stk)
}.

(** The pages of a stack: the guard page cannot be accessed, the pages from
    there to the top can be read and written. *)
Definition stack_page (page : Z) (stk : gth_stack_allocation_t) (p : Z) : option page_prot :=
  if stk_memory stk =? 0 then None
  else if p =? stk_guard_page stk / page then Some PROT_NONE
  else if (stk_guard_page stk / page <? p) && (p <? stk_stack_top stk / page) then Some PROT_READ_WRITE
  else None.

(** The mappings are those of [m] and a new stack. *)
Definition maps_stack (page : Z) (stk : gth_stack_allocation_t) (m m' : gmap Z page_prot) : Prop :=
  ∀ p, match stack_page page stk p with Some x => m !! p = None ∧ m' !! p = Some x | None => m' !! p = m !! p end.

Section layout.
Context (size page : Z) (stk : gth_stack_allocation_t).
Context (Hsize : 0 ≤ size) (Hpage : 0 < page) (Hl : stack_layout size page stk).

Lemma layout_pages : ∃ q n, 0 ≤ n ∧ stk_memory stk = q * page ∧ stk_total_size stk = (n + 1) * page ∧
  stk_stack_top stk = (q + n + 1) * page.
Proof using All.
  destruct Hl as [? [n Hn] ? ? Htop ? ? [t Ht]]. exists (t - n - 1), n.
  split_and!; [nia|lia|lia|lia].
Qed.

Lemma stack_page_spec p : ∃ q n, 0 ≤ n ∧ stk_memory stk = q * page ∧ stk_total_size stk = (n + 1) * page ∧
  stack_page page stk p = if decide (p = q) then Some PROT_NONE else if decide (q < p ≤ q + n) then Some PROT_READ_WRITE else None.
Proof using All.
  destruct layout_pages as (q & n & Hn & Em & Et & Etop). exists q, n. split_and!; [done..|]. destruct Hl.
  unfold stack_page. rewrite sl_guard0, Etop, Em, !Z.div_mul by lia. destruct (Z.eqb_spec (q * page) 0); [lia|].
  destruct (Z.eqb_spec p q) as [->|Hne]; [by rewrite decide_True|]. rewrite (decide_False (P := p = q)) by done.
  destruct (Z.ltb_spec q p), (Z.ltb_spec p (q + n + 1)); cbn [andb]; case_decide; done || lia.
Qed.

Lemma elem_of_stack_pages p : p ∈ pages page (stk_memory stk) (stk_total_size stk) ↔ is_Some (stack_page page stk p).
Proof using All.
  destruct (stack_page_spec p) as (q & n & Hn & -> & -> & ->). rewrite elem_of_pages, Z.div_mul by lia.
  replace ((q * page + (n + 1) * page - 1) / page) with (q + n)
    by (apply Z.div_unique with (page - 1); lia).
  repeat case_decide; split; try lia; try done; by intros [].
Qed.

Lemma elem_of_guard_page p : p ∈ pages page (stk_memory stk) page ↔ stack_page page stk p = Some PROT_NONE.
Proof using All.
  destruct (stack_page_spec p) as (q & n & Hn & -> & _ & ->). rewrite elem_of_pages, Z.div_mul by lia.
  replace ((q * page + page - 1) / page) with q by (apply Z.div_unique with (page - 1); lia).
  repeat case_decide; split; done || lia.
Qed.

(** What [mmap] and [mprotect] leave. *)
Lemma maps_stack_new m :
  (∀ p, p ∈ pages page (stk_memory stk) (stk_total_size stk) → m !! p = None) →
  maps_stack page stk m (set_pages (pages page (stk_memory stk) page) (Some PROT_NONE)
    (set_pages (pages page (stk_memory stk) (stk_total_size stk)) (Some PROT_READ_WRITE) m)).
Proof using All.
  intros Hfree p. pose proof (elem_of_stack_pages p) as Hin. pose proof (elem_of_guard_page p) as Hguard. rewrite !lookup_set_pages.
  destruct (stack_page page stk p) as [x|] eqn:E.
  - split; [by apply Hfree, Hin|]. destruct x; [by rewrite decide_True by (by apply Hguard)|].
    rewrite decide_False by (by rewrite Hguard). by rewrite decide_True by (by apply Hin).
  - rewrite !decide_False; [done|by rewrite Hin; intros []|by rewrite Hguard].
Qed.

(** Unmapping the pages of a stack. *)
Lemma unmap_stack m p : set_pages (pages page (stk_memory stk) (stk_total_size stk)) None m !! p =
  match stack_page page stk p with Some _ => None | None => m !! p end.
Proof using All.
  rewrite lookup_set_pages. pose proof (elem_of_stack_pages p) as Hin. destruct (stack_page page stk p).
  - by rewrite decide_True by (by apply Hin).
  - rewrite decide_False; [done|]. rewrite Hin. by intros [].
Qed.

Lemma unmap_maps_stack m m' : maps_stack page stk m m' → set_pages (pages page (stk_memory stk) (stk_total_size stk)) None m' = m.
Proof using All.
  intros H. apply map_eq. intros p. rewrite unmap_stack. specialize (H p). destruct (stack_page page stk p); [by destruct H|done].
Qed.
End layout.

(** Nothing but the mappings, the page-size cache and the call counter. *)
Definition same_but_maps (w w' : world) : Prop :=
  w' = {| w with w_mapped := w_mapped w'; w_page_size := w_page_size w'; w_tick := w_tick w' |}.

Lemma same_but_maps_rt w w' : same_but_maps w w' → w_rt w' = w_rt w.
Proof. by intros ->. Qed.

Lemma gth_page_size_spec w :
  0 < page_of w →
  gth_page_size w = Done (page_of w, {| w with w_page_size := page_of w |}).
Proof.
  unfold gth_page_size, page_of. destruct (Z.eqb_spec (w_page_size w) 0) as [E|E].
  - intros H. by destruct (Z.ltb_spec 0 (os_page_size (w_os w))); [|lia].
  - intros _. by destruct w.
Qed.

(** The outcomes of [gth_stack_allocate] on a size in the accepted range. *)
Lemma stack_allocate_in_range w size k :
  page_of w = 2 ^ k → 0 ≤ k ≤ 30 →
  GTH_MIN_STACK_SIZE ≤ size ≤ GTH_MAX_STACK_SIZE → mmap_sound w →
  returns (gth_stack_allocate size) w (λ '(st, stk) w',
    same_but_maps w w' ∧ page_of w' = page_of w ∧
    ((st = GTH_OK ∧ stack_layout size (2 ^ k) stk ∧ maps_stack (2 ^ k) stk (w_mapped w) (w_mapped w')) ∨
     ((st = GTH_ENOMEM ∨ st = GTH_EINTERNAL) ∧ stk = stack_zero ∧ w_mapped w' = w_mapped w))).
Proof.
  intros Hp Hk Hsz Hmm. unfold GTH_MIN_STACK_SIZE, GTH_MAX_STACK_SIZE in *.
  assert (Hpow : 0 < 2 ^ k ≤ 2 ^ 30)
    by (split; [apply Z.pow_pos_nonneg|apply Z.pow_le_mono_r]; lia).
  assert (Hpow2 : gth_is_power_of_two (2 ^ k) = true)
    by (apply power_of_two_spec; [unfold fits; lia|exists k; split; [lia|done]]).
  destruct (align_up_bounds size k) as [Hal Hdiv]; [lia..|].
  unfold gth_stack_allocate. apply returns_bind. unfold returns at 1.
  rewrite gth_page_size_spec by lia. rewrite Hp, Hpow2, orb_false_r.
  destruct (Z.eqb_spec (2 ^ k) 0); [lia|].
  unfold GTH_MIN_STACK_SIZE, GTH_MAX_STACK_SIZE.
  destruct (Z.ltb_spec size (16 * 1024)); [lia|].
  destruct (Z.ltb_spec (64 * 1024 * 1024) size); [lia|]. cbn [orb].
  destruct (Z.ltb_spec (gth_align_up size (2 ^ k)) size); [lia|].
  rewrite (wrap_small 64 (gth_align_up size (2 ^ k) + 2 ^ k)) by (unfold fits; lia).
  destruct (Z.ltb_spec (gth_align_up size (2 ^ k) + 2 ^ k) (gth_align_up size (2 ^ k))); [lia|].
  set (total := gth_align_up size (2 ^ k) + 2 ^ k).
  apply returns_bind. unfold returns at 1, mmap, next_tick. cbn.
  assert (Hpg : ∀ x y z, page_of {| w with w_mapped := x; w_tick := y; w_page_size := 2 ^ k; w_fuel := z |} = 2 ^ k).
  { intros x y z. unfold page_of. cbn -[Z.pow]. by destruct (Z.eqb_spec (2 ^ k) 0); [lia|]. }
  destruct (os_mmap (w_os w) (w_tick w) total) as [a|] eqn:Emm; cbn; last first.
  { split; [done|]. split; [apply Hpg|]. right. auto. }
  destruct (Hmm total a ltac:(unfold total; lia) Emm) as (Ha & Hspace & Hpal & Hfresh). rewrite Hp in Hpal, Hfresh.
  apply returns_bind. unfold returns at 1, mprotect, next_tick. cbn. rewrite !Hpg.
  set (stk := mk_stack a total (gth_align_up size (2 ^ k)) (a + total) a).
  assert (Hl : stack_layout size (2 ^ k) stk).
  { constructor; cbn; try (unfold total; lia); try done. unfold total. repeat apply Z.divide_add_r; done || apply Z.divide_refl. }
  destruct (os_mprotect (w_os w) (S (w_tick w))); cbn; (split; [done|]).
  - split; [apply Hpg|]. left. rewrite (wrap_small 64 (a + total)) by (unfold fits; lia). split_and!; [done|exact Hl|].
    apply (maps_stack_new size (2 ^ k) stk); [lia|lia|done|done].
  - split; [apply Hpg|]. right. split; [auto|]. split; [done|]. rewrite !Hpg. apply map_eq. intros p. rewrite !lookup_set_pages.
    case_decide as Hd; [by rewrite Hfresh|done].
Qed.

(** A size outside the accepted range is refused before anything is mapped. *)
Lemma stack_allocate_out_of_range w size k :
  page_of w = 2 ^ k → 0 ≤ k ≤ 30 →
  size < GTH_MIN_STACK_SIZE ∨ GTH_MAX_STACK_SIZE < size →
  gth_stack_allocate size w
  = Done ((GTH_EINVAL, stack_zero), {| w with w_page_size := page_of w |}).
Proof.
  intros Hp Hk Hsz.
  assert (Hpow : 0 < 2 ^ k ≤ 2 ^ 30)
    by (split; [apply Z.pow_pos_nonneg|apply Z.pow_le_mono_r]; lia).
  assert (Hpow2 : gth_is_power_of_two (2 ^ k) = true)
    by (apply power_of_two_spec; [unfold fits; lia|exists k; split; [lia|done]]).
  unfold gth_stack_allocate, bind. rewrite gth_page_size_spec by lia.
  rewrite Hp, Hpow2, orb_false_r. destruct (Z.eqb_spec (2 ^ k) 0); [lia|].
  destruct (Z.ltb_spec size GTH_MIN_STACK_SIZE); [done|].
  destruct (Z.ltb_spec GTH_MAX_STACK_SIZE size); [done|]. lia.
Qed.

Lemma page_of_cached w : page_of {| w with w_page_size := page_of w |} = page_of w.
Proof.
  unfold page_of. cbn. destruct (Z.eqb_spec (w_page_size w) 0) as [E|E].
  - by destruct (Z.eqb_spec (os_page_size (w_os w)) 0) as [->|].
  - by destruct (Z.eqb_spec (w_page_size w) 0).
Qed.

Lemma page_of_unmap stk w : page_of (gth_stack_free stk w) = page_of w.
Proof. unfold gth_stack_free. by destruct (_ && _). Qed.

Lemma free_mapped size stk w :
  0 ≤ size → 0 < page_of w → stack_layout size (page_of w) stk →
  w_mapped (gth_stack_free stk w) = set_pages (pages (page_of w) (stk_memory stk) (stk_total_size stk)) None (w_mapped w).
Proof.
  intros Hsz Hpg []. unfold gth_stack_free. destruct (Z.eqb_spec (stk_memory stk) 0); [lia|].
  by destruct (Z.eqb_spec (stk_total_size stk) 0); [lia|].
Qed.

(** C31. Stack allocation, for any page size that is a power of two: a size
    outside 16 KiB .. 64 MiB is refused; otherwise success gives a stack of at
    least the size asked for, rounded up to pages, with an aligned top, inside
    the address space: its lowest page is mapped without access and is the
    guard page, the pages above it up to the top are mapped for reading and
    writing, and no other page is touched.  Every failure leaves all mappings
    as they were, and freeing a successful allocation gives back exactly its
    pages. *)
Theorem stack_allocate_correct w size k :
  page_of w = 2 ^ k → 0 ≤ k ≤ 30 → mmap_sound w →
  returns (gth_stack_allocate size) w (λ '(st, stk) w',
    w_rt w' = w_rt w ∧
    match st with
    | GTH_OK =>
        GTH_MIN_STACK_SIZE ≤ size ≤ GTH_MAX_STACK_SIZE ∧ stack_layout size (2 ^ k) stk ∧
        maps_stack (2 ^ k) stk (w_mapped w) (w_mapped w') ∧
        w_mapped (gth_stack_free stk w') = w_mapped w
    | GTH_EINVAL =>
        (size < GTH_MIN_STACK_SIZE ∨ GTH_MAX_STACK_SIZE < size) ∧ w_mapped w' = w_mapped w
    | GTH_ENOMEM | GTH_EINTERNAL =>
        GTH_MIN_STACK_SIZE ≤ size ≤ GTH_MAX_STACK_SIZE ∧ w_mapped w' = w_mapped w
    | _ => False
    end).
Proof.
  intros Hp Hk Hmm.
  destruct (decide (GTH_MIN_STACK_SIZE ≤ size ≤ GTH_MAX_STACK_SIZE)) as [Hsz|Hsz].
  - eapply returns_mono; [by apply (stack_allocate_in_range w size k)|].
    intros [st stk] w' (Hrt & Hpg & [(-> & Hl & Hm)|([->| ->] & -> & Hm)]);
      (split; [by apply same_but_maps_rt|]); [|auto..].
    split_and!; try done; try apply Hsz. assert (Hp' : page_of w' = 2 ^ k) by congruence.
    assert (0 < page_of w') by (rewrite Hp'; apply Z.pow_pos_nonneg; lia). rewrite <- Hp' in Hl, Hm. unfold GTH_MIN_STACK_SIZE in *.
    rewrite (free_mapped size) by (done || lia). apply (unmap_maps_stack size); [lia|done..].
  - unfold returns. rewrite (stack_allocate_out_of_range w size k) by (done || lia).
    split; [done|]. split; [lia|done].
Qed.

(** A world whose next [mmap] gives a fixed free address. *)
Definition stack_world : world :=
  mk_world rt_zero ∅ ∅ ∅ ∅ ∅ 0
    (mk_os 4096 (λ _, true) (λ _ size, if size <? 2 ^ 40 then Some (2 ^ 32) else None) (λ _, true)
       (λ _, 0) (λ _, None) (λ _, true) (λ _ k, k) (λ _, true)) 0 0.

Lemma stack_allocate_correct_witness :
  returns (gth_stack_allocate 20000) stack_world (λ '(st, stk) w',
    st = GTH_OK ∧ stack_layout 20000 (2 ^ 12) stk).
Proof.
  assert (Hmm : mmap_sound stack_world).
  { intros size a _. cbn -[Z.pow Z.ltb]. destruct (Z.ltb_spec size (2 ^ 40)); [|done].
    intros [= <-]. split_and!; [lia|lia| |done]. by exists (2 ^ 20). }
  pose proof (stack_allocate_correct stack_world 20000 12 eq_refl ltac:(lia) Hmm) as H.
  destruct (result_of_Done (gth_stack_allocate 20000 stack_world)
    (GTH_OK, mk_stack (2 ^ 32) 24576 20480 (2 ^ 32 + 24576) (2 ^ 32))) as [w' E]; [vm_compute; reflexivity|].
  unfold returns in *. rewrite E in *. split; [reflexivity|]. apply H.
Defined.
