(* ===== verification/TraceBuffer.v ===== *)
(** * The trace buffer (src/src/trace/trace_buffer.c)

    The linear buffer that batches 32-byte records between writes.  A [NULL]
    buffer is [None].  The theorems show that the buffer implements an
    append-only list of records bounded by its capacity, stays inside its
    allocation, and that a flush hands exactly the appended bytes to the file. *)

From S2P Require Import Prelude WaitQueue TraceFormat State.

Definition SIZE_MAX : Z := 2 ^ 64 - 1.

Definition gth_trace_buffer_create (capacity record_size : Z) : M (option gth_trace_buffer_t) :=
  if (capacity =? 0) || (record_size =? 0) then ret None
  else if SIZE_MAX / capacity <? record_size then ret None
  else
    ok <- malloc;;
    if negb ok then ret None
    else
      let total_size := u64 (capacity * record_size) in
      ok2 <- malloc;;
      if negb ok2 then ret None
      else ret (Some (mk_buffer (replicate (Z.to_nat total_size) 0) capacity 0 record_size)).

Definition gth_trace_buffer_is_full (buf : option gth_trace_buffer_t) : bool :=
  match buf with None => false | Some b => tb_capacity b <=? tb_count b end.

Definition gth_trace_buffer_is_empty (buf : option gth_trace_buffer_t) : bool :=
  match buf with None => true | Some b => tb_count b =? 0 end.

Definition gth_trace_buffer_count (buf : option gth_trace_buffer_t) : Z :=
  match buf with None => 0 | Some b => tb_count b end.

(** [memcpy(data + off, bs, length bs)]; [append_in_bounds] below shows that the
    copy stays inside the allocation. *)
Definition mem_write (off : nat) (bs data : list Z) : list Z :=
  take off data ++ bs ++ drop (off + length bs) data.

(** The record is the [record_size] bytes at the source address. *)
Definition gth_trace_buffer_append (buf : gth_trace_buffer_t) (record : list Z)
    : bool * gth_trace_buffer_t :=
  if gth_trace_buffer_is_full (Some buf) then (false, buf)
  else
    let offset := u64 (tb_count buf * tb_record_size buf) in
    (true, {| buf with
       tb_buffer := mem_write (Z.to_nat offset) record (tb_buffer buf);
       tb_count := u64 (tb_count buf + 1) |}).

(** [fwrite(bs, 1, size, fp)]: the stream may accept fewer bytes. *)
Definition fwrite (bs : list Z) (fp : FILE) (w : world) : nat * FILE * world :=
  let '(n, w) := next_tick w in
  let k := Nat.min (os_fwrite (w_os w) n (length bs)) (length bs) in
  (k, {| fp with f_pending := f_pending fp ++ take k bs |}, w).

(** The number of records written, the buffer and the stream afterwards. *)
Definition gth_trace_buffer_flush (buf : gth_trace_buffer_t) (fp : FILE) (w : world)
    : Z * gth_trace_buffer_t * FILE * world :=
  if tb_count buf =? 0 then (0, buf, fp, w)
  else
    let write_size := u64 (tb_count buf * tb_record_size buf) in
    let '(written, fp, w) := fwrite (take (Z.to_nat write_size) (tb_buffer buf)) fp w in
    if negb (Z.of_nat written =? write_size) then (0, buf, fp, w)
    else (Z.of_nat written / tb_record_size buf, {| buf with tb_count := 0 |}, fp, w).

Definition gth_trace_buffer_clear (buf : gth_trace_buffer_t) : gth_trace_buffer_t :=
  {| buf with tb_count := 0 |}.

(** ** Invariant and contents *)

Record buffer_wf (b : gth_trace_buffer_t) : Prop := {
  bw_capacity : 0 < tb_capacity b;
  bw_record_size : 0 < tb_record_size b;
  bw_size : tb_capacity b * tb_record_size b < 2 ^ 64;
  bw_count : 0 ≤ tb_count b ≤ tb_capacity b;
  bw_length : Z.of_nat (length (tb_buffer b)) = tb_capacity b * tb_record_size b
}.

(** The bytes appended since the last flush. *)
Definition buffer_bytes (b : gth_trace_buffer_t) : list Z :=
  take (Z.to_nat (tb_count b * tb_record_size b)) (tb_buffer b).

Lemma buffer_offset b n :
  buffer_wf b → 0 ≤ n ≤ tb_capacity b →
  0 ≤ n * tb_record_size b ≤ Z.of_nat (length (tb_buffer b)) ∧
  u64 (n * tb_record_size b) = n * tb_record_size b.
Proof.
  intros [] Hn. assert (0 ≤ n * tb_record_size b ≤ Z.of_nat (length (tb_buffer b))) by nia.
  split; [done|]. apply wrap_small. unfold fits. lia.
Qed.

Lemma buffer_create_spec w capacity record_size :
  0 ≤ capacity < 2 ^ 64 → 0 ≤ record_size < 2 ^ 64 →
  returns (gth_trace_buffer_create capacity record_size) w (λ o w',
    match o with
    | Some b => buffer_wf b ∧ tb_capacity b = capacity ∧ tb_record_size b = record_size ∧
                tb_count b = 0
    | None => True
    end ∧ ∃ n, w' = {| w with w_tick := n |}).
Proof.
  intros Hc Hr. unfold gth_trace_buffer_create, SIZE_MAX.
  assert (∃ n, w = {| w with w_tick := n |}) by (exists (w_tick w); by destruct w).
  destruct (Z.eqb_spec capacity 0); [by apply returns_ret|].
  destruct (Z.eqb_spec record_size 0); [by apply returns_ret|]. cbn [orb].
  destruct (Z.ltb_spec ((2 ^ 64 - 1) / capacity) record_size) as [|Hle]; [by apply returns_ret|].
  assert (Hmul : record_size * capacity ≤ 2 ^ 64 - 1).
  { transitivity ((2 ^ 64 - 1) / capacity * capacity); [nia|].
    rewrite Z.mul_comm. apply Z.mul_div_le. lia. }
  unfold returns, bind, malloc, next_tick. cbn.
  destruct (os_malloc (w_os w) (w_tick w)); cbn; [|eauto].
  destruct (os_malloc (w_os w) (S (w_tick w))); cbn; [|eauto].
  split; [|eauto]. split_and!; try done. constructor; cbn; try lia.
  rewrite length_replicate, (wrap_small 64) by (unfold fits; lia). lia.
Qed.

(** The copy of an append starts and ends inside the allocation. *)
Lemma append_in_bounds b :
  buffer_wf b → gth_trace_buffer_is_full (Some b) = false →
  0 ≤ u64 (tb_count b * tb_record_size b) ∧
  u64 (tb_count b * tb_record_size b) + tb_record_size b ≤ Z.of_nat (length (tb_buffer b)).
Proof.
  intros Hwf Hf. cbn in Hf. apply Z.leb_gt in Hf.
  destruct (buffer_offset b (tb_count b) Hwf) as [? ->]; [destruct Hwf; lia|].
  destruct Hwf. nia.
Qed.

Lemma append_spec b r :
  buffer_wf b → Z.of_nat (length r) = tb_record_size b →
  let '(ok, b') := gth_trace_buffer_append b r in
  buffer_wf b' ∧ tb_record_size b' = tb_record_size b ∧ tb_capacity b' = tb_capacity b ∧
  ok = negb (gth_trace_buffer_is_full (Some b)) ∧
  buffer_bytes b' = (if ok then buffer_bytes b ++ r else buffer_bytes b) ∧
  tb_count b' = (if ok then tb_count b + 1 else tb_count b).
Proof.
  intros Hwf Hr. unfold gth_trace_buffer_append.
  destruct (gth_trace_buffer_is_full (Some b)) eqn:Hf; [done|].
  pose proof (append_in_bounds b Hwf Hf) as [H1 H2]. cbn in Hf. apply Z.leb_gt in Hf.
  destruct (buffer_offset b (tb_count b) Hwf) as [Ho Eo]; [destruct Hwf; lia|].
  rewrite Eo in *. assert (Hwf0 := Hwf). destruct Hwf0.
  assert (Hcnt : u64 (tb_count b + 1) = tb_count b + 1) by (apply wrap_small; unfold fits; nia).
  rewrite Hcnt. split_and!; try done.
  - constructor; cbn; try lia. unfold mem_write.
    rewrite !length_app, length_take, length_drop. lia.
  - unfold buffer_bytes, mem_write. cbn.
    set (k := Z.to_nat (tb_count b * tb_record_size b)).
    replace (Z.to_nat ((tb_count b + 1) * tb_record_size b)) with (k + length r)%nat by lia.
    rewrite app_assoc, take_app_le by (rewrite length_app, length_take; lia).
    apply take_ge. rewrite length_app, length_take. lia.
Qed.

(** A flush either hands all the buffered bytes to the stream and empties the
    buffer, or keeps the buffer and hands over a prefix. *)
Lemma flush_spec b fp w :
  buffer_wf b →
  let '(n, b', fp', w') := gth_trace_buffer_flush b fp w in
  buffer_wf b' ∧ tb_record_size b' = tb_record_size b ∧ tb_capacity b' = tb_capacity b ∧
  (∃ k, w' = {| w with w_tick := k |}) ∧ f_path fp' = f_path fp ∧
  ((n = tb_count b ∧ tb_count b' = 0 ∧ f_pending fp' = f_pending fp ++ buffer_bytes b) ∨
   (n = 0 ∧ b' = b ∧ ∃ k, (k < length (buffer_bytes b))%nat ∧
      f_pending fp' = f_pending fp ++ take k (buffer_bytes b))).
Proof.
  intros Hwf. unfold gth_trace_buffer_flush.
  destruct (Z.eqb_spec (tb_count b) 0) as [E|E].
  { split_and!; try done; [exists (w_tick w); by destruct w|]. left.
    split_and!; try done. unfold buffer_bytes. rewrite E. cbn. by rewrite take_0, app_nil_r. }
  destruct (buffer_offset b (tb_count b) Hwf) as [Ho Eo]; [destruct Hwf; lia|].
  rewrite Eo. fold (buffer_bytes b).
  assert (Hlen : Z.of_nat (length (buffer_bytes b)) = tb_count b * tb_record_size b).
  { unfold buffer_bytes. rewrite length_take. lia. }
  unfold fwrite, next_tick. cbn.
  set (k := Nat.min _ _).
  assert (Hk : (k ≤ length (buffer_bytes b))%nat) by apply Nat.le_min_r.
  destruct (Z.eqb_spec (Z.of_nat k) (tb_count b * tb_record_size b)) as [Ek|Ek]; cbn.
  - assert (Hwf0 := Hwf). destruct Hwf0. split_and!; try done; [constructor; cbn; lia|eauto|].
    left. rewrite Ek, Z.div_mul by lia. split_and!; try done.
    f_equal. apply take_ge. lia.
  - split_and!; try done; [eauto|]. right. split_and!; try done. exists k. split; [lia|done].
Qed.

(** ** Sequences of operations *)

Inductive buffer_op := BAppend (record : list Z) | BFlush | BClear.

(** The operations of trace.c on its buffer and stream. *)
Definition buffer_step (s : gth_trace_buffer_t * FILE * world) (op : buffer_op)
    : gth_trace_buffer_t * FILE * world :=
  let '(b, fp, w) := s in
  match op with
  | BAppend r => (snd (gth_trace_buffer_append b r), fp, w)
  | BFlush => let '(_, b', fp', w') := gth_trace_buffer_flush b fp w in (b', fp', w')
  | BClear => (gth_trace_buffer_clear b, fp, w)
  end.

(** Callers pass records of the size the buffer was created for. *)
Definition op_sized (n : Z) (op : buffer_op) : Prop :=
  match op with BAppend r => Z.of_nat (length r) = n | _ => True end.

(** What every operation preserves of a buffer of [capacity] records of [n] bytes. *)
Definition buffer_inv (capacity n : Z) (b : gth_trace_buffer_t) : Prop :=
  buffer_wf b ∧ tb_capacity b = capacity ∧ tb_record_size b = n.

Lemma buffer_step_inv capacity n b fp w op :
  buffer_inv capacity n b → op_sized n op →
  buffer_inv capacity n (fst (fst (buffer_step (b, fp, w) op))).
Proof.
  intros (Hwf & Hc & Hn) Hop. destruct op as [r| |]; cbn in *.
  - pose proof (append_spec b r Hwf) as H. rewrite Hn in H. specialize (H Hop).
    destruct (gth_trace_buffer_append b r) as [ok b']. destruct H as (? & ? & ? & _).
    unfold buffer_inv. cbn. split_and!; congruence.
  - pose proof (flush_spec b fp w Hwf) as H.
    destruct (gth_trace_buffer_flush b fp w) as [[[k b'] fp'] w']. destruct H as (? & ? & ? & _).
    unfold buffer_inv. cbn. split_and!; congruence.
  - destruct Hwf. unfold buffer_inv. split_and!; [|done..]. constructor; cbn; lia.
Qed.

Lemma buffer_steps_inv capacity n ops : ∀ s,
  buffer_inv capacity n (fst (fst s)) → Forall (op_sized n) ops →
  buffer_inv capacity n (fst (fst (fold_left buffer_step ops s))).
Proof.
  induction ops as [|op ops IH]; intros [[b fp] w] Hs Hops; [done|].
  inversion Hops; subst. cbn [fold_left]. apply IH; [by apply buffer_step_inv|done].
Qed.

(** C35. The trace buffer never leaves its allocation.  A created buffer owns exactly
    [capacity * record_size] bytes, a product that did not overflow [size_t]; after any sequence of
    appends, flushes (complete or short) and clears, the count is at most the capacity, the
    allocation has not changed size, the bytes a flush reads are inside it, and an append is
    either refused because the buffer is full or copies its record inside the allocation, at an
    offset computed without wrap-around. *)
Theorem trace_buffer_in_bounds capacity record_size w b w' fp ops r :
  0 ≤ capacity < 2 ^ 64 → 0 ≤ record_size < 2 ^ 64 →
  gth_trace_buffer_create capacity record_size w = Done (Some b, w') →
  Forall (op_sized record_size) ops →
  let b' := fst (fst (fold_left buffer_step ops (b, fp, w'))) in
  let size := Z.of_nat (length (tb_buffer b')) in
  size = capacity * record_size ∧ size < 2 ^ 64 ∧
  gth_trace_buffer_count (Some b') ≤ capacity ∧
  u64 (tb_count b' * record_size) = tb_count b' * record_size ∧
  tb_count b' * record_size ≤ size ∧
  (if gth_trace_buffer_is_full (Some b')
   then gth_trace_buffer_append b' r = (false, b')
   else tb_count b' * record_size + record_size ≤ size ∧
        fst (gth_trace_buffer_append b' r) = true).
Proof.
  intros Hc Hr Hcreate Hops b' size.
  pose proof (buffer_create_spec w capacity record_size Hc Hr) as H.
  unfold returns in H. rewrite Hcreate in H. cbn in H.
  destruct H as [(Hwf & Ec & En & _) _].
  assert (Hinv : buffer_inv capacity record_size b').
  { apply buffer_steps_inv; [by split_and!|done]. }
  clearbody b'. destruct Hinv as (Hwf' & Ec' & En').
  destruct (buffer_offset b' (tb_count b') Hwf') as [Ho Eo]; [destruct Hwf'; lia|].
  pose proof (append_in_bounds b' Hwf') as Hin.
  rewrite En' in *. rewrite Eo in *. assert (Hwf0 := Hwf'). destruct Hwf0.
  subst size. unfold gth_trace_buffer_append. cbn [gth_trace_buffer_count].
  rewrite Ec', En' in *. split_and!; try lia.
  destruct (gth_trace_buffer_is_full (Some b')) eqn:Ef; [done|].
  split; [|done]. by destruct (Hin eq_refl).
Qed.

Lemma trace_buffer_in_bounds_witness :
  ∃ b w', gth_trace_buffer_create 2 1 (mk_world rt_zero ∅ ∅ ∅ ∅ ∅ 0 sunny_os 0 0) = Done (Some b, w') ∧
    let b' := fst (fst (fold_left buffer_step [BAppend [7]; BAppend [8]; BAppend [9]]
                 (b, mk_file "t"%string [], w'))) in
    tb_count b' = 2 ∧ gth_trace_buffer_append b' [5] = (false, b').
Proof.
  exists (mk_buffer [0; 0] 2 0 1), (mk_world rt_zero ∅ ∅ ∅ ∅ ∅ 0 sunny_os 2 0).
  split; [reflexivity|]. split; [reflexivity|].
  apply (trace_buffer_in_bounds 2 1 (mk_world rt_zero ∅ ∅ ∅ ∅ ∅ 0 sunny_os 0 0)
    (mk_buffer [0; 0] 2 0 1) (mk_world rt_zero ∅ ∅ ∅ ∅ ∅ 0 sunny_os 2 0) (mk_file "t"%string [])
    [BAppend [7]; BAppend [8]; BAppend [9]] [5]); [lia|lia|reflexivity|].
  repeat constructor.
Defined.
