(* ===== verification/Trace.v ===== *)
(** * Trace recording (src/src/trace/trace.c)

    The recorder: starting and stopping a trace, buffering records, and the
    instrumentation calls that the runtime makes.  Recording never fails
    visibly, so those functions are plain state transformers. *)

From S2P Require Import Prelude WaitQueue TraceFormat State TraceBuffer.

Definition set_trace (t : option gth_trace_state_t) : world → world :=
  upd_rt (λ s, {| s with rt_trace := t |}).

Definition set_trace_enabled (b : bool) : world → world :=
  upd_rt (λ s, {| s with rt_trace_enabled := b |}).

(** The [rdtsc] branch; the library only builds for x86-64. *)
Definition gth_trace_timestamp (w : world) : Z * world :=
  let '(n, w) := next_tick w in (u64 (os_rdtsc (w_os w) n), w).

Definition gth_trace_timestamp_freq : Z := 2500000000.

Definition gth_trace_init : M gth_status_t := λ w,
  if negb (rt_initialized (w_rt w)) then Done (GTH_ESTATE, w)
  else match rt_trace (w_rt w) with
  | Some _ => Done (GTH_ESTATE, w)
  | None =>
      (ok <- malloc;;
       if negb ok then ret GTH_ENOMEM
       else
         modify (set_trace (Some (mk_trace None None 0 gth_trace_timestamp_freq 0 false)));;
         ret GTH_OK) w
  end.

(** [fflush], and the commit that [fclose] does first. *)
Definition file_commit (fp : FILE) (w : world) : world :=
  {| w with w_files := <[f_path fp := default [] (w_files w !! f_path fp) ++ f_pending fp]> (w_files w) |}.

Definition gth_trace_flush (w : world) : world :=
  match rt_trace (w_rt w) with
  | None => w
  | Some tr =>
      match tr_file tr with
      | None => w
      | Some fp =>
          match tr_buffer tr with
          | None => set_trace (Some {| tr with tr_file := Some {| fp with f_pending := [] |} |}) (file_commit fp w)
          | Some buf =>
              let '(_, buf, fp, w) := gth_trace_buffer_flush buf fp w in
              set_trace (Some {| tr with tr_buffer := Some buf;
                                         tr_file := Some {| fp with f_pending := [] |} |})
                        (file_commit fp w)
          end
      end
  end.

Definition gth_trace_cleanup (w : world) : world :=
  match rt_trace (w_rt w) with
  | None => w
  | Some tr0 =>
      let w := if tr_active tr0 then gth_trace_flush w else w in
      match rt_trace (w_rt w) with
      | None => w
      | Some tr =>
          (* gth_trace_buffer_destroy, then fclose, then free *)
          let w := match tr_file tr with Some fp => file_commit fp w | None => w end in
          set_trace_enabled false (set_trace None w)
      end
  end.

Definition gth_trace_write_header (fp : FILE) (w : world) : gth_status_t * FILE * world :=
  let '(n, w) := next_tick w in
  let creation_time := match os_realtime (w_os w) n with
    | Some (sec, nsec) => u64 (u64 sec * 1000000000 + u64 nsec)
    | None => 0
    end in
  let header := mk_header GTH_TRACE_MAGIC GTH_TRACE_VERSION creation_time
                          gth_trace_timestamp_freq 0 0 in
  let '(written, fp, w) := fwrite (header_bytes header) fp w in
  if negb (Z.of_nat written =? 32) then (GTH_EINTERNAL, fp, w) else (GTH_OK, fp, w).

(** The switch of [gth_trace_record] on the event type. *)
Definition pack_data (type data1 data2 : Z) : Z :=
  if bool_decide (type = GTH_EVT_CONTEXT_SWITCH) then
    Z.lor (u64 (Z.shiftl (Z.land data1 0xFFFFFFFF) 32)) (Z.land data2 0xFFFFFFFF)
  else if bool_decide (type ∈ [GTH_EVT_THREAD_EXIT; GTH_EVT_MUTEX_LOCK; GTH_EVT_MUTEX_UNLOCK;
                               GTH_EVT_MUTEX_WAIT; GTH_EVT_MUTEX_WAKE; GTH_EVT_COND_WAIT]) then
    data1
  else if bool_decide (type ∈ [GTH_EVT_SEM_WAIT; GTH_EVT_SEM_POST; GTH_EVT_COND_BROADCAST]) then
    Z.lor (u64 (Z.shiftl (Z.land data1 0xFFFFFFFF) 32)) (Z.land data2 0xFFFFFFFF)
  else if bool_decide (type = GTH_EVT_COND_SIGNAL) then
    Z.lor (u64 (Z.shiftl (Z.land data1 0xFFFFFFFF) 32)) (Z.land data2 0xFFFFFFFF)
  else data1.

(** The record that [gth_trace_record] builds. *)
Definition make_record (timestamp type tid data1 data2 : Z) : gth_trace_record_t :=
  let record := mk_record timestamp type 0 (u32 tid) 0 (pack_data type data1 data2) 0 0 in
  {| record with rec_checksum := gth_trace_calc_checksum record |}.

(** Storing the buffer through the pointer, and counting the event. *)
Definition put_buffer (tr : gth_trace_state_t) (buf : gth_trace_buffer_t) (counted : bool)
    : world → world :=
  set_trace (Some {| tr with tr_buffer := Some buf;
                             tr_event_count := if counted then u64 (tr_event_count tr + 1)
                                               else tr_event_count tr |}).

Definition gth_trace_record (type tid data1 data2 : Z) (w : world) : world :=
  match rt_trace (w_rt w) with
  | None => w
  | Some tr =>
      if negb (tr_active tr) then w
      else if bool_decide (rt_mode (w_rt w) = GTH_MODE_REPLAY) then w
      else match tr_buffer tr with
      | None => w
      | Some buf =>
          let '(timestamp, w) := gth_trace_timestamp w in
          let record := make_record timestamp type tid data1 data2 in
          let '(ok, buf1) := gth_trace_buffer_append buf (record_bytes record) in
          if ok then put_buffer tr buf1 true w
          else
            let w := gth_trace_flush w in
            match rt_trace (w_rt w) with
            | Some tr2 =>
                match tr_buffer tr2 with
                | Some buf2 =>
                    let '(ok2, buf3) := gth_trace_buffer_append buf2 (record_bytes record) in
                    if ok2 then put_buffer tr2 buf3 true w else w
                | None => w
                end
            | None => w
            end
      end
  end.

(** ** Public start and stop *)

(** A path argument is [None] when it is NULL. *)
Definition gth_trace_start (trace_path : option string) : M gth_status_t := λ w,
  if negb (rt_initialized (w_rt w)) then Done (GTH_ESTATE, w)
  else match trace_path with
  | None => Done (GTH_EINVAL, w)
  | Some path =>
    if bool_decide (path = EmptyString) then Done (GTH_EINVAL, w)
    else
      (st <- gth_trace_init;;
       if negb (bool_decide (st = GTH_OK)) && negb (bool_decide (st = GTH_ESTATE)) then ret st
       else λ w,
         match rt_trace (w_rt w) with
         | None => Undef                        (* state->trace->file on NULL *)
         | Some tr =>
           match tr_file tr with
           | Some _ => Done (GTH_ESTATE, w)
           | None =>
             let '(n, w) := next_tick w in
             if negb (os_fopen (w_os w) n) then
               Done (GTH_EINTERNAL, gth_trace_cleanup w)
             else
               let w := {| w with w_files := <[path := []]> (w_files w) |} in
               let '(st, fp, w) := gth_trace_write_header (mk_file path []) w in
               if negb (bool_decide (st = GTH_OK)) then
                 Done (st, gth_trace_cleanup (file_commit fp w))
               else
                 (buf <- gth_trace_buffer_create GTH_TRACE_BUFFER_COUNT
                           (Z.of_nat GTH_TRACE_RECORD_SIZE);;
                  match buf with
                  | None => λ w, Done (GTH_ENOMEM, gth_trace_cleanup (file_commit fp w))
                  | Some b => λ w,
                      let '(now, w) := gth_trace_timestamp w in
                      let w := set_trace (Some {| tr with tr_file := Some fp; tr_buffer := Some b;
                                                          tr_start_time := now;
                                                          tr_active := true |}) w in
                      let w := set_trace_enabled true w in
                      Done (GTH_OK, gth_trace_record GTH_EVT_RUNTIME_INIT 0 0 0 w)
                  end) w
           end
         end) w
  end.

Definition gth_trace_stop : M gth_status_t := λ w,
  if negb (rt_initialized (w_rt w)) then Done (GTH_ESTATE, w)
  else match rt_trace (w_rt w) with
  | None => Done (GTH_ESTATE, w)
  | Some tr =>
      if negb (tr_active tr) then Done (GTH_ESTATE, w)
      else
        let w := gth_trace_record GTH_EVT_RUNTIME_SHUTDOWN 0 0 0 w in
        let w := gth_trace_flush w in
        match rt_trace (w_rt w) with
        | None => Undef
        | Some tr =>
            let w := match tr_file tr with Some fp => file_commit fp w | None => w end in
            let w := set_trace (Some {| tr with tr_file := None; tr_active := false |}) w in
            let w := set_trace_enabled false w in
            Done (GTH_OK, gth_trace_cleanup w)
        end
  end.

Definition gth_trace_is_active (w : world) : bool :=
  match rt_trace (w_rt w) with None => false | Some tr => tr_active tr end.

(** ** Instrumentation *)

Definition gth_trace_context_switch (from_tid to_tid : Z) : world → world :=
  gth_trace_record GTH_EVT_CONTEXT_SWITCH from_tid from_tid to_tid.
Definition gth_trace_thread_create (tid : Z) : world → world :=
  gth_trace_record GTH_EVT_THREAD_CREATE tid 0 0.
Definition gth_trace_thread_exit (tid retval : Z) : world → world :=
  gth_trace_record GTH_EVT_THREAD_EXIT tid retval 0.
Definition gth_trace_thread_cancel (target_tid : Z) : world → world :=
  gth_trace_record GTH_EVT_THREAD_CANCEL target_tid 0 0.
Definition gth_trace_thread_block (tid reason : Z) : world → world :=
  gth_trace_record GTH_EVT_THREAD_BLOCK tid reason 0.
Definition gth_trace_thread_unblock (tid : Z) : world → world :=
  gth_trace_record GTH_EVT_THREAD_UNBLOCK tid 0 0.
Definition gth_trace_thread_yield (tid : Z) : world → world :=
  gth_trace_record GTH_EVT_THREAD_YIELD tid 0 0.
Definition gth_trace_mutex_lock (tid mutex_addr : Z) : world → world :=
  gth_trace_record GTH_EVT_MUTEX_LOCK tid mutex_addr 0.
Definition gth_trace_mutex_unlock (tid mutex_addr : Z) : world → world :=
  gth_trace_record GTH_EVT_MUTEX_UNLOCK tid mutex_addr 0.
Definition gth_trace_mutex_wait (tid mutex_addr : Z) : world → world :=
  gth_trace_record GTH_EVT_MUTEX_WAIT tid mutex_addr 0.
Definition gth_trace_mutex_wake (tid mutex_addr : Z) : world → world :=
  gth_trace_record GTH_EVT_MUTEX_WAKE tid mutex_addr 0.
Definition gth_trace_sem_wait (tid sem_addr count_before : Z) : world → world :=
  gth_trace_record GTH_EVT_SEM_WAIT tid sem_addr count_before.
Definition gth_trace_sem_post (tid sem_addr count_after : Z) : world → world :=
  gth_trace_record GTH_EVT_SEM_POST tid sem_addr count_after.
Definition gth_trace_sem_wake (tid sem_addr : Z) : world → world :=
  gth_trace_record GTH_EVT_SEM_WAKE tid sem_addr 0.
Definition gth_trace_cond_wait (tid cond_addr : Z) : world → world :=
  gth_trace_record GTH_EVT_COND_WAIT tid cond_addr 0.
Definition gth_trace_cond_signal (tid cond_addr target_tid : Z) : world → world :=
  gth_trace_record GTH_EVT_COND_SIGNAL tid cond_addr target_tid.
Definition gth_trace_cond_broadcast (tid cond_addr wake_count : Z) : world → world :=
  gth_trace_record GTH_EVT_COND_BROADCAST tid cond_addr wake_count.

(** ** What tracing can touch *)

(** The world without the recorder: every tracing call preserves it. *)
Definition untrace (w : world) : world :=
  {| w with w_rt := {| (w_rt w) with rt_trace := None; rt_trace_enabled := false |};
            w_files := ∅; w_tick := O |}.

Lemma untrace_tick w n : untrace {| w with w_tick := n |} = untrace w.
Proof. done. Qed.

Lemma untrace_set_trace t w : untrace (set_trace t w) = untrace w.
Proof. done. Qed.

Lemma untrace_set_trace_enabled b w : untrace (set_trace_enabled b w) = untrace w.
Proof. done. Qed.

Lemma untrace_file_commit fp w : untrace (file_commit fp w) = untrace w.
Proof. done. Qed.

Lemma gth_trace_buffer_flush_tick buf fp w :
  ∃ k, (gth_trace_buffer_flush buf fp w).2 = {| w with w_tick := k |}.
Proof.
  unfold gth_trace_buffer_flush, fwrite, next_tick. destruct (tb_count buf =? 0); cbn.
  { exists (w_tick w). by destruct w. }
  case_match; eexists; reflexivity.
Qed.

Lemma untrace_flush w : untrace (gth_trace_flush w) = untrace w.
Proof.
  unfold gth_trace_flush. destruct (rt_trace (w_rt w)) as [tr|]; [|done].
  destruct (tr_file tr) as [fp|]; [|done]. destruct (tr_buffer tr) as [buf|]; [|done].
  pose proof (gth_trace_buffer_flush_tick buf fp w) as [k Hk].
  destruct (gth_trace_buffer_flush buf fp w) as [[[? ?] ?] w']. cbn in Hk. by subst w'.
Qed.

Lemma untrace_cleanup w : untrace (gth_trace_cleanup w) = untrace w.
Proof.
  unfold gth_trace_cleanup. destruct (rt_trace (w_rt w)) as [tr0|]; [|done].
  set (w1 := if tr_active tr0 then gth_trace_flush w else w).
  assert (E : untrace w1 = untrace w) by (subst w1; destruct (tr_active tr0); auto using untrace_flush).
  rewrite <- E. clearbody w1. destruct (rt_trace (w_rt w1)) as [tr|]; [|done].
  by destruct (tr_file tr).
Qed.

Lemma untrace_record type tid d1 d2 w : untrace (gth_trace_record type tid d1 d2 w) = untrace w.
Proof.
  unfold gth_trace_record, gth_trace_timestamp, next_tick.
  destruct (rt_trace (w_rt w)) as [tr|]; [|done]. destruct (tr_active tr); [|done]. cbn.
  case_bool_decide; [done|]. destruct (tr_buffer tr) as [buf|]; [|done].
  destruct (gth_trace_buffer_append _ _) as [[] buf1]; [done|].
  set (w1 := gth_trace_flush _). assert (untrace w1 = untrace w) as E by (subst w1; by rewrite untrace_flush).
  rewrite <- E. clearbody w1. destruct (rt_trace (w_rt w1)) as [tr2|]; [|done].
  destruct (tr_buffer tr2) as [buf2|]; [|done].
  by destruct (gth_trace_buffer_append _ _) as [[] ?].
Qed.

(** The fields tracing leaves alone. *)
Section untrace_fields.
Context (w w' : world) (E : untrace w' = untrace w).
Lemma ut_threads : rt_threads (w_rt w') = rt_threads (w_rt w).
Proof using E. exact (f_equal (λ w, rt_threads (w_rt w)) E). Qed.
Lemma ut_next_tid : rt_next_tid (w_rt w') = rt_next_tid (w_rt w).
Proof using E. exact (f_equal (λ w, rt_next_tid (w_rt w)) E). Qed.
Lemma ut_current_tid : rt_current_tid (w_rt w') = rt_current_tid (w_rt w).
Proof using E. exact (f_equal (λ w, rt_current_tid (w_rt w)) E). Qed.
Lemma ut_runnable_threads : rt_runnable_threads (w_rt w') = rt_runnable_threads (w_rt w).
Proof using E. exact (f_equal (λ w, rt_runnable_threads (w_rt w)) E). Qed.
Lemma ut_blocked_threads : rt_blocked_threads (w_rt w') = rt_blocked_threads (w_rt w).
Proof using E. exact (f_equal (λ w, rt_blocked_threads (w_rt w)) E). Qed.
Lemma ut_last_rr_slot : rt_last_rr_slot (w_rt w') = rt_last_rr_slot (w_rt w).
Proof using E. exact (f_equal (λ w, rt_last_rr_slot (w_rt w)) E). Qed.
Lemma ut_initialized : rt_initialized (w_rt w') = rt_initialized (w_rt w).
Proof using E. exact (f_equal (λ w, rt_initialized (w_rt w)) E). Qed.
Lemma ut_scheduler_ctx : rt_scheduler_ctx (w_rt w') = rt_scheduler_ctx (w_rt w).
Proof using E. exact (f_equal (λ w, rt_scheduler_ctx (w_rt w)) E). Qed.
Lemma ut_mode : rt_mode (w_rt w') = rt_mode (w_rt w).
Proof using E. exact (f_equal (λ w, rt_mode (w_rt w)) E). Qed.
Lemma ut_config : rt_config (w_rt w') = rt_config (w_rt w).
Proof using E. exact (f_equal (λ w, rt_config (w_rt w)) E). Qed.
Lemma ut_replay : rt_replay (w_rt w') = rt_replay (w_rt w).
Proof using E. exact (f_equal (λ w, rt_replay (w_rt w)) E). Qed.
Lemma ut_fuzz : rt_fuzz (w_rt w') = rt_fuzz (w_rt w).
Proof using E. exact (f_equal (λ w, rt_fuzz (w_rt w)) E). Qed.
Lemma ut_context_switches : rt_context_switches (w_rt w') = rt_context_switches (w_rt w).
Proof using E. exact (f_equal (λ w, rt_context_switches (w_rt w)) E). Qed.
Lemma ut_mutexes : w_mutexes w' = w_mutexes w.
Proof using E. exact (f_equal w_mutexes E). Qed.
Lemma ut_sems : w_sems w' = w_sems w.
Proof using E. exact (f_equal w_sems E). Qed.
Lemma ut_conds : w_conds w' = w_conds w.
Proof using E. exact (f_equal w_conds E). Qed.
Lemma ut_mapped : w_mapped w' = w_mapped w.
Proof using E. exact (f_equal w_mapped E). Qed.
Lemma ut_os : w_os w' = w_os w.
Proof using E. exact (f_equal w_os E). Qed.
Lemma ut_fuel : w_fuel w' = w_fuel w.
Proof using E. exact (f_equal w_fuel E). Qed.
Lemma ut_page_size : w_page_size w' = w_page_size w.
Proof using E. exact (f_equal w_page_size E). Qed.
End untrace_fields.
