(* ===== verification/Runtime.v ===== *)
(** * The thread table (src/src/runtime/runtime.c, first part)

    Lookup by thread id, slot allocation, terminal states, configuration
    checks and the statistics snapshot.  Initialisation and shutdown, which
    call every subsystem, are in [Lifecycle.v]. *)

From S2P Require Import Prelude WaitQueue TraceFormat State.

Definition gth_runtime_find_thread (s : gth_runtime_state_t) (tid : Z) : option nat :=
  find_index (λ t, negb (is_empty t) && (th_tid t =? tid)) (rt_threads s).

Definition gth_runtime_alloc_thread_slot (s : gth_runtime_state_t) : option nat :=
  find_index is_empty (rt_threads s).

Definition gth_thread_is_terminal (st : gth_thread_state_t) : bool :=
  match st with GTH_THREAD_DONE | GTH_THREAD_CANCELED => true | _ => false end.

(** [None] is a NULL configuration. *)
Definition gth_config_is_valid (config : option gth_runtime_config_t) : bool :=
  match config with
  | None => false
  | Some c =>
      if cfg_stack_size_bytes c <? 16 * 1024 then false
      else if cfg_quantum_us c =? 0 then false
      else if negb (cfg_policy c =? GTH_SCHED_RR) && negb (cfg_policy c =? GTH_SCHED_PRIORITY)
      then false
      else true
  end.

Record gth_runtime_stats_snapshot_t := mk_snapshot {
  ss_total : Z;
  ss_runnable : Z;
  ss_blocked : Z;
  ss_finished : Z
}.

(** The body of the loop of [gth_runtime_snapshot_stats]. *)
Definition snapshot_step (n : gth_runtime_stats_snapshot_t) (t : gth_thread_record_t)
    : gth_runtime_stats_snapshot_t :=
  if is_empty t then n
  else
    let n := {| n with ss_total := u64 (ss_total n + 1) |} in
    if is_ready t then {| n with ss_runnable := u64 (ss_runnable n + 1) |}
    else if is_blocked t then {| n with ss_blocked := u64 (ss_blocked n + 1) |}
    else if gth_thread_is_terminal (th_state t) then {| n with ss_finished := u64 (ss_finished n + 1) |}
    else n.

Definition gth_runtime_snapshot_stats (s : gth_runtime_state_t) : gth_runtime_stats_snapshot_t :=
  foldl snapshot_step (mk_snapshot 0 0 0 0) (rt_threads s).

(** The out-parameter is [context_switches], [runnable], [blocked]. *)
Definition gth_runtime_get_stats (out_nonnull : bool) (w : world) : resp :=
  if negb out_nonnull then status GTH_EINVAL
  else if negb (rt_initialized (w_rt w)) then status GTH_ESTATE
  else
    let snapshot := gth_runtime_snapshot_stats (w_rt w) in
    mk_resp GTH_OK [rt_context_switches (w_rt w); ss_runnable snapshot; ss_blocked snapshot].

Definition gth_runtime_begin_shutdown : M gth_status_t := λ w,
  if negb (rt_initialized (w_rt w)) then Done (GTH_ESTATE, w)
  else Done (GTH_OK, upd_rt (λ s, {| s with rt_shutting_down := true |}) w).

(** ** Facts about the table *)

Definition is_terminal (t : gth_thread_record_t) : bool := gth_thread_is_terminal (th_state t).
Definition is_running (t : gth_thread_record_t) : bool :=
  match th_state t with GTH_THREAD_RUNNING => true | _ => false end.
Definition is_live (t : gth_thread_record_t) : bool := negb (is_empty t).

Lemma find_thread_Some s tid i :
  gth_runtime_find_thread s tid = Some i →
  ∃ t, rt_threads s !! i = Some t ∧ th_state t ≠ GTH_THREAD_EMPTY ∧ th_tid t = tid.
Proof.
  intros [(t & Ht & Hp) _]%find_index_Some. exists t. split; [done|].
  apply andb_true_iff in Hp as [Hne Htid%Z.eqb_eq]. split; [|done].
  by apply negb_true_iff, is_empty_false in Hne.
Qed.

Lemma find_thread_None s tid :
  gth_runtime_find_thread s tid = None ↔
  ∀ i t, rt_threads s !! i = Some t → th_state t ≠ GTH_THREAD_EMPTY → th_tid t ≠ tid.
Proof.
  unfold gth_runtime_find_thread. rewrite find_index_None.
  split; intros H i t Ht.
  - intros Hne E. specialize (H i t Ht). rewrite andb_false_iff, negb_false_iff, Z.eqb_neq in H.
    destruct H as [H%is_empty_true|H]; done.
  - specialize (H i t Ht). rewrite andb_false_iff, negb_false_iff, Z.eqb_neq.
    destruct (is_empty t) eqn:E; [by left|]. apply is_empty_false in E. right. auto.
Qed.

Lemma alloc_slot_Some s i :
  gth_runtime_alloc_thread_slot s = Some i →
  ∃ t, rt_threads s !! i = Some t ∧ th_state t = GTH_THREAD_EMPTY.
Proof.
  intros [(t & Ht & Hp) _]%find_index_Some. exists t. split; [done|].
  by apply is_empty_true.
Qed.

Lemma alloc_slot_None s :
  gth_runtime_alloc_thread_slot s = None ↔ ∀ i t, rt_threads s !! i = Some t → is_empty t = false.
Proof. apply find_index_None. Qed.

Lemma u64_succ z n : 0 ≤ z ≤ Z.of_nat n → Z.of_nat n < 2 ^ 63 → u64 (z + 1) = z + 1.
Proof. intros. apply wrap_small. unfold fits. lia. Qed.

(** The snapshot is the four counts. *)
Lemma snapshot_counts_from l : ∀ n : gth_runtime_stats_snapshot_t,
  0 ≤ ss_total n → 0 ≤ ss_runnable n → 0 ≤ ss_blocked n → 0 ≤ ss_finished n →
  ss_total n + Z.of_nat (length l) < 2 ^ 63 → ss_runnable n + Z.of_nat (length l) < 2 ^ 63 →
  ss_blocked n + Z.of_nat (length l) < 2 ^ 63 → ss_finished n + Z.of_nat (length l) < 2 ^ 63 →
  foldl snapshot_step n l =
  mk_snapshot (ss_total n + countb is_live l) (ss_runnable n + countb is_ready l)
              (ss_blocked n + countb is_blocked l) (ss_finished n + countb is_terminal l).
Proof.
  induction l as [|t l IH]; intros [a b c d]; cbn -[Z.pow]; intros.
  { unfold countb. cbn. by rewrite !Z.add_0_r. }
  assert (E : snapshot_step (mk_snapshot a b c d) t =
    mk_snapshot (a + if is_live t then 1 else 0) (b + if is_ready t then 1 else 0)
                (c + if is_blocked t then 1 else 0) (d + if is_terminal t then 1 else 0)).
  { unfold snapshot_step, is_live, is_ready, is_blocked, is_terminal, gth_thread_is_terminal,
      is_empty.
    destruct (th_state t); cbn; rewrite ?Z.add_0_r; try done;
      f_equal; apply wrap_small; unfold fits; lia. }
  rewrite E, IH by (cbn -[Z.pow]; repeat case_match; lia).
  cbn. rewrite !countb_cons. f_equal; lia.
Qed.

Lemma snapshot_counts s :
  length (rt_threads s) = GTH_MAX_THREADS →
  gth_runtime_snapshot_stats s =
  mk_snapshot (countb is_live (rt_threads s)) (countb is_ready (rt_threads s))
              (countb is_blocked (rt_threads s)) (countb is_terminal (rt_threads s)).
Proof.
  intros Hl. unfold gth_runtime_snapshot_stats, GTH_MAX_THREADS in *.
  rewrite snapshot_counts_from; cbn -[Z.pow]; rewrite ?Hl; lia || done.
Qed.
