(* ===== verification/Replay.v ===== *)
(** * Deterministic replay (src/src/trace/replay.c, gth_replay_from of trace.c)

    Loading and validating a trace file, the event cursor, and the selection
    of the next thread from the recorded context switches. *)

From S2P Require Import Prelude WaitQueue TraceFormat State Runtime.

Definition GTH_REPLAY_MAX_FILE_SIZE : Z := 256 * 1024 * 1024.

Definition gth_replay_validate_header (h : gth_trace_header_t) : bool :=
  if negb (hd_magic h =? GTH_TRACE_MAGIC) then false
  else if negb (hd_version h =? GTH_TRACE_VERSION) then false
  else true.

(** The file's bytes, or [None] for the NULL result: no such file, a failing
    seek, allocation or read, or a size outside the accepted range. *)
Definition gth_replay_read_file (path : string) : M (option (list Z)) := λ w,
  match w_files w !! path with
  | None => Done (None, w)
  | Some data =>
      let file_size := Z.of_nat (length data) in
      if file_size <? Z.of_nat GTH_TRACE_HEADER_SIZE then Done (None, w)
      else if GTH_REPLAY_MAX_FILE_SIZE <? file_size then Done (None, w)
      else
        (ok <- malloc;;
         if negb ok then ret None
         else λ w,
           let '(n, w) := next_tick w in
           if os_fread (w_os w) n then Done (Some data, w) else Done (None, w)) w
  end.

(** [&records[i]] of a loaded file. *)
Definition record_at (data : list Z) (i : nat) : gth_trace_record_t :=
  record_of_bytes (take GTH_TRACE_RECORD_SIZE
    (drop (GTH_TRACE_HEADER_SIZE + i * GTH_TRACE_RECORD_SIZE) data)).

Definition gth_replay_count_records (data : list Z) : nat :=
  if (length data <? GTH_TRACE_HEADER_SIZE)%nat then O
  else if negb (gth_replay_validate_header (header_of_bytes data)) then O
  else
    let record_count := ((length data - GTH_TRACE_HEADER_SIZE) / GTH_TRACE_RECORD_SIZE)%nat in
    if forallb (λ i, gth_trace_validate_record (record_at data i)) (seq 0 record_count)
    then record_count else O.

Definition set_replay (r : option gth_replay_state_t) : world → world :=
  upd_rt (λ s, {| s with rt_replay := r |}).

Definition gth_replay_init (trace_path : option string) : M gth_status_t := λ w,
  if negb (rt_initialized (w_rt w)) then Done (GTH_ESTATE, w)
  else match trace_path with
  | None => Done (GTH_EINVAL, w)
  | Some path =>
    if bool_decide (path = EmptyString) then Done (GTH_EINVAL, w)
    else match rt_replay (w_rt w) with
    | Some _ => Done (GTH_ESTATE, w)
    | None =>
      (data <- gth_replay_read_file path;;
       match data with
       | None => ret GTH_ENOTFOUND
       | Some data =>
           let record_count := gth_replay_count_records data in
           if (record_count =? 0)%nat then ret GTH_ESTATE
           else
             ok <- malloc;;
             if negb ok then ret GTH_ENOMEM
             else
               modify (set_replay (Some (mk_replay data record_count 0 false 0)));;
               ret GTH_OK
       end) w
    end
  end.

Definition gth_replay_cleanup (w : world) : world := set_replay None w.

(** trace.c:505 *)
Definition gth_replay_from (trace_path : option string) : M gth_status_t := λ w,
  if negb (rt_initialized (w_rt w)) then Done (GTH_ESTATE, w)
  else if match trace_path with None => true | Some p => bool_decide (p = EmptyString) end
  then Done (GTH_EINVAL, w)
  else
    (st <- gth_replay_init trace_path;;
     if negb (bool_decide (st = GTH_OK)) then ret st
     else
       modify (upd_rt (λ s, {| s with rt_mode := GTH_MODE_REPLAY; rt_trace_enabled := false |}));;
       ret GTH_OK) w.

(** ** The event cursor

    Functions of the replay state alone; the [NULL] cases are in the callers. *)

(** The event under the cursor, [None] at the end of the trace. *)
Definition gth_replay_peek_event (r : gth_replay_state_t) : option gth_trace_record_t :=
  if (rp_event_count r <=? rp_current_idx r)%nat then None
  else Some (record_at (rp_events r) (rp_current_idx r)).

(** Consuming it. *)
Definition gth_replay_next_event (r : gth_replay_state_t)
    : option (gth_trace_record_t * gth_replay_state_t) :=
  if (rp_event_count r <=? rp_current_idx r)%nat then None
  else
    let rec := record_at (rp_events r) (rp_current_idx r) in
    Some (rec, {| r with rp_last_timestamp := rec_timestamp rec;
                         rp_current_idx := S (rp_current_idx r) |}).

Definition gth_replay_mark_diverged (r : gth_replay_state_t) : gth_replay_state_t :=
  {| r with rp_diverged := true |}.

Definition gth_replay_has_diverged (w : world) : bool :=
  match rt_replay (w_rt w) with None => false | Some r => rp_diverged r end.

(** The out-parameter is [event_count], [current_idx], [diverged]. *)
Definition gth_replay_get_stats (out_nonnull : bool) (w : world) : resp :=
  if negb out_nonnull then status GTH_EINVAL
  else if negb (rt_initialized (w_rt w)) then status GTH_ESTATE
  else match rt_replay (w_rt w) with
  | None => status GTH_ESTATE
  | Some r => mk_resp GTH_OK [Z.of_nat (rp_event_count r); Z.of_nat (rp_current_idx r);
                              if rp_diverged r then 1 else 0]
  end.

Definition gth_replay_find_thread (s : gth_runtime_state_t) (tid : Z) : option nat :=
  if tid =? 0 then None
  else
    i ← gth_runtime_find_thread s tid;
    t ← rt_threads s !! i;
    match th_state t with
    | GTH_THREAD_READY | GTH_THREAD_RUNNING => Some i
    | _ => None
    end.

(** The loop that skips to the next context switch; [n] is the number of
    events left, so the loop ends with the trace. *)
Fixpoint skip_to_switch (n : nat) (r : gth_replay_state_t) : gth_replay_state_t :=
  match n with
  | O => r
  | S n' =>
      match gth_replay_peek_event r with
      | None => r
      | Some e =>
          if rec_type e =? GTH_EVT_CONTEXT_SWITCH then r
          else match gth_replay_next_event r with
               | Some (_, r') => skip_to_switch n' r'
               | None => r
               end
      end
  end.

(** The thread to run and the replay state afterwards. *)
Definition gth_replay_next_thread (s : gth_runtime_state_t) (r : gth_replay_state_t)
    : option nat * gth_replay_state_t :=
  let r := skip_to_switch (rp_event_count r - rp_current_idx r) r in
  match gth_replay_peek_event r with
  | None => (None, r)
  | Some e =>
      if negb (rec_type e =? GTH_EVT_CONTEXT_SWITCH) then (None, r)
      else
        let tid := Z.land (rec_data_raw e) 0xFFFFFFFF in
        match gth_replay_find_thread s tid with
        | None => (None, gth_replay_mark_diverged r)
        | Some i =>
            match gth_replay_next_event r with
            | Some (_, r') => (Some i, r')
            | None => (Some i, r)
            end
        end
  end.

Definition gth_replay_validate_event (expected_type tid : Z) (w : world) : bool * world :=
  match rt_replay (w_rt w) with
  | None => (true, w)
  | Some r =>
      match gth_replay_peek_event r with
      | None => (false, set_replay (Some (gth_replay_mark_diverged r)) w)
      | Some e =>
          if negb (rec_type e =? expected_type) || negb (rec_tid e =? tid)
          then (false, set_replay (Some (gth_replay_mark_diverged r)) w)
          else match gth_replay_next_event r with
               | Some (_, r') => (true, set_replay (Some r') w)
               | None => (true, w)
               end
      end
  end.

(** ** Trace files *)

(** The file made of a header and records. *)
Definition trace_file (h : gth_trace_header_t) (rs : list gth_trace_record_t) : list Z :=
  header_bytes h ++ concat (record_bytes <$> rs).

Lemma length_records rs : length (concat (record_bytes <$> rs)) = (length rs * GTH_TRACE_RECORD_SIZE)%nat.
Proof.
  induction rs as [|r rs IH]; [done|]. cbn [fmap list_fmap concat].
  rewrite length_app, IH, length_record_bytes. cbn [length]. lia.
Qed.

Lemma length_trace_file h rs :
  length (trace_file h rs) = (GTH_TRACE_HEADER_SIZE + length rs * GTH_TRACE_RECORD_SIZE)%nat.
Proof. unfold trace_file. by rewrite length_app, length_records, length_header_bytes. Qed.

Lemma drop_records rs : ∀ i,
  drop (i * GTH_TRACE_RECORD_SIZE) (concat (record_bytes <$> rs)) = concat (record_bytes <$> drop i rs).
Proof.
  induction rs as [|r rs IH]; intros [|i]; try done.
  cbn [Nat.mul drop fmap list_fmap concat].
  rewrite <- drop_drop, drop_app_length' by (by rewrite length_record_bytes). apply IH.
Qed.

Lemma record_bytes_at h rs i r : rs !! i = Some r →
  take GTH_TRACE_RECORD_SIZE
    (drop (GTH_TRACE_HEADER_SIZE + i * GTH_TRACE_RECORD_SIZE) (trace_file h rs)) = record_bytes r.
Proof.
  intros Hi. unfold trace_file.
  rewrite <- drop_drop, drop_app_length' by (by rewrite length_header_bytes).
  rewrite drop_records, (drop_S _ r) by done. cbn [fmap list_fmap concat].
  by rewrite take_app_length' by (by rewrite length_record_bytes).
Qed.

Lemma record_at_file h rs i r :
  rs !! i = Some r → record_fits r → record_at (trace_file h rs) i = r.
Proof.
  intros Hi Hr. unfold record_at. rewrite (record_bytes_at h rs i r Hi). by apply record_of_bytes_bytes.
Qed.

Lemma header_of_file h rs : header_fits h → header_of_bytes (trace_file h rs) = h.
Proof.
  intros Hh. rewrite <- (header_of_bytes_bytes h Hh) at 2. unfold trace_file, header_of_bytes, field.
  f_equal; f_equal; (rewrite drop_app_le by (rewrite length_header_bytes; unfold GTH_TRACE_HEADER_SIZE; lia));
    rewrite take_app_le; try done; rewrite length_drop, length_header_bytes; unfold GTH_TRACE_HEADER_SIZE; lia.
Qed.

Lemma forallb_seq (p : nat → bool) n : forallb p (seq 0 n) = true ↔ ∀ i, (i < n)%nat → p i = true.
Proof.
  rewrite forallb_forall. split; intros H i.
  - intros Hi. apply H, in_seq. lia.
  - intros Hi%in_seq. apply H. lia.
Qed.

(** A record as the recorder writes it. *)
Definition good_record (r : gth_trace_record_t) : Prop :=
  record_fits r ∧ gth_trace_validate_record r = true.

Definition good_header (h : gth_trace_header_t) : Prop :=
  header_fits h ∧ hd_magic h = GTH_TRACE_MAGIC ∧ hd_version h = GTH_TRACE_VERSION.

Lemma validate_good_header h : good_header h → gth_replay_validate_header h = true.
Proof. intros (_ & E1 & E2). unfold gth_replay_validate_header. by rewrite E1, E2. Qed.

(** The number of whole records in the file. *)
Lemma record_count_file h rs :
  ((length (trace_file h rs) - GTH_TRACE_HEADER_SIZE) / GTH_TRACE_RECORD_SIZE)%nat = length rs.
Proof.
  rewrite length_trace_file.
  replace (GTH_TRACE_HEADER_SIZE + length rs * GTH_TRACE_RECORD_SIZE - GTH_TRACE_HEADER_SIZE)%nat
    with (length rs * GTH_TRACE_RECORD_SIZE)%nat by lia.
  by apply Nat.div_mul.
Qed.

Lemma count_records_file h rs :
  good_header h → Forall good_record rs → gth_replay_count_records (trace_file h rs) = length rs.
Proof.
  intros Hh Hrs. unfold gth_replay_count_records.
  destruct (Nat.ltb_spec (length (trace_file h rs)) GTH_TRACE_HEADER_SIZE) as [Hlt|_].
  { rewrite length_trace_file in Hlt. lia. }
  rewrite header_of_file, validate_good_header, record_count_file by (done || apply Hh). cbn [negb].
  destruct (forallb _ _) eqn:E; [done|]. exfalso. apply not_true_iff_false in E. apply E, forallb_seq.
  intros i Hi. destruct (rs !! i) as [r|] eqn:Hr; [|apply lookup_ge_None in Hr; lia].
  destruct (Forall_lookup_1 _ _ _ _ Hrs Hr) as [Hf Hv]. by rewrite (record_at_file h rs i r).
Qed.

(** Reading back a trace file: a header followed by any number of
    records with correct checksums is accepted with exactly those records, in
    order. *)
Theorem trace_file_roundtrip h rs :
  good_header h → Forall good_record rs →
  gth_replay_count_records (trace_file h rs) = length rs ∧
  ∀ i, (i < length rs)%nat → Some (record_at (trace_file h rs) i) = rs !! i.
Proof.
  intros Hh Hrs. split; [by apply count_records_file|]. intros i Hi.
  destruct (rs !! i) as [r|] eqn:Hr; [|apply lookup_ge_None in Hr; lia].
  f_equal. apply record_at_file; [done|]. by destruct (Forall_lookup_1 _ _ _ _ Hrs Hr).
Qed.

(** A header and two records: thread 1 is created and switched to. *)
Definition sample_header : gth_trace_header_t :=
  mk_header GTH_TRACE_MAGIC GTH_TRACE_VERSION 1700000000000000000 2500000000 0 0.
Definition checked (r : gth_trace_record_t) : gth_trace_record_t :=
  {| r with rec_checksum := gth_trace_calc_checksum r |}.
Definition sample_records : list gth_trace_record_t :=
  [checked (mk_record 1000 GTH_EVT_THREAD_CREATE 0 1 0 0 0 0);
   checked (mk_record 1001 GTH_EVT_CONTEXT_SWITCH 0 0 0 1 0 0)].

Lemma sample_header_good : good_header sample_header.
Proof. split_and!; [|done..]. constructor; by vm_compute. Qed.

Lemma checked_good r : record_fits r → good_record (checked r).
Proof.
  intros [H1 H2 H3 H4 H5 H6 H7 H8]. split.
  - constructor; try done. apply checksum_fits.
  - unfold gth_trace_validate_record, checked. rewrite checksum_ignores_checksum. apply Z.eqb_refl.
Qed.

Lemma sample_records_good : Forall good_record sample_records.
Proof. do 2 (constructor; [apply checked_good; constructor; by vm_compute|]). constructor. Qed.

Lemma trace_file_roundtrip_witness :
  gth_replay_count_records (trace_file sample_header sample_records) = 2%nat.
Proof. exact (proj1 (trace_file_roundtrip _ _ sample_header_good sample_records_good)). Defined.

Lemma trace_file_bytes h rs : Forall is_byte (trace_file h rs).
Proof.
  apply Forall_app. split; [apply header_bytes_are_bytes|].
  induction rs as [|r rs IH]; [constructor|]. cbn [fmap list_fmap concat].
  apply Forall_app. split; [apply record_bytes_are_bytes|done].
Qed.

Lemma corrupted_header_rejected h rs k b old :
  good_header h → trace_file h rs !! k = Some old → is_byte b → b ≠ old → (k < 8)%nat →
  gth_replay_validate_header (header_of_bytes (<[k := b]> (trace_file h rs))) = false.
Proof.
  intros Hh Hk Hb Hne Hlt. pose proof (trace_file_bytes h rs) as Hbs.
  pose proof (header_of_file h rs (proj1 Hh)) as Eh. destruct Hh as (_ & Em & Ev).
  rewrite <- Eh in Em, Ev. unfold gth_replay_validate_header.
  destruct (decide (k < 4)%nat) as [Hk4|Hk4].
  - pose proof (field_corrupted 0 4 _ k b old Hbs Hk Hb Hne ltac:(lia)) as Hf.
    change (field 0 4 (<[k:=b]> (trace_file h rs)))
      with (hd_magic (header_of_bytes (<[k:=b]> (trace_file h rs)))) in Hf.
    destruct (Z.eqb_spec (hd_magic (header_of_bytes (<[k:=b]> (trace_file h rs)))) GTH_TRACE_MAGIC); [|done].
    exfalso. apply Hf. by rewrite e, <- Em.
  - pose proof (field_corrupted 4 4 _ k b old Hbs Hk Hb Hne ltac:(lia)) as Hf.
    change (field 4 4 (<[k:=b]> (trace_file h rs)))
      with (hd_version (header_of_bytes (<[k:=b]> (trace_file h rs)))) in Hf.
    destruct (negb _); [done|].
    destruct (Z.eqb_spec (hd_version (header_of_bytes (<[k:=b]> (trace_file h rs)))) GTH_TRACE_VERSION); [|done].
    exfalso. apply Hf. by rewrite e, <- Ev.
Qed.

Lemma corrupted_record_rejected h rs i j b old :
  Forall good_record rs → (i < length rs)%nat → (j < GTH_TRACE_RECORD_SIZE)%nat →
  trace_file h rs !! (GTH_TRACE_HEADER_SIZE + i * GTH_TRACE_RECORD_SIZE + j)%nat = Some old →
  is_byte b → b ≠ old →
  gth_trace_validate_record (record_at
    (<[(GTH_TRACE_HEADER_SIZE + i * GTH_TRACE_RECORD_SIZE + j)%nat := b]> (trace_file h rs)) i) = false.
Proof.
  intros Hrs Hi Hj Hk Hb Hne. set (off := (GTH_TRACE_HEADER_SIZE + i * GTH_TRACE_RECORD_SIZE)%nat) in *.
  destruct (rs !! i) as [r|] eqn:Hr; [|apply lookup_ge_None in Hr; lia].
  destruct (Forall_lookup_1 _ _ _ _ Hrs Hr) as [Hf Hv].
  pose proof (record_bytes_at h rs i r Hr) as Hat. fold off in Hat.
  unfold record_at. fold off. rewrite drop_insert_ge, take_insert_lt by lia.
  replace (off + j - off)%nat with j by lia. rewrite Hat.
  apply (single_byte_corruption_detected _ _ old); auto using record_bytes_are_bytes, length_record_bytes.
  - by rewrite record_of_bytes_bytes.
  - by rewrite <- Hat, lookup_take_lt, lookup_drop by done.
Qed.

(** C29. Corruption is detected: changing any one byte of a trace file other
    than the creation time, clock frequency and reserved words of the header
    makes the whole file be rejected. *)
Theorem corrupted_file_rejected h rs k b old :
  good_header h → Forall good_record rs →
  trace_file h rs !! k = Some old → is_byte b → b ≠ old →
  (k < 8 ∨ GTH_TRACE_HEADER_SIZE ≤ k)%nat →
  gth_replay_count_records (<[k := b]> (trace_file h rs)) = 0%nat.
Proof.
  intros Hh Hrs Hk Hb Hne Hpos. unfold gth_replay_count_records. rewrite length_insert.
  destruct (Nat.ltb_spec (length (trace_file h rs)) GTH_TRACE_HEADER_SIZE); [done|].
  destruct (decide (k < 8)%nat) as [Hlt|Hge]; [by rewrite (corrupted_header_rejected h rs k b old)|].
  destruct (negb _); [done|]. rewrite record_count_file.
  destruct (forallb _ _) eqn:E; [|done]. exfalso. rewrite forallb_seq in E.
  pose proof (lookup_lt_Some _ _ _ Hk) as Hlen. rewrite length_trace_file in Hlen.
  set (i := ((k - GTH_TRACE_HEADER_SIZE) / GTH_TRACE_RECORD_SIZE)%nat).
  set (j := ((k - GTH_TRACE_HEADER_SIZE) mod GTH_TRACE_RECORD_SIZE)%nat).
  assert (Hj : (j < GTH_TRACE_RECORD_SIZE)%nat) by (apply Nat.mod_upper_bound; done).
  assert (Ek : k = (GTH_TRACE_HEADER_SIZE + i * GTH_TRACE_RECORD_SIZE + j)%nat).
  { pose proof (Nat.div_mod_eq (k - GTH_TRACE_HEADER_SIZE) GTH_TRACE_RECORD_SIZE).
    fold i j in H0. lia. }
  assert (Hi : (i < length rs)%nat) by (apply Nat.Div0.div_lt_upper_bound; lia).
  specialize (E i Hi). rewrite Ek in *.
  by rewrite (corrupted_record_rejected h rs i j b old) in E.
Qed.

Lemma corrupted_file_rejected_witness :
  gth_replay_count_records (<[50%nat := 7]> (trace_file sample_header sample_records)) = 0%nat.
Proof.
  apply (corrupted_file_rejected sample_header sample_records 50 7 0).
  - exact sample_header_good.
  - exact sample_records_good.
  - vm_compute. reflexivity.
  - vm_compute. split; congruence.
  - congruence.
  - right. vm_compute. lia.
Defined.

(** ** The cursor *)

Definition is_switch (data : list Z) (i : nat) : bool :=
  rec_type (record_at data i) =? GTH_EVT_CONTEXT_SWITCH.

Definition move_cursor (r : gth_replay_state_t) (k : nat) (ts : Z) : gth_replay_state_t :=
  {| r with rp_current_idx := k; rp_last_timestamp := ts |}.

Lemma move_cursor_id r : move_cursor r (rp_current_idx r) (rp_last_timestamp r) = r.
Proof. by destruct r. Qed.

(** The loop stops at the first context switch, or at the end. *)
Lemma skip_to_switch_spec n : ∀ r,
  n = (rp_event_count r - rp_current_idx r)%nat → (rp_current_idx r ≤ rp_event_count r)%nat →
  ∃ k ts, skip_to_switch n r = move_cursor r k ts ∧
    (rp_current_idx r ≤ k ≤ rp_event_count r)%nat ∧
    (∀ j, (rp_current_idx r ≤ j < k)%nat → is_switch (rp_events r) j = false) ∧
    ((k < rp_event_count r)%nat → is_switch (rp_events r) k = true).
Proof.
  induction n as [|n IH]; intros r Hn Hle; cbn [skip_to_switch].
  { exists (rp_current_idx r), (rp_last_timestamp r). rewrite move_cursor_id. split_and!; auto; lia. }
  unfold gth_replay_peek_event, gth_replay_next_event.
  destruct (Nat.leb_spec (rp_event_count r) (rp_current_idx r)); [lia|].
  fold (is_switch (rp_events r) (rp_current_idx r)).
  destruct (is_switch (rp_events r) (rp_current_idx r)) eqn:E.
  - exists (rp_current_idx r), (rp_last_timestamp r). rewrite move_cursor_id. split_and!; auto; lia.
  - set (r1 := {| r with rp_last_timestamp := _; rp_current_idx := _ |}).
    destruct (IH r1) as (k & ts & -> & Hk & Hno & Hyes); cbn in *; [lia..|].
    exists k, ts. split_and!; auto; try lia. intros j Hj.
    destruct (decide (j = rp_current_idx r)) as [->|]; [done|]. apply Hno. lia.
Qed.

(** The thread a recorded switch names. *)
Definition switch_target (data : list Z) (i : nat) : Z :=
  Z.land (rec_data_raw (record_at data i)) 0xFFFFFFFF.

Lemma replay_find_thread_Some s tid i :
  gth_replay_find_thread s tid = Some i →
  ∃ t, rt_threads s !! i = Some t ∧ th_tid t = tid ∧
    (th_state t = GTH_THREAD_READY ∨ th_state t = GTH_THREAD_RUNNING).
Proof.
  unfold gth_replay_find_thread. destruct (tid =? 0); [done|].
  destruct (gth_runtime_find_thread s tid) as [k|] eqn:E; cbn; [|done].
  apply find_thread_Some in E as (t & Ht & _ & Htid). rewrite Ht. cbn.
  destruct (th_state t) eqn:Hs; try done; intros [= <-]; eauto.
Qed.

Lemma replay_next_thread_cases s r :
  (rp_current_idx r ≤ rp_event_count r)%nat →
  ∃ k ts, (rp_current_idx r ≤ k ≤ rp_event_count r)%nat ∧
    (∀ j, (rp_current_idx r ≤ j < k)%nat → is_switch (rp_events r) j = false) ∧
    ((k < rp_event_count r)%nat → is_switch (rp_events r) k = true) ∧
    gth_replay_next_thread s r =
      if (k <? rp_event_count r)%nat then
        match gth_replay_find_thread s (switch_target (rp_events r) k) with
        | Some i => (Some i, move_cursor r (S k) (rec_timestamp (record_at (rp_events r) k)))
        | None => (None, gth_replay_mark_diverged (move_cursor r k ts))
        end
      else (None, move_cursor r k ts).
Proof.
  intros Hle. destruct (skip_to_switch_spec _ r eq_refl Hle) as (k & ts & E & Hk & Hno & Hyes).
  exists k, ts. split_and!; auto; try lia. unfold gth_replay_next_thread. rewrite E.
  unfold gth_replay_peek_event, gth_replay_next_event, move_cursor.
  cbn [rp_event_count rp_current_idx rp_events].
  destruct (Nat.leb_spec (rp_event_count r) k), (Nat.ltb_spec k (rp_event_count r)); try lia; [done|].
  specialize (Hyes ltac:(lia)). unfold is_switch in Hyes. rewrite Hyes. cbn [negb]. unfold switch_target.
  by destruct (gth_replay_find_thread s _).
Qed.

(** C28. The replayed choice follows the trace: the cursor moves to the next
    recorded context switch; if the thread it names exists and is ready (or
    running) that thread is chosen and the switch consumed; if not, replay is
    marked diverged and the switch kept; at the end of the trace nothing is
    chosen. *)
Theorem replay_follows_trace s r :
  (rp_current_idx r ≤ rp_event_count r)%nat →
  let '(choice, r') := gth_replay_next_thread s r in
  rp_events r' = rp_events r ∧ rp_event_count r' = rp_event_count r ∧
  ∃ k, (rp_current_idx r ≤ k ≤ rp_event_count r)%nat ∧
    (∀ j, (rp_current_idx r ≤ j < k)%nat → is_switch (rp_events r) j = false) ∧
    match choice with
    | Some i => (k < rp_event_count r)%nat ∧ is_switch (rp_events r) k = true ∧
        rp_current_idx r' = S k ∧ rp_diverged r' = rp_diverged r ∧
        ∃ t, rt_threads s !! i = Some t ∧ th_tid t = switch_target (rp_events r) k ∧
          (th_state t = GTH_THREAD_READY ∨ th_state t = GTH_THREAD_RUNNING)
    | None => rp_current_idx r' = k ∧
        (k = rp_event_count r ∧ rp_diverged r' = rp_diverged r ∨
         (k < rp_event_count r)%nat ∧ is_switch (rp_events r) k = true ∧ rp_diverged r' = true ∧
         gth_replay_find_thread s (switch_target (rp_events r) k) = None)
    end.
Proof.
  intros Hle. destruct (replay_next_thread_cases s r Hle) as (k & ts & Hk & Hno & Hyes & ->).
  destruct (Nat.ltb_spec k (rp_event_count r)) as [Hlt|Hge].
  - destruct (gth_replay_find_thread s _) as [i|] eqn:E.
    + apply replay_find_thread_Some in E. split_and!; [done..|]. exists k. split_and!; auto; lia.
    + split_and!; [done..|]. exists k. split_and!; auto; lia.
  - split_and!; [done..|]. exists k. split_and!; auto; try lia. left. split; [lia|done].
Qed.

(** A table with thread 1 ready, and the sample trace at its start. *)
Definition one_ready : gth_runtime_state_t :=
  {| rt_zero with rt_threads :=
     {| thread_zero with th_tid := 1; th_state := GTH_THREAD_READY |} :: replicate 127 thread_zero |}.
Definition sample_replay : gth_replay_state_t :=
  mk_replay (trace_file sample_header sample_records) 2 0 false 0.

Lemma replay_follows_trace_witness :
  let '(choice, r') := gth_replay_next_thread one_ready sample_replay in
  choice = Some 0%nat ∧ rp_current_idx r' = 2%nat ∧ rp_event_count r' = rp_event_count sample_replay.
Proof.
  pose proof (replay_follows_trace one_ready sample_replay ltac:(vm_compute; lia)) as H.
  destruct (gth_replay_next_thread one_ready sample_replay) as [choice r'] eqn:E.
  destruct H as (_ & -> & _). vm_compute in E. injection E as <- <-. repeat split.
Defined.

(** Reading a file back works. *)
Definition os_reads (os : OS) : Prop := (∀ n, os_malloc os n = true) ∧ (∀ n, os_fread os n = true).

(** The world in which [gth_replay_from] leaves the program. *)
Definition replaying (data : list Z) (n : nat) (w : world) : world :=
  upd_rt (λ s, {| s with rt_replay := Some (mk_replay data n 0 false 0); rt_mode := GTH_MODE_REPLAY;
                         rt_trace_enabled := false |}) {| w with w_tick := 3 + w_tick w |}.

(** A file of acceptable size whose records are all valid is loaded. *)
Lemma replay_from_loads path data n w :
  rt_initialized (w_rt w) = true → rt_replay (w_rt w) = None → os_reads (w_os w) → path ≠ EmptyString →
  w_files w !! path = Some data → (GTH_TRACE_HEADER_SIZE ≤ length data)%nat →
  Z.of_nat (length data) ≤ GTH_REPLAY_MAX_FILE_SIZE → gth_replay_count_records data = n → n ≠ 0%nat →
  gth_replay_from (Some path) w = Done (GTH_OK, replaying data n w).
Proof.
  intros Hini Hrep [Hma Hfr] Hpath Hf Hmin Hmax Hn Hne. unfold gth_replay_from.
  rewrite Hini, bool_decide_eq_false_2 by done. cbn [negb]. unfold bind, gth_replay_init.
  rewrite Hini, bool_decide_eq_false_2, Hrep by done. cbn [negb]. unfold bind, gth_replay_read_file. rewrite Hf.
  destruct (Z.ltb_spec (Z.of_nat (length data)) (Z.of_nat GTH_TRACE_HEADER_SIZE)); [lia|].
  destruct (Z.ltb_spec GTH_REPLAY_MAX_FILE_SIZE (Z.of_nat (length data))); [lia|].
  unfold bind, malloc, next_tick. rewrite Hma. cbn [negb w_os w_tick]. rewrite Hfr, Hn.
  destruct (Nat.eqb_spec n 0); [done|]. cbn [w_os w_tick]. rewrite Hma. done.
Qed.

(** A longer one is refused. *)
Lemma replay_from_too_long path data w :
  rt_initialized (w_rt w) = true → rt_replay (w_rt w) = None → path ≠ EmptyString →
  w_files w !! path = Some data → GTH_REPLAY_MAX_FILE_SIZE < Z.of_nat (length data) →
  gth_replay_from (Some path) w = Done (GTH_ENOTFOUND, w).
Proof.
  intros Hini Hrep Hpath Hf Hmax. unfold gth_replay_from.
  rewrite Hini, bool_decide_eq_false_2 by done. cbn [negb]. unfold bind, gth_replay_init.
  rewrite Hini, bool_decide_eq_false_2, Hrep by done. cbn [negb]. unfold bind, gth_replay_read_file. rewrite Hf.
  destruct (_ <? _); [done|].
  destruct (Z.ltb_spec GTH_REPLAY_MAX_FILE_SIZE (Z.of_nat (length data))); [done|lia].
Qed.

(** Loading a trace succeeds only for an existing file of acceptable size
    with a valid header, whose records, at least one, all have correct
    checksums; the cursor starts at the first record and every record it can
    reach lies inside the loaded bytes. *)
Theorem replay_init_sound path w w' :
  gth_replay_init (Some path) w = Done (GTH_OK, w') →
  ∃ data n, w_files w !! path = Some data ∧ w_files w' = w_files w ∧
    Z.of_nat (length data) ≤ GTH_REPLAY_MAX_FILE_SIZE ∧
    rt_replay (w_rt w') = Some (mk_replay data n 0 false 0) ∧
    (0 < n)%nat ∧ gth_replay_validate_header (header_of_bytes data) = true ∧
    (∀ i, (i < n)%nat → gth_trace_validate_record (record_at data i) = true) ∧
    (GTH_TRACE_HEADER_SIZE + n * GTH_TRACE_RECORD_SIZE ≤ length data)%nat.
Proof.
  unfold gth_replay_init. destruct (negb _); [done|]. case_bool_decide; [done|].
  destruct (rt_replay (w_rt w)); [done|]. unfold gth_replay_read_file, bind, malloc, next_tick.
  destruct (w_files w !! path) as [data|] eqn:Hf; [|done].
  destruct (Z.ltb_spec (Z.of_nat (length data)) (Z.of_nat GTH_TRACE_HEADER_SIZE)) as [|Hmin]; [done|].
  destruct (Z.ltb_spec GTH_REPLAY_MAX_FILE_SIZE (Z.of_nat (length data))) as [|Hmax]; [done|].
  destruct (os_malloc _ _); cbn -[gth_replay_count_records]; [|done].
  destruct (os_fread _ _); cbn -[gth_replay_count_records]; [|done].
  set (n := gth_replay_count_records data).
  destruct (Nat.eqb_spec n 0) as [|Hn]; [done|].
  destruct (os_malloc _ _); cbn -[gth_replay_count_records]; [|done].
  intros [= <-]. exists data, n. cbn. split_and!; auto; [lia|..]; subst n;
    unfold gth_replay_count_records in *; destruct (_ <? _)%nat; try done;
    destruct (gth_replay_validate_header _); cbn [negb] in *; try done;
    destruct (forallb _ _) eqn:E; try done.
  - by rewrite forallb_seq in E.
  - pose proof (Nat.Div0.mul_div_le (length data - GTH_TRACE_HEADER_SIZE) GTH_TRACE_RECORD_SIZE).
    unfold GTH_TRACE_HEADER_SIZE, GTH_TRACE_RECORD_SIZE in *. lia.
Qed.

(** The sample trace on disk. *)
Definition sample_world : world :=
  mk_world {| rt_zero with rt_initialized := true |} ∅ ∅ ∅
    {[ "trace.bin"%string := trace_file sample_header sample_records ]} ∅ 0 sunny_os 0 0.

Lemma replay_init_sound_witness :
  ∃ w', gth_replay_init (Some "trace.bin"%string) sample_world = Done (GTH_OK, w') ∧
    ∃ data n, w_files sample_world !! "trace.bin"%string = Some data ∧
      rt_replay (w_rt w') = Some (mk_replay data n 0 false 0) ∧ (0 < n)%nat.
Proof.
  destruct (result_of_Done (gth_replay_init (Some "trace.bin"%string) sample_world) GTH_OK)
    as [w' E]; [vm_compute; reflexivity|].
  destruct (replay_init_sound _ _ _ E) as (data & n & H1 & _ & _ & H2 & H3 & _).
  exists w'. split; [exact E|]. exists data, n. split; [exact H1|]. split; [exact H2|exact H3].
Defined.
