(* ===== verification/Fuzz.v ===== *)
(** * Schedule fuzzing (src/src/trace/fuzz.c)

    The pseudo-random generator, unbiased range sampling by rejection, and
    the perturbation of scheduling decisions. *)

From S2P Require Import Prelude WaitQueue TraceFormat State.

Definition XSHIFT_ROT1 : Z := 23.
Definition XSHIFT_ROT2 : Z := 17.
Definition XSHIFT_ROT3 : Z := 26.
Definition XSHIFT_PLUS : Z := 0x9E3779B97F4A7C15.
Definition GTH_FUZZ_DEFAULT_PERTURBATION_RATE : Z := 10.
Definition GTH_FUZZ_WARMUP_DECISIONS : Z := 5.

Definition gth_fuzz_seed (f : gth_fuzz_state_t) (seed : Z) : gth_fuzz_state_t :=
  let z := u64 (seed + XSHIFT_PLUS) in
  let s0 := u64 (Z.lxor z (Z.shiftr z 30) * 0xBF58476D1CE4E5B9) in
  let s1 := u64 (s0 + XSHIFT_PLUS) in
  {| f with fz_state0 := Z.lxor s0 (Z.shiftr z 33); fz_state1 := s1 |}.

(** The value drawn and the new state. *)
Definition gth_fuzz_xorshift128plus (f : gth_fuzz_state_t) : Z * gth_fuzz_state_t :=
  let s0 := fz_state0 f in
  let s1 := Z.lxor (fz_state1 f) (u64 (Z.shiftl (fz_state1 f) XSHIFT_ROT1)) in
  let n1 := Z.lxor (Z.lxor (fz_state1 f) (Z.shiftr (fz_state1 f) XSHIFT_ROT3))
                   (Z.lxor s1 (Z.shiftr s1 XSHIFT_ROT2)) in
  (u64 (n1 + s0), {| f with fz_state0 := s1; fz_state1 := n1 |}).

Definition set_fuzz (f : option gth_fuzz_state_t) : world → world :=
  upd_rt (λ s, {| s with rt_fuzz := f |}).

Definition gth_fuzz_init (seed : Z) : M gth_status_t := λ w,
  if negb (rt_initialized (w_rt w)) then Done (GTH_ESTATE, w)
  else match rt_fuzz (w_rt w) with
  | Some _ => Done (GTH_ESTATE, w)
  | None =>
      (ok <- malloc;;
       if negb ok then ret GTH_ENOMEM
       else
         modify (set_fuzz (Some (gth_fuzz_seed
           (mk_fuzz 0 0 seed 0 GTH_FUZZ_DEFAULT_PERTURBATION_RATE) seed)));;
         ret GTH_OK) w
  end.

Definition gth_fuzz_cleanup (w : world) : world := set_fuzz None w.

Definition gth_fuzz_random (w : world) : Z * world :=
  match rt_fuzz (w_rt w) with
  | None => (0, w)
  | Some f => let '(v, f') := gth_fuzz_xorshift128plus f in (v, set_fuzz (Some f') w)
  end.

(** The mask computed by [gth_fuzz_random_range]. *)
Definition range_mask (max : Z) : Z :=
  let m := max - 1 in
  let m := Z.lor m (Z.shiftr m 1) in
  let m := Z.lor m (Z.shiftr m 2) in
  let m := Z.lor m (Z.shiftr m 4) in
  let m := Z.lor m (Z.shiftr m 8) in
  let m := Z.lor m (Z.shiftr m 16) in
  Z.lor m (Z.shiftr m 32).

(** The rejection loop: draw until the masked value is below [max]. *)
Fixpoint rejection_loop (fuel : nat) (f : gth_fuzz_state_t) (mask max : Z)
    : outcome (Z * gth_fuzz_state_t) :=
  match fuel with
  | O => NoFuel
  | S fuel' =>
      let '(v, f') := gth_fuzz_xorshift128plus f in
      let result := Z.land v mask in
      if max <=? result then rejection_loop fuel' f' mask max else Done (result, f')
  end.

Definition gth_fuzz_random_range (fuel : nat) (f : gth_fuzz_state_t) (max : Z)
    : outcome (Z * gth_fuzz_state_t) :=
  if max =? 0 then Done (0, f) else rejection_loop fuel f (range_mask max) max.

Definition gth_fuzz_should_perturb (f : gth_fuzz_state_t) : bool * gth_fuzz_state_t :=
  let f := {| f with fz_decision_count := u64 (fz_decision_count f + 1) |} in
  if fz_decision_count f <=? GTH_FUZZ_WARMUP_DECISIONS then (false, f)
  else
    let '(v, f) := gth_fuzz_xorshift128plus f in
    (v mod 100 <? fz_perturbation_rate f, f).

Definition gth_fuzz_count_ready_threads (s : gth_runtime_state_t) : Z :=
  countb is_ready (rt_threads s).

(** The loop of [gth_fuzz_pick_alternative]: the [target]-th ready slot other
    than [exclude]; [i] is the slot of the head of [ts]. *)
Fixpoint pick_nth_ready (ts : list gth_thread_record_t) (i exclude : nat) (current target : Z)
    : option nat :=
  match ts with
  | [] => None
  | t :: ts' =>
      if negb (is_ready t) then pick_nth_ready ts' (S i) exclude current target
      else if (i =? exclude)%nat then pick_nth_ready ts' (S i) exclude current target
      else if current =? target then Some i
      else pick_nth_ready ts' (S i) exclude (current + 1) target
  end.

Definition gth_fuzz_pick_alternative (fuel : nat) (s : gth_runtime_state_t)
    (f : gth_fuzz_state_t) (exclude : nat) : outcome (nat * gth_fuzz_state_t) :=
  let ready_count := gth_fuzz_count_ready_threads s in
  if ready_count <=? 1 then Done (exclude, f)
  else
    match gth_fuzz_random_range fuel f ready_count with
    | Done (target_idx, f) =>
        match pick_nth_ready (rt_threads s) 0 exclude 0 target_idx with
        | Some i => Done (i, f)
        | None => Done (exclude, f)
        end
    | Undef => Undef
    | NoFuel => NoFuel
    end.

(** [normal_choice] and the result are slots, [None] for NULL; the caller has
    checked that fuzzing is on. *)
Definition gth_fuzz_pick_thread (fuel : nat) (s : gth_runtime_state_t) (f : gth_fuzz_state_t)
    (normal_choice : option nat) : outcome (option nat * gth_fuzz_state_t) :=
  match normal_choice with
  | None => Done (None, f)
  | Some c =>
      let '(perturb, f) := gth_fuzz_should_perturb f in
      if negb perturb then Done (Some c, f)
      else match gth_fuzz_pick_alternative fuel s f c with
           | Done (i, f) => Done (Some i, f)
           | Undef => Undef
           | NoFuel => NoFuel
           end
  end.

(** The out-parameter is [decision_count], [perturbation_rate]. *)
Definition gth_fuzz_get_stats (out_nonnull : bool) (w : world) : resp :=
  if negb out_nonnull then status GTH_EINVAL
  else if negb (rt_initialized (w_rt w)) then status GTH_ESTATE
  else match rt_fuzz (w_rt w) with
  | None => status GTH_ESTATE
  | Some f => mk_resp GTH_OK [fz_decision_count f; fz_perturbation_rate f]
  end.

Definition gth_fuzz_set_rate (rate : Z) : M gth_status_t := λ w,
  if negb (rt_initialized (w_rt w)) then Done (GTH_ESTATE, w)
  else match rt_fuzz (w_rt w) with
  | None => Done (GTH_ESTATE, w)
  | Some f =>
      if 100 <? rate then Done (GTH_EINVAL, w)
      else Done (GTH_OK, set_fuzz (Some {| f with fz_perturbation_rate := rate |}) w)
  end.

(** ** The range mask *)

(** [x] is [m] with every set bit smeared over the [n] positions down from it. *)
Definition smeared (m : Z) (n : Z) (x : Z) : Prop :=
  ∀ i, 0 ≤ i → Z.testbit x i = true ↔ ∃ d, 0 ≤ d < n ∧ Z.testbit m (i + d) = true.

Lemma smeared_1 m : smeared m 1 m.
Proof.
  intros i Hi. split.
  - intros H. exists 0. by rewrite Z.add_0_r.
  - intros (d & Hd & H). by replace (i + d) with i in H by lia.
Qed.

Lemma smeared_double m n x : 0 < n → smeared m n x → smeared m (2 * n) (Z.lor x (Z.shiftr x n)).
Proof.
  intros Hn H i Hi. rewrite Z.lor_spec, Z.shiftr_spec, orb_true_iff by lia.
  rewrite (H i Hi), (H (i + n)) by lia. split.
  - intros [(d & Hd & E)|(d & Hd & E)].
    + exists d. split; [lia|done].
    + exists (n + d). split; [lia|]. by rewrite Z.add_assoc.
  - intros (d & Hd & E). destruct (decide (d < n)).
    + left. exists d. split; [lia|done].
    + right. exists (d - n). split; [lia|]. by replace (i + n + (d - n)) with (i + d) by lia.
Qed.

Lemma range_mask_smeared max : smeared (max - 1) 64 (range_mask max).
Proof.
  unfold range_mask. change 64 with (2 * (2 * (2 * (2 * (2 * (2 * 1)))))).
  do 6 (apply smeared_double; [lia|]). apply smeared_1.
Qed.

(** The mask is the smallest [2^k - 1] that covers [0, max). *)
Lemma range_mask_ones max : 1 ≤ max ≤ 2 ^ 64 → range_mask max = Z.ones (Z.log2_up max).
Proof.
  intros Hmax. apply Z.bits_inj'. intros i Hi.
  apply eq_true_iff_eq. rewrite (range_mask_smeared max i Hi).
  destruct (decide (max = 1)) as [->|Hne].
  { change (Z.log2_up 1) with 0. rewrite Z.ones_spec_high by lia.
    split; [|done]. intros (d & _ & E). by rewrite Z.bits_0 in E. }
  assert (Hlog : Z.log2_up max = Z.succ (Z.log2 (max - 1))).
  { rewrite Z.log2_up_eqn by lia. by rewrite <- Z.sub_1_r. }
  assert (Hl64 : Z.log2 (max - 1) < 64) by (apply Z.log2_lt_pow2; lia).
  pose proof (Z.log2_nonneg (max - 1)). rewrite Hlog. split.
  - intros (d & Hd & E). apply Z.ones_spec_low.
    destruct (decide (i + d ≤ Z.log2 (max - 1))); [lia|].
    rewrite Z.bits_above_log2 in E by lia. done.
  - intros E. destruct (decide (i < Z.succ (Z.log2 (max - 1)))) as [Hlt|Hge].
    + exists (Z.log2 (max - 1) - i). split; [lia|].
      replace (i + (Z.log2 (max - 1) - i)) with (Z.log2 (max - 1)) by lia. apply Z.bit_log2. lia.
    + rewrite Z.ones_spec_high in E by lia. done.
Qed.

Lemma range_mask_land max v : 1 ≤ max ≤ 2 ^ 64 → Z.land v (range_mask max) = v mod 2 ^ Z.log2_up max.
Proof. intros. rewrite range_mask_ones by done. apply Z.land_ones, Z.log2_up_nonneg. Qed.

(** ** Rejection sampling *)

(** The state after [n] draws, and the next masked draw. *)
Fixpoint draws (n : nat) (f : gth_fuzz_state_t) : gth_fuzz_state_t :=
  match n with O => f | S n' => draws n' (snd (gth_fuzz_xorshift128plus f)) end.

Definition masked_draw (mask : Z) (n : nat) (f : gth_fuzz_state_t) : Z :=
  Z.land (fst (gth_fuzz_xorshift128plus (draws n f))) mask.

Lemma masked_draw_nonneg mask n f : 0 ≤ masked_draw mask n f.
Proof. apply Z.land_nonneg. left. cbn [fst gth_fuzz_xorshift128plus]. by apply wrap_fits. Qed.

Lemma rejection_loop_spec fuel mask max : ∀ f,
  match rejection_loop fuel f mask max with
  | Done (v, f') => ∃ n, (n < fuel)%nat ∧ v = masked_draw mask n f ∧ v < max ∧
      f' = draws (S n) f ∧ ∀ k, (k < n)%nat → max ≤ masked_draw mask k f
  | NoFuel => ∀ k, (k < fuel)%nat → max ≤ masked_draw mask k f
  | Undef => False
  end.
Proof.
  induction fuel as [|fuel IH]; intros f; cbn [rejection_loop]; [lia|].
  destruct (gth_fuzz_xorshift128plus f) as [v f1] eqn:E.
  assert (H0 : masked_draw mask 0 f = Z.land v mask) by (unfold masked_draw; cbn [draws]; by rewrite E).
  assert (HS : ∀ k, masked_draw mask (S k) f = masked_draw mask k f1).
  { intros k. unfold masked_draw. cbn [draws]. by rewrite E. }
  destruct (Z.leb_spec max (Z.land v mask)).
  - specialize (IH f1). destruct (rejection_loop fuel f1 mask max) as [[v' f']| |]; [|done|].
    + destruct IH as (n & Hn & -> & Hv & -> & Hk). exists (S n). rewrite HS. split_and!; auto; try lia.
      * cbn [draws]. by rewrite E.
      * intros [|k] Hlt; [by rewrite H0|]. rewrite HS. apply Hk. lia.
    + intros [|k] Hlt; [by rewrite H0|]. rewrite HS. apply IH. lia.
  - exists O. split_and!; auto; try lia. cbn [draws]. by rewrite E.
Qed.

Lemma random_range_lt fuel f max v f' :
  1 ≤ max ≤ 2 ^ 64 → gth_fuzz_random_range fuel f max = Done (v, f') → 0 ≤ v < max.
Proof.
  intros Hmax. unfold gth_fuzz_random_range. destruct (Z.eqb_spec max 0); [lia|].
  intros E. pose proof (rejection_loop_spec fuel (range_mask max) max f) as H. rewrite E in H.
  destruct H as (k & _ & -> & Hv & _). split; [|done]. unfold masked_draw.
  rewrite range_mask_land by done. apply Z.mod_pos_bound, Z.pow_pos_nonneg; [lia|apply Z.log2_up_nonneg].
Qed.

(** ** Choosing an alternative thread *)

(** The slots of the ready threads other than [exclude]; [i] is the slot of the
    head of [ts]. *)
Fixpoint alternatives (ts : list gth_thread_record_t) (i exclude : nat) : list nat :=
  match ts with
  | [] => []
  | t :: ts' =>
      if is_ready t && negb (i =? exclude)%nat then i :: alternatives ts' (S i) exclude
      else alternatives ts' (S i) exclude
  end.

Lemma pick_nth_ready_alternatives ts : ∀ i exclude current target,
  0 ≤ current ≤ target →
  pick_nth_ready ts i exclude current target =
  alternatives ts i exclude !! Z.to_nat (target - current).
Proof.
  induction ts as [|t ts IH]; intros i exclude current target H; cbn [pick_nth_ready alternatives]; [done|].
  destruct (is_ready t); cbn [negb andb]; [|auto].
  destruct (i =? exclude)%nat; cbn [negb]; [auto|].
  destruct (Z.eqb_spec current target) as [->|Hne]; [by rewrite Z.sub_diag|].
  rewrite IH by lia. by replace (Z.to_nat (target - current)) with (S (Z.to_nat (target - (current + 1)))) by lia.
Qed.

Lemma alternatives_ready ts : ∀ i exclude k,
  k ∈ alternatives ts i exclude →
  k ≠ exclude ∧ ∃ m t, k = (i + m)%nat ∧ ts !! m = Some t ∧ is_ready t = true.
Proof.
  induction ts as [|t ts IH]; intros i exclude k; cbn [alternatives]; [by intros ?%elem_of_nil|].
  assert (Htail : k ∈ alternatives ts (S i) exclude →
    k ≠ exclude ∧ ∃ m u, k = (i + m)%nat ∧ (t :: ts) !! m = Some u ∧ is_ready u = true).
  { intros (? & m & u & -> & ? & ?)%IH. split; [done|]. exists (S m), u. split; [lia|done]. }
  destruct (is_ready t) eqn:Hr; cbn [andb]; [|done].
  destruct (Nat.eqb_spec i exclude); cbn [negb]; [done|].
  intros [->|?]%elem_of_cons; [|auto]. split; [done|]. exists O, t. split; [lia|done].
Qed.

Lemma length_alternatives_none ts : ∀ i exclude,
  (exclude < i)%nat → Z.of_nat (length (alternatives ts i exclude)) = countb is_ready ts.
Proof.
  induction ts as [|t ts IH]; intros i exclude H; [done|]. cbn [alternatives]. rewrite countb_cons.
  destruct (Nat.eqb_spec i exclude); [lia|]. cbn [negb]. rewrite andb_true_r.
  destruct (is_ready t); cbn [length]; rewrite ?Nat2Z.inj_succ, IH by lia; lia.
Qed.

Lemma length_alternatives ts : ∀ i m t,
  ts !! m = Some t → is_ready t = true →
  Z.of_nat (length (alternatives ts i (i + m))) = countb is_ready ts - 1.
Proof.
  induction ts as [|x ts IH]; intros i m t Hm Hr; [done|]. cbn [alternatives]. rewrite countb_cons.
  destruct m as [|m]; cbn in Hm.
  - injection Hm as ->. rewrite Nat.add_0_r, Nat.eqb_refl. cbn [negb]. rewrite andb_false_r, Hr.
    rewrite length_alternatives_none by lia. lia.
  - destruct (Nat.eqb_spec i (i + S m)); [lia|]. cbn [negb]. rewrite andb_true_r.
    replace (i + S m)%nat with (S i + m)%nat by lia.
    destruct (is_ready x); cbn [length]; rewrite ?Nat2Z.inj_succ, (IH (S i) m t) by done; lia.
Qed.

(** The alternative is ready. *)
Lemma pick_alternative_ready fuel s f exclude t :
  rt_threads s !! exclude = Some t → is_ready t = true →
  match gth_fuzz_pick_alternative fuel s f exclude with
  | Done (i, _) => ∃ u, rt_threads s !! i = Some u ∧ is_ready u = true
  | Undef => False
  | NoFuel => 2 ≤ gth_fuzz_count_ready_threads s ∧
      gth_fuzz_random_range fuel f (gth_fuzz_count_ready_threads s) = NoFuel
  end.
Proof.
  intros Ht Hr. unfold gth_fuzz_pick_alternative, gth_fuzz_count_ready_threads.
  pose proof (countb_nonneg is_ready (rt_threads s)).
  destruct (Z.leb_spec (countb is_ready (rt_threads s)) 1); [eauto|].
  unfold gth_fuzz_random_range. destruct (Z.eqb_spec (countb is_ready (rt_threads s)) 0); [lia|].
  pose proof (rejection_loop_spec fuel (range_mask (countb is_ready (rt_threads s)))
                (countb is_ready (rt_threads s)) f) as Hl.
  destruct (rejection_loop _ _ _ _) as [[target f']| |]; [|done|by split; [lia|]].
  destruct (pick_nth_ready _ _ _ _ _) as [i|] eqn:E; [|eauto].
  destruct (decide (0 ≤ target)).
  - rewrite pick_nth_ready_alternatives in E by lia.
    apply list_elem_of_lookup_2, alternatives_ready in E as (_ & m & u & -> & Hu & ?). eauto.
  - destruct Hl as (k & _ & -> & _).
    pose proof (masked_draw_nonneg (range_mask (countb is_ready (rt_threads s))) k f). done.
Qed.

(** ** The generator's state *)

Definition linear (h : Z → Z) : Prop := ∀ a b, h (Z.lxor a b) = Z.lxor (h a) (h b).

Lemma linear_zero h : linear h → h 0 = 0.
Proof. intros H. specialize (H 0 0). by rewrite !Z.lxor_nilpotent in H. Qed.

Lemma linear_id : linear (λ s, s).
Proof. done. Qed.

Lemma linear_lxor g h : linear g → linear h → linear (λ s, Z.lxor (g s) (h s)).
Proof.
  intros Hg Hh a b. rewrite Hg, Hh, !Z.lxor_assoc. f_equal.
  rewrite <- !Z.lxor_assoc. f_equal. apply Z.lxor_comm.
Qed.

Lemma linear_comp g h : linear g → linear h → linear (λ s, g (h s)).
Proof. intros Hg Hh a b. by rewrite Hh, Hg. Qed.

Lemma linear_shiftr n : linear (λ s, Z.shiftr s n).
Proof. intros a b. apply Z.shiftr_lxor. Qed.

Lemma linear_shiftl64 n : linear (λ s, u64 (Z.shiftl s n)).
Proof.
  intros a b. rewrite Z.shiftl_lxor, !wrap_land_ones by lia. apply Z.bits_inj'. intros i Hi.
  rewrite Z.land_spec, !Z.lxor_spec, !Z.land_spec.
  destruct (Z.testbit (Z.shiftl a n) i), (Z.testbit (Z.shiftl b n) i), (Z.testbit (Z.ones 64) i); done.
Qed.

(** What one draw does to [state[1]]. *)
Definition state1_step (s : Z) : Z :=
  let s1 := Z.lxor s (u64 (Z.shiftl s XSHIFT_ROT1)) in
  Z.lxor (Z.lxor s (Z.shiftr s XSHIFT_ROT3)) (Z.lxor s1 (Z.shiftr s1 XSHIFT_ROT2)).

Lemma state1_step_linear : linear state1_step.
Proof.
  assert (H1 : linear (λ s, Z.lxor s (u64 (Z.shiftl s XSHIFT_ROT1)))).
  { apply linear_lxor; [apply linear_id|apply linear_shiftl64]. }
  apply linear_lxor; [apply linear_lxor; [apply linear_id|apply linear_shiftr]|].
  apply linear_lxor; [done|]. apply (linear_comp (λ s, Z.shiftr s XSHIFT_ROT2)); [apply linear_shiftr|done].
Qed.

(** The linear map whose [i]-th column is the [i]-th element of [cols]. *)
Fixpoint combine_columns (cols : list Z) (i : Z) (x : Z) : Z :=
  match cols with
  | [] => 0
  | c :: cs => Z.lxor (if Z.testbit x i then c else 0) (combine_columns cs (i + 1) x)
  end.

Lemma combine_columns_linear cols : ∀ i, linear (combine_columns cols i).
Proof.
  induction cols as [|c cols IH]; intros i; [done|].
  apply linear_lxor; [|apply IH]. intros a b. rewrite Z.lxor_spec.
  destruct (Z.testbit a i), (Z.testbit b i); cbn [xorb];
    by rewrite ?Z.lxor_nilpotent, ?Z.lxor_0_l, ?Z.lxor_0_r.
Qed.

(** A linear map that fixes the powers of two is the identity. *)
Lemma linear_basis h (n : nat) : linear h →
  (∀ i, (i < n)%nat → h (2 ^ Z.of_nat i) = 2 ^ Z.of_nat i) → ∀ x, fits (Z.of_nat n) x → h x = x.
Proof.
  intros Hl. induction n as [|n IH]; intros Hb x Hx.
  { assert (x = 0) as -> by (unfold fits in Hx; cbn in Hx; lia). by apply linear_zero. }
  set (lo := x mod 2 ^ Z.of_nat n).
  set (hi := if Z.testbit x (Z.of_nat n) then 2 ^ Z.of_nat n else 0).
  assert (E : x = Z.lxor lo hi).
  { apply Z.bits_inj'. intros i Hi. rewrite Z.lxor_spec. unfold lo, hi.
    destruct (Z.lt_trichotomy i (Z.of_nat n)) as [Hlt|[->|Hgt]].
    - rewrite Z.mod_pow2_bits_low by lia.
      destruct (Z.testbit x (Z.of_nat n)); rewrite ?Z.pow2_bits_false, ?Z.bits_0 by lia; by rewrite xorb_false_r.
    - rewrite Z.mod_pow2_bits_high by lia.
      destruct (Z.testbit x (Z.of_nat n)); by rewrite ?Z.pow2_bits_true, ?Z.bits_0 by lia.
    - rewrite Z.mod_pow2_bits_high by lia.
      rewrite (proj1 (fits_bits (Z.of_nat (S n)) x ltac:(lia)) Hx i) by lia.
      destruct (Z.testbit x (Z.of_nat n)); rewrite ?Z.pow2_bits_false, ?Z.bits_0 by lia; done. }
  assert (Hlo : h lo = lo).
  { apply IH; [intros; apply Hb; lia|]. apply wrap_fits. lia. }
  assert (Hhi : h hi = hi).
  { unfold hi. destruct (Z.testbit x (Z.of_nat n)); [apply Hb; lia|by apply linear_zero]. }
  rewrite E at 1. by rewrite Hl, Hlo, Hhi, <- E.
Qed.

(** The inverse of [state1_step] on 64-bit words, found by elimination. *)
Definition state1_inverse : list Z := [
  0x3fffe000003fe00; 0x400020000040200; 0x800040000080400; 0x1000080000100800;
  0x2000100000201000; 0x4000200000402000; 0x8000400000804000; 0x8002420000804203;
  0x8006460000804605; 0x800e4e0000804e09; 0x801e5e0000805e11; 0x803e7e0000807e21;
  0x807e3e0000803e41; 0x80febe000080be81; 0x81ffbe000081bf01; 0x8002400000804201;
  0x8006420000804601; 0x800e460000804e01; 0x801e4e0000805e01; 0x803e5e0000807e01;
  0x807e7e0000803e01; 0x80fe3e000080be01; 0x81febe000081be01; 0x8000400000804001;
  0x8002420000804201; 0x8006460000804601; 0x800e4e0000804e01; 0x801e5e0000805e01;
  0x803e7e0000807e01; 0x807e3e0000803e01; 0x80febe000080be01; 0x81ffbe000081be01;
  0x8002400000804001; 0x8006420000804201; 0x800e460000804601; 0x801e4e0000804e01;
  0x803e5e0000805e01; 0x807e7e0000807e01; 0x80fe3e0000803e01; 0x81febe000080be01;
  0x83ffbe000081be01; 0x8402400000804001; 0x8806420000804201; 0x900e460000804601;
  0xa01e4e0000804e01; 0xc03e5e0000805e01; 0x7e7e0000807e01; 0xfcfc000100fc02;
  0x1f9f8000201f804; 0x3f3f0000403f008; 0x4181e0008041e10; 0x8303c0010083c20;
  0x1060780020107840; 0x20c0f0004020f080; 0x4181e0008041e100; 0x80fc3e0100803c00;
  0x81fabe020080ba03; 0x83f7be040081b605; 0x8412400800805009; 0x8826421000806211;
  0x904e462000800621; 0xa09e4e400080ce41; 0xc13e5e8000815e81; 0x181810000818101].

Lemma state1_step_inverse s : fits 64 s → combine_columns state1_inverse 0 (state1_step s) = s.
Proof.
  apply (linear_basis (λ s, combine_columns state1_inverse 0 (state1_step s)) 64).
  - apply (linear_comp (combine_columns state1_inverse 0)); [apply combine_columns_linear|apply state1_step_linear].
  - intros i Hi.
    assert (H : forallb (λ i, combine_columns state1_inverse 0 (state1_step (2 ^ Z.of_nat i)) =? 2 ^ Z.of_nat i)
                  (seq 0 64) = true) by (vm_compute; reflexivity).
    rewrite forallb_forall in H. apply Z.eqb_eq, H, in_seq. lia.
Qed.

Definition fuzz_fits (f : gth_fuzz_state_t) : Prop := fits 64 (fz_state0 f) ∧ fits 64 (fz_state1 f).

Lemma state1_step_fits s : fits 64 s → fits 64 (state1_step s).
Proof.
  intros H. unfold state1_step, XSHIFT_ROT1, XSHIFT_ROT2, XSHIFT_ROT3.
  assert (fits 64 (Z.lxor s (u64 (Z.shiftl s 23)))) by (apply lxor_fits; [done|done|by apply wrap_fits]).
  repeat (apply lxor_fits || apply shiftr_fits); first [done|by apply wrap_fits].
Qed.

(** One draw permutes the 64-bit values of [state[1]] and never reaches 0
    from a non-zero value; the successor state is a function of [state[1]]
    alone, so of the 128 bits of state only 64 count. *)
Theorem xorshift_state_permuted f g :
  fuzz_fits f → fuzz_fits g →
  let f' := snd (gth_fuzz_xorshift128plus f) in
  let g' := snd (gth_fuzz_xorshift128plus g) in
  fuzz_fits f' ∧
  (fz_state1 f ≠ 0 → fz_state1 f' ≠ 0) ∧
  (fz_state1 f = fz_state1 g → fz_state0 f' = fz_state0 g' ∧ fz_state1 f' = fz_state1 g') ∧
  (fz_state1 f' = fz_state1 g' → fz_state1 f = fz_state1 g).
Proof.
  intros [Hf0 Hf1] [Hg0 Hg1]. cbn [snd gth_fuzz_xorshift128plus fz_state0 fz_state1].
  fold (state1_step (fz_state1 f)). fold (state1_step (fz_state1 g)). split_and!.
  - split; cbn [fz_state0 fz_state1]; [|by apply state1_step_fits].
    apply lxor_fits; [done|done|by apply wrap_fits].
  - intros Hne E. apply Hne. rewrite <- (state1_step_inverse (fz_state1 f)), E by done. reflexivity.
  - by intros ->.
  - intros E. by rewrite <- (state1_step_inverse (fz_state1 f)), E, state1_step_inverse.
Qed.

Definition seeded : gth_fuzz_state_t := gth_fuzz_seed (mk_fuzz 0 0 42 0 10) 42.

Lemma xorshift_state_permuted_witness :
  fz_state1 (snd (gth_fuzz_xorshift128plus seeded)) ≠ 0.
Proof.
  refine (proj1 (proj2 (xorshift_state_permuted seeded seeded _ _)) _).
  - split; vm_compute; split; congruence.
  - split; vm_compute; split; congruence.
  - vm_compute. congruence.
Defined.

(** Range sampling: the result is the first draw that, masked, is below
    [max], the generator has advanced past exactly that draw, and the loop
    goes on only while every draw is rejected; the mask is below [2 * max], so
    more than half of the masked values are accepted. *)
Lemma random_range_first_accepted fuel f max :
  1 ≤ max ≤ 2 ^ 64 →
  0 ≤ range_mask max < 2 * max - 1 ∧
  match gth_fuzz_random_range fuel f max with
  | Done (v, f') => 0 ≤ v < max ∧
      ∃ n, (n < fuel)%nat ∧ v = masked_draw (range_mask max) n f ∧ f' = draws (S n) f ∧
        ∀ k, (k < n)%nat → max ≤ masked_draw (range_mask max) k f
  | NoFuel => ∀ k, (k < fuel)%nat → max ≤ masked_draw (range_mask max) k f
  | Undef => False
  end.
Proof.
  intros Hmax. split.
  - rewrite range_mask_ones, Z.ones_equiv by done.
    destruct (decide (max = 1)) as [->|]; [vm_compute; split; congruence|].
    pose proof (Z.log2_up_spec max ltac:(lia)) as [Hlo _].
    assert (2 ^ Z.log2_up max = 2 * 2 ^ Z.pred (Z.log2_up max)).
    { rewrite <- Z.pow_succ_r, Z.succ_pred; [done|]. pose proof (Z.log2_up_pos max). lia. }
    pose proof (Z.pow_pos_nonneg 2 (Z.pred (Z.log2_up max))). pose proof (Z.log2_up_pos max). lia.
  - destruct (gth_fuzz_random_range fuel f max) as [[v f']| |] eqn:E.
    + split; [by eapply random_range_lt|]. unfold gth_fuzz_random_range in E.
      destruct (Z.eqb_spec max 0); [lia|].
      pose proof (rejection_loop_spec fuel (range_mask max) max f) as H. rewrite E in H.
      destruct H as (k & ? & ? & ? & ? & ?). exists k. auto.
    + unfold gth_fuzz_random_range in E. destruct (Z.eqb_spec max 0); [lia|].
      pose proof (rejection_loop_spec fuel (range_mask max) max f) as H. by rewrite E in H.
    + unfold gth_fuzz_random_range in E. destruct (Z.eqb_spec max 0); [lia|].
      pose proof (rejection_loop_spec fuel (range_mask max) max f) as H. by rewrite E in H.
Qed.

(** The 64-bit words whose masked value is [r]: [2^(64-k)] of them for the
    [k]-bit mask, whatever [r]. *)
Lemma masked_preimage max r v :
  1 ≤ max ≤ 2 ^ 64 → 0 ≤ r < max → fits 64 v →
  Z.land v (range_mask max) = r ↔
  ∃ q, 0 ≤ q < 2 ^ (64 - Z.log2_up max) ∧ v = r + q * 2 ^ Z.log2_up max.
Proof.
  intros Hmax Hr Hv. rewrite range_mask_land by done.
  pose proof (Z.log2_up_nonneg max). set (k := Z.log2_up max) in *.
  assert (Hk : k ≤ 64) by (apply Z.log2_up_le_pow2; lia).
  assert (Hcover : max ≤ 2 ^ k).
  { destruct (decide (max = 1)) as [->|]; [done|]. apply Z.log2_up_spec. lia. }
  assert (Hp : 0 < 2 ^ k) by (by apply Z.pow_pos_nonneg).
  assert (Hsplit : 2 ^ 64 = 2 ^ k * 2 ^ (64 - k)) by (rewrite <- Z.pow_add_r by lia; f_equal; lia).
  unfold fits in Hv. split.
  - intros E. exists (v / 2 ^ k). rewrite (Z.div_mod v (2 ^ k)) at 3 by lia. rewrite E.
    split; [|lia]. split; [apply Z.div_pos; lia|]. apply Z.div_lt_upper_bound; lia.
  - intros (q & _ & ->). rewrite Z.mod_add by lia. apply Z.mod_small. lia.
Qed.

Lemma masked_value_fits max r q :
  1 ≤ max ≤ 2 ^ 64 → 0 ≤ r < max → 0 ≤ q < 2 ^ (64 - Z.log2_up max) → fits 64 (r + q * 2 ^ Z.log2_up max).
Proof.
  intros Hmax Hr Hq. pose proof (Z.log2_up_nonneg max). set (k := Z.log2_up max) in *.
  assert (Hk : k ≤ 64) by (apply Z.log2_up_le_pow2; lia).
  assert (Hcover : max ≤ 2 ^ k).
  { destruct (decide (max = 1)) as [->|]; [done|]. apply Z.log2_up_spec. lia. }
  assert (Hsplit : 2 ^ 64 = 2 ^ k * 2 ^ (64 - k)) by (rewrite <- Z.pow_add_r by lia; f_equal; lia).
  unfold fits. rewrite Hsplit. nia.
Qed.

(** Adding a constant modulo [2^64] is a bijection of the 64-bit words. *)
Lemma u64_add_eq c a v : fits 64 a → fits 64 v → u64 (c + a) = v ↔ a = u64 (v - c).
Proof.
  intros Ha Hv. rewrite <- (wrap_small 64 a Ha) at 2. rewrite <- (wrap_small 64 v Hv) at 1.
  unfold wrap. split; intros E.
  - replace a with (c + a - c) by lia. by rewrite Zminus_mod, E, <- Zminus_mod.
  - replace v with (v - c + c) by lia. by rewrite (Z.add_comm c a), Zplus_mod, E, <- Zplus_mod.
Qed.

(** One round of the loop: the first draw is accepted with the value [r]. *)
Lemma random_range_one f max r :
  1 ≤ max → r < max →
  (∃ f', gth_fuzz_random_range 1 f max = Done (r, f')) ↔ masked_draw (range_mask max) 0 f = r.
Proof.
  intros Hmax Hr. unfold gth_fuzz_random_range. destruct (Z.eqb_spec max 0); [lia|].
  unfold masked_draw. cbn [rejection_loop draws]. destruct (gth_fuzz_xorshift128plus f) as [v f1]. cbn [fst].
  destruct (Z.leb_spec max (Z.land v (range_mask max))).
  - split; [by intros [? [=]]|lia].
  - split; [by intros [? [= ->]]|intros ->; by eexists].
Qed.

(** C37. [gth_fuzz_random_range] samples without modulo bias.  Its result is the
    first draw that, masked, is below [max]; the generator has advanced past
    exactly that draw, and the loop goes on only while every draw is rejected,
    the mask being small enough that more than half of the masked values are
    accepted.  A round returns each [r] below [max] for equally many states of
    the generator: for any value of [state[1]], exactly the [2^(64-k)] listed
    values of [state[0]], [k] being the number of bits of the mask. *)
Theorem random_range_unbiased fuel f max :
  1 ≤ max ≤ 2 ^ 64 →
  range_mask max < 2 * max - 1 ∧
  match gth_fuzz_random_range fuel f max with
  | Done (v, f') => 0 ≤ v < max ∧
      ∃ n, (n < fuel)%nat ∧ v = masked_draw (range_mask max) n f ∧ f' = draws (S n) f ∧
        ∀ k, (k < n)%nat → max ≤ masked_draw (range_mask max) k f
  | NoFuel => ∀ k, (k < fuel)%nat → max ≤ masked_draw (range_mask max) k f
  | Undef => False
  end ∧
  ∀ r a, 0 ≤ r < max → fits 64 a →
    (∃ f', gth_fuzz_random_range 1 {| f with fz_state0 := a |} max = Done (r, f')) ↔
    ∃ q, 0 ≤ q < 2 ^ (64 - Z.log2_up max) ∧
      a = u64 (r + q * 2 ^ Z.log2_up max - fz_state1 (snd (gth_fuzz_xorshift128plus f))).
Proof.
  intros Hmax. destruct (random_range_first_accepted fuel f max Hmax) as [Hmask Hrun].
  split; [lia|]. split; [exact Hrun|]. intros r a Hr Ha.
  rewrite random_range_one by lia. unfold masked_draw. cbn [draws gth_fuzz_xorshift128plus fst snd fz_state0 fz_state1].
  match goal with |- context [u64 (?x + a)] => generalize x end. intros c.
  rewrite masked_preimage by (done || by apply wrap_fits).
  assert (Hfit : ∀ q, 0 ≤ q < 2 ^ (64 - Z.log2_up max) → fits 64 (r + q * 2 ^ Z.log2_up max)).
  { intros q Hq. by apply masked_value_fits. }
  split; intros (q & Hq & E); exists q; (split; [done|]); apply u64_add_eq; auto.
Qed.

Lemma random_range_unbiased_witness :
  ∃ f', gth_fuzz_random_range 1 {| seeded with fz_state0 :=
    u64 (3 + 5 * 2 ^ 3 - fz_state1 (snd (gth_fuzz_xorshift128plus seeded))) |} 6 = Done (3, f').
Proof.
  destruct (random_range_unbiased 10 seeded 6 ltac:(lia)) as (_ & _ & H).
  apply H; [lia|by apply wrap_fits|]. exists 5. split; [vm_compute; split; congruence|reflexivity].
Defined.

(** Fuzzing chooses a ready thread: with fewer than two ready threads the
    scheduler's own choice, otherwise by a draw below the number [n] of ready
    threads; draws below [n - 1] give the other ready threads in slot order,
    and the draw [n - 1] gives the scheduler's choice again. *)
Theorem pick_alternative_choice fuel s f exclude t :
  length (rt_threads s) = GTH_MAX_THREADS →
  rt_threads s !! exclude = Some t → is_ready t = true →
  let n := gth_fuzz_count_ready_threads s in
  match gth_fuzz_pick_alternative fuel s f exclude with
  | Done (i, f') =>
      (n ≤ 1 ∧ i = exclude ∧ f' = f) ∨
      ∃ target, 1 < n ∧ gth_fuzz_random_range fuel f n = Done (target, f') ∧ 0 ≤ target < n ∧
        (target < n - 1 → alternatives (rt_threads s) 0 exclude !! Z.to_nat target = Some i) ∧
        (target = n - 1 → i = exclude)
  | Undef => False
  | NoFuel => gth_fuzz_random_range fuel f n = NoFuel
  end.
Proof.
  intros Hlen Ht Hr n. unfold gth_fuzz_pick_alternative. fold n.
  pose proof (countb_nonneg is_ready (rt_threads s)) as Hn. rewrite Hlen in Hn.
  change (countb is_ready (rt_threads s)) with n in Hn.
  destruct (Z.leb_spec n 1); [auto|].
  assert (Hmax : 1 ≤ n ≤ 2 ^ 64) by (unfold GTH_MAX_THREADS in *; lia).
  pose proof (length_alternatives (rt_threads s) 0 exclude t Ht Hr) as Hla. cbn in Hla.
  change (countb is_ready (rt_threads s)) with n in Hla.
  destruct (gth_fuzz_random_range fuel f n) as [[target f']| |] eqn:E.
  - pose proof (random_range_lt _ _ _ _ _ Hmax E) as Hrange.
    rewrite pick_nth_ready_alternatives, Z.sub_0_r by lia.
    destruct (alternatives (rt_threads s) 0 exclude !! Z.to_nat target) as [i|] eqn:Ei;
      right; exists target; split_and!; auto; try lia.
    + apply lookup_lt_Some in Ei. lia.
    + apply lookup_ge_None in Ei. lia.
  - unfold gth_fuzz_random_range in E. destruct (Z.eqb_spec n 0); [lia|].
    pose proof (rejection_loop_spec fuel (range_mask n) n f) as H'. by rewrite E in H'.
  - done.
Qed.

Definition ready_table : gth_runtime_state_t :=
  {| rt_zero with rt_threads :=
     replicate 3 {| thread_zero with th_state := GTH_THREAD_READY |} ++ replicate 125 thread_zero |}.

Lemma pick_alternative_choice_witness :
  match gth_fuzz_pick_alternative 20 ready_table seeded 1 with
  | Done (i, _) => i = 0%nat ∨ i = 1%nat ∨ i = 2%nat
  | _ => False
  end.
Proof.
  pose proof (pick_alternative_choice 20 ready_table seeded 1 _ eq_refl eq_refl eq_refl) as H.
  vm_compute in H |- *. tauto.
Defined.

(** The decision to perturb: never during the first five decisions, and
    afterwards when a draw modulo 100 is below the rate; so never at rate 0
    and always at rate 100. *)
Theorem should_perturb_rate f :
  0 ≤ fz_decision_count f < 2 ^ 64 - 1 →
  let '(b, f') := gth_fuzz_should_perturb f in
  fz_decision_count f' = fz_decision_count f + 1 ∧
  fz_perturbation_rate f' = fz_perturbation_rate f ∧
  (fz_decision_count f < GTH_FUZZ_WARMUP_DECISIONS → b = false) ∧
  (GTH_FUZZ_WARMUP_DECISIONS ≤ fz_decision_count f →
     b = (fst (gth_fuzz_xorshift128plus f) mod 100 <? fz_perturbation_rate f)) ∧
  (fz_perturbation_rate f = 0 → b = false) ∧
  (fz_perturbation_rate f = 100 → GTH_FUZZ_WARMUP_DECISIONS ≤ fz_decision_count f → b = true).
Proof.
  intros Hd. unfold gth_fuzz_should_perturb. cbn [fz_decision_count].
  rewrite (wrap_small 64 (fz_decision_count f + 1)) by (unfold fits; lia).
  unfold GTH_FUZZ_WARMUP_DECISIONS.
  destruct (Z.leb_spec (fz_decision_count f + 1) 5).
  - cbn [fz_decision_count fz_perturbation_rate]. split_and!; try done; intros; exfalso; lia.
  - cbn [gth_fuzz_xorshift128plus fst fz_state0 fz_state1 fz_decision_count fz_perturbation_rate].
    match goal with |- context [?x mod 100] => pose proof (Z.mod_pos_bound x 100 ltac:(lia)) end.
    split_and!; try done; [intros; exfalso; lia|..].
    + intros ->. apply Z.ltb_ge. lia.
    + intros -> _. apply Z.ltb_lt. lia.
Qed.

Lemma should_perturb_rate_witness :
  let '(b, f') := gth_fuzz_should_perturb {| seeded with fz_perturbation_rate := 100; fz_decision_count := 7 |} in
  b = true.
Proof.
  pose proof (should_perturb_rate {| seeded with fz_perturbation_rate := 100; fz_decision_count := 7 |}
    ltac:(cbn; lia)) as H.
  destruct (gth_fuzz_should_perturb _) as [b f']. apply H; [reflexivity|vm_compute; congruence].
Defined.
