(* ===== verification/Sched.v ===== *)
(** * The scheduler (src/src/sched/scheduler.c)

    Ready-thread selection (round robin and priority), the mode-aware
    dispatch, mode changes, and the two halves of [gth_scheduler_run_next]
    around its stack switch. *)

From S2P Require Import Prelude WaitQueue TraceFormat State TraceBuffer Trace Runtime Replay Fuzz.

(** ** Selection *)

(** The round-robin loop; [n] is the number of iterations left and
    [idx = (start + i) % GTH_MAX_THREADS]. *)
Fixpoint rr_scan (ts : list gth_thread_record_t) (start i n : nat) : option nat :=
  match n with
  | O => None
  | S n' =>
      let idx := ((start + i) mod GTH_MAX_THREADS)%nat in
      match ts !! idx with
      | Some t => if is_ready t then Some idx else rr_scan ts start (S i) n'
      | None => rr_scan ts start (S i) n'
      end
  end.

(** Whether [candidate] replaces [best] in the priority loop. *)
Definition prio_better (candidate best : gth_thread_record_t) : bool :=
  if th_priority best <? th_priority candidate then true
  else (th_priority candidate =? th_priority best) && (th_tid candidate <? th_tid best).

(** The priority loop; [i] is the slot of the head of [ts]. *)
Fixpoint prio_scan (ts : list gth_thread_record_t) (i : nat)
    (best : option (nat * gth_thread_record_t)) : option nat :=
  match ts with
  | [] => fst <$> best
  | t :: ts' =>
      if negb (is_ready t) then prio_scan ts' (S i) best
      else match best with
      | None => prio_scan ts' (S i) (Some (i, t))
      | Some (_, b) =>
          if prio_better t b then prio_scan ts' (S i) (Some (i, t))
          else prio_scan ts' (S i) best
      end
  end.

Definition gth_scheduler_pick_ready_thread (s : gth_runtime_state_t)
    : option nat * gth_runtime_state_t :=
  if cfg_policy (rt_config s) =? GTH_SCHED_RR then
    let start := ((rt_last_rr_slot s + 1) mod GTH_MAX_THREADS)%nat in
    match rr_scan (rt_threads s) start 0 GTH_MAX_THREADS with
    | Some idx => (Some idx, {| s with rt_last_rr_slot := idx |})
    | None => (None, s)
    end
  else (prio_scan (rt_threads s) 0 None, s).

(** scheduler.c:102, the modes other than replay. *)
Definition pick_normal_or_fuzzed : M (option nat) := λ w,
  let '(normal_choice, s) := gth_scheduler_pick_ready_thread (w_rt w) in
  let w := {| w with w_rt := s |} in
  match rt_mode s, rt_fuzz s with
  | GTH_MODE_FUZZ, Some f =>
      match gth_fuzz_pick_thread (w_fuel w) s f normal_choice with
      | Done (o, f) => Done (o, set_fuzz (Some f) w)
      | Undef => Undef
      | NoFuel => NoFuel
      end
  | _, _ => Done (normal_choice, w)
  end.

Definition gth_scheduler_pick_ready_thread_mode : M (option nat) := λ w,
  match rt_mode (w_rt w), rt_replay (w_rt w) with
  | GTH_MODE_REPLAY, Some r =>
      let '(o, r) := gth_replay_next_thread (w_rt w) r in Done (o, set_replay (Some r) w)
  | _, _ => pick_normal_or_fuzzed w
  end.

(** ** Modes *)

Definition set_mode (m : gth_scheduler_mode_t) : world → world :=
  upd_rt (λ s, {| s with rt_mode := m |}).

(** The cleanup of the mode being left. *)
Definition leave_mode (w : world) : world :=
  let w := match rt_mode (w_rt w), rt_trace (w_rt w) with
           | GTH_MODE_RECORD, Some _ => gth_trace_cleanup w
           | _, _ => w end in
  let w := match rt_mode (w_rt w), rt_replay (w_rt w) with
           | GTH_MODE_REPLAY, Some _ => gth_replay_cleanup w
           | _, _ => w end in
  match rt_mode (w_rt w), rt_fuzz (w_rt w) with
  | GTH_MODE_FUZZ, Some _ => gth_fuzz_cleanup w
  | _, _ => w
  end.

Definition gth_scheduler_set_mode (mode : gth_scheduler_mode_t) : M gth_status_t := λ w,
  if negb (rt_initialized (w_rt w)) then Done (GTH_ESTATE, w)
  else
    let w := set_mode mode (leave_mode w) in
    match mode with
    | GTH_MODE_RECORD =>
        (st <- gth_trace_init;;
         if negb (bool_decide (st = GTH_OK)) && negb (bool_decide (st = GTH_ESTATE))
         then modify (set_mode GTH_MODE_NORMAL);; ret st
         else ret GTH_OK) w
    | GTH_MODE_FUZZ =>
        let seed := cfg_replay_seed (rt_config (w_rt w)) in
        let seed := if seed =? 0 then 123456789 else seed in
        (st <- gth_fuzz_init seed;;
         if negb (bool_decide (st = GTH_OK))
         then modify (set_mode GTH_MODE_NORMAL);; ret st
         else ret GTH_OK) w
    | _ => Done (GTH_OK, w)
    end.

(** ** Running a thread *)

(** The code before [gth_ctx_swap]: [inl] is a return without a switch. *)
Definition gth_scheduler_run_next (k : run_next_caller) : M (gth_status_t + result) := λ w,
  if negb (rt_initialized (w_rt w)) then Done (inl GTH_ESTATE, w)
  else
    (thread <- gth_scheduler_pick_ready_thread_mode;;
     match thread with
     | None => ret (inl GTH_ENOTFOUND)
     | Some i =>
         t <- thread_at i;;
         λ w,
           let s := w_rt w in
           let previous_tid := rt_current_tid s in
           let w := if bool_decide (rt_mode s = GTH_MODE_RECORD) || gth_trace_is_active w
                    then gth_trace_context_switch previous_tid (th_tid t) w else w in
           let w := upd_rt (upd_thread i (set_state GTH_THREAD_RUNNING)) w in
           let w := upd_rt (λ s,
             {| s with rt_current_tid := th_tid t;
                       rt_context_switches := u64 (rt_context_switches s + 1);
                       rt_runnable_threads := if 0 <? rt_runnable_threads s
                                              then rt_runnable_threads s - 1
                                              else rt_runnable_threads s |}) w in
           Done (inr (Swap SchedCtx (ThreadCtx i) (KRunNext previous_tid k)), w)
     end) w.

(** The code after it. *)
Definition gth_scheduler_run_next_resume (previous_tid : Z) (w : world) : world :=
  upd_rt (λ s, {| s with rt_current_tid := previous_tid |}) w.

(** The [while] loop of [gth_scheduler_run_until], up to the next switch. *)
Definition run_until_loop (tid : Z) (target : nat) : M (gth_status_t + result) :=
  t <- thread_at target;;
  if gth_thread_is_terminal (th_state t) then ret (inl GTH_OK)
  else
    r <- gth_scheduler_run_next (InJoin tid target);;
    match r with
    | inl GTH_ENOTFOUND => ret (inl GTH_EBUSY)
    | inl st => ret (inl st)
    | inr sw => ret (inr sw)
    end.

Definition gth_scheduler_run_until (tid : Z) : M (gth_status_t + result) := λ w,
  if negb (rt_initialized (w_rt w)) then Done (inl GTH_ESTATE, w)
  else if (tid =? rt_current_tid (w_rt w)) && negb (tid =? 0) then Done (inl GTH_ESTATE, w)
  else match gth_runtime_find_thread (w_rt w) tid with
  | None => Done (inl GTH_ENOTFOUND, w)
  | Some target => run_until_loop tid target w
  end.

(** ** The round-robin scan *)

Lemma rr_scan_Some ts start n : ∀ i idx,
  length ts = GTH_MAX_THREADS →
  rr_scan ts start i n = Some idx →
  ∃ k t, (i ≤ k < i + n)%nat ∧ idx = ((start + k) mod GTH_MAX_THREADS)%nat ∧
    ts !! idx = Some t ∧ is_ready t = true ∧
    ∀ j u, (i ≤ j < k)%nat → ts !! ((start + j) mod GTH_MAX_THREADS)%nat = Some u → is_ready u = false.
Proof.
  induction n as [|n IH]; intros i idx Hl; cbn [rr_scan]; [done|].
  set (x := ((start + i) mod GTH_MAX_THREADS)%nat).
  assert (Hrec : rr_scan ts start (S i) n = Some idx →
    (∀ u, ts !! x = Some u → is_ready u = false) →
    ∃ k t, (i ≤ k < i + S n)%nat ∧ idx = ((start + k) mod GTH_MAX_THREADS)%nat ∧
      ts !! idx = Some t ∧ is_ready t = true ∧
      ∀ j u, (i ≤ j < k)%nat → ts !! ((start + j) mod GTH_MAX_THREADS)%nat = Some u → is_ready u = false).
  { intros E Hx. destruct (IH (S i) idx Hl E) as (k & t & Hk & -> & Ht & Hr & Hlt).
    exists k, t. split_and!; auto; try lia. intros j u Hj Hu.
    destruct (decide (j = i)) as [->|]; [by apply Hx|]. apply (Hlt j u); [lia|done]. }
  destruct (ts !! x) as [t|] eqn:Ht; [|intros E; by apply Hrec]. destruct (is_ready t) eqn:Hr.
  - intros [= <-]. exists i, t. split_and!; auto; lia.
  - intros E. apply Hrec; [done|]. intros u [= <-]. done.
Qed.

Lemma rr_scan_None ts start n : ∀ i,
  rr_scan ts start i n = None →
  ∀ j u, (i ≤ j < i + n)%nat → ts !! ((start + j) mod GTH_MAX_THREADS)%nat = Some u → is_ready u = false.
Proof.
  induction n as [|n IH]; intros i; cbn [rr_scan]; [lia|].
  intros E j u Hj Hu. destruct (decide (j = i)) as [->|Hne].
  - rewrite Hu in E. by destruct (is_ready u).
  - apply (IH (S i)) with j; [|lia|done]. destruct (ts !! _) as [t|]; [|done]. by destruct (is_ready t).
Qed.

#[global] Arguments rr_scan : simpl never.

(** How far slot [j] is ahead of the slot last served. *)
Definition rr_distance (last j : nat) : nat :=
  ((j + 2 * GTH_MAX_THREADS - last - 1) mod GTH_MAX_THREADS)%nat.

Lemma rr_distance_lt last j : (rr_distance last j < GTH_MAX_THREADS)%nat.
Proof. apply Nat.mod_upper_bound. done. Qed.

Lemma mod_max_split a : ∃ q, (a = GTH_MAX_THREADS * q + a mod GTH_MAX_THREADS)%nat.
Proof. exists (a / GTH_MAX_THREADS)%nat. apply Nat.div_mod_eq. Qed.

(** The slot at distance [k]. *)
Lemma rr_distance_slot last k :
  (last < GTH_MAX_THREADS)%nat → (k < GTH_MAX_THREADS)%nat →
  rr_distance last (((last + 1) mod GTH_MAX_THREADS + k) mod GTH_MAX_THREADS) = k.
Proof.
  intros Hlast Hk. unfold rr_distance.
  set (a := ((last + 1) mod GTH_MAX_THREADS)%nat). set (b := ((a + k) mod GTH_MAX_THREADS)%nat).
  destruct (mod_max_split (last + 1)) as [q1 E1], (mod_max_split (a + k)) as [q2 E2].
  fold a in E1. fold b in E2.
  assert (Hb : (b < GTH_MAX_THREADS)%nat) by (apply Nat.mod_upper_bound; done).
  destruct (mod_max_split (b + 2 * GTH_MAX_THREADS - last - 1)) as [q3 E3].
  assert (Hc := Nat.mod_upper_bound (b + 2 * GTH_MAX_THREADS - last - 1) GTH_MAX_THREADS ltac:(done)).
  unfold GTH_MAX_THREADS in *. lia.
Qed.

Lemma rr_slot_distance last j :
  (last < GTH_MAX_THREADS)%nat → (j < GTH_MAX_THREADS)%nat →
  (((last + 1) mod GTH_MAX_THREADS + rr_distance last j) mod GTH_MAX_THREADS)%nat = j.
Proof.
  intros Hlast Hj. unfold rr_distance.
  set (a := ((last + 1) mod GTH_MAX_THREADS)%nat).
  set (d := ((j + 2 * GTH_MAX_THREADS - last - 1) mod GTH_MAX_THREADS)%nat).
  destruct (mod_max_split (last + 1)) as [q1 E1]. fold a in E1.
  destruct (mod_max_split (j + 2 * GTH_MAX_THREADS - last - 1)) as [q2 E2]. fold d in E2.
  destruct (mod_max_split (a + d)) as [q3 E3].
  assert (Hc := Nat.mod_upper_bound (a + d) GTH_MAX_THREADS ltac:(done)).
  assert (Ha : (a < GTH_MAX_THREADS)%nat) by (apply Nat.mod_upper_bound; done).
  assert (Hd : (d < GTH_MAX_THREADS)%nat) by (apply Nat.mod_upper_bound; done).
  unfold GTH_MAX_THREADS in *. lia.
Qed.

(** Serving a nearer slot brings slot [j] closer. *)
Lemma rr_distance_served last i j :
  (last < GTH_MAX_THREADS)%nat → (i < GTH_MAX_THREADS)%nat → (j < GTH_MAX_THREADS)%nat →
  (rr_distance last i < rr_distance last j)%nat → (rr_distance i j < rr_distance last j)%nat.
Proof.
  intros Hl Hi Hj. unfold rr_distance.
  destruct (mod_max_split (i + 2 * GTH_MAX_THREADS - last - 1)) as [q1 E1].
  destruct (mod_max_split (j + 2 * GTH_MAX_THREADS - last - 1)) as [q2 E2].
  destruct (mod_max_split (j + 2 * GTH_MAX_THREADS - i - 1)) as [q3 E3].
  assert (H1 := Nat.mod_upper_bound (i + 2 * GTH_MAX_THREADS - last - 1) GTH_MAX_THREADS ltac:(done)).
  assert (H2 := Nat.mod_upper_bound (j + 2 * GTH_MAX_THREADS - last - 1) GTH_MAX_THREADS ltac:(done)).
  assert (H3 := Nat.mod_upper_bound (j + 2 * GTH_MAX_THREADS - i - 1) GTH_MAX_THREADS ltac:(done)).
  unfold GTH_MAX_THREADS in *. lia.
Qed.

Lemma rr_scan_nearest ts last idx :
  length ts = GTH_MAX_THREADS → (last < GTH_MAX_THREADS)%nat →
  rr_scan ts ((last + 1) mod GTH_MAX_THREADS) 0 GTH_MAX_THREADS = Some idx →
  (∃ t, ts !! idx = Some t ∧ is_ready t = true) ∧
  ∀ j u, ts !! j = Some u → is_ready u = true → (rr_distance last idx ≤ rr_distance last j)%nat.
Proof.
  intros Hl Hlast (k & t & Hk & -> & Ht & Hr & Hlt)%rr_scan_Some; [|done]. split; [eauto|].
  intros j u Hu Hru. rewrite rr_distance_slot by lia.
  assert (Hj : (j < GTH_MAX_THREADS)%nat) by (rewrite <- Hl; by eapply lookup_lt_Some).
  destruct (decide (k ≤ rr_distance last j)%nat) as [|Hn]; [done|]. exfalso.
  assert (is_ready u = false); [|congruence].
  apply (Hlt (rr_distance last j)); [lia|]. by rewrite rr_slot_distance.
Qed.

Lemma rr_scan_none_ready ts last :
  length ts = GTH_MAX_THREADS → (last < GTH_MAX_THREADS)%nat →
  rr_scan ts ((last + 1) mod GTH_MAX_THREADS) 0 GTH_MAX_THREADS = None →
  ∀ j u, ts !! j = Some u → is_ready u = false.
Proof.
  intros Hl Hlast E j u Hu.
  assert (Hj : (j < GTH_MAX_THREADS)%nat) by (rewrite <- Hl; by eapply lookup_lt_Some).
  apply (rr_scan_None _ _ _ _ E (rr_distance last j)).
  - pose proof (rr_distance_lt last j). lia.
  - by rewrite rr_slot_distance.
Qed.

(** ** The priority scan *)

(** [t] is at least as urgent as [u]: higher priority, or the same and not a
    younger thread. *)
Definition prio_le (u t : gth_thread_record_t) : Prop :=
  th_priority u < th_priority t ∨ th_priority u = th_priority t ∧ th_tid t ≤ th_tid u.

Lemma prio_le_refl t : prio_le t t.
Proof. unfold prio_le. lia. Qed.
Lemma prio_le_trans a b c : prio_le a b → prio_le b c → prio_le a c.
Proof. unfold prio_le. lia. Qed.

Lemma prio_better_spec t b : if prio_better t b then prio_le b t else prio_le t b.
Proof.
  unfold prio_better, prio_le. destruct (Z.ltb_spec (th_priority b) (th_priority t)); [lia|].
  destruct (Z.eqb_spec (th_priority t) (th_priority b)); cbn; [|lia].
  destruct (Z.ltb_spec (th_tid t) (th_tid b)); lia.
Qed.

Lemma prio_scan_Some ts : ∀ i best k,
  prio_scan ts i best = Some k →
  ∃ t, (best = Some (k, t) ∨ ∃ m, k = (i + m)%nat ∧ ts !! m = Some t ∧ is_ready t = true) ∧
    (∀ kb b, best = Some (kb, b) → prio_le b t) ∧
    ∀ m u, ts !! m = Some u → is_ready u = true → prio_le u t.
Proof.
  induction ts as [|x ts IH]; intros i best k; cbn [prio_scan].
  { intros ((k' & t) & -> & ->)%fmap_Some. exists t. split_and!; [by left| |done].
    intros kb b [= -> ->]. apply prio_le_refl. }
  assert (Htail : ∀ m u, (x :: ts) !! m = Some u → m = 0%nat ∧ u = x ∨ ∃ m', m = S m' ∧ ts !! m' = Some u).
  { intros [|m] u Hu; [left; naive_solver|right; eauto]. }
  destruct (is_ready x) eqn:Hx; cbn [negb].
  - assert (Htake : prio_scan ts (S i) (Some (i, x)) = Some k →
      (∀ kb b, best = Some (kb, b) → prio_le b x) → ∃ t,
      (best = Some (k, t) ∨ ∃ m, k = (i + m)%nat ∧ (x :: ts) !! m = Some t ∧ is_ready t = true) ∧
      (∀ kb b, best = Some (kb, b) → prio_le b t) ∧
      ∀ m u, (x :: ts) !! m = Some u → is_ready u = true → prio_le u t).
    { intros E Hb. destruct (IH _ _ _ E) as (t & Hor & Hbt & Hmt). specialize (Hbt i x eq_refl).
      exists t. split_and!.
      - right. destruct Hor as [[= -> ->]|(m & -> & Hm)].
        + exists 0%nat. split_and!; [lia|done|done].
        + exists (S m). split; [lia|done].
      - intros kb b Eb. eapply prio_le_trans; [by eapply Hb|done].
      - intros m u [[-> ->]|(m' & -> & Hm')]%Htail Hu; [done|eauto]. }
    destruct best as [[kb b]|]; [|by intros E; apply Htake].
    pose proof (prio_better_spec x b) as Hxb. destruct (prio_better x b).
    + intros E. apply Htake; [done|]. intros ? ? [= <- <-]. done.
    + intros E. destruct (IH _ _ _ E) as (t & Hor & Hbt & Hmt). specialize (Hbt kb b eq_refl).
      exists t. split_and!.
      * destruct Hor as [|(m & -> & Hm)]; [by left|]. right. exists (S m). split; [lia|done].
      * by intros ? ? [= <- <-].
      * intros m u [[-> ->]|(m' & -> & Hm')]%Htail Hu; [by eapply prio_le_trans|eauto].
  - intros E. destruct (IH _ _ _ E) as (t & Hor & Hbt & Hmt). exists t. split_and!; [|done|].
    + destruct Hor as [|(m & -> & Hm)]; [by left|]. right. exists (S m). split; [lia|done].
    + intros m u [[-> ->]|(m' & -> & Hm')]%Htail Hu; [congruence|eauto].
Qed.

Lemma prio_scan_None ts : ∀ i best,
  prio_scan ts i best = None → best = None ∧ ∀ m u, ts !! m = Some u → is_ready u = false.
Proof.
  induction ts as [|x ts IH]; intros i best; cbn [prio_scan].
  { intros E%fmap_None. done. }
  assert (Hstep : ∀ b, prio_scan ts (S i) b = None → is_ready x = false →
    b = None ∧ ∀ m u, (x :: ts) !! m = Some u → is_ready u = false).
  { intros b [-> H]%IH Hx. split; [done|]. intros [|m] u Hu; [naive_solver|eauto]. }
  destruct (is_ready x) eqn:Hx; cbn [negb]; [|auto].
  destruct best as [[kb b]|]; [destruct (prio_better x b)|]; intros [? _]%IH; done.
Qed.

(** ** Selection as a whole *)

(** What [gth_scheduler_pick_ready_thread] promises whatever the policy. *)
Lemma pick_ready_spec s o s' :
  length (rt_threads s) = GTH_MAX_THREADS → (rt_last_rr_slot s < GTH_MAX_THREADS)%nat →
  gth_scheduler_pick_ready_thread s = (o, s') →
  (∃ rr, (rr < GTH_MAX_THREADS)%nat ∧ s' = {| s with rt_last_rr_slot := rr |}) ∧
  match o with
  | Some i => ∃ t, rt_threads s !! i = Some t ∧ is_ready t = true
  | None => ∀ j u, rt_threads s !! j = Some u → is_ready u = false
  end.
Proof.
  intros Hl Hrr. unfold gth_scheduler_pick_ready_thread.
  assert (Hs : s = {| s with rt_last_rr_slot := rt_last_rr_slot s |}) by (by destruct s).
  destruct (_ =? _).
  - destruct (rr_scan _ _ _ _) as [i|] eqn:E; intros [= <- <-].
    + apply rr_scan_nearest in E as [(t & Ht & Hr) _]; [|done..]. split; [|eauto].
      exists i. split; [|done]. rewrite <- Hl. by eapply lookup_lt_Some.
    + split; [eauto|]. by eapply rr_scan_none_ready.
  - intros [= <- <-]. split; [eauto|]. destruct (prio_scan _ _ _) as [i|] eqn:E.
    + apply prio_scan_Some in E as (t & [|(m & -> & Hm & Hr)] & _); [done|]. eauto.
    + by apply prio_scan_None in E as [_ H].
Qed.

(** The successive choices when the table changes in between. *)
Fixpoint picks (s : gth_runtime_state_t) (tables : list (list gth_thread_record_t)) : list (option nat) :=
  match tables with
  | [] => []
  | ts :: tables' =>
      let '(o, s') := gth_scheduler_pick_ready_thread {| s with rt_threads := ts |} in
      o :: picks s' tables'
  end.

Definition always_ready (j : nat) (tables : list (list gth_thread_record_t)) : Prop :=
  Forall (λ ts, length ts = GTH_MAX_THREADS ∧ ∃ t, ts !! j = Some t ∧ is_ready t = true) tables.

Lemma rr_served_within d : ∀ s tables j,
  cfg_policy (rt_config s) = GTH_SCHED_RR → (rt_last_rr_slot s < GTH_MAX_THREADS)%nat →
  always_ready j tables → (rr_distance (rt_last_rr_slot s) j < d ≤ length tables)%nat →
  Some j ∈ picks s tables.
Proof.
  induction d as [|d IH]; intros s tables j Hp Hrr Hall Hd; [lia|].
  destruct Hall as [|ts tables [Hl (t & Ht & Hr)] Hall]; [cbn in Hd; lia|]. cbn [picks].
  unfold gth_scheduler_pick_ready_thread. cbn [rt_config rt_threads rt_last_rr_slot]. rewrite Hp.
  change (GTH_SCHED_RR =? GTH_SCHED_RR) with true. cbv iota.
  destruct (rr_scan _ _ _ _) as [i|] eqn:E.
  - destruct (decide (i = j)) as [->|Hne]; [by left|].
    apply rr_scan_nearest in E as [(u & Hu & _) Hmin]; [|done..].
    specialize (Hmin j t Ht Hr).
    assert (Hj : (j < GTH_MAX_THREADS)%nat) by (rewrite <- Hl; by eapply lookup_lt_Some).
    assert (Hi : (i < GTH_MAX_THREADS)%nat) by (rewrite <- Hl; by eapply lookup_lt_Some).
    assert (Hdist : rr_distance (rt_last_rr_slot s) i ≠ rr_distance (rt_last_rr_slot s) j).
    { intros Eq. apply Hne. rewrite <- (rr_slot_distance (rt_last_rr_slot s) i) by done.
      by rewrite Eq, rr_slot_distance. }
    right. apply IH; [done|done|done|]. cbn [length rt_last_rr_slot] in *.
    pose proof (rr_distance_served (rt_last_rr_slot s) i j Hrr Hi Hj). lia.
  - exfalso. pose proof (rr_scan_none_ready _ _ Hl Hrr E j t Ht). congruence.
Qed.

(** C18. Round robin starves nobody: whatever happens to the table between
    scheduling decisions, a thread that is ready at 128 consecutive decisions
    is chosen at one of them. *)
Theorem rr_no_starvation s tables j :
  cfg_policy (rt_config s) = GTH_SCHED_RR → (rt_last_rr_slot s < GTH_MAX_THREADS)%nat →
  always_ready j tables → (GTH_MAX_THREADS ≤ length tables)%nat →
  Some j ∈ picks s tables.
Proof.
  intros Hp Hrr Hall Hlen. apply (rr_served_within GTH_MAX_THREADS); auto.
  pose proof (rr_distance_lt (rt_last_rr_slot s) j). lia.
Qed.

(** A table in which every thread is ready. *)
Definition full_table : list gth_thread_record_t :=
  (λ i, {| thread_zero with th_tid := Z.of_nat (S i); th_state := GTH_THREAD_READY;
           th_slot_index := i |}) <$> seq 0 GTH_MAX_THREADS.

Lemma rr_no_starvation_witness :
  Some 77%nat ∈ picks {| rt_zero with rt_last_rr_slot := 80%nat |} (replicate 128 full_table).
Proof.
  apply rr_no_starvation.
  - reflexivity.
  - vm_compute. lia.
  - apply Forall_replicate. split; [reflexivity|]. eexists. split; reflexivity.
  - vm_compute. lia.
Defined.

(** The round-robin choice is the first ready thread after the slot served
    last, in cyclic order, and that slot becomes the one served last; nothing
    is chosen, and nothing changes, exactly when no thread is ready. *)
Theorem rr_pick_nearest s :
  cfg_policy (rt_config s) = GTH_SCHED_RR → length (rt_threads s) = GTH_MAX_THREADS →
  (rt_last_rr_slot s < GTH_MAX_THREADS)%nat →
  match gth_scheduler_pick_ready_thread s with
  | (Some i, s') =>
      (∃ t, rt_threads s !! i = Some t ∧ is_ready t = true) ∧
      (∀ j u, rt_threads s !! j = Some u → is_ready u = true →
         (rr_distance (rt_last_rr_slot s) i ≤ rr_distance (rt_last_rr_slot s) j)%nat) ∧
      s' = {| s with rt_last_rr_slot := i |}
  | (None, s') => s' = s ∧ ∀ j u, rt_threads s !! j = Some u → is_ready u = false
  end.
Proof.
  intros Hp Hl Hrr. unfold gth_scheduler_pick_ready_thread. rewrite Hp. change (GTH_SCHED_RR =? GTH_SCHED_RR) with true. cbv iota.
  destruct (rr_scan _ _ _ _) as [i|] eqn:E.
  - apply rr_scan_nearest in E as [? ?]; auto.
  - split; [done|]. by eapply rr_scan_none_ready.
Qed.

Definition three_ready : gth_runtime_state_t :=
  {| rt_zero with rt_threads := take 3 full_table ++ replicate 125 thread_zero;
                  rt_last_rr_slot := 1%nat |}.

Lemma rr_pick_nearest_witness :
  ∃ t, rt_threads three_ready !! 2%nat = Some t ∧ is_ready t = true.
Proof. exact (proj1 (rr_pick_nearest three_ready eq_refl eq_refl ltac:(vm_compute; lia))). Defined.

(** C30. The priority choice is a ready thread such that every other ready
    thread has a lower priority, or the same priority and no smaller id;
    nothing is chosen exactly when no thread is ready. *)
Theorem prio_pick_optimal s :
  cfg_policy (rt_config s) ≠ GTH_SCHED_RR →
  match gth_scheduler_pick_ready_thread s with
  | (Some i, s') => s' = s ∧
      ∃ t, rt_threads s !! i = Some t ∧ is_ready t = true ∧
        ∀ j u, rt_threads s !! j = Some u → is_ready u = true →
          th_priority u < th_priority t ∨ th_priority u = th_priority t ∧ th_tid t ≤ th_tid u
  | (None, s') => s' = s ∧ ∀ j u, rt_threads s !! j = Some u → is_ready u = false
  end.
Proof.
  intros Hp. unfold gth_scheduler_pick_ready_thread.
  destruct (Z.eqb_spec (cfg_policy (rt_config s)) GTH_SCHED_RR) as [|_]; [done|].
  destruct (prio_scan _ _ _) as [i|] eqn:E.
  - split; [done|]. apply prio_scan_Some in E as (t & [|(m & -> & Hm & Hr)] & _ & Hall); [done|]. eauto.
  - split; [done|]. by apply prio_scan_None in E as [_ H].
Qed.

Definition prio_ready : gth_runtime_state_t :=
  {| three_ready with rt_config := {| config_zero with cfg_policy := GTH_SCHED_PRIORITY |} |}.

Lemma prio_pick_optimal_witness :
  ∃ t, rt_threads prio_ready !! 0%nat = Some t ∧ is_ready t = true ∧
    ∀ j u, rt_threads prio_ready !! j = Some u → is_ready u = true → prio_le u t.
Proof.
  exact (proj2 (prio_pick_optimal prio_ready (Z.neq_sym _ _ (Z.lt_neq 0 1 eq_refl)))).
Defined.
