(* ===== verification/Thread.v ===== *)
(** * Threads (src/src/thread/thread.c, src/src/context/context.c)

    Creation, yield, join, cancellation, blocking and unblocking, the
    accounting of runnable and blocked threads, and the trampoline that a
    thread's stack starts and ends in. *)

From S2P Require Import Prelude WaitQueue TraceFormat State Stack TraceBuffer Trace Runtime Replay.
From S2P Require Import Fuzz Sched.

(** [if (x > 0U) x -= 1U;] *)
Definition dec_pos (x : Z) : Z := if 0 <? x then x - 1 else x.

Definition gth_runtime_account_state_change (from to : gth_thread_state_t)
    (s : gth_runtime_state_t) : gth_runtime_state_t :=
  if bool_decide (from = to) then s
  else
    let s :=
      if is_ready_st from && (0 <? rt_runnable_threads s)
      then {| s with rt_runnable_threads := rt_runnable_threads s - 1 |}
      else if is_blocked_st from && (0 <? rt_blocked_threads s)
      then {| s with rt_blocked_threads := rt_blocked_threads s - 1 |}
      else s in
    if is_ready_st to then {| s with rt_runnable_threads := u64 (rt_runnable_threads s + 1) |}
    else if is_blocked_st to then {| s with rt_blocked_threads := u64 (rt_blocked_threads s + 1) |}
    else s.

(** [thread] is the slot [i]. *)
Definition gth_runtime_set_thread_state (i : nat) (new_state : gth_thread_state_t) : M unit :=
  t <- thread_at i;;
  if bool_decide (th_state t = new_state) then ret tt
  else
    modify (upd_rt (gth_runtime_account_state_change (th_state t) new_state));;
    modify (upd_rt (upd_thread i (set_state new_state))).

Definition gth_thread_acquire_slot : M (option nat) := λ w,
  match gth_runtime_alloc_thread_slot (w_rt w) with
  | None => Done (None, w)
  | Some i => Done (Some i, upd_rt (upd_thread i (λ t, {| t with th_slot_index := i |})) w)
  end.

Definition gth_context_destroy (ctx : gth_ctx_t) : gth_ctx_t :=
  {| ctx with ctx_fxsave_area := false |}.

(** [gth_context_destroy(&state->threads[i].ctx)]. *)
Definition destroy_context (i : nat) : world → world :=
  upd_rt (upd_thread i (λ t, {| t with th_ctx := gth_context_destroy (th_ctx t) |})).

Definition gth_thread_release_slot (i : nat) : M unit :=
  t <- thread_at i;;
  modify (upd_rt (λ s,
    if is_ready t && (0 <? rt_runnable_threads s)
    then {| s with rt_runnable_threads := rt_runnable_threads s - 1 |}
    else if is_blocked t && (0 <? rt_blocked_threads s)
    then {| s with rt_blocked_threads := rt_blocked_threads s - 1 |}
    else s));;
  modify (destroy_context i);;
  modify (gth_stack_free (th_stack t));;
  modify (upd_rt (upd_thread i (λ _, thread_zero))).

(** The [memset] hides that the context was destroyed. *)
Lemma overwrite_after_free i stk w :
  upd_rt (upd_thread i (λ _, thread_zero)) (gth_stack_free stk (destroy_context i w)) =
  upd_rt (upd_thread i (λ _, thread_zero)) (gth_stack_free stk w).
Proof.
  unfold gth_stack_free, munmap, destroy_context, upd_rt, upd_thread.
  destruct (_ && _); cbn; by rewrite alter_alter.
Qed.

(** context.c:5, with [gth_ctx_make] of ctx_x86_64.S abstracted to the entry
    point it leaves in the save area. *)
Definition gth_context_init_thread (stk : gth_stack_allocation_t) (slot_index : nat) : gth_ctx_t :=
  mk_ctx (CtxEntry slot_index (stk_stack_top stk)) true.

Definition gth_thread_create (out_tid_nonnull : bool) (attr : option gth_thread_attr_t)
    (fn arg : Z) : M resp := λ w,
  if negb (rt_initialized (w_rt w)) then Done (status GTH_ESTATE, w)
  else if negb out_tid_nonnull || (fn =? 0) then Done (status GTH_EINVAL, w)
  else
    (slot <- gth_thread_acquire_slot;;
     match slot with
     | None => ret (status GTH_ENOMEM)
     | Some i =>
         tid <- gets (λ w, rt_next_tid (w_rt w));;
         modify (upd_rt (λ s, {| s with rt_next_tid := u64 (rt_next_tid s + 1) |}));;
         modify (upd_rt (upd_thread i (λ _,
           {| thread_zero with th_slot_index := i; th_tid := tid; th_fn := fn; th_arg := arg;
              th_retval := 0; th_state := GTH_THREAD_READY;
              th_priority := match attr with Some a => attr_priority a | None => 0 end |})));;
         size <- gets (λ w, cfg_stack_size_bytes (rt_config (w_rt w)));;
         r <- gth_stack_allocate size;;
         match r with
         | (GTH_OK, stk) =>
             modify (upd_rt (upd_thread i (λ t,
               {| t with th_stack := stk; th_ctx := gth_context_init_thread stk i |})));;
             modify (upd_rt (λ s, {| s with rt_runnable_threads := u64 (rt_runnable_threads s + 1) |}));;
             modify (gth_trace_thread_create tid);;
             ret (mk_resp GTH_OK [tid])
         | (st, _) =>
             modify (upd_rt (upd_thread i (λ _, thread_zero)));;
             ret (status st)
         end
     end) w.

Definition gth_thread_self (w : world) : Z :=
  if negb (rt_initialized (w_rt w)) then 0 else rt_current_tid (w_rt w).

Definition gth_thread_current_slot_index : M nat := λ w,
  if rt_current_tid (w_rt w) =? 0 then Done (GTH_MAX_THREADS, w)
  else match gth_runtime_find_thread (w_rt w) (rt_current_tid (w_rt w)) with
  | None => Done (GTH_MAX_THREADS, w)
  | Some i => (t <- thread_at i;; ret (th_slot_index t)) w
  end.

Definition gth_thread_yield : M result := λ w,
  if negb (rt_initialized (w_rt w)) then ret_status GTH_ESTATE w
  else if rt_current_tid (w_rt w) =? 0 then
    (r <- gth_scheduler_run_next InYield;;
     match r with inl st => ret_status st | inr sw => ret sw end) w
  else match gth_runtime_find_thread (w_rt w) (rt_current_tid (w_rt w)) with
  | None => ret_status GTH_ESTATE w
  | Some i =>
      let w := gth_trace_thread_yield (rt_current_tid (w_rt w)) w in
      let w := upd_rt (upd_thread i (set_state GTH_THREAD_READY)) w in
      let w := upd_rt (λ s, {| s with rt_runnable_threads := u64 (rt_runnable_threads s + 1) |}) w in
      Done (Swap (ThreadCtx i) SchedCtx KYield, w)
  end.

(** The end of [gth_thread_join]: the out-parameter is always filled here and
    dropped by a caller that passed NULL. *)
Definition join_finish (i : nat) : M result :=
  t <- thread_at i;;
  gth_thread_release_slot i;;
  ret (Return (mk_resp GTH_OK [th_retval t])).

(** What [gth_thread_join] does with the status of [gth_scheduler_run_until]. *)
Definition join_after_run_until (tid : Z) (r : gth_status_t + result) : M result := λ w,
  match r with
  | inr sw => Done (sw, w)
  | inl GTH_OK =>
      match gth_runtime_find_thread (w_rt w) tid with
      | None => ret_status GTH_ENOTFOUND w
      | Some i => join_finish i w
      end
  | inl st => ret_status st w
  end.

Definition gth_thread_join (tid : Z) : M result := λ w,
  if negb (rt_initialized (w_rt w)) then ret_status GTH_ESTATE w
  else if tid =? 0 then ret_status GTH_EINVAL w
  else if tid =? rt_current_tid (w_rt w) then ret_status GTH_ESTATE w
  else match gth_runtime_find_thread (w_rt w) tid with
  | None => ret_status GTH_ENOTFOUND w
  | Some i =>
      (t <- thread_at i;;
       if negb (gth_thread_is_terminal (th_state t)) then
         r <- gth_scheduler_run_until tid;;
         join_after_run_until tid r
       else join_finish i) w
  end.

Definition gth_thread_unblock_slot (slot_index : nat) : M gth_status_t := λ w,
  if negb (rt_initialized (w_rt w)) then Done (GTH_ESTATE, w)
  else if (GTH_MAX_THREADS <=? slot_index)%nat then Done (GTH_EINVAL, w)
  else
    (t <- thread_at slot_index;;
     if negb (is_blocked t) then ret GTH_ESTATE
     else
       modify (upd_rt (upd_thread slot_index (set_state GTH_THREAD_READY)));;
       modify (upd_rt (λ s,
         {| s with rt_blocked_threads := dec_pos (rt_blocked_threads s);
                   rt_runnable_threads := u64 (rt_runnable_threads s + 1) |}));;
       modify (gth_trace_thread_unblock (th_tid t));;
       ret GTH_OK) w.

Definition gth_thread_cancel (tid : Z) : M gth_status_t := λ w,
  if negb (rt_initialized (w_rt w)) then Done (GTH_ESTATE, w)
  else if tid =? 0 then Done (GTH_EINVAL, w)
  else match gth_runtime_find_thread (w_rt w) tid with
  | None => Done (GTH_ENOTFOUND, w)
  | Some i =>
      (t <- thread_at i;;
       if gth_thread_is_terminal (th_state t) then ret GTH_ESTATE
       else
         modify (gth_trace_thread_cancel tid);;
         (if is_blocked t then gth_thread_unblock_slot (th_slot_index t) else ret GTH_OK);;
         gth_runtime_set_thread_state i GTH_THREAD_CANCELED;;
         modify (upd_rt (upd_thread i (λ t, {| t with th_retval := 0 |})));;
         ret GTH_OK) w
  end.

(** The code of [gth_thread_block] before its switch: [inr i] is the slot whose
    context is saved by the switch that comes next. *)
Definition gth_thread_block : M (gth_status_t + nat) := λ w,
  if negb (rt_initialized (w_rt w)) then Done (inl GTH_ESTATE, w)
  else if rt_current_tid (w_rt w) =? 0 then Done (inl GTH_ESTATE, w)
  else match gth_runtime_find_thread (w_rt w) (rt_current_tid (w_rt w)) with
  | None => Done (inl GTH_ESTATE, w)
  | Some i =>
      let w := gth_trace_thread_block (rt_current_tid (w_rt w)) GTH_BLOCK_REASON_NONE w in
      let w := upd_rt (upd_thread i (set_state GTH_THREAD_BLOCKED)) w in
      let w := upd_rt (λ s, {| s with rt_blocked_threads := u64 (rt_blocked_threads s + 1) |}) w in
      Done (inr i, w)
  end.

(** context.c:42: [gth_context_thread_trampoline] after the thread function has
    returned [result]; the switch to the scheduler that follows never comes
    back. *)
Definition trampoline_exit (idx : nat) (res : Z) : M unit :=
  t <- thread_at idx;;
  (match th_state t with
   | GTH_THREAD_CANCELED => modify (upd_rt (upd_thread idx (λ t, {| t with th_retval := 0 |})))
   | _ => modify (upd_rt (upd_thread idx (λ t,
            {| t with th_retval := res; th_state := GTH_THREAD_DONE |})))
   end);;
  t <- thread_at idx;;
  modify (gth_trace_thread_exit (th_tid t) (th_retval t));;
  modify (upd_rt (λ s, {| s with rt_current_tid := 0 |})).
