(* ===== verification/Mutex.v ===== *)
(** * Mutexes (src/src/sync/mutex.c)

    A mutex is named by its address; address 0 is NULL.  [gth_mutex_lock] can
    switch stacks, so it comes in two parts: the call, and the code that runs
    when a waiter is resumed. *)

From S2P Require Import Prelude WaitQueue TraceFormat State Stack TraceBuffer Trace Runtime Replay.
From S2P Require Import Fuzz Sched Thread.

Definition gth_mutex_init (m : Z) : M gth_status_t :=
  if m =? 0 then ret GTH_EINVAL
  else
    modify (set_mutex m (mk_mutex 1 0 0 (gth_wq_init wq_zero (u8 GTH_WQ_FIXED_SLOTS))));;
    ret GTH_OK.

(** [impl->locked = 1U; impl->owner = gth_thread_self();] *)
Definition take_mutex (m : Z) (w : world) : world :=
  set_mutex m {| (mutex_at w m) with mx_locked := 1; mx_owner := gth_thread_self w |} w.

Definition lock_acquire (m : Z) : M result :=
  modify (take_mutex m);;
  self <- gets gth_thread_self;;
  modify (gth_trace_mutex_lock self m);;
  ret_status GTH_OK.

(** [gth_wq_enqueue(&impl->wq, (uint8_t)my_slot);] *)
Definition mutex_enqueue (m : Z) (my_slot : nat) : M unit :=
  impl <- gets (λ w, mutex_at w m);;
  wq <- deref (gth_wq_enqueue (mx_wq impl) (u8 (Z.of_nat my_slot)));;
  modify (set_mutex m {| impl with mx_wq := wq |}).

(** The [while] loop of [gth_mutex_lock] and what follows it.  An iteration
    ends in a switch, or, if [gth_thread_block] refuses, in the next iteration;
    the queue is then one longer, so the fuel below is enough. *)
Fixpoint lock_wait (fuel : nat) (m : Z) (my_slot : nat) : M result :=
  match fuel with
  | O => λ _, NoFuel
  | S fuel' =>
      impl <- gets (λ w, mutex_at w m);;
      if mx_locked impl =? 0 then lock_acquire m
      else if gth_wq_is_full (mx_wq impl) then ret_status GTH_EBUSY
      else
        mutex_enqueue m my_slot;;
        b <- gth_thread_block;;
        match b with
        | inr i => ret (Swap (ThreadCtx i) SchedCtx (KLock m my_slot))
        | inl _ => lock_wait fuel' m my_slot
        end
  end.

Definition lock_fuel : nat := S (Z.to_nat GTH_WQ_FIXED_SLOTS).

(** Resumption after the switch inside [gth_thread_block]. *)
Definition gth_mutex_lock_resume (m : Z) (my_slot : nat) : M result := lock_wait lock_fuel m my_slot.

Definition gth_mutex_lock (m : Z) : M result :=
  if m =? 0 then ret_status GTH_EINVAL
  else
    impl <- gets (λ w, mutex_at w m);;
    if mx_initialized impl =? 0 then ret_status GTH_ESTATE
    else if negb (mx_locked impl =? 0) then
      self <- gets gth_thread_self;;
      if mx_owner impl =? self then ret_status GTH_EBUSY
      else
        my_slot <- gth_thread_current_slot_index;;
        if (GTH_MAX_THREADS <=? my_slot)%nat then ret_status GTH_ESTATE
        else if gth_wq_is_full (mx_wq impl) then ret_status GTH_EBUSY
        else
          mutex_enqueue m my_slot;;
          modify (gth_trace_mutex_wait self m);;
          b <- gth_thread_block;;
          match b with
          | inr i => ret (Swap (ThreadCtx i) SchedCtx (KLock m my_slot))
          | inl _ => lock_wait lock_fuel m my_slot
          end
    else lock_acquire m.

Definition gth_mutex_trylock (m : Z) : M gth_status_t :=
  if m =? 0 then ret GTH_EINVAL
  else
    impl <- gets (λ w, mutex_at w m);;
    if mx_initialized impl =? 0 then ret GTH_ESTATE
    else if negb (mx_locked impl =? 0) then ret GTH_EBUSY
    else modify (take_mutex m);; ret GTH_OK.

Definition gth_mutex_unlock (m : Z) : M gth_status_t :=
  if m =? 0 then ret GTH_EINVAL
  else
    impl <- gets (λ w, mutex_at w m);;
    if mx_initialized impl =? 0 then ret GTH_ESTATE
    else if mx_locked impl =? 0 then ret GTH_ESTATE
    else
      self <- gets gth_thread_self;;
      if negb (mx_owner impl =? 0) && negb (mx_owner impl =? self) then ret GTH_ESTATE
      else
        modify (set_mutex m {| impl with mx_locked := 0; mx_owner := 0 |});;
        (if negb (gth_wq_is_empty (mx_wq impl)) then
           p <- deref (gth_wq_dequeue (mx_wq impl));;
           modify (set_mutex m {| impl with mx_locked := 0; mx_owner := 0; mx_wq := snd p |});;
           if negb (fst p =? 0xFF) then
             modify (gth_trace_mutex_wake self m);;
             gth_thread_unblock_slot (Z.to_nat (fst p));;
             ret tt
           else ret tt
         else ret tt);;
        modify (gth_trace_mutex_unlock self m);;
        ret GTH_OK.

Definition gth_mutex_destroy (m : Z) : M gth_status_t :=
  if m =? 0 then ret GTH_EINVAL
  else
    impl <- gets (λ w, mutex_at w m);;
    if mx_initialized impl =? 0 then ret GTH_ESTATE
    else if negb (mx_locked impl =? 0) then ret GTH_EBUSY
    else if negb (gth_wq_is_empty (mx_wq impl)) then ret GTH_EBUSY
    else modify (set_mutex m mutex_zero);; ret GTH_OK.
