(* ===== verification/Sem.v ===== *)
(** * Counting semaphores (src/src/sync/sem.c) *)

From S2P Require Import Prelude WaitQueue TraceFormat State Stack TraceBuffer Trace Runtime Replay.
From S2P Require Import Fuzz Sched Thread.

Definition GTH_SEM_WAIT_QUEUE_CAPACITY : Z := 52.
Definition UINT32_MAX : Z := 2 ^ 32 - 1.

Definition gth_sem_init (s initial_count : Z) : M gth_status_t :=
  if s =? 0 then ret GTH_EINVAL
  else
    modify (set_sem s (mk_sem 1 (u32 initial_count)
                         (gth_wq_init wq_zero (u8 GTH_SEM_WAIT_QUEUE_CAPACITY))));;
    ret GTH_OK.

(** The wait that [gth_sem_wait] and [gth_cond_wait] write out: mark the
    caller blocked in its record. *)
Definition mark_blocked (my_slot : nat) : M unit :=
  modify (upd_rt (upd_thread my_slot (set_state GTH_THREAD_BLOCKED)));;
  modify (upd_rt (λ s, {| s with rt_blocked_threads := u64 (rt_blocked_threads s + 1) |})).

(** The switch comes after the trace record; nothing follows it but
    [return GTH_OK]. *)
Definition gth_sem_wait (s : Z) : M result :=
  if s =? 0 then ret_status GTH_EINVAL
  else
    impl <- gets (λ w, sem_at w s);;
    if sm_initialized impl =? 0 then ret_status GTH_ESTATE
    else if sm_count impl =? 0 then
      my_slot <- gth_thread_current_slot_index;;
      if (GTH_MAX_THREADS <=? my_slot)%nat then ret_status GTH_ESTATE
      else if gth_wq_is_full (sm_wq impl) then ret_status GTH_EBUSY
      else
        mark_blocked my_slot;;
        wq <- deref (gth_wq_enqueue (sm_wq impl) (u8 (Z.of_nat my_slot)));;
        modify (set_sem s {| impl with sm_wq := wq |});;
        self <- gets gth_thread_self;;
        modify (gth_trace_sem_wait self s 0);;
        ret (Swap (ThreadCtx my_slot) SchedCtx KSemWait)
    else
      let impl' := {| impl with sm_count := u32 (sm_count impl - 1) |} in
      modify (set_sem s impl');;
      self <- gets gth_thread_self;;
      modify (gth_trace_sem_wait self s (u32 (sm_count impl' + 1)));;
      ret_status GTH_OK.

Definition gth_sem_post (s : Z) : M gth_status_t :=
  if s =? 0 then ret GTH_EINVAL
  else
    impl <- gets (λ w, sem_at w s);;
    if sm_initialized impl =? 0 then ret GTH_ESTATE
    else
      self <- gets gth_thread_self;;
      if negb (gth_wq_is_empty (sm_wq impl)) then
        p <- deref (gth_wq_dequeue (sm_wq impl));;
        modify (set_sem s {| impl with sm_wq := snd p |});;
        (if negb (fst p =? 0xFF) then
           modify (gth_trace_sem_wake self s);;
           gth_thread_unblock_slot (Z.to_nat (fst p));;
           ret tt
         else ret tt);;
        modify (gth_trace_sem_post self s (sm_count impl));;
        ret GTH_OK
      else if sm_count impl =? UINT32_MAX then ret GTH_EINVAL
      else
        modify (set_sem s {| impl with sm_count := u32 (sm_count impl + 1) |});;
        modify (gth_trace_sem_post self s (u32 (sm_count impl + 1)));;
        ret GTH_OK.

Definition gth_sem_destroy (s : Z) : M gth_status_t :=
  if s =? 0 then ret GTH_EINVAL
  else
    impl <- gets (λ w, sem_at w s);;
    if sm_initialized impl =? 0 then ret GTH_ESTATE
    else if negb (gth_wq_is_empty (sm_wq impl)) then ret GTH_EBUSY
    else modify (set_sem s sem_zero);; ret GTH_OK.
