(* ===== verification/Cond.v ===== *)
(** * Condition variables (src/src/sync/cond.c) *)

From S2P Require Import Prelude WaitQueue TraceFormat State Stack TraceBuffer Trace Runtime Replay.
From S2P Require Import Fuzz Sched Thread Mutex Sem.

Definition GTH_COND_WAIT_QUEUE_CAPACITY : Z := 52.

Definition gth_cond_init (c : Z) : M gth_status_t :=
  if c =? 0 then ret GTH_EINVAL
  else
    modify (set_cond c (mk_cond 1 0 (gth_wq_init wq_zero (u8 GTH_COND_WAIT_QUEUE_CAPACITY))));;
    ret GTH_OK.

(** The error path of [gth_cond_wait] after a failed unlock: undo the wait. *)
Definition cond_wait_undo (c : Z) (my_slot : nat) : M unit :=
  modify (upd_rt (upd_thread my_slot (set_state GTH_THREAD_RUNNING)));;
  modify (upd_rt (λ s, {| s with rt_blocked_threads := dec_pos (rt_blocked_threads s) |}));;
  impl <- gets (λ w, cond_at w c);;
  p <- deref (gth_wq_remove (cv_wq impl) (u8 (Z.of_nat my_slot)));;
  modify (set_cond c {| impl with cv_wq := snd p |}).

(** The code before the switch; resumption calls [gth_mutex_lock]. *)
Definition gth_cond_wait (c m : Z) : M result :=
  if (c =? 0) || (m =? 0) then ret_status GTH_EINVAL
  else
    impl <- gets (λ w, cond_at w c);;
    if cv_initialized impl =? 0 then ret_status GTH_ESTATE
    else
      my_slot <- gth_thread_current_slot_index;;
      if (GTH_MAX_THREADS <=? my_slot)%nat then ret_status GTH_ESTATE
      else if gth_wq_is_full (cv_wq impl) then ret_status GTH_EBUSY
      else
        mark_blocked my_slot;;
        wq <- deref (gth_wq_enqueue (cv_wq impl) (u8 (Z.of_nat my_slot)));;
        modify (set_cond c {| impl with cv_wq := wq |});;
        self <- gets gth_thread_self;;
        modify (gth_trace_cond_wait self c);;
        st <- gth_mutex_unlock m;;
        if negb (bool_decide (st = GTH_OK)) then
          cond_wait_undo c my_slot;;
          ret_status st
        else ret (Swap (ThreadCtx my_slot) SchedCtx (KCondWait m)).

Definition gth_cond_wait_resume (m : Z) : M result := gth_mutex_lock m.

Definition gth_cond_signal (c : Z) : M gth_status_t :=
  if c =? 0 then ret GTH_EINVAL
  else
    impl <- gets (λ w, cond_at w c);;
    if cv_initialized impl =? 0 then ret GTH_ESTATE
    else if negb (gth_wq_is_empty (cv_wq impl)) then
      p <- deref (gth_wq_dequeue (cv_wq impl));;
      modify (set_cond c {| impl with cv_wq := snd p |});;
      (if negb (fst p =? 0xFF) then
         t <- thread_at (Z.to_nat (fst p));;
         self <- gets gth_thread_self;;
         modify (gth_trace_cond_signal self c (th_tid t));;
         gth_thread_unblock_slot (Z.to_nat (fst p));;
         ret tt
       else ret tt);;
      ret GTH_OK
    else ret GTH_OK.

(** The loop of [gth_cond_broadcast]; each iteration dequeues one waiter, so the
    number of waiters is fuel enough.  Returns [wake_count]. *)
Fixpoint broadcast_loop (n : nat) (c wake_count : Z) : M Z :=
  impl <- gets (λ w, cond_at w c);;
  if gth_wq_is_empty (cv_wq impl) then ret wake_count
  else match n with
  | O => λ _, NoFuel
  | S n' =>
      p <- deref (gth_wq_dequeue (cv_wq impl));;
      modify (set_cond c {| impl with cv_wq := snd p |});;
      if negb (fst p =? 0xFF) then
        gth_thread_unblock_slot (Z.to_nat (fst p));;
        broadcast_loop n' c (u32 (wake_count + 1))
      else broadcast_loop n' c wake_count
  end.

Definition gth_cond_broadcast (c : Z) : M gth_status_t :=
  if c =? 0 then ret GTH_EINVAL
  else
    impl <- gets (λ w, cond_at w c);;
    if cv_initialized impl =? 0 then ret GTH_ESTATE
    else
      wake_count <- broadcast_loop (Z.to_nat (wq_count (cv_wq impl))) c 0;;
      self <- gets gth_thread_self;;
      modify (gth_trace_cond_broadcast self c wake_count);;
      ret GTH_OK.

Definition gth_cond_destroy (c : Z) : M gth_status_t :=
  if c =? 0 then ret GTH_EINVAL
  else
    impl <- gets (λ w, cond_at w c);;
    if cv_initialized impl =? 0 then ret GTH_ESTATE
    else if negb (gth_wq_is_empty (cv_wq impl)) then ret GTH_EBUSY
    else modify (set_cond c cond_zero);; ret GTH_OK.
