(* ===== verification/Lifecycle.v ===== *)
(** * Runtime initialisation and shutdown (src/src/runtime/runtime.c, second part) *)

From S2P Require Import Prelude WaitQueue TraceFormat State Stack TraceBuffer Trace Runtime Replay.
From S2P Require Import Fuzz Thread.

Definition gth_runtime_init (config : option gth_runtime_config_t) : M gth_status_t := λ w,
  match config with
  | None => Done (GTH_EINVAL, w)
  | Some c =>
      if negb (gth_config_is_valid config) then Done (GTH_EINVAL, w)
      else if rt_initialized (w_rt w) then Done (GTH_ESTATE, w)
      else Done (GTH_OK, {| w with w_rt :=
        {| rt_zero with rt_initialized := true; rt_shutting_down := false; rt_config := c;
           rt_next_tid := 1; rt_current_tid := 0; rt_context_switches := 0;
           rt_runnable_threads := 0; rt_blocked_threads := 0; rt_finished_threads := 0;
           rt_trace_enabled := false; rt_last_rr_slot := (GTH_MAX_THREADS - 1)%nat |} |})
  end.

(** The loop over the table, from slot [i] on; [ts] are the records from there. *)
Fixpoint free_stacks (i : nat) (ts : list gth_thread_record_t) (w : world) : world :=
  match ts with
  | [] => w
  | t :: ts => free_stacks (S i) ts (gth_stack_free (th_stack t) (destroy_context i w))
  end.

Definition gth_runtime_shutdown : M gth_status_t := λ w,
  if negb (rt_initialized (w_rt w)) then Done (GTH_ESTATE, w)
  else
    let w := match rt_trace (w_rt w) with Some _ => gth_trace_cleanup w | None => w end in
    let w := match rt_replay (w_rt w) with Some _ => gth_replay_cleanup w | None => w end in
    let w := match rt_fuzz (w_rt w) with Some _ => gth_fuzz_cleanup w | None => w end in
    let w := free_stacks 0 (rt_threads (w_rt w)) w in
    Done (GTH_OK, {| w with w_rt := rt_zero |}).
