(* ===== verification/Recorder.v ===== *)
(** * Recording sessions (src/src/trace/trace.c, trace_buffer.c, replay.c)

    What a whole recording leaves on disk: from [gth_trace_start] through any
    instrumented calls to [gth_trace_stop], the file is a header followed by
    one record per event in order, whatever the number of buffer flushes in
    between, and [gth_replay_init] accepts it. *)

From S2P Require Import Prelude WaitQueue TraceFormat State TraceBuffer Trace Runtime Replay.

(** ** One record *)

Record event := mk_event { ev_type : Z; ev_tid : Z; ev_data1 : Z; ev_data2 : Z }.

Definition event_fits (e : event) : Prop :=
  fits 8 (ev_type e) ∧ fits 64 (ev_tid e) ∧ fits 64 (ev_data1 e) ∧ fits 64 (ev_data2 e).

Definition record_event (e : event) : world → world :=
  gth_trace_record (ev_type e) (ev_tid e) (ev_data1 e) (ev_data2 e).

(** What of an event is in its record. *)
Definition event_view (e : event) : Z * Z * Z :=
  (ev_type e, u32 (ev_tid e), pack_data (ev_type e) (ev_data1 e) (ev_data2 e)).
Definition record_view (r : gth_trace_record_t) : Z * Z * Z := (rec_type r, rec_tid r, rec_data_raw r).

Definition event_record (ts : Z) (e : event) : gth_trace_record_t :=
  make_record ts (ev_type e) (ev_tid e) (ev_data1 e) (ev_data2 e).

Lemma pack_data_fits type d1 d2 : fits 64 d1 → fits 64 d2 → fits 64 (pack_data type d1 d2).
Proof.
  intros H1 H2. unfold pack_data.
  assert (fits 64 (Z.lor (u64 (Z.shiftl (Z.land d1 0xFFFFFFFF) 32)) (Z.land d2 0xFFFFFFFF))).
  { apply lor_fits; [lia|by apply wrap_fits|by apply land_fits]. }
  repeat case_bool_decide; done.
Qed.

Lemma event_record_good ts e : fits 64 ts → event_fits e → good_record (event_record ts e).
Proof.
  intros Hts (H1 & H2 & H3 & H4).
  apply (checked_good (mk_record ts (ev_type e) 0 (u32 (ev_tid e)) 0
           (pack_data (ev_type e) (ev_data1 e) (ev_data2 e)) 0 0)).
  constructor; cbn; try done; [by apply wrap_fits|by apply pack_data_fits].
Qed.

Lemma event_record_view ts e : record_view (event_record ts e) = event_view e.
Proof. done. Qed.

(** ** The recorder as a growing log *)

(** Writing to the stream takes all the bytes. *)
Definition writes_all (os : OS) : Prop := ∀ n k, (k ≤ os_fwrite os n k)%nat.

(** Recording to [path] is on; [log] is what has been recorded: the file, the
    stream's pending bytes and the buffer. *)
Record recording (path : string) (log : list Z) (w : world) : Prop := {
  rg_initialized : rt_initialized (w_rt w) = true;
  rg_mode : rt_mode (w_rt w) ≠ GTH_MODE_REPLAY;
  rg_os : writes_all (w_os w);
  rg_trace : ∃ tr fp b, rt_trace (w_rt w) = Some tr ∧ tr_active tr = true ∧
    tr_file tr = Some fp ∧ f_path fp = path ∧ tr_buffer tr = Some b ∧ buffer_wf b ∧
    tb_record_size b = Z.of_nat GTH_TRACE_RECORD_SIZE ∧
    log = default [] (w_files w !! path) ++ f_pending fp ++ buffer_bytes b
}.

Lemma flush_all b fp w :
  writes_all (w_os w) → buffer_wf b →
  ∃ k, gth_trace_buffer_flush b fp w =
    (tb_count b, {| b with tb_count := 0 |}, {| fp with f_pending := f_pending fp ++ buffer_bytes b |},
     {| w with w_tick := k |}).
Proof.
  intros Hos Hwf. unfold gth_trace_buffer_flush. destruct (Z.eqb_spec (tb_count b) 0) as [E|E].
  { exists (w_tick w). unfold buffer_bytes. rewrite E. cbn. rewrite take_0, app_nil_r.
    destruct b, fp, w. cbn in *. by subst. }
  destruct (buffer_offset b (tb_count b) Hwf) as [Ho Eo]; [destruct Hwf; lia|].
  rewrite Eo. fold (buffer_bytes b).
  assert (Hlen : Z.of_nat (length (buffer_bytes b)) = tb_count b * tb_record_size b).
  { unfold buffer_bytes. rewrite length_take. lia. }
  unfold fwrite, next_tick. cbn. specialize (Hos (w_tick w) (length (buffer_bytes b))).
  rewrite Nat.min_r by done. rewrite Hlen, Z.eqb_refl. cbn. destruct Hwf.
  rewrite Z.div_mul, firstn_all by lia. by eexists.
Qed.

Lemma buffer_reset_wf b : buffer_wf b → buffer_wf {| b with tb_count := 0 |}.
Proof. intros []. constructor; cbn; lia. Qed.

Lemma recording_flush path log w :
  recording path log w →
  recording path log (gth_trace_flush w) ∧ w_files (gth_trace_flush w) !! path = Some log ∧
  ∃ tr b, rt_trace (w_rt (gth_trace_flush w)) = Some tr ∧ tr_active tr = true ∧
    tr_file tr = Some (mk_file path []) ∧ tr_buffer tr = Some b ∧ tb_count b = 0 ∧ buffer_wf b ∧
    tb_record_size b = Z.of_nat GTH_TRACE_RECORD_SIZE.
Proof.
  intros [Hin Hm Hos (tr & fp & b & Et & Ha & Ef & Ep & Eb & Hwf & Hrs & ->)].
  unfold gth_trace_flush. rewrite Et, Ef, Eb. destruct (flush_all b fp w Hos Hwf) as [k ->].
  unfold file_commit, set_trace, upd_rt. cbn. rewrite Ep, lookup_insert_eq.
  assert (Hnil : buffer_bytes {| b with tb_count := 0 |} = []) by done.
  split_and!; [|done|].
  - constructor; cbn; auto.
    eexists _, _, _. cbn. rewrite lookup_insert_eq, Hnil.
    split_and!; try done; [by apply buffer_reset_wf|]. cbn. by rewrite app_nil_r.
  - eexists _, _. cbn. split_and!; try done. by apply buffer_reset_wf.
Qed.

(** The record that an event gets when it is recorded in [w]. *)
Definition now_record (e : event) (w : world) : gth_trace_record_t :=
  event_record (u64 (os_rdtsc (w_os w) (w_tick w))) e.

Lemma append_room b r :
  buffer_wf b → tb_record_size b = Z.of_nat GTH_TRACE_RECORD_SIZE → tb_count b < tb_capacity b →
  ∃ b', gth_trace_buffer_append b (record_bytes r) = (true, b') ∧ buffer_wf b' ∧
    tb_record_size b' = Z.of_nat GTH_TRACE_RECORD_SIZE ∧ buffer_bytes b' = buffer_bytes b ++ record_bytes r.
Proof.
  intros Hwf Hrs Hroom. pose proof (append_spec b (record_bytes r) Hwf) as H.
  rewrite length_record_bytes, Hrs in H. specialize (H eq_refl).
  destruct (gth_trace_buffer_append b (record_bytes r)) as [ok b'].
  destruct H as (Hwf' & Hrs' & _ & Hok & Hb & _). cbn in Hok.
  destruct (Z.leb_spec (tb_capacity b) (tb_count b)); [lia|]. subst ok. exists b'. split_and!; auto.
Qed.

Lemma recording_record path log e w :
  recording path log w → recording path (log ++ record_bytes (now_record e w)) (record_event e w).
Proof.
  intros Hr. destruct (Hr) as [Hin Hm Hos (tr & fp & b & Et & Ha & Ef & Ep & Eb & Hwf & Hrs & Hlog)].
  unfold record_event, gth_trace_record, gth_trace_timestamp, next_tick. rewrite Et, Ha, Eb. cbn [negb].
  rewrite bool_decide_eq_false_2 by done.
  set (w1 := {| w with w_tick := _ |}).
  change (make_record _ _ _ _ _) with (now_record e w).
  destruct (decide (tb_count b < tb_capacity b)) as [Hroom|Hfull].
  - destruct (append_room b (now_record e w) Hwf Hrs Hroom) as (b' & -> & Hwf' & Hrs' & Hb').
    constructor; [done..|]. cbn. eexists _, _, _. cbn. split_and!; try done.
    rewrite Hb', Hlog, <- !app_assoc. done.
  - assert (Hno : gth_trace_buffer_append b (record_bytes (now_record e w)) = (false, b)).
    { unfold gth_trace_buffer_append. cbn. by destruct (Z.leb_spec (tb_capacity b) (tb_count b)); [|lia]. }
    rewrite Hno.
    assert (Hr1 : recording path log w1) by (destruct Hr; by constructor).
    destruct (recording_flush path log w1 Hr1)
      as ([Hin2 Hm2 Hos2 _] & Hfile & tr2 & b2 & Et2 & Ha2 & Ef2 & Eb2 & Hc2 & Hwf2 & Hrs2).
    set (w2 := gth_trace_flush w1) in *. rewrite Et2, Eb2.
    destruct (append_room b2 (now_record e w) Hwf2 Hrs2) as (b3 & -> & Hwf3 & Hrs3 & Hb3);
      [destruct Hwf2; lia|].
    constructor; [done..|]. cbn. eexists _, _, _. cbn. split_and!; try done.
    unfold buffer_bytes in Hb3 at 2. rewrite Hc2 in Hb3. cbn in Hb3. rewrite take_0 in Hb3.
    rewrite Hb3. by rewrite Hfile.
Qed.

(** ** Start, events, stop *)

(** Code that runs between two recorded events and leaves the recorder alone. *)
Definition interlude (g : world → world) : Prop := ∀ w,
  rt_trace (w_rt (g w)) = rt_trace (w_rt w) ∧ w_files (g w) = w_files w ∧ w_os (g w) = w_os w ∧
  rt_mode (w_rt (g w)) = rt_mode (w_rt w) ∧ rt_initialized (w_rt (g w)) = rt_initialized (w_rt w).

Definition run_event (w : world) (ge : (world → world) * event) : world := record_event (snd ge) (fst ge w).

Lemma recording_interlude path log g w : interlude g → recording path log w → recording path log (g w).
Proof.
  intros Hg []. destruct (Hg w) as (E1 & E2 & E3 & E4 & E5). constructor; by rewrite ?E1, ?E2, ?E3, ?E4, ?E5.
Qed.

Lemma recording_events path evs : ∀ log w,
  recording path log w → Forall (λ ge, interlude (fst ge) ∧ event_fits (snd ge)) evs →
  ∃ rs, recording path (log ++ concat (record_bytes <$> rs)) (foldl run_event w evs) ∧
    Forall good_record rs ∧ record_view <$> rs = (λ ge, event_view (snd ge)) <$> evs.
Proof.
  induction evs as [|[g e] evs IH]; intros log w Hr Hall.
  { exists []. cbn. rewrite app_nil_r. by split_and!. }
  inversion_clear Hall as [|? ? [Hg He] Hall']. cbn [foldl run_event fst snd].
  pose proof (recording_record path log e _ (recording_interlude path log g w Hg Hr)) as H1.
  destruct (IH _ _ H1 Hall') as (rs & Hrs & Hgood & Hview).
  exists (now_record e (g w) :: rs). cbn [fmap list_fmap concat]. rewrite app_assoc. split_and!; [done| |].
  - constructor; [|done]. apply event_record_good; [by apply wrap_fits|done].
  - cbn. unfold now_record. rewrite event_record_view. f_equal. exact Hview.
Qed.

(** Every OS call that a recording needs succeeds. *)
Definition os_works (os : OS) : Prop :=
  writes_all os ∧ (∀ n, os_malloc os n = true) ∧ (∀ n, os_fopen os n = true).

Definition init_event : event := mk_event GTH_EVT_RUNTIME_INIT 0 0 0.
Definition shutdown_event : event := mk_event GTH_EVT_RUNTIME_SHUTDOWN 0 0 0.

Definition fresh_trace : gth_trace_state_t := mk_trace None None 0 gth_trace_timestamp_freq 0 false.

Lemma trace_init_ok w :
  rt_initialized (w_rt w) = true → rt_trace (w_rt w) = None → (∀ n, os_malloc (w_os w) n = true) →
  gth_trace_init w = Done (GTH_OK, set_trace (Some fresh_trace) {| w with w_tick := S (w_tick w) |}).
Proof.
  intros Hin Htr Hma. unfold gth_trace_init. rewrite Hin, Htr. cbn [negb].
  unfold bind, malloc, next_tick. by rewrite Hma.
Qed.

Lemma write_header_ok path w :
  writes_all (w_os w) → ∃ h, good_header h ∧
    gth_trace_write_header (mk_file path []) w =
      (GTH_OK, mk_file path (header_bytes h), {| w with w_tick := S (S (w_tick w)) |}).
Proof.
  intros Hwr. unfold gth_trace_write_header, next_tick.
  set (h := mk_header _ _ _ _ _ _). exists h. split.
  - split_and!; [|done..]. constructor; [by vm_compute|by vm_compute| |by vm_compute..].
    unfold h. cbn [hd_creation_time]. destruct (os_realtime _ _) as [[? ?]|]; [by apply wrap_fits|done].
  - unfold fwrite, next_tick. cbn [w_os w_tick f_pending f_path]. rewrite length_header_bytes.
    rewrite Nat.min_r by apply Hwr. by rewrite take_ge by (by rewrite length_header_bytes).
Qed.

Lemma buffer_create_ok w :
  (∀ n, os_malloc (w_os w) n = true) → ∃ b k,
    gth_trace_buffer_create GTH_TRACE_BUFFER_COUNT (Z.of_nat GTH_TRACE_RECORD_SIZE) w =
      Done (Some b, {| w with w_tick := k |}) ∧
    buffer_wf b ∧ tb_record_size b = Z.of_nat GTH_TRACE_RECORD_SIZE ∧ buffer_bytes b = [].
Proof.
  intros Hma.
  assert (E : ∃ b w', gth_trace_buffer_create GTH_TRACE_BUFFER_COUNT (Z.of_nat GTH_TRACE_RECORD_SIZE) w =
    Done (Some b, w')).
  { unfold gth_trace_buffer_create. change (_ || _) with false. change (_ <? _) with false. cbv iota.
    unfold bind, malloc, next_tick. rewrite Hma. cbn [negb w_os]. rewrite Hma. eauto. }
  destruct E as (b & w' & E).
  pose proof (buffer_create_spec w GTH_TRACE_BUFFER_COUNT (Z.of_nat GTH_TRACE_RECORD_SIZE)) as H.
  unfold returns in H. rewrite E in H.
  destruct H as [(Hwf & _ & Hrs & Hc) [k ->]]; [by vm_compute|by vm_compute|].
  exists b, k. split_and!; auto. unfold buffer_bytes. by rewrite Hc.
Qed.

Lemma trace_start_returns path w :
  rt_initialized (w_rt w) = true → rt_trace (w_rt w) = None → rt_mode (w_rt w) ≠ GTH_MODE_REPLAY →
  os_works (w_os w) → path ≠ EmptyString →
  returns (gth_trace_start (Some path)) w (λ st w', st = GTH_OK ∧
    ∃ h r, good_header h ∧ good_record r ∧ record_view r = event_view init_event ∧
      recording path (header_bytes h ++ record_bytes r) w').
Proof.
  intros Hin Htr Hmode (Hwr & Hma & Hfo) Hpath. unfold gth_trace_start, returns.
  rewrite Hin, bool_decide_eq_false_2 by done. cbn [negb].
  unfold bind. rewrite trace_init_ok by done. cbn [set_trace upd_rt w_rt rt_trace tr_file fresh_trace].
  change (negb _ && negb _) with false. cbv iota. unfold next_tick. cbn [w_os]. rewrite Hfo. cbn [negb].
  match goal with |- context [gth_trace_write_header _ ?x] => set (w1 := x) end.
  destruct (write_header_ok path w1 Hwr) as (h & Hh & ->).
  rewrite bool_decide_eq_true_2 by done. cbn [negb].
  match goal with |- context [gth_trace_buffer_create _ _ ?x] => set (w2 := x) end.
  destruct (buffer_create_ok w2 Hma) as (b & k & -> & Hwf & Hrs & Hb).
  unfold gth_trace_timestamp, next_tick. split; [done|]. set (w4 := set_trace_enabled true _).
  assert (Hrec : recording path (header_bytes h) w4).
  { constructor; [done..|]. cbn. eexists _, _, _. cbn. split_and!; try done.
    rewrite Hb, lookup_insert_eq. cbn. by rewrite app_nil_r. }
  exists h, (now_record init_event w4). split_and!; [done| |done|].
  - apply event_record_good; [by apply wrap_fits|]. by vm_compute.
  - by apply (recording_record path (header_bytes h) init_event).
Qed.

Lemma trace_stop_returns path log w :
  recording path log w →
  returns gth_trace_stop w (λ st w', st = GTH_OK ∧ rt_trace (w_rt w') = None ∧
    ∃ r, good_record r ∧ record_view r = event_view shutdown_event ∧
      w_files w' !! path = Some (log ++ record_bytes r)).
Proof.
  intros Hr. pose proof (recording_record path log shutdown_event w Hr) as Hr1.
  destruct (Hr) as [Hin _ _ (tr & fp & b & Et & Ha & _)]. unfold gth_trace_stop, returns.
  rewrite Hin, Et, Ha. cbn [negb].
  change (gth_trace_record GTH_EVT_RUNTIME_SHUTDOWN 0 0 0 w) with (record_event shutdown_event w).
  destruct (recording_flush _ _ _ Hr1) as (_ & Hfile & tr2 & b2 & Et2 & Ha2 & Ef2 & _).
  set (w2 := gth_trace_flush (record_event shutdown_event w)) in *. rewrite Et2, Ef2.
  unfold gth_trace_cleanup. cbn. split_and!; [done|done|].
  exists (now_record shutdown_event w). split_and!; [|done|].
  - apply event_record_good; [by apply wrap_fits|]. by vm_compute.
  - rewrite lookup_insert_eq, Hfile. cbn. by rewrite app_nil_r.
Qed.

(** ** A whole session *)

Definition trace_session (path : string) (evs : list ((world → world) * event)) : M gth_status_t :=
  st <- gth_trace_start (Some path);;
  if negb (bool_decide (st = GTH_OK)) then ret st
  else
    modify (λ w, foldl run_event w evs);;
    gth_trace_stop.

(** A stored file of valid records, loaded. *)
Lemma loaded_records path h rs v :
  good_header h → Forall good_record rs → rs ≠ [] → path ≠ EmptyString →
  w_files v !! path = Some (trace_file h rs) → rt_initialized (w_rt v) = true → rt_replay (w_rt v) = None →
  os_reads (w_os v) → Z.of_nat (length (trace_file h rs)) ≤ GTH_REPLAY_MAX_FILE_SIZE →
  returns (gth_replay_from (Some path)) v (λ st v', st = GTH_OK ∧ rt_mode (w_rt v') = GTH_MODE_REPLAY ∧
    ∃ r, rt_replay (w_rt v') = Some r ∧ rp_event_count r = length rs ∧ rp_current_idx r = 0%nat ∧
      ∀ i e, rs !! i = Some e → gth_replay_peek_event {| r with rp_current_idx := i |} = Some e).
Proof.
  intros Hh Hrs Hne Hpath Hf Hvi Hvr Hrd Hsz. unfold returns.
  rewrite (replay_from_loads path (trace_file h rs) (length rs) v); try done.
  - split_and!; [done|done|]. eexists. split; [done|]. split_and!; [done|done|]. intros i e Hi.
    unfold gth_replay_peek_event. cbn [rp_event_count rp_current_idx rp_events].
    pose proof (lookup_lt_Some _ _ _ Hi). destruct (Nat.leb_spec (length rs) i); [lia|]. f_equal.
    apply record_at_file; [done|]. by destruct (Forall_lookup_1 _ _ _ _ Hrs Hi).
  - rewrite length_trace_file. lia.
  - by apply count_records_file.
  - by destruct rs.
Qed.

(** C14. What is recorded is what is replayed: after start, any instrumented
    run and stop, the file holds a valid header and one record per event, in
    order, framed by the init and shutdown events.  [gth_replay_from] then
    loads that file, in any world in which it is stored, no replay is on and
    reading works: it succeeds with exactly those records, the cursor at the
    first, provided the file has at most the 256 MiB that
    [gth_replay_read_file] accepts; a longer one is refused with ENOTFOUND. *)
Theorem recording_session_file path evs w :
  rt_initialized (w_rt w) = true → rt_trace (w_rt w) = None → rt_mode (w_rt w) ≠ GTH_MODE_REPLAY →
  os_works (w_os w) → path ≠ EmptyString →
  Forall (λ ge, interlude (fst ge) ∧ event_fits (snd ge)) evs →
  returns (trace_session path evs) w (λ st w', st = GTH_OK ∧ rt_trace (w_rt w') = None ∧
    ∃ h rs, let data := trace_file h rs in
      let size := Z.of_nat (GTH_TRACE_HEADER_SIZE + (length evs + 2) * GTH_TRACE_RECORD_SIZE) in
      w_files w' !! path = Some data ∧
      record_view <$> rs =
        event_view init_event :: ((λ ge, event_view (snd ge)) <$> evs) ++ [event_view shutdown_event] ∧
      ∀ v, w_files v !! path = Some data → rt_initialized (w_rt v) = true → rt_replay (w_rt v) = None →
      (os_reads (w_os v) → size ≤ GTH_REPLAY_MAX_FILE_SIZE →
        returns (gth_replay_from (Some path)) v (λ st v', st = GTH_OK ∧
          rt_mode (w_rt v') = GTH_MODE_REPLAY ∧
          ∃ r, rt_replay (w_rt v') = Some r ∧ rp_event_count r = length rs ∧ rp_current_idx r = 0%nat ∧
            ∀ i e, rs !! i = Some e → gth_replay_peek_event {| r with rp_current_idx := i |} = Some e)) ∧
      (GTH_REPLAY_MAX_FILE_SIZE < size → gth_replay_from (Some path) v = Done (GTH_ENOTFOUND, v))).
Proof.
  intros Hin Htr Hmode Hos Hpath Hevs. unfold trace_session. apply returns_bind.
  eapply returns_mono; [by apply trace_start_returns|].
  intros st w1 (-> & h & r0 & Hh & Hr0 & Hv0 & Hrec). rewrite bool_decide_eq_true_2 by done. cbn [negb].
  apply returns_bind, returns_modify.
  destruct (recording_events path evs _ _ Hrec Hevs) as (rs & Hrec2 & Hgood & Hview).
  eapply returns_mono; [by apply trace_stop_returns|].
  intros st w2 (-> & Hnone & r1 & Hr1 & Hv1 & Hfile). split_and!; [done..|].
  exists h, (r0 :: rs ++ [r1]).
  assert (Hall : Forall good_record (r0 :: rs ++ [r1])).
  { constructor; [done|]. apply Forall_app. split; [done|]. by constructor. }
  assert (Hlen : length (r0 :: rs ++ [r1]) = (length evs + 2)%nat).
  { cbn. rewrite length_app, <- (length_fmap record_view rs), Hview, length_fmap. cbn. lia. }
  cbv zeta. rewrite <- Hlen, <- (length_trace_file h). split_and!.
  - rewrite Hfile. unfold trace_file. f_equal. cbn [fmap list_fmap concat].
    rewrite fmap_app, concat_app. cbn. by rewrite app_nil_r, <- !app_assoc.
  - cbn. by rewrite fmap_app, Hv0, Hview, <- Hv1.
  - intros v Hf Hvi Hvr. split; [intros Hrd Hsz|intros; by eapply replay_from_too_long].
    by apply (loaded_records path h).
Qed.

(** Thread 1 is switched to and, after it has run, yields. *)
Definition sample_run : list ((world → world) * event) :=
  [(λ w, w, mk_event GTH_EVT_CONTEXT_SWITCH 0 0 1);
   (upd_rt (λ s, {| s with rt_current_tid := 1 |}), mk_event GTH_EVT_THREAD_YIELD 1 0 0)].

Lemma recording_session_file_witness :
  returns (trace_session "t"%string sample_run)
    (mk_world {| rt_zero with rt_initialized := true |} ∅ ∅ ∅ ∅ ∅ 0 sunny_os 0 0)
    (λ st w', st = GTH_OK ∧ rt_trace (w_rt w') = None ∧ ∃ data, w_files w' !! "t"%string = Some data ∧
      returns (gth_replay_from (Some "t"%string))
        (mk_world {| rt_zero with rt_initialized := true |} ∅ ∅ ∅ {["t"%string := data]} ∅ 0 sunny_os 0 0)
        (λ st v', st = GTH_OK ∧ rt_mode (w_rt v') = GTH_MODE_REPLAY)).
Proof.
  eapply returns_mono; [apply recording_session_file|].
  - reflexivity.
  - reflexivity.
  - cbn. congruence.
  - split; [intros n k; cbn; lia|]. split; reflexivity.
  - congruence.
  - repeat (constructor; [split; [by repeat split|by vm_compute]|]). constructor.
  - intros st w' (H1 & H2 & h & rs & H3 & _ & H4). split; [exact H1|]. split; [exact H2|].
    exists (trace_file h rs). split; [exact H3|].
    destruct (H4 (mk_world {| rt_zero with rt_initialized := true |} ∅ ∅ ∅
      {["t"%string := trace_file h rs]} ∅ 0 sunny_os 0 0)) as [H5 _]; [apply lookup_singleton_eq|reflexivity..|].
    eapply returns_mono; [apply H5|].
    + split; reflexivity.
    + vm_compute. congruence.
    + intros st' v' (H6 & H7 & _). split; [exact H6|exact H7].
Defined.
