(* ===== verification/Machine.v ===== *)
(** * The whole runtime as a machine

    The library runs inside one OS thread: the process's main stack and the
    stacks of the green threads take turns, and control moves between them
    only in [gth_ctx_swap].  The machine has the world, the stack that is
    executing, and for every stack what it is doing: running user code,
    about to continue a library call, or suspended in a switch.

    User code (the program's [main] and the thread functions) is not part of
    the library, so it is a parameter: a transition system that calls the
    public functions. *)

From S2P Require Import Prelude WaitQueue TraceFormat State Stack TraceBuffer Trace Runtime Replay.
From S2P Require Import Fuzz Sched Thread Mutex Sem Cond Lifecycle.

(** ** The public functions *)

Inductive api :=
| AInit (config : option gth_runtime_config_t)
| AShutdown
| AGetStats (out_nonnull : bool)
| ACreate (out_nonnull : bool) (attr : option gth_thread_attr_t) (fn arg : Z)
| AYield
| AJoin (tid : Z)
| ACancel (tid : Z)
| ASelf
| AMutexInit (m : Z)
| ALock (m : Z)
| ATrylock (m : Z)
| AUnlock (m : Z)
| AMutexDestroy (m : Z)
| ASemInit (s initial_count : Z)
| ASemWait (s : Z)
| ASemPost (s : Z)
| ASemDestroy (s : Z)
| ACondInit (c : Z)
| ACondWait (c m : Z)
| ACondSignal (c : Z)
| ACondBroadcast (c : Z)
| ACondDestroy (c : Z)
| ATraceStart (path : option string)
| ATraceStop
| AReplayFrom (path : option string)
| AReplayStats (out_nonnull : bool)
| AFuzzStats (out_nonnull : bool)
| AFuzzSetRate (rate : Z)
| ASetMode (mode : gth_scheduler_mode_t).

Definition returning (m : M gth_status_t) : M result := st <- m;; ret_status st.

Definition api_call (a : api) : M result :=
  match a with
  | AInit c => returning (gth_runtime_init c)
  | AShutdown => returning gth_runtime_shutdown
  | AGetStats b => r <- gets (gth_runtime_get_stats b);; ret (Return r)
  | ACreate b attr fn arg => r <- gth_thread_create b attr fn arg;; ret (Return r)
  | AYield => gth_thread_yield
  | AJoin tid => gth_thread_join tid
  | ACancel tid => returning (gth_thread_cancel tid)
  | ASelf => tid <- gets gth_thread_self;; ret (Return (mk_resp GTH_OK [tid]))
  | AMutexInit m => returning (gth_mutex_init m)
  | ALock m => gth_mutex_lock m
  | ATrylock m => returning (gth_mutex_trylock m)
  | AUnlock m => returning (gth_mutex_unlock m)
  | AMutexDestroy m => returning (gth_mutex_destroy m)
  | ASemInit s n => returning (gth_sem_init s n)
  | ASemWait s => gth_sem_wait s
  | ASemPost s => returning (gth_sem_post s)
  | ASemDestroy s => returning (gth_sem_destroy s)
  | ACondInit c => returning (gth_cond_init c)
  | ACondWait c m => gth_cond_wait c m
  | ACondSignal c => returning (gth_cond_signal c)
  | ACondBroadcast c => returning (gth_cond_broadcast c)
  | ACondDestroy c => returning (gth_cond_destroy c)
  | ATraceStart p => returning (gth_trace_start p)
  | ATraceStop => returning gth_trace_stop
  | AReplayFrom p => returning (gth_replay_from p)
  | AReplayStats b => r <- gets (gth_replay_get_stats b);; ret (Return r)
  | AFuzzStats b => r <- gets (gth_fuzz_get_stats b);; ret (Return r)
  | AFuzzSetRate rate => returning (gth_fuzz_set_rate rate)
  | ASetMode mode => returning (gth_scheduler_set_mode mode)
  end.

(** The code that follows a switch point. *)
Definition resume_frame (k : frame) : M result :=
  match k with
  | KYield => ret_status GTH_OK
  | KLock m my_slot => gth_mutex_lock_resume m my_slot
  | KCondWait m => gth_cond_wait_resume m
  | KSemWait => ret_status GTH_OK
  | KRunNext previous_tid InYield =>
      modify (gth_scheduler_run_next_resume previous_tid);; ret_status GTH_OK
  | KRunNext previous_tid (InJoin tid target) =>
      modify (gth_scheduler_run_next_resume previous_tid);;
      r <- run_until_loop tid target;;
      join_after_run_until tid r
  end.

(** ** Saved contexts *)

Definition ctx_at (s : gth_runtime_state_t) (r : ctx_ref) : option gth_ctx_t :=
  match r with
  | SchedCtx => Some (rt_scheduler_ctx s)
  | ThreadCtx i => th_ctx <$> rt_threads s !! i
  end.

(** The register save of [gth_ctx_swap]. *)
Definition save_ctx (r : ctx_ref) (p : ctx_point) (s : gth_runtime_state_t) : gth_runtime_state_t :=
  match r with
  | SchedCtx => let c := rt_scheduler_ctx s in
      {| s with rt_scheduler_ctx := {| c with ctx_resume := p |} |}
  | ThreadCtx i => upd_thread i (λ t,
      let c := th_ctx t in {| t with th_ctx := {| c with ctx_resume := p |} |}) s
  end.

(** ** User programs *)

Inductive action := AReturn (v : Z) | ACall (a : api).

(** The stacks share the program's memory.  Switching is cooperative, so what a
    stack does between two calls is one uninterrupted change of the memory and
    of the stack's own state. *)
Record program := mk_program {
  p_mem : Type;
  p_state : Type;
  p_boot : p_mem * p_state;                      (* main, up to its first call *)
  p_start : p_mem → Z → Z → p_mem * p_state;     (* the thread function [fn] on [arg], likewise *)
  p_next : p_state → action;
  p_feed : p_mem → p_state → resp → p_mem * p_state    (* from the return of a call to the next call *)
}.

Section machine.
Context (P : program).

(** What a stack is doing. *)
Inductive cmode :=
| User (u : p_state P)
| Resuming (k : frame) (u : p_state P)              (* about to continue after a switch *)
| Suspended (serial : nat) (k : frame) (u : p_state P).

(** [c_tid] is the thread the stack was allocated for; 0 for main. *)
Record ctl := mk_ctl { c_tid : Z; c_mode : cmode }.

Record machine := mk_machine {
  m_world : world;
  m_mem : p_mem P;
  m_run : owner;
  m_ctl : owner → option ctl;
  m_serial : nat
}.

Inductive step_result :=
| Next (m : machine)
| Exit (v : Z)                       (* main returned *)
| Fault                              (* undefined behaviour *)
| Hang.                              (* the rejection loop ran out of fuel *)

(** A green thread can only execute while its stack is allocated, that is,
    while its record has not been released. *)
Definition stack_alive (w : world) (o : owner) (tid : Z) : bool :=
  match o with
  | Main => true
  | Thr i => match rt_threads (w_rt w) !! i with
             | Some t => negb (is_empty t) && (th_tid t =? tid)
             | None => false
             end
  end.

(** The second half of [gth_ctx_swap]: load the registers of [r] and jump. *)
Definition jump_to (r : ctx_ref) (m : machine) : step_result :=
  match ctx_at (w_rt (m_world m)) r with
  | None => Fault
  | Some c =>
      match ctx_resume c with
      | CtxZero => Fault
      | CtxEntry slot _ =>
          match rt_threads (w_rt (m_world m)) !! slot with
          | None => Fault
          | Some t =>
              let r := p_start P (m_mem m) (th_fn t) (th_arg t) in
              Next {| m with m_run := Thr slot; m_mem := fst r;
                m_ctl := <[Thr slot := Some (mk_ctl (th_tid t) (User (snd r)))]> (m_ctl m) |}
          end
      | CtxSaved o serial =>
          match m_ctl m o with
          | Some (mk_ctl tid (Suspended n k u)) =>
              if decide (n = serial)
              then Next {| m with m_run := o;
                                  m_ctl := <[o := Some (mk_ctl tid (Resuming k u))]> (m_ctl m) |}
              else Fault
          | _ => Fault
          end
      end
  end.

(** What the executing stack [o] does with the outcome of library code. *)
Definition after_call (m : machine) (o : owner) (tid : Z) (u : p_state P)
    (r : outcome (result * world)) : step_result :=
  match r with
  | Undef => Fault
  | NoFuel => Hang
  | Done (Return r, w) =>
      let f := p_feed P (m_mem m) u r in
      Next {| m with m_world := w; m_mem := fst f;
                     m_ctl := <[o := Some (mk_ctl tid (User (snd f)))]> (m_ctl m) |}
  | Done (Swap from to k, w) =>
      let n := m_serial m in
      jump_to to {| m with m_world := upd_rt (save_ctx from (CtxSaved o n)) w;
                           m_ctl := <[o := Some (mk_ctl tid (Suspended n k u))]> (m_ctl m);
                           m_serial := S n |}
  end.

Definition step (m : machine) : step_result :=
  let o := m_run m in
  match m_ctl m o with
  | None => Fault
  | Some (mk_ctl tid mode) =>
      if negb (stack_alive (m_world m) o tid) then Fault
      else match mode with
      | Suspended _ _ _ => Fault
      | Resuming k u => after_call m o tid u (resume_frame k (m_world m))
      | User u =>
          match p_next P u with
          | ACall a => after_call m o tid u (api_call a (m_world m))
          | AReturn v =>
              match o with
              | Main => Exit v
              | Thr i =>
                  (* the rest of the trampoline, then the switch to the scheduler *)
                  match trampoline_exit i v (m_world m) with
                  | Done (_, w) => jump_to SchedCtx
                      {| m with m_world := w; m_ctl := <[o := None]> (m_ctl m) |}
                  | Undef => Fault
                  | NoFuel => Hang
                  end
              end
          end
      end
  end.

Fixpoint run (n : nat) (m : machine) : step_result :=
  match n with
  | O => Next m
  | S n' => match step m with Next m' => run n' m' | r => r end
  end.

Definition boot (os : OS) (fuel : nat) : machine :=
  {| m_world := mk_world rt_zero ∅ ∅ ∅ ∅ ∅ 0 os O fuel;
     m_mem := fst (p_boot P);
     m_run := Main;
     m_ctl := λ o, match o with Main => Some (mk_ctl 0 (User (snd (p_boot P)))) | Thr _ => None end;
     m_serial := O |}.
End machine.
