(* ===== verification/Scripts.v ===== *)
(** * Concrete programs

    Programs whose stacks each execute a fixed list of calls; used to run the machine on concrete
    inputs. *)

From S2P Require Import Prelude WaitQueue TraceFormat State Stack TraceBuffer Trace Runtime Replay.
From S2P Require Import Fuzz Sched Thread Mutex Sem Cond Lifecycle Machine.

Definition demo_config : gth_runtime_config_t := mk_config 65536 GTH_SCHED_RR 1000 0 0 0.

(** A stack executes its remaining calls and keeps the answers, newest first. *)
Definition script_state : Type := list api * list resp.

Definition script_program (main : list api) (threads : Z → list api) : program := {|
  p_mem := unit;
  p_state := script_state;
  p_boot := (tt, (main, []));
  p_start := λ _ fn _, (tt, (threads fn, []));
  p_next := λ u, match fst u with [] => AReturn 0 | a :: _ => ACall a end;
  p_feed := λ _ u r, (tt, (tail (fst u), r :: snd u)) |}.

(** The calls main has had answered after [n] steps, oldest first. *)
Definition main_statuses {main threads}
    (r : step_result (script_program main threads)) : option (list (gth_status_t * list Z)) :=
  match r with
  | Next _ m =>
      match m_ctl _ m Main with
      | Some (mk_ctl _ _ (User _ u)) =>
          Some (reverse ((λ x : resp, (r_status x, r_out x)) <$> (snd (u : script_state))))
      | _ => None
      end
  | _ => None
  end.
