(* ===== verification/Invariant.v ===== *)
(** * The state invariant

    [world_ok] is the well-formedness invariant of the runtime's data: the
    thread table and its counters, the wait queues of the synchronisation
    objects, and the trace buffer.  [cur_ok] ties the table to the executing
    stack.  [evolves] is the guarantee every public function gives about the
    threads other than its caller: a suspended thread keeps its saved context,
    and a thread becomes schedulable only by being created or unblocked. *)

From S2P Require Import Prelude WaitQueue TraceFormat State Stack TraceBuffer Trace Runtime Replay.
From S2P Require Import Fuzz Sched Thread Mutex Sem Cond Lifecycle.

(** ** The thread table *)

Record tbl (ts : list gth_thread_record_t) (next_tid runnable blocked : Z) (rr : nat)
    (initialized : bool) : Prop := {
  tb_len : length ts = GTH_MAX_THREADS;
  tb_slot : ∀ i t, ts !! i = Some t → is_empty t = false → th_slot_index t = i;
  tb_tid : ∀ i t, ts !! i = Some t → is_empty t = false → 1 ≤ th_tid t < next_tid;
  tb_unique : ∀ i j t u, ts !! i = Some t → ts !! j = Some u → is_empty t = false →
    is_empty u = false → th_tid t = th_tid u → i = j;
  tb_empty : ∀ i t, ts !! i = Some t → is_empty t = true → t = thread_zero;
  tb_runnable : runnable = countb is_ready ts;
  tb_blocked : blocked = countb is_blocked ts;
  tb_rr : (rr < GTH_MAX_THREADS)%nat;
  tb_next : 0 ≤ next_tid < 2 ^ 64;
  tb_next_pos : initialized = true → 1 ≤ next_tid;
  tb_uninit : initialized = false → ∀ i t, ts !! i = Some t → is_empty t = true
}.

Definition table_ok (s : gth_runtime_state_t) : Prop :=
  tbl (rt_threads s) (rt_next_tid s) (rt_runnable_threads s) (rt_blocked_threads s)
      (rt_last_rr_slot s) (rt_initialized s).

(** ** Wait queues and trace buffer *)

Definition wq_ok (wq : gth_wait_queue_t) : Prop :=
  wq_wf wq ∧ wq_capacity wq = GTH_WQ_FIXED_SLOTS ∧
  Forall (λ x, 0 ≤ x < Z.of_nat GTH_MAX_THREADS) (wq_elems wq).

(** A waiter that is resumed does not look at [initialized] again, so the queue
    of a destroyed mutex matters too: it has capacity 0. *)
Definition mutex_ok (x : gth_mutex_impl_t) : Prop :=
  (mx_initialized x ≠ 0 → wq_ok (mx_wq x)) ∧ (mx_initialized x = 0 → mx_wq x = wq_zero).

(** Units are available only while nobody waits for one. *)
Definition sem_ok (x : gth_sem_impl_t) : Prop :=
  sm_initialized x ≠ 0 →
  wq_ok (sm_wq x) ∧ fits 32 (sm_count x) ∧ (sm_count x = 0 ∨ wq_elems (sm_wq x) = []).

Record sync_ok (w : world) : Prop := {
  so_mutex : ∀ m, mutex_ok (mutex_at w m);
  so_sem : ∀ s, sem_ok (sem_at w s);
  so_cond : ∀ c, cv_initialized (cond_at w c) ≠ 0 → wq_ok (cv_wq (cond_at w c))
}.

Definition trace_ok (t : option gth_trace_state_t) : Prop :=
  match t with
  | Some tr => match tr_buffer tr with
               | Some b => buffer_wf b ∧ tb_record_size b = Z.of_nat GTH_TRACE_RECORD_SIZE
               | None => True
               end
  | None => True
  end.

Record world_ok (w : world) : Prop := {
  wo_table : table_ok (w_rt w);
  wo_sync : sync_ok w;
  wo_trace : trace_ok (rt_trace (w_rt w))
}.

(** ** The executing stack *)

(** Threads that the counters count: the suspended ones. *)
Definition counted (t : gth_thread_record_t) : bool := is_ready t || is_blocked t.

(** [cur] is the executing slot, [None] for main. *)
Record cur_ok (cur : option nat) (s : gth_runtime_state_t) : Prop := {
  co_current : match cur with
    | None => rt_current_tid s = 0
    | Some c => ∃ t, rt_threads s !! c = Some t ∧ is_empty t = false ∧ th_tid t = rt_current_tid s
    end;
  co_running : ∀ i t, rt_threads s !! i = Some t → th_state t = GTH_THREAD_RUNNING → cur = Some i
}.

Definition none_running (s : gth_runtime_state_t) : Prop :=
  ∀ i t, rt_threads s !! i = Some t → th_state t ≠ GTH_THREAD_RUNNING.

Lemma none_running_main s : cur_ok None s → none_running s.
Proof. intros [_ H] i t Ht Hr. by specialize (H i t Ht Hr). Qed.

(** The caller is not counted: it is running, or has been cancelled while
    running. *)
Definition cur_free (cur : option nat) (s : gth_runtime_state_t) : Prop :=
  ∀ c t, cur = Some c → rt_threads s !! c = Some t → counted t = false.

(** ** What a call may do to the table *)

Definition same_thread (t t' : gth_thread_record_t) : Prop :=
  th_tid t' = th_tid t ∧ th_ctx t' = th_ctx t ∧ th_fn t' = th_fn t ∧ th_arg t' = th_arg t.

Record evolves (cur : option nat) (s s' : gth_runtime_state_t) : Prop := {
  ev_sched : cur ≠ None → rt_scheduler_ctx s' = rt_scheduler_ctx s;
  ev_current : rt_current_tid s' = rt_current_tid s;
  ev_cur : ∀ c t, cur = Some c → rt_threads s !! c = Some t → is_empty t = false →
    ∃ t', rt_threads s' !! c = Some t' ∧ is_empty t' = false ∧ th_tid t' = th_tid t;
  ev_other : ∀ j t', rt_threads s' !! j = Some t' → counted t' = true → cur ≠ Some j →
    (∃ t, rt_threads s !! j = Some t ∧ counted t = true ∧ same_thread t t') ∨
    (∃ top, ctx_resume (th_ctx t') = CtxEntry j top);
  ev_running : ∀ j t', rt_threads s' !! j = Some t' → th_state t' = GTH_THREAD_RUNNING →
    cur ≠ Some j → ∃ t, rt_threads s !! j = Some t ∧ th_state t = GTH_THREAD_RUNNING
}.

Lemma same_thread_refl t : same_thread t t.
Proof. done. Qed.

Lemma same_thread_trans t1 t2 t3 : same_thread t1 t2 → same_thread t2 t3 → same_thread t1 t3.
Proof. unfold same_thread. intuition congruence. Qed.

Lemma evolves_refl cur s : evolves cur s s.
Proof. constructor; eauto 10 using same_thread_refl. Qed.

Lemma evolves_trans cur s1 s2 s3 : evolves cur s1 s2 → evolves cur s2 s3 → evolves cur s1 s3.
Proof.
  intros [a1 b1 c1 d1 e1] [a2 b2 c2 d2 e2]. constructor.
  - intros H. by rewrite a2, a1.
  - congruence.
  - intros c t Hc Ht He. destruct (c1 c t Hc Ht He) as (t' & Ht' & He' & E').
    destruct (c2 c t' Hc Ht' He') as (t'' & ? & ? & ?). exists t''. split_and!; congruence.
  - intros j t3 Ht3 Hc3 Hne. destruct (d2 j t3 Ht3 Hc3 Hne) as [(t2 & Ht2 & Hc2 & S2)|]; [|by right].
    destruct (d1 j t2 Ht2 Hc2 Hne) as [(t1 & Ht1 & Hc1 & S1)|[top Ht]].
    + left. exists t1. eauto using same_thread_trans.
    + right. exists top. destruct S2 as (_ & -> & _). done.
  - intros j t3 Ht3 Hr Hne. destruct (e2 j t3 Ht3 Hr Hne) as (t2 & Ht2 & Hr2). eauto.
Qed.

(** Changes that leave the table alone. *)
Lemma evolves_same_table cur s s' :
  rt_threads s' = rt_threads s → rt_scheduler_ctx s' = rt_scheduler_ctx s →
  rt_current_tid s' = rt_current_tid s → evolves cur s s'.
Proof. intros E1 E2 E3. constructor; rewrite ?E1; eauto 10 using same_thread_refl. Qed.

Lemma cur_ok_evolves cur s s' : cur_ok cur s → evolves cur s s' → cur_ok cur s'.
Proof.
  intros [Hc Hr] [a b c d e]. constructor.
  - destruct cur as [c0|]; [|congruence]. destruct Hc as (t & Ht & He & E).
    destruct (c c0 t eq_refl Ht He) as (t' & ? & ? & ?). exists t'. split_and!; congruence.
  - intros i t Ht Hrun. destruct (decide (cur = Some i)) as [|Hne]; [done|].
    destruct (e i t Ht Hrun Hne) as (t0 & Ht0 & Hrun0). eauto.
Qed.

(** ** Reading the table *)

Section reading.
Context (w : world) (Hw : world_ok w).

Lemma lookup_lt_max i t : rt_threads (w_rt w) !! i = Some t → (i < GTH_MAX_THREADS)%nat.
Proof using Hw.
  intros H%lookup_lt_Some. destruct Hw as [[] _ _]. by rewrite tb_len0 in H.
Qed.

Lemma lookup_is_some i : (i < GTH_MAX_THREADS)%nat → is_Some (rt_threads (w_rt w) !! i).
Proof using Hw. intros H. apply lookup_lt_is_Some. destruct Hw as [[] _ _]. by rewrite tb_len0. Qed.

(** The id determines the slot. *)
Lemma find_thread_unique i t :
  rt_threads (w_rt w) !! i = Some t → is_empty t = false →
  gth_runtime_find_thread (w_rt w) (th_tid t) = Some i.
Proof using Hw.
  intros Ht He. destruct (gth_runtime_find_thread (w_rt w) (th_tid t)) as [j|] eqn:E.
  - apply find_thread_Some in E as (u & Hu & Hue & Htid). f_equal.
    destruct Hw as [[] _ _]. symmetry. eapply tb_unique0; eauto. by apply is_empty_false.
  - rewrite find_thread_None in E. exfalso. eapply E; eauto. by apply is_empty_false.
Qed.

Lemma find_current c :
  cur_ok (Some c) (w_rt w) →
  gth_runtime_find_thread (w_rt w) (rt_current_tid (w_rt w)) = Some c ∧
  rt_current_tid (w_rt w) ≠ 0 ∧ rt_initialized (w_rt w) = true.
Proof using Hw.
  intros [(t & Ht & He & <-) _]. split_and!.
  - by apply find_thread_unique.
  - destruct Hw as [[] _ _]. specialize (tb_tid0 c t Ht He). lia.
  - destruct (rt_initialized (w_rt w)) eqn:E; [done|]. destruct Hw as [[] _ _].
    rewrite (tb_uninit0 E c t Ht) in He. done.
Qed.

Lemma current_slot_index_cur c :
  cur_ok (Some c) (w_rt w) → gth_thread_current_slot_index w = Done (c, w).
Proof using Hw.
  intros Hc. pose proof (find_current c Hc) as (Hf & Hnz & _). destruct Hc as [(t & Ht & He & E) _].
  unfold gth_thread_current_slot_index. rewrite Hf. destruct (Z.eqb_spec (rt_current_tid (w_rt w)) 0); [done|].
  unfold bind, thread_at, deref. rewrite Ht. unfold ret.
  destruct Hw as [[] _ _]. by rewrite (tb_slot0 c t).
Qed.

Lemma current_slot_index_main :
  cur_ok None (w_rt w) → gth_thread_current_slot_index w = Done (GTH_MAX_THREADS, w).
Proof using. intros [E _]. unfold gth_thread_current_slot_index. by rewrite E. Qed.
End reading.

(** ** Updating one slot *)

Definition b2z (b : bool) : Z := if b then 1 else 0.

Lemma lookup_alter_cases {A} (f : A → A) (l : list A) k i x :
  alter f k l !! i = Some x →
  (i = k ∧ ∃ y, l !! k = Some y ∧ x = f y) ∨ (i ≠ k ∧ l !! i = Some x).
Proof.
  destruct (decide (i = k)) as [->|Hne].
  - rewrite list_lookup_alter_eq. intros (y & Hy & ->)%fmap_Some. eauto.
  - rewrite list_lookup_alter_ne by done. auto.
Qed.

Section alter.
Context (ts : list gth_thread_record_t) (k : nat) (t : gth_thread_record_t)
        (f : gth_thread_record_t → gth_thread_record_t) (Hk : ts !! k = Some t).

(** A live slot stays live, with its id and index. *)
Lemma tbl_alter n r b rr ini :
  tbl ts n r b rr ini → is_empty t = false → is_empty (f t) = false →
  th_tid (f t) = th_tid t → th_slot_index (f t) = th_slot_index t →
  tbl (alter f k ts) n (r - b2z (is_ready t) + b2z (is_ready (f t)))
      (b - b2z (is_blocked t) + b2z (is_blocked (f t))) rr ini.
Proof using Hk.
  intros [] He He' Htid Hslot. constructor; auto.
  - by rewrite length_alter.
  - intros i x Hx Hxe. apply lookup_alter_cases in Hx as [(-> & y & Hy & ->)|[Hne Hx]]; [|eauto].
    simplify_eq. rewrite Hslot. eauto.
  - intros i x Hx Hxe. apply lookup_alter_cases in Hx as [(-> & y & Hy & ->)|[Hne Hx]]; [|eauto].
    simplify_eq. rewrite Htid. eauto.
  - assert (Hold : ∀ i x, alter f k ts !! i = Some x → is_empty x = false →
             ∃ y, ts !! i = Some y ∧ is_empty y = false ∧ th_tid y = th_tid x).
    { intros i x Hx Hxe. apply lookup_alter_cases in Hx as [(-> & y & Hy & ->)|[Hne Hx]]; [|eauto].
      simplify_eq. eauto. }
    intros i j x y Hx Hy Hxe Hye E.
    destruct (Hold i x Hx Hxe) as (x' & Hx' & Hxe' & Ex).
    destruct (Hold j y Hy Hye) as (y' & Hy' & Hye' & Ey).
    eapply tb_unique0; eauto. congruence.
  - intros i x Hx Hxe. apply lookup_alter_cases in Hx as [(-> & y & Hy & ->)|[Hne Hx]]; [|eauto].
    simplify_eq. congruence.
  - rewrite (countb_alter is_ready f ts k t Hk). subst r. unfold b2z. lia.
  - rewrite (countb_alter is_blocked f ts k t Hk). subst b. unfold b2z. lia.
  - intros Hi. exfalso. specialize (tb_uninit0 Hi k t Hk). congruence.
Qed.

(** A slot is released. *)
Lemma tbl_release n r b rr ini :
  tbl ts n r b rr ini → is_empty t = false →
  tbl (alter (λ _, thread_zero) k ts) n (r - b2z (is_ready t)) (b - b2z (is_blocked t)) rr ini.
Proof using Hk.
  intros [] He. constructor; auto.
  - by rewrite length_alter.
  - intros i x Hx Hxe. apply lookup_alter_cases in Hx as [(-> & y & Hy & ->)|[Hne Hx]]; [done|eauto].
  - intros i x Hx Hxe. apply lookup_alter_cases in Hx as [(-> & y & Hy & ->)|[Hne Hx]]; [done|eauto].
  - intros i j x y Hx Hy Hxe Hye.
    apply lookup_alter_cases in Hx as [(-> & ? & ? & ->)|[Hne Hx]]; [done|].
    apply lookup_alter_cases in Hy as [(-> & ? & ? & ->)|[Hne' Hy]]; [done|]. eauto.
  - intros i x Hx Hxe. apply lookup_alter_cases in Hx as [(-> & y & Hy & ->)|[Hne Hx]]; [done|eauto].
  - rewrite (countb_alter is_ready _ ts k t Hk). subst r. unfold b2z. cbn. lia.
  - rewrite (countb_alter is_blocked _ ts k t Hk). subst b. unfold b2z. cbn. lia.
  - intros Hi. exfalso. specialize (tb_uninit0 Hi k t Hk). congruence.
Qed.

(** An empty slot receives a fresh thread. *)
Lemma tbl_create n r b rr ini :
  tbl ts n r b rr ini → ini = true → is_empty t = true → n + 1 < 2 ^ 64 →
  th_state (f t) = GTH_THREAD_READY → th_tid (f t) = n → th_slot_index (f t) = k →
  tbl (alter f k ts) (n + 1) (r + 1) b rr ini.
Proof using Hk.
  intros [] Hini He Hn Hst Htid Hslot. specialize (tb_next_pos0 Hini).
  assert (Hlive : is_empty (f t) = false) by (unfold is_empty; by rewrite Hst).
  assert (Hold : ∀ i x, alter f k ts !! i = Some x → is_empty x = false →
    (i = k ∧ x = f t) ∨ (ts !! i = Some x ∧ 1 ≤ th_tid x < n)).
  { intros i x Hx Hxe. apply lookup_alter_cases in Hx as [(-> & y & Hy & ->)|[Hne Hx]].
    - left. simplify_eq. done.
    - right. eauto. }
  constructor; auto; try lia.
  - by rewrite length_alter.
  - intros i x Hx Hxe. destruct (Hold i x Hx Hxe) as [[-> ->]|[Hx' _]]; [done|eauto].
  - intros i x Hx Hxe. destruct (Hold i x Hx Hxe) as [[-> ->]|[Hx' ?]]; [|lia]. rewrite Htid. lia.
  - intros i j x y Hx Hy Hxe Hye E.
    destruct (Hold i x Hx Hxe) as [[-> ->]|[Hx' ?]], (Hold j y Hy Hye) as [[-> ->]|[Hy' ?]];
      [done|lia|lia|eauto].
  - intros i x Hx Hxe. apply lookup_alter_cases in Hx as [(-> & y & Hy & ->)|[Hne Hx]]; [|eauto].
    simplify_eq. congruence.
  - rewrite (countb_alter is_ready f ts k t Hk).
    assert (is_ready (f t) = true ∧ is_ready t = false) as [-> ->]; [|lia].
    apply is_empty_true in He. unfold is_ready. by rewrite Hst, He.
  - rewrite (countb_alter is_blocked f ts k t Hk).
    assert (is_blocked (f t) = false ∧ is_blocked t = false) as [-> ->]; [|lia].
    apply is_empty_true in He. unfold is_blocked. by rewrite Hst, He.
  - intros Hi. congruence.
Qed.
End alter.

Lemma tbl_counters ts n r b rr ini :
  tbl ts n r b rr ini → 0 ≤ r ≤ 128 ∧ 0 ≤ b ≤ 128.
Proof.
  intros []. pose proof (countb_nonneg is_ready ts). pose proof (countb_nonneg is_blocked ts).
  unfold GTH_MAX_THREADS in *. lia.
Qed.

Lemma evolves_alter cur s s' k t f :
  rt_threads s !! k = Some t → rt_threads s' = alter f k (rt_threads s) →
  rt_scheduler_ctx s' = rt_scheduler_ctx s → rt_current_tid s' = rt_current_tid s →
  (cur = Some k → is_empty t = false → is_empty (f t) = false ∧ th_tid (f t) = th_tid t) →
  (counted (f t) = true → cur ≠ Some k →
     (counted t = true ∧ same_thread t (f t)) ∨ ∃ top, ctx_resume (th_ctx (f t)) = CtxEntry k top) →
  (th_state (f t) = GTH_THREAD_RUNNING → cur ≠ Some k → th_state t = GTH_THREAD_RUNNING) →
  evolves cur s s'.
Proof.
  intros Hk E1 E2 E3 Hcur Hoth Hrun. constructor; auto; rewrite E1.
  - intros c u Hc Hu He. destruct (decide (c = k)) as [->|Hne].
    + assert (u = t) as -> by congruence. destruct (Hcur Hc He). exists (f t).
      rewrite list_lookup_alter_eq, Hk. auto.
    + exists u. by rewrite list_lookup_alter_ne.
  - intros j u Hu Hcu Hne. apply lookup_alter_cases in Hu as [(-> & y & Hy & ->)|[Hne' Hu]].
    + simplify_eq. destruct (Hoth Hcu Hne) as [[]|]; [left; eauto|by right].
    + left. eauto using same_thread_refl.
  - intros j u Hu Hru Hne. apply lookup_alter_cases in Hu as [(-> & y & Hy & ->)|[Hne' Hu]]; [|eauto].
    simplify_eq. eauto.
Qed.

(** ** Updating the synchronisation objects *)

Lemma mutex_at_set w m x m' :
  mutex_at (set_mutex m x w) m' = if decide (m = m') then x else mutex_at w m'.
Proof. unfold mutex_at, set_mutex. cbn. rewrite lookup_insert. by case_decide. Qed.
Lemma sem_at_set w m x m' :
  sem_at (set_sem m x w) m' = if decide (m = m') then x else sem_at w m'.
Proof. unfold sem_at, set_sem. cbn. rewrite lookup_insert. by case_decide. Qed.
Lemma cond_at_set w m x m' :
  cond_at (set_cond m x w) m' = if decide (m = m') then x else cond_at w m'.
Proof. unfold cond_at, set_cond. cbn. rewrite lookup_insert. by case_decide. Qed.

Lemma world_ok_set_mutex w m x :
  world_ok w → mutex_ok x → world_ok (set_mutex m x w).
Proof.
  intros [Ht [] Htr] Hx. constructor; [done| |done]. constructor; [|done|done].
  intros m'. rewrite mutex_at_set. case_decide; auto.
Qed.
Lemma world_ok_set_sem w m x :
  world_ok w → sem_ok x → world_ok (set_sem m x w).
Proof.
  intros [Ht [] Htr] Hx. constructor; [done| |done]. constructor; [done| |done].
  intros m'. rewrite sem_at_set. case_decide; auto.
Qed.
Lemma world_ok_set_cond w m x :
  world_ok w → (cv_initialized x ≠ 0 → wq_ok (cv_wq x)) → world_ok (set_cond m x w).
Proof.
  intros [Ht [] Htr] Hx. constructor; [done| |done]. constructor; [done|done|].
  intros m'. rewrite cond_at_set. case_decide; auto.
Qed.

(** A change of the runtime record only. *)
Lemma world_ok_rt w s :
  world_ok w → table_ok s → trace_ok (rt_trace s) → world_ok {| w with w_rt := s |}.
Proof. intros [Ht [] Htr] H1 H2. constructor; [done|constructor; done|done]. Qed.

(** ** Queue operations keep [wq_ok] *)

Lemma wq_ok_init : wq_ok (gth_wq_init wq_zero (u8 GTH_WQ_FIXED_SLOTS)).
Proof.
  split; [|split; [done|]].
  - apply gth_wq_init_wf; done.
  - by constructor.
Qed.

Lemma wq_ok_enqueue wq slot :
  wq_ok wq → (slot < GTH_MAX_THREADS)%nat → ∃ wq',
    gth_wq_enqueue wq (u8 (Z.of_nat slot)) = Some wq' ∧ wq_ok wq' ∧
    wq_elems wq' = Spec.enqueue (Z.to_nat GTH_WQ_FIXED_SLOTS) (wq_elems wq) (Z.of_nat slot).
Proof.
  intros (Hwf & Hcap & Hall) Hs. unfold GTH_MAX_THREADS in *.
  rewrite u8_small by lia.
  destruct (enqueue_refines wq (Z.of_nat slot) Hwf) as (wq' & E & Hwf' & Hc' & Hel).
  rewrite Hcap in *. exists wq'. split_and!; auto. split_and!; auto. rewrite Hel.
  unfold Spec.enqueue. case_decide; [|done]. apply Forall_app. split; [done|].
  constructor; [unfold GTH_MAX_THREADS; lia|constructor].
Qed.

Lemma wq_ok_dequeue wq :
  wq_ok wq → ∃ wq', gth_wq_dequeue wq = Some (fst (Spec.dequeue (wq_elems wq)), wq') ∧ wq_ok wq' ∧
    wq_elems wq' = snd (Spec.dequeue (wq_elems wq)).
Proof.
  intros (Hwf & Hcap & Hall). destruct (dequeue_refines wq Hwf) as (wq' & E & Hwf' & Hc' & Hel).
  exists wq'. split_and!; auto. split_and!; auto; [congruence|]. rewrite Hel.
  destruct (wq_elems wq) as [|x q]; cbn; [done|]. by inversion Hall.
Qed.

Lemma wq_ok_remove wq x :
  wq_ok wq → ∃ wq', gth_wq_remove wq x = Some (fst (Spec.remove (wq_elems wq) x), wq') ∧ wq_ok wq' ∧
    wq_elems wq' = snd (Spec.remove (wq_elems wq) x).
Proof.
  intros (Hwf & Hcap & Hall). destruct (remove_refines wq x Hwf) as (wq' & E & Hwf' & Hc' & Hel).
  exists wq'. split_and!; auto. split_and!; auto; [congruence|]. rewrite Hel. clear - Hall.
  induction Hall as [|y q Hy Hq IH]; cbn; [done|]. case_match; [done|].
  destruct (Spec.remove q x). cbn in *. by constructor.
Qed.
