(* ===== verification/Ops.v ===== *)
(** * Every operation keeps the invariant

    For each function of the library: from a well-formed state it returns
    (no undefined behaviour, no exhausted loop), leaves a well-formed state,
    and treats the other threads as [evolves] says. *)

From S2P Require Import Prelude WaitQueue TraceFormat State Stack TraceBuffer Trace Runtime Replay.
From S2P Require Import Fuzz Sched Thread Mutex Sem Cond Lifecycle Invariant.

(** Nobody starts running. *)
Definition no_new_running (s s' : gth_runtime_state_t) : Prop :=
  ∀ j t', rt_threads s' !! j = Some t' → th_state t' = GTH_THREAD_RUNNING →
    ∃ t, rt_threads s !! j = Some t ∧ th_state t = GTH_THREAD_RUNNING.

(** [evolves], and the caller stays off the counters; no thread is created and
    none starts running. *)
Definition calm (cur : option nat) (s s' : gth_runtime_state_t) : Prop :=
  evolves cur s s' ∧ (cur_free cur s → cur_free cur s') ∧ rt_next_tid s' = rt_next_tid s ∧
  no_new_running s s'.

Lemma calm_refl cur s : calm cur s s.
Proof. split_and!; [apply evolves_refl|done..|]. unfold no_new_running. eauto. Qed.

Lemma calm_trans cur s1 s2 s3 : calm cur s1 s2 → calm cur s2 s3 → calm cur s1 s3.
Proof.
  intros (? & ? & ? & N1) (? & ? & ? & N2). split_and!; [by eapply evolves_trans|auto|congruence|].
  intros j t' Ht' Hr. destruct (N2 j t' Ht' Hr) as (t & Ht & Hr'). eauto.
Qed.

Lemma calm_same_table cur s s' :
  rt_threads s' = rt_threads s → rt_scheduler_ctx s' = rt_scheduler_ctx s →
  rt_current_tid s' = rt_current_tid s → rt_next_tid s' = rt_next_tid s → calm cur s s'.
Proof.
  intros E1 E2 E3 E4. split_and!; [by apply evolves_same_table| |done|].
  - unfold cur_free. by rewrite E1.
  - unfold no_new_running. rewrite E1. eauto.
Qed.

(** A step from [w] to [w'] that keeps the invariant. *)
Definition ok_step (cur : option nat) (w w' : world) : Prop :=
  world_ok w' ∧ calm cur (w_rt w) (w_rt w').

Lemma ok_step_refl cur w : world_ok w → ok_step cur w w.
Proof. intros. split; [done|apply calm_refl]. Qed.

Lemma ok_step_trans cur w1 w2 w3 : ok_step cur w1 w2 → ok_step cur w2 w3 → ok_step cur w1 w3.
Proof. intros [] []. split; [done|by eapply calm_trans]. Qed.

Lemma ok_step_cur cur w w' : cur_ok cur (w_rt w) → ok_step cur w w' → cur_ok cur (w_rt w').
Proof. intros ? (_ & [? _]). by eapply cur_ok_evolves. Qed.

Lemma ok_step_free cur w w' : cur_free cur (w_rt w) → ok_step cur w w' → cur_free cur (w_rt w').
Proof. intros ? (_ & _ & H & _). auto. Qed.

(** The operation keeps the invariant, whoever calls it. *)
Definition keeps {A} (cur : option nat) (m : M A) : Prop :=
  ∀ w, world_ok w → cur_ok cur (w_rt w) → returns m w (λ _ w', ok_step cur w w').

Lemma keeps_ret {A} cur (a : A) : keeps cur (ret a).
Proof. intros w Hw _. by apply returns_ret, ok_step_refl. Qed.

Lemma keeps_gets {A} cur (f : world → A) : keeps cur (gets f).
Proof. intros w Hw _. by apply returns_gets, ok_step_refl. Qed.

Lemma keeps_bind {A B} cur (m : M A) (k : A → M B) :
  keeps cur m → (∀ a, keeps cur (k a)) → keeps cur (bind m k).
Proof.
  intros Hm Hk w Hw Hc. apply returns_bind. eapply returns_mono; [exact (Hm w Hw Hc)|].
  intros a w1 H1. cbn in H1. eapply returns_mono.
  - apply (Hk a w1); [apply H1|by eapply ok_step_cur].
  - intros b w2 H2. by eapply ok_step_trans.
Qed.

Lemma keeps_modify cur f :
  (∀ w, world_ok w → cur_ok cur (w_rt w) → ok_step cur w (f w)) → keeps cur (modify f).
Proof. intros H w Hw Hc. by apply returns_modify, H. Qed.

Lemma keeps_if {A} cur (b : bool) (m1 m2 : M A) :
  keeps cur m1 → keeps cur m2 → keeps cur (if b then m1 else m2).
Proof. by destruct b. Qed.

Lemma returns_thread_at i t w Q :
  rt_threads (w_rt w) !! i = Some t → Q t w → returns (thread_at i) w Q.
Proof. intros E. unfold thread_at, returns, deref. by rewrite E. Qed.

Create HintDb keeps.
#[export] Hint Resolve keeps_ret keeps_gets keeps_if : keeps.

(** ** Tracing *)

Lemma untrace_ok w w' cur :
  untrace w' = untrace w → trace_ok (rt_trace (w_rt w')) → world_ok w → ok_step cur w w'.
Proof.
  intros E Htr [Ht Hs _]. split.
  - constructor; [| |done].
    + unfold table_ok in *.
      by rewrite (ut_threads _ _ E), (ut_next_tid _ _ E), (ut_runnable_threads _ _ E),
        (ut_blocked_threads _ _ E), (ut_last_rr_slot _ _ E), (ut_initialized _ _ E).
    + destruct Hs. constructor; unfold mutex_at, sem_at, cond_at in *;
        rewrite ?(ut_mutexes _ _ E), ?(ut_sems _ _ E), ?(ut_conds _ _ E); auto.
  - apply calm_same_table.
    + apply (ut_threads _ _ E).
    + apply (ut_scheduler_ctx _ _ E).
    + apply (ut_current_tid _ _ E).
    + apply (ut_next_tid _ _ E).
Qed.

Lemma trace_ok_flush w : trace_ok (rt_trace (w_rt w)) → trace_ok (rt_trace (w_rt (gth_trace_flush w))).
Proof.
  unfold gth_trace_flush. destruct (rt_trace (w_rt w)) as [tr|] eqn:E; [|by rewrite E].
  destruct (tr_file tr) as [fp|]; [|by rewrite E].
  unfold trace_ok. destruct (tr_buffer tr) as [b|] eqn:Eb; [|done].
  intros [Hwf Hrs]. pose proof (flush_spec b fp w Hwf) as H.
  destruct (gth_trace_buffer_flush b fp w) as [[[n b'] fp'] w']. cbn.
  destruct H as (Hwf' & Hrs' & _). split; [done|congruence].
Qed.

Lemma trace_ok_append tr b r b' ok cnt :
  trace_ok (Some tr) → tr_buffer tr = Some b →
  gth_trace_buffer_append b (record_bytes r) = (ok, b') →
  trace_ok (Some {| tr with tr_buffer := Some b'; tr_event_count := cnt |}).
Proof.
  cbn. intros H E. rewrite E in H. destruct H as [Hwf Hrs]. intros Ha.
  pose proof (append_spec b (record_bytes r) Hwf) as Hs. rewrite Ha in Hs.
  destruct Hs as (Hwf' & Hrs' & _); [by rewrite length_record_bytes, Hrs|].
  split; [done|congruence].
Qed.

Lemma trace_ok_record type tid d1 d2 w :
  trace_ok (rt_trace (w_rt w)) → trace_ok (rt_trace (w_rt (gth_trace_record type tid d1 d2 w))).
Proof.
  intros Htr. unfold gth_trace_record, gth_trace_timestamp, next_tick.
  destruct (rt_trace (w_rt w)) as [tr|] eqn:E; [|by rewrite E].
  destruct (tr_active tr); cbn -[trace_ok]; [|by rewrite E].
  case_bool_decide; [by rewrite E|].
  destruct (tr_buffer tr) as [b|] eqn:Eb; [|by rewrite E].
  destruct (gth_trace_buffer_append b _) as [ok b1] eqn:Ha. destruct ok.
  { eapply trace_ok_append; eauto. }
  set (w1 := gth_trace_flush _).
  assert (Htr1 : trace_ok (rt_trace (w_rt w1))).
  { apply trace_ok_flush. cbn -[trace_ok]. by rewrite E. }
  destruct (rt_trace (w_rt w1)) as [tr2|] eqn:E2; [|by rewrite E2].
  destruct (tr_buffer tr2) as [b2|] eqn:Eb2; [|by rewrite E2].
  destruct (gth_trace_buffer_append b2 _) as [ok2 b3] eqn:Ha2. destruct ok2; [|by rewrite E2].
  eapply trace_ok_append; eauto.
Qed.

Lemma record_ok cur type tid d1 d2 w :
  world_ok w → ok_step cur w (gth_trace_record type tid d1 d2 w).
Proof.
  intros Hw. apply untrace_ok; auto using untrace_record. apply trace_ok_record, Hw.
Qed.

Lemma trace_ok_cleanup w :
  trace_ok (rt_trace (w_rt w)) → trace_ok (rt_trace (w_rt (gth_trace_cleanup w))).
Proof.
  intros Htr. unfold gth_trace_cleanup. destruct (rt_trace (w_rt w)) as [tr0|] eqn:E; [|by rewrite E].
  set (w1 := if tr_active tr0 then _ else _).
  destruct (rt_trace (w_rt w1)) as [tr|] eqn:E1; [done|by rewrite E1].
Qed.

Lemma cleanup_ok cur w : world_ok w → ok_step cur w (gth_trace_cleanup w).
Proof. intros Hw. apply untrace_ok; auto using untrace_cleanup. apply trace_ok_cleanup, Hw. Qed.

Lemma keeps_trace cur type tid d1 d2 : keeps cur (modify (gth_trace_record type tid d1 d2)).
Proof. apply keeps_modify. intros. by apply record_ok. Qed.
#[export] Hint Resolve keeps_trace : keeps.
#[export] Hint Unfold gth_trace_context_switch gth_trace_thread_create gth_trace_thread_exit
  gth_trace_thread_cancel gth_trace_thread_block gth_trace_thread_unblock gth_trace_thread_yield
  gth_trace_mutex_lock gth_trace_mutex_unlock gth_trace_mutex_wait gth_trace_mutex_wake
  gth_trace_sem_wait gth_trace_sem_post gth_trace_sem_wake gth_trace_cond_wait
  gth_trace_cond_signal gth_trace_cond_broadcast : keeps.

(** ** Changing the state of one thread *)

(** The fields of the runtime record that a thread-state change leaves alone. *)
Definition rest_same (s s' : gth_runtime_state_t) : Prop :=
  rt_next_tid s' = rt_next_tid s ∧ rt_last_rr_slot s' = rt_last_rr_slot s ∧
  rt_initialized s' = rt_initialized s ∧ rt_scheduler_ctx s' = rt_scheduler_ctx s ∧
  rt_current_tid s' = rt_current_tid s ∧ rt_trace s' = rt_trace s.

Section change.
Context (cur : option nat) (w : world) (Hw : world_ok w) (i : nat) (t : gth_thread_record_t)
  (f : gth_thread_record_t → gth_thread_record_t) (s' : gth_runtime_state_t)
  (Hi : rt_threads (w_rt w) !! i = Some t) (Hlive : is_empty t = false)
  (Hlive' : is_empty (f t) = false) (Htid : th_tid (f t) = th_tid t)
  (Hslot : th_slot_index (f t) = th_slot_index t)
  (Hts : rt_threads s' = alter f i (rt_threads (w_rt w)))
  (Hrun : rt_runnable_threads s' =
          rt_runnable_threads (w_rt w) - b2z (is_ready t) + b2z (is_ready (f t)))
  (Hblk : rt_blocked_threads s' =
          rt_blocked_threads (w_rt w) - b2z (is_blocked t) + b2z (is_blocked (f t)))
  (Hrest : rest_same (w_rt w) s')
  (Hoth : counted (f t) = true → cur ≠ Some i → counted t = true ∧ same_thread t (f t))
  (Hrng : th_state (f t) = GTH_THREAD_RUNNING → cur ≠ Some i → th_state t = GTH_THREAD_RUNNING).

Lemma change_ok : world_ok {| w with w_rt := s' |} ∧ evolves cur (w_rt w) s'.
Proof using All.
  destruct Hrest as (E1 & E2 & E3 & E4 & E5 & E6). destruct Hw as [Ht Hs Htr]. split.
  - apply world_ok_rt; [done| |congruence].
    unfold table_ok. rewrite Hts, Hrun, Hblk, E1, E2, E3. by apply tbl_alter.
  - apply (evolves_alter cur _ _ i t f); auto.
Qed.

(** The caller is not the thread, or it stays uncounted. *)
Lemma change_calm :
  (cur = Some i → counted t = false → counted (f t) = false) →
  (th_state (f t) = GTH_THREAD_RUNNING → th_state t = GTH_THREAD_RUNNING) →
  ok_step cur w {| w with w_rt := s' |}.
Proof using All.
  intros Hfree Hstrong. pose proof change_ok as [H1 H2]. split; [done|].
  split_and!; [done| |by destruct Hrest|]; last first.
  { intros j u. cbn. rewrite Hts. intros Hu Hr.
    apply lookup_alter_cases in Hu as [(-> & y & Hy & ->)|[Hne Hu]]; [|eauto].
    assert (y = t) as -> by congruence. eauto. }
  intros Hf c u Hc. cbn. rewrite Hts. intros Hu.
  apply lookup_alter_cases in Hu as [(-> & y & Hy & ->)|[Hne Hu]]; [|by eapply Hf].
  assert (y = t) as -> by congruence. eauto.
Qed.
End change.

Lemma counted_ready t : th_state t = GTH_THREAD_READY → counted t = true.
Proof. unfold counted, is_ready. by intros ->. Qed.

Lemma counter_succ z : 0 ≤ z ≤ 128 → u64 (z + 1) = z + 1.
Proof. intros. apply wrap_small. unfold fits. lia. Qed.

Lemma dec_pos_pos z : 0 < z → dec_pos z = z - 1.
Proof. intros. unfold dec_pos. by destruct (Z.ltb_spec 0 z); [|lia]. Qed.

Lemma world_counters w : world_ok w →
  0 ≤ rt_runnable_threads (w_rt w) ≤ 128 ∧ 0 ≤ rt_blocked_threads (w_rt w) ≤ 128.
Proof. intros [Ht _ _]. by eapply tbl_counters. Qed.

Lemma world_blocked_pos w i t : world_ok w →
  rt_threads (w_rt w) !! i = Some t → is_blocked t = true → 0 < rt_blocked_threads (w_rt w).
Proof. intros [Ht _ _] Hi Hb. rewrite (tb_blocked _ _ _ _ _ _ Ht). by eapply countb_pos. Qed.

Lemma world_runnable_pos w i t : world_ok w →
  rt_threads (w_rt w) !! i = Some t → is_ready t = true → 0 < rt_runnable_threads (w_rt w).
Proof. intros [Ht _ _] Hi Hb. rewrite (tb_runnable _ _ _ _ _ _ Ht). by eapply countb_pos. Qed.

(** The world after [gth_thread_unblock_slot] has woken the thread in slot [i]. *)
Definition woken (i : nat) (w : world) : world :=
  {| w with w_rt :=
     {| (upd_thread i (set_state GTH_THREAD_READY) (w_rt w)) with
        rt_blocked_threads := dec_pos (rt_blocked_threads (w_rt w));
        rt_runnable_threads := u64 (rt_runnable_threads (w_rt w) + 1) |} |}.

Lemma woken_ok cur w i t :
  world_ok w → rt_threads (w_rt w) !! i = Some t → th_state t = GTH_THREAD_BLOCKED →
  ok_step cur w (woken i w).
Proof.
  intros Hw Hi Hst. pose proof (world_counters w Hw) as [? ?].
  assert (Hb : is_blocked t = true) by (by apply is_blocked_true).
  pose proof (world_blocked_pos w i t Hw Hi Hb).
  apply (change_calm cur w Hw i t (set_state GTH_THREAD_READY)); auto; unfold is_empty, is_ready,
    is_blocked, counted, is_ready, is_blocked; cbn; rewrite ?Hst; cbn; try done.
  - rewrite counter_succ by done. lia.
  - rewrite dec_pos_pos by done. lia.
Qed.

Lemma unblock_slot_spec i w :
  world_ok w →
  gth_thread_unblock_slot i w =
    if negb (rt_initialized (w_rt w)) then Done (GTH_ESTATE, w)
    else if (GTH_MAX_THREADS <=? i)%nat then Done (GTH_EINVAL, w)
    else match rt_threads (w_rt w) !! i with
         | Some t => if is_blocked t then Done (GTH_OK, gth_trace_thread_unblock (th_tid t) (woken i w))
                     else Done (GTH_ESTATE, w)
         | None => Undef
         end.
Proof.
  intros Hw. unfold gth_thread_unblock_slot. destruct (negb _); [done|].
  destruct (Nat.leb_spec GTH_MAX_THREADS i); [done|].
  destruct (lookup_is_some w Hw i) as [t Ht]; [done|].
  unfold bind, thread_at, deref. rewrite Ht. by destruct (is_blocked t).
Qed.

Lemma keeps_unblock cur i : keeps cur (gth_thread_unblock_slot i).
Proof.
  intros w Hw Hc. unfold returns. rewrite unblock_slot_spec by done.
  destruct (negb _); [by apply ok_step_refl|].
  destruct (Nat.leb_spec GTH_MAX_THREADS i); [by apply ok_step_refl|].
  destruct (lookup_is_some w Hw i) as [t Ht]; [done|]. rewrite Ht.
  destruct (is_blocked t) eqn:Hb; [|by apply ok_step_refl].
  apply is_blocked_true in Hb.
  pose proof (woken_ok cur w i t Hw Ht Hb) as Hk.
  eapply ok_step_trans; [exact Hk|]. unfold gth_trace_thread_unblock. apply record_ok, Hk.
Qed.
#[export] Hint Resolve keeps_unblock : keeps.

(** ** Mutexes *)

Ltac ok_refl := by apply ok_step_refl.

Lemma keeps_set_mutex cur m x :
  mutex_ok x → keeps cur (modify (set_mutex m x)).
Proof.
  intros Hx. apply keeps_modify. intros w Hw _. split; [by apply world_ok_set_mutex|apply calm_refl].
Qed.
Lemma keeps_set_sem cur m x :
  sem_ok x → keeps cur (modify (set_sem m x)).
Proof.
  intros Hx. apply keeps_modify. intros w Hw _. split; [by apply world_ok_set_sem|apply calm_refl].
Qed.
Lemma keeps_set_cond cur m x :
  (cv_initialized x ≠ 0 → wq_ok (cv_wq x)) → keeps cur (modify (set_cond m x)).
Proof.
  intros Hx. apply keeps_modify. intros w Hw _. split; [by apply world_ok_set_cond|apply calm_refl].
Qed.

(** Reading an object and then keeping the invariant under what is known of it. *)
Lemma keeps_mutex {A} cur m (k : gth_mutex_impl_t → M A) :
  (∀ x, mutex_ok x → keeps cur (k x)) →
  keeps cur (bind (gets (λ w, mutex_at w m)) k).
Proof.
  intros H w Hw Hc. apply returns_bind, returns_gets, H; auto. apply (so_mutex _ (wo_sync _ Hw)).
Qed.
Lemma keeps_sem {A} cur m (k : gth_sem_impl_t → M A) :
  (∀ x, sem_ok x → keeps cur (k x)) →
  keeps cur (bind (gets (λ w, sem_at w m)) k).
Proof.
  intros H w Hw Hc. apply returns_bind, returns_gets, H; auto. apply (so_sem _ (wo_sync _ Hw)).
Qed.
Lemma keeps_cond {A} cur m (k : gth_cond_impl_t → M A) :
  (∀ x, (cv_initialized x ≠ 0 → wq_ok (cv_wq x)) → keeps cur (k x)) →
  keeps cur (bind (gets (λ w, cond_at w m)) k).
Proof.
  intros H w Hw Hc. apply returns_bind, returns_gets, H; auto. apply (so_cond _ (wo_sync _ Hw)).
Qed.

(** Dequeuing from a good queue is defined and gives a slot or 0xFF. *)
Lemma keeps_dequeue {A} cur wq (k : Z * gth_wait_queue_t → M A) :
  wq_ok wq →
  (∀ x wq', wq_ok wq' → x = 0xFF ∨ 0 ≤ x < Z.of_nat GTH_MAX_THREADS → keeps cur (k (x, wq'))) →
  keeps cur (bind (deref (gth_wq_dequeue wq)) k).
Proof.
  intros Hq H w Hw Hc. destruct (wq_ok_dequeue wq Hq) as (wq' & E & Hq' & _).
  apply returns_bind. eapply returns_deref; [exact E|]. apply H; auto.
  destruct Hq as (_ & _ & Hall). destruct (wq_elems wq) as [|x q]; cbn; [by left|].
  right. by inversion Hall.
Qed.

Lemma keeps_take_mutex cur m : keeps cur (modify (take_mutex m)).
Proof.
  apply keeps_modify. intros w Hw _. split; [|apply calm_refl].
  apply world_ok_set_mutex; [done|]. cbn. apply (so_mutex _ (wo_sync _ Hw)).
Qed.

Ltac keeps_step :=
  lazymatch goal with
  | |- keeps _ (ret _) => apply keeps_ret
  | |- keeps _ (gets _) => apply keeps_gets
  | |- keeps _ (modify (gth_trace_record _ _ _ _)) => apply keeps_trace
  | |- keeps _ (modify (take_mutex _)) => apply keeps_take_mutex
  | |- keeps _ (modify (set_mutex _ _)) => apply keeps_set_mutex; cbn; intros
  | |- keeps _ (modify (set_sem _ _)) => apply keeps_set_sem; try intros
  | |- keeps _ (modify (set_cond _ _)) => apply keeps_set_cond; cbn; intros
  | |- keeps _ (gth_thread_unblock_slot _) => apply keeps_unblock
  | |- keeps _ (bind (gets (λ w, mutex_at w _)) _) => apply keeps_mutex; intros
  | |- keeps _ (bind (gets (λ w, sem_at w _)) _) => apply keeps_sem; intros
  | |- keeps _ (bind (gets (λ w, cond_at w _)) _) => apply keeps_cond; intros
  | |- keeps _ (bind _ _) => apply keeps_bind; [|intros ?]
  | |- keeps _ (if _ then _ else _) => apply keeps_if
  end.
Ltac keeps_tac := autounfold with keeps; repeat keeps_step.

Lemma keeps_mutex_init cur m : keeps cur (gth_mutex_init m).
Proof. unfold gth_mutex_init. keeps_tac. split; [intros; apply wq_ok_init|done]. Qed.

Lemma keeps_trylock cur m : keeps cur (gth_mutex_trylock m).
Proof. unfold gth_mutex_trylock. keeps_tac. Qed.

Lemma keeps_mutex_destroy cur m : keeps cur (gth_mutex_destroy m).
Proof. unfold gth_mutex_destroy. keeps_tac. done. Qed.

Lemma eqb_zero_cases {A} (z : Z) (Q : A → Prop) (x y : A) :
  (z = 0 → Q x) → (z ≠ 0 → Q y) → Q (if z =? 0 then x else y).
Proof. intros. destruct (Z.eqb_spec z 0); auto. Qed.

Lemma keeps_unlock cur m : keeps cur (gth_mutex_unlock m).
Proof.
  unfold gth_mutex_unlock. apply keeps_if; [keeps_tac|]. apply keeps_mutex. intros x Hx.
  apply eqb_zero_cases; [intros; keeps_tac|]. intros Hini. pose proof (proj1 Hx Hini) as Hq.
  apply keeps_if; [keeps_tac|]. apply keeps_bind; [keeps_tac|]. intros self.
  apply keeps_if; [keeps_tac|]. apply keeps_bind; [keeps_tac; done|]. intros _.
  apply keeps_bind; [|intros; keeps_tac]. apply keeps_if; [|keeps_tac].
  apply keeps_dequeue; [done|]. intros y wq' Hq' _. cbn. keeps_tac. by split.
Qed.

(** ** Semaphores *)

Lemma keeps_sem_init cur s n : keeps cur (gth_sem_init s n).
Proof.
  unfold gth_sem_init. keeps_tac. intros _. split_and!; [apply wq_ok_init|by apply wrap_fits|by right].
Qed.

Lemma keeps_sem_post cur s : keeps cur (gth_sem_post s).
Proof.
  unfold gth_sem_post. apply keeps_if; [keeps_tac|]. apply keeps_sem. intros x Hx.
  apply eqb_zero_cases; [intros; keeps_tac|]. intros Hini. destruct (Hx Hini) as (Hq & Hfit & Hidle).
  apply keeps_bind; [keeps_tac|]. intros self. rewrite gth_wq_is_empty_spec by apply Hq.
  case_bool_decide as Hemp; cbn [negb].
  - apply keeps_if; [keeps_tac|]. keeps_tac. intros _. cbn. split_and!; [done|by apply wrap_fits|by right].
  - apply keeps_dequeue; [done|]. intros y wq' Hq' _. cbn. keeps_tac. intros _. cbn.
    split_and!; [done|done|]. left. by destruct Hidle.
Qed.

Lemma keeps_sem_destroy cur s : keeps cur (gth_sem_destroy s).
Proof. unfold gth_sem_destroy. keeps_tac. done. Qed.

(** ** Condition variables *)

Lemma keeps_cond_init cur c : keeps cur (gth_cond_init c).
Proof. unfold gth_cond_init. keeps_tac. apply wq_ok_init. Qed.

Lemma keeps_thread_at cur i : (i < GTH_MAX_THREADS)%nat → keeps cur (thread_at i).
Proof.
  intros Hi w Hw Hc. destruct (lookup_is_some w Hw i Hi) as [t Ht].
  eapply returns_thread_at; [exact Ht|]. ok_refl.
Qed.

Lemma keeps_signal cur c : keeps cur (gth_cond_signal c).
Proof.
  unfold gth_cond_signal. apply keeps_if; [keeps_tac|]. apply keeps_cond. intros x Hx.
  apply eqb_zero_cases; [intros; keeps_tac|]. intros Hini. specialize (Hx Hini).
  apply keeps_if; [|keeps_tac]. apply keeps_dequeue; [done|]. intros y wq' Hq' Hy. cbn.
  apply keeps_bind; [keeps_tac; done|]. intros _.
  apply keeps_bind; [|intros; keeps_tac].
  destruct (Z.eqb_spec y 0xFF) as [|Hne]; cbn; [keeps_tac|].
  apply keeps_bind; [|intros; keeps_tac]. apply keeps_thread_at.
  destruct Hy as [|Hy]; [done|]. lia.
Qed.

Lemma keeps_cond_destroy cur c : keeps cur (gth_cond_destroy c).
Proof. unfold gth_cond_destroy. keeps_tac. done. Qed.

(** Waking a thread touches no synchronisation object and no other slot's
    existence. *)
Record wake_frame (w w' : world) : Prop := {
  wf_mutexes : w_mutexes w' = w_mutexes w;
  wf_sems : w_sems w' = w_sems w;
  wf_conds : w_conds w' = w_conds w;
  wf_live : ∀ j t, rt_threads (w_rt w) !! j = Some t →
    ∃ t', rt_threads (w_rt w') !! j = Some t' ∧ is_empty t' = is_empty t
}.

Lemma wake_frame_refl w : wake_frame w w.
Proof. constructor; eauto. Qed.

Lemma wake_frame_untrace w w' : untrace w' = untrace w → wake_frame w w'.
Proof.
  intros E. constructor.
  - apply (ut_mutexes _ _ E).
  - apply (ut_sems _ _ E).
  - apply (ut_conds _ _ E).
  - rewrite (ut_threads _ _ E). eauto.
Qed.

Lemma wake_frame_trans w1 w2 w3 : wake_frame w1 w2 → wake_frame w2 w3 → wake_frame w1 w3.
Proof.
  intros [a b c d] [a' b' c' d']. constructor; [congruence..|].
  intros j t Ht. destruct (d j t Ht) as (t2 & Ht2 & E2). destruct (d' j t2 Ht2) as (t3 & Ht3 & E3).
  exists t3. split; [done|congruence].
Qed.

Lemma woken_frame i w : (∀ t, rt_threads (w_rt w) !! i = Some t → is_empty t = false) →
  wake_frame w (woken i w).
Proof.
  intros Hlive. constructor; [done..|]. intros j t Ht. cbn. destruct (decide (j = i)) as [->|Hne].
  - rewrite list_lookup_alter_eq, Ht. eexists. split; [done|]. by rewrite (Hlive t Ht).
  - rewrite list_lookup_alter_ne by done. eauto.
Qed.

Lemma unblock_returns cur i w :
  world_ok w → cur_ok cur (w_rt w) →
  returns (gth_thread_unblock_slot i) w (λ _ w', ok_step cur w w' ∧ wake_frame w w').
Proof.
  intros Hw Hc. pose proof (keeps_unblock cur i w Hw Hc) as Hk. unfold returns in *.
  rewrite unblock_slot_spec in * by done.
  destruct (negb _); [auto using wake_frame_refl|].
  destruct (Nat.leb _ _); [auto using wake_frame_refl|].
  destruct (rt_threads (w_rt w) !! i) as [t|] eqn:Ht; [|done].
  destruct (is_blocked t) eqn:Hb; [|auto using wake_frame_refl]. split; [done|].
  unfold gth_trace_thread_unblock.
  eapply wake_frame_trans; [|apply wake_frame_untrace, untrace_record].
  apply woken_frame. intros u Hu. assert (u = t) as -> by congruence.
  apply is_blocked_true in Hb. apply is_empty_false. congruence.
Qed.

Lemma broadcast_loop_returns cur c n : ∀ w wake,
  world_ok w → cur_ok cur (w_rt w) → cv_initialized (cond_at w c) ≠ 0 →
  (length (wq_elems (cv_wq (cond_at w c))) ≤ n)%nat →
  returns (broadcast_loop n c wake) w (λ _ w', ok_step cur w w').
Proof.
  induction n as [|n IH]; intros w wake Hw Hc Hini Hlen; cbn [broadcast_loop];
    apply returns_bind, returns_gets; pose proof (so_cond _ (wo_sync _ Hw) c Hini) as Hq;
    assert (Hwf := Hq); destruct Hwf as [Hwf _]; rewrite gth_wq_is_empty_spec by done;
    case_bool_decide as Hemp.
  - by apply returns_ret, ok_step_refl.
  - destruct (wq_elems (cv_wq (cond_at w c))); [done|cbn in Hlen; lia].
  - by apply returns_ret, ok_step_refl.
  - destruct (wq_ok_dequeue _ Hq) as (wq' & E & Hq' & Hel).
    apply returns_bind. eapply returns_deref; [exact E|]. apply returns_bind, returns_modify. cbn [fst snd].
    set (x := cond_at w c) in *. set (w1 := set_cond c _ w).
    assert (H1 : ok_step cur w w1) by (split; [by apply world_ok_set_cond|apply calm_refl]).
    assert (Hlen1 : (length (wq_elems wq') ≤ n)%nat).
    { rewrite Hel. destruct (wq_elems (cv_wq x)); cbn in *; lia. }
    assert (Hat : cond_at w1 c = {| x with cv_wq := wq' |}) by (subst w1; rewrite cond_at_set; by case_decide).
    assert (Hc1 : cur_ok cur (w_rt w1)) by (by eapply ok_step_cur).
    case_match.
    + apply returns_bind. eapply returns_mono; [apply (unblock_returns cur); [apply H1|done]|].
      intros st w2 [H2 Hf2]. cbn in H2.
      assert (Hat2 : cond_at w2 c = {| x with cv_wq := wq' |}).
      { rewrite <- Hat. unfold cond_at. by rewrite (wf_conds _ _ Hf2). }
      eapply returns_mono.
      * apply IH; [apply H2|by eapply ok_step_cur| |]; by rewrite Hat2.
      * intros v w3 H3. eapply ok_step_trans; [exact H1|]. by eapply ok_step_trans.
    + eapply returns_mono; [apply IH; [apply H1|done| |]; by rewrite Hat|].
      intros v w3 H3. by eapply ok_step_trans.
Qed.

Lemma keeps_broadcast cur c : keeps cur (gth_cond_broadcast c).
Proof.
  unfold gth_cond_broadcast. apply keeps_if; [keeps_tac|]. intros w Hw Hc.
  apply returns_bind, returns_gets.
  destruct (Z.eqb_spec (cv_initialized (cond_at w c)) 0) as [|Hini]; [by apply returns_ret, ok_step_refl|].
  apply returns_bind. eapply returns_mono.
  - apply (broadcast_loop_returns cur); auto. by rewrite wq_elems_length.
  - intros n w1 H1. cbn in H1. eapply returns_mono.
    + assert (Hk : keeps cur (self <- gets gth_thread_self;;
        modify (gth_trace_cond_broadcast self c n);; ret GTH_OK)) by keeps_tac.
      apply Hk; [apply H1|by eapply ok_step_cur].
    + intros st w2 H2. by eapply ok_step_trans.
Qed.

(** ** Cancellation *)

(** A change of fields other than state, id and context. *)
Lemma touch_ok cur w i t (f : gth_thread_record_t → gth_thread_record_t) :
  world_ok w → rt_threads (w_rt w) !! i = Some t → is_empty t = false →
  th_state (f t) = th_state t → same_thread t (f t) → th_slot_index (f t) = th_slot_index t →
  ok_step cur w (upd_rt (upd_thread i f) w).
Proof.
  intros Hw Hi He Hst Hsame Hslot.
  apply (change_calm cur w Hw i t f); auto; unfold is_empty, is_ready, is_blocked, counted,
    is_ready, is_blocked in *; rewrite ?Hst; auto; try lia; try done.
  - by destruct Hsame.
  - cbn. lia.
  - cbn. lia.
Qed.

Lemma account_counts from to s :
  (is_ready_st from = true → 0 < rt_runnable_threads s) →
  (is_blocked_st from = true → 0 < rt_blocked_threads s) →
  0 ≤ rt_runnable_threads s ≤ 128 → 0 ≤ rt_blocked_threads s ≤ 128 →
  let s' := gth_runtime_account_state_change from to s in
  rt_runnable_threads s' = rt_runnable_threads s - b2z (is_ready_st from) + b2z (is_ready_st to) ∧
  rt_blocked_threads s' = rt_blocked_threads s - b2z (is_blocked_st from) + b2z (is_blocked_st to) ∧
  rt_threads s' = rt_threads s ∧ rest_same s s'.
Proof.
  intros Hr Hb ? ?. unfold gth_runtime_account_state_change, rest_same.
  case_bool_decide as Hne; [subst; split_and!; done || lia|].
  destruct from, to; cbn in *; try done; try specialize (Hr eq_refl); try specialize (Hb eq_refl);
    repeat match goal with |- context [0 <? ?x] => destruct (Z.ltb_spec 0 x); [|lia] end;
    cbn; rewrite ?counter_succ by lia; split_and!; done || lia.
Qed.

Lemma set_canceled_ok cur w i t :
  world_ok w → rt_threads (w_rt w) !! i = Some t → is_empty t = false →
  ok_step cur w (upd_rt (upd_thread i (set_state GTH_THREAD_CANCELED))
                  (upd_rt (gth_runtime_account_state_change (th_state t) GTH_THREAD_CANCELED) w)).
Proof.
  intros Hw Hi He. pose proof (world_counters w Hw) as [? ?].
  destruct (account_counts (th_state t) GTH_THREAD_CANCELED (w_rt w)) as (E1 & E2 & E3 & E4);
    [by eapply world_runnable_pos|by eapply world_blocked_pos|done|done|].
  apply (change_calm cur w Hw i t (set_state GTH_THREAD_CANCELED)); auto; [|done..].
  cbn. by rewrite E3.
Qed.

Lemma set_canceled_returns cur w i t :
  world_ok w → rt_threads (w_rt w) !! i = Some t → is_empty t = false →
  returns (gth_runtime_set_thread_state i GTH_THREAD_CANCELED) w (λ _ w', ok_step cur w w' ∧
    ∃ t', rt_threads (w_rt w') !! i = Some t' ∧ is_empty t' = false).
Proof.
  intros Hw Hi He. unfold gth_runtime_set_thread_state. apply returns_bind.
  eapply returns_thread_at; [exact Hi|]. case_bool_decide.
  - apply returns_ret. split; [by apply ok_step_refl|eauto].
  - apply returns_bind, returns_modify, returns_modify. split; [by eapply set_canceled_ok|].
    cbn. pose proof (world_counters w Hw) as [? ?].
    destruct (account_counts (th_state t) GTH_THREAD_CANCELED (w_rt w)) as (_ & _ & -> & _);
      [by eapply world_runnable_pos|by eapply world_blocked_pos|done|done|].
    rewrite list_lookup_alter_eq, Hi. eexists. split; [done|]. done.
Qed.

Lemma keeps_cancel cur tid : keeps cur (gth_thread_cancel tid).
Proof.
  intros w Hw Hc. unfold gth_thread_cancel, returns.
  destruct (negb _); [ok_refl|]. destruct (tid =? 0); [ok_refl|].
  destruct (gth_runtime_find_thread (w_rt w) tid) as [i|] eqn:Hf; [|ok_refl].
  apply find_thread_Some in Hf as (t & Ht & He & <-). apply is_empty_false in He.
  apply returns_fold. apply returns_bind. eapply returns_thread_at; [exact Ht|].
  destruct (gth_thread_is_terminal (th_state t)); [by apply returns_ret, ok_step_refl|].
  apply returns_bind, returns_modify. apply returns_bind.
  set (w1 := gth_trace_thread_cancel (th_tid t) w).
  assert (H1 : ok_step cur w w1 ∧ wake_frame w w1).
  { unfold w1, gth_trace_thread_cancel. split; [by apply record_ok|].
    apply wake_frame_untrace, untrace_record. }
  destruct H1 as [H1 F1].
  apply (returns_mono _ _ (λ _ w2, ok_step cur w w2 ∧ wake_frame w w2)).
  - destruct (is_blocked t); [|by apply returns_ret].
    eapply returns_mono; [apply (unblock_returns cur); [apply H1|by eapply ok_step_cur]|].
    intros st w2 [H2 F2]. cbn in *. eauto using ok_step_trans, wake_frame_trans.
  - intros _ w2 [H2 F2]. cbn in H2, F2. destruct (wf_live _ _ F2 i t Ht) as (t2 & Ht2 & He2).
    eapply returns_bind, returns_mono; [eapply set_canceled_returns; [apply H2|exact Ht2|congruence]|].
    intros _ w3 (H3 & t3 & Ht3 & He3). cbn in H3. apply returns_bind, returns_modify, returns_ret.
    eapply ok_step_trans; [exact H2|]. eapply ok_step_trans; [exact H3|].
    eapply touch_ok; [apply H3|exact Ht3|congruence|done..].
Qed.
