(* ===== verification/Switching.v ===== *)
(** * Calls that switch stacks

    What each public function guarantees when it returns, and what it leaves
    behind when it switches stacks in the middle: [call_post].  A green thread
    always parks itself, not running any more, and switches to the scheduler's
    context; main always dispatches a ready thread.  [call_ok] is proved for
    every public function and for the code after every switch point. *)

From S2P Require Import Prelude WaitQueue TraceFormat State Stack TraceBuffer Trace Runtime Replay.
From S2P Require Import Fuzz Sched Thread Mutex Sem Cond Lifecycle Machine Invariant Ops.

(** ** Postconditions *)

(** A return: the invariant holds, the other threads are as before, and at
    most one thread id has been used up. *)
Record quiet (cur : option nat) (w w' : world) : Prop := {
  qu_world : world_ok w';
  qu_evolves : evolves cur (w_rt w) (w_rt w');
  qu_free : cur_free cur (w_rt w) → cur_free cur (w_rt w');
  qu_next : rt_next_tid (w_rt w') ≤ Z.max 1 (rt_next_tid (w_rt w) + 1)
}.

(** The switch points of green threads. *)
Definition thread_frame (c : nat) (k : frame) : Prop :=
  match k with
  | KYield | KSemWait | KCondWait _ => True
  | KLock _ my_slot => my_slot = c
  | KRunNext _ _ => False
  end.

(** The switch points of main. *)
Definition main_frame (k : frame) : Prop :=
  match k with
  | KRunNext previous_tid InYield => previous_tid = 0
  | KRunNext previous_tid (InJoin _ target) => previous_tid = 0 ∧ (target < GTH_MAX_THREADS)%nat
  | _ => False
  end.

(** Thread [c] has recorded that it is not running any more. *)
Record parked (c : nat) (w w' : world) : Prop := {
  pk_world : world_ok w';
  pk_evolves : evolves (Some c) (w_rt w) (w_rt w');
  pk_next : rt_next_tid (w_rt w') = rt_next_tid (w_rt w);
  pk_stopped : ∀ t, rt_threads (w_rt w') !! c = Some t → th_state t ≠ GTH_THREAD_RUNNING
}.

(** Main has chosen thread [i]. *)
Record dispatched (i : nat) (w w' : world) : Prop := {
  di_world : world_ok w';
  di_thread : ∃ t, rt_threads (w_rt w) !! i = Some t ∧ is_ready t = true ∧
    rt_current_tid (w_rt w') = th_tid t;
  di_threads : rt_threads (w_rt w') = alter (set_state GTH_THREAD_RUNNING) i (rt_threads (w_rt w));
  di_next : rt_next_tid (w_rt w') = rt_next_tid (w_rt w)
}.

Definition call_post (cur : option nat) (w : world) (r : result) (w' : world) : Prop :=
  match r with
  | Return _ => quiet cur w w'
  | Swap from to k =>
      match cur with
      | Some c => from = ThreadCtx c ∧ to = SchedCtx ∧ thread_frame c k ∧ parked c w w'
      | None => ∃ i, from = SchedCtx ∧ to = ThreadCtx i ∧ main_frame k ∧ dispatched i w w'
      end
  end.

(** The only computation whose fuel can run out is the rejection loop of the
    fuzzer's random numbers, which chooses among the ready threads in fuzz mode:
    as many draws as there is fuel, starting from the generator's present state
    (after the draw that decided to perturb), are all rejected. *)
Definition fuzz_stuck (w : world) : Prop :=
  let ready := gth_fuzz_count_ready_threads (w_rt w) in
  rt_mode (w_rt w) = GTH_MODE_FUZZ ∧ 2 ≤ ready ≤ Z.of_nat GTH_MAX_THREADS ∧
  ∃ f, rt_fuzz (w_rt w) = Some f ∧ fst (gth_fuzz_should_perturb f) = true ∧
    gth_fuzz_random_range (w_fuel w) (snd (gth_fuzz_should_perturb f)) ready = NoFuel.

Definition call_ok (cur : option nat) (m : M result) : Prop := ∀ w,
  world_ok w → cur_ok cur (w_rt w) → cur_free cur (w_rt w) → safe (fuzz_stuck w) m w (call_post cur w).

Lemma ok_step_quiet cur w w' : ok_step cur w w' → quiet cur w w'.
Proof. intros (? & ? & ? & ? & ?). constructor; auto. lia. Qed.

Lemma quiet_refl cur w : world_ok w → quiet cur w w.
Proof. intros. by apply ok_step_quiet, ok_step_refl. Qed.

Lemma keeps_call_ok cur m : keeps cur m → call_ok cur (returning m).
Proof.
  intros Hm w Hw Hc _. apply safe_returns. unfold returning. apply returns_bind.
  eapply returns_mono; [by apply Hm|]. intros st w' H. by apply ok_step_quiet.
Qed.

Lemma keeps_returns_ok cur m : keeps cur m → call_ok cur (r <- m;; ret (Return r)).
Proof.
  intros Hm w Hw Hc _. apply safe_returns, returns_bind.
  eapply returns_mono; [by apply Hm|]. intros st w' H. by apply ok_step_quiet.
Qed.

(** ** Parking *)

Lemma ok_step_parked c w1 w2 w3 :
  ok_step (Some c) w1 w2 → parked c w2 w3 → parked c w1 w3.
Proof.
  intros (? & ? & ? & ? & ?) []. constructor; auto; [by eapply evolves_trans|congruence].
Qed.

Lemma parked_ok_step c w1 w2 w3 :
  parked c w1 w2 → ok_step (Some c) w2 w3 → parked c w1 w3.
Proof.
  intros [] (? & ? & ? & ? & Hnr). constructor; auto; [by eapply evolves_trans|congruence|].
  intros t Ht Hr. destruct (Hnr c t Ht Hr) as (t0 & Ht0 & Hr0). by eapply pk_stopped0.
Qed.

Lemma parked_cur c w w' : cur_ok (Some c) (w_rt w) → parked c w w' → cur_ok (Some c) (w_rt w').
Proof. intros ? []. by eapply cur_ok_evolves. Qed.

Section park.
Context (c : nat) (w : world) (Hw : world_ok w) (Hc : cur_ok (Some c) (w_rt w))
  (Hf : cur_free (Some c) (w_rt w)).

Lemma cur_thread : ∃ t, rt_threads (w_rt w) !! c = Some t ∧ is_empty t = false ∧
  is_ready t = false ∧ is_blocked t = false ∧ th_tid t = rt_current_tid (w_rt w).
Proof using Hc Hf.
  destruct Hc as [(t & Ht & He & E) _]. exists t. pose proof (Hf c t eq_refl Ht) as H.
  apply orb_false_iff in H as [? ?]. auto.
Qed.

(** Becoming blocked, as in [gth_thread_block], [gth_sem_wait] and [gth_cond_wait]. *)
Definition blocked_world : world :=
  upd_rt (λ s, {| s with rt_blocked_threads := u64 (rt_blocked_threads s + 1) |})
    (upd_rt (upd_thread c (set_state GTH_THREAD_BLOCKED)) w).

Lemma park_blocked : parked c w blocked_world.
Proof using Hw Hc Hf.
  destruct cur_thread as (t & Ht & He & Hr & Hb & _). pose proof (world_counters w Hw) as [? ?].
  destruct (change_ok (Some c) w Hw c t (set_state GTH_THREAD_BLOCKED) (w_rt blocked_world))
    as [H1 H2]; auto; try done.
  - rewrite Hr. cbn. lia.
  - rewrite Hb. cbn. rewrite counter_succ by done. lia.
  - constructor; [done|done|done|]. cbn. intros u. rewrite list_lookup_alter_eq, Ht. by intros [= <-].
Qed.

(** Becoming ready, as in [gth_thread_yield]. *)
Definition ready_world : world :=
  upd_rt (λ s, {| s with rt_runnable_threads := u64 (rt_runnable_threads s + 1) |})
    (upd_rt (upd_thread c (set_state GTH_THREAD_READY)) w).

Lemma park_ready : parked c w ready_world.
Proof using Hw Hc Hf.
  destruct cur_thread as (t & Ht & He & Hr & Hb & _). pose proof (world_counters w Hw) as [? ?].
  destruct (change_ok (Some c) w Hw c t (set_state GTH_THREAD_READY) (w_rt ready_world))
    as [H1 H2]; auto; try done.
  - rewrite Hr. cbn. rewrite counter_succ by done. lia.
  - rewrite Hb. cbn. lia.
  - constructor; [done|done|done|]. cbn. intros u. rewrite list_lookup_alter_eq, Ht. by intros [= <-].
Qed.
End park.

(** [gth_thread_block] as a green thread runs it. *)
Lemma block_returns c w :
  world_ok w → cur_ok (Some c) (w_rt w) → cur_free (Some c) (w_rt w) →
  returns gth_thread_block w (λ b w', b = inr c ∧ parked c w w').
Proof.
  intros Hw Hc Hf. destruct (find_current w Hw c Hc) as (Hfind & Hnz & Hini).
  unfold gth_thread_block, returns. rewrite Hini, Hfind. cbn [negb].
  destruct (Z.eqb_spec (rt_current_tid (w_rt w)) 0); [done|]. split; [done|].
  set (w1 := gth_trace_thread_block _ _ _).
  assert (H1 : ok_step (Some c) w w1) by (unfold w1, gth_trace_thread_block; by apply record_ok).
  eapply ok_step_parked; [exact H1|].
  apply (park_blocked c w1); [apply H1|by eapply ok_step_cur|by eapply ok_step_free].
Qed.

Lemma cur_slot_lt c w : world_ok w → cur_ok (Some c) (w_rt w) → (c < GTH_MAX_THREADS)%nat.
Proof. intros Hw [(t & Ht & _) _]. by eapply lookup_lt_max. Qed.

(** ** Mutex lock *)

Lemma mutex_not_full x : mutex_ok x → gth_wq_is_full (mx_wq x) = false → mx_initialized x ≠ 0.
Proof. intros [_ H] Hfull E. by rewrite (H E) in Hfull. Qed.

Lemma mutex_enqueue_returns cur m c w :
  world_ok w → mx_initialized (mutex_at w m) ≠ 0 → (c < GTH_MAX_THREADS)%nat →
  returns (mutex_enqueue m c) w (λ _ w', ok_step cur w w').
Proof.
  intros Hw Hini Hc. unfold mutex_enqueue. apply returns_bind, returns_gets, returns_bind.
  pose proof (proj1 (so_mutex _ (wo_sync _ Hw) m) Hini) as Hq.
  destruct (wq_ok_enqueue _ c Hq Hc) as (wq' & E & Hq' & _).
  eapply returns_deref; [exact E|]. apply returns_modify. split; [|apply calm_refl].
  apply world_ok_set_mutex; [done|]. by split.
Qed.

Lemma keeps_lock_acquire cur m : keeps cur (lock_acquire m).
Proof. unfold lock_acquire, ret_status. keeps_tac. Qed.

Lemma lock_acquire_post cur m w :
  world_ok w → cur_ok cur (w_rt w) → returns (lock_acquire m) w (call_post cur w).
Proof.
  intros Hw Hc. unfold lock_acquire, ret_status.
  apply returns_bind, returns_modify, returns_bind, returns_gets, returns_bind, returns_modify, returns_ret.
  apply ok_step_quiet. set (w1 := take_mutex m w).
  assert (H1 : ok_step cur w w1) by (pose proof (keeps_take_mutex cur m w Hw Hc) as H; exact H).
  eapply ok_step_trans; [exact H1|]. unfold gth_trace_mutex_lock. apply record_ok, H1.
Qed.

(** Enqueue, block and switch: the tail shared by the first wait and by the
    waits of the loop. *)
Lemma lock_block_post c m w w1 (k : gth_status_t → M result) :
  ok_step (Some c) w w1 → cur_ok (Some c) (w_rt w) → cur_free (Some c) (w_rt w) →
  returns (b <- gth_thread_block;;
           match b with inr i => ret (Swap (ThreadCtx i) SchedCtx (KLock m c)) | inl st => k st end)
    w1 (call_post (Some c) w).
Proof.
  intros H1 Hc Hf. apply returns_bind.
  eapply returns_mono; [apply (block_returns c); [apply H1|by eapply ok_step_cur|by eapply ok_step_free]|].
  intros b w2 [-> Hp]. apply returns_ret. split_and!; try done. by eapply ok_step_parked.
Qed.

Lemma lock_wait_post c m n w :
  world_ok w → cur_ok (Some c) (w_rt w) → cur_free (Some c) (w_rt w) →
  returns (lock_wait (S n) m c) w (call_post (Some c) w).
Proof.
  intros Hw Hc Hf. cbn [lock_wait]. apply returns_bind, returns_gets.
  destruct (mx_locked (mutex_at w m) =? 0); [by apply lock_acquire_post|].
  destruct (gth_wq_is_full _) eqn:Hfull; [by apply returns_ret, quiet_refl|].
  apply returns_bind. eapply returns_mono.
  { apply (mutex_enqueue_returns (Some c)); [done| |by eapply cur_slot_lt].
    apply mutex_not_full; [apply (so_mutex _ (wo_sync _ Hw))|done]. }
  intros [] w1 H1. cbn in H1. by apply (lock_block_post c m w w1 (λ _, lock_wait n m c)).
Qed.

Lemma call_ok_lock_resume c m : call_ok (Some c) (gth_mutex_lock_resume m c).
Proof. intros w Hw Hc Hf. by apply safe_returns, lock_wait_post. Qed.

Lemma call_ok_lock cur m : call_ok cur (gth_mutex_lock m).
Proof.
  intros w Hw Hc Hf. apply safe_returns. unfold gth_mutex_lock.
  destruct (m =? 0); [by apply returns_ret, quiet_refl|]. apply returns_bind, returns_gets.
  destruct (Z.eqb_spec (mx_initialized (mutex_at w m)) 0) as [|Hini]; [by apply returns_ret, quiet_refl|].
  destruct (negb _); [|by apply lock_acquire_post]. apply returns_bind, returns_gets.
  destruct (_ =? _); [by apply returns_ret, quiet_refl|]. apply returns_bind.
  destruct cur as [c|]; unfold returns at 1.
  - rewrite (current_slot_index_cur w Hw c Hc). pose proof (cur_slot_lt c w Hw Hc).
    destruct (Nat.leb_spec GTH_MAX_THREADS c); [lia|].
    destruct (gth_wq_is_full _) eqn:Hfull; [by apply returns_ret, quiet_refl|].
    apply returns_bind. eapply returns_mono; [by apply (mutex_enqueue_returns (Some c))|].
    intros [] w1 H1. cbn in H1. apply returns_bind, returns_modify.
    apply (lock_block_post c m w _ (λ _, lock_wait lock_fuel m c)); auto.
    eapply ok_step_trans; [exact H1|]. unfold gth_trace_mutex_wait. apply record_ok, H1.
  - rewrite (current_slot_index_main w Hc). by apply returns_ret, quiet_refl.
Qed.

(** ** Semaphore wait *)

Lemma call_ok_sem_wait cur s : call_ok cur (gth_sem_wait s).
Proof.
  intros w Hw Hc Hf. apply safe_returns. unfold gth_sem_wait.
  destruct (s =? 0); [by apply returns_ret, quiet_refl|]. apply returns_bind, returns_gets.
  destruct (Z.eqb_spec (sm_initialized (sem_at w s)) 0) as [|Hini]; [by apply returns_ret, quiet_refl|].
  destruct (so_sem _ (wo_sync _ Hw) s Hini) as (Hq & Hfit & Hidle).
  destruct (Z.eqb_spec (sm_count (sem_at w s)) 0) as [Hz|Hz].
  - apply returns_bind. destruct cur as [c|]; unfold returns at 1.
    + rewrite (current_slot_index_cur w Hw c Hc). pose proof (cur_slot_lt c w Hw Hc) as Hlt.
      destruct (Nat.leb_spec GTH_MAX_THREADS c); [lia|].
      destruct (gth_wq_is_full _); [by apply returns_ret, quiet_refl|].
      unfold mark_blocked. apply returns_bind, returns_bind, returns_modify, returns_modify.
      pose proof (park_blocked c w Hw Hc Hf) as Hp. fold (blocked_world c w). apply returns_bind.
      destruct (wq_ok_enqueue _ c Hq Hlt) as (wq' & E & Hq' & _). eapply returns_deref; [exact E|].
      apply returns_bind, returns_modify, returns_bind, returns_gets, returns_bind, returns_modify, returns_ret.
      split_and!; try done. set (w2 := set_sem s _ _).
      assert (H2 : ok_step (Some c) (blocked_world c w) w2).
      { split; [|apply calm_refl]. apply world_ok_set_sem; [apply Hp|]. intros _. cbn. auto. }
      eapply parked_ok_step; [exact Hp|]. eapply ok_step_trans; [exact H2|].
      unfold gth_trace_sem_wait. apply record_ok, H2.
    + rewrite (current_slot_index_main w Hc). by apply returns_ret, quiet_refl.
  - apply returns_bind, returns_modify, returns_bind, returns_gets, returns_bind, returns_modify, returns_ret.
    apply ok_step_quiet. set (w2 := set_sem s _ w).
    assert (H2 : ok_step cur w w2).
    { split; [|apply calm_refl]. apply world_ok_set_sem; [done|]. intros _. cbn.
      split_and!; [done|by apply wrap_fits|]. right. by destruct Hidle. }
    eapply ok_step_trans; [exact H2|]. unfold gth_trace_sem_wait. apply record_ok, H2.
Qed.

(** ** Condition wait *)

(** A refused unlock changes nothing. *)
Lemma unlock_refused m w st w' :
  gth_mutex_unlock m w = Done (st, w') → st ≠ GTH_OK → w' = w.
Proof.
  unfold gth_mutex_unlock. destruct (m =? 0); [by intros [= <- <-]|].
  unfold bind at 1, gets at 1. destruct (mx_initialized _ =? 0); [by intros [= <- <-]|].
  destruct (mx_locked _ =? 0); [by intros [= <- <-]|]. unfold bind at 1, gets at 1.
  destruct (_ && _); [by intros [= <- <-]|]. unfold bind at 1, modify at 1.
  intros E Hne. exfalso. unfold bind at 1 in E.
  match type of E with match ?x with _ => _ end = _ => destruct x as [[[] w1]| |] end; try done.
  unfold bind, modify, ret in E. congruence.
Qed.

(** The caller after the failed wait: running again, off every counter. *)
Lemma cond_undo_post c w w1 cv :
  world_ok w → cur_ok (Some c) (w_rt w) → cur_free (Some c) (w_rt w) →
  ok_step (Some c) (blocked_world c w) w1 → cv_initialized (cond_at w1 cv) ≠ 0 →
  rt_threads (w_rt w1) = rt_threads (w_rt (blocked_world c w)) →
  returns (cond_wait_undo cv c) w1 (λ _ w', quiet (Some c) w w').
Proof.
  intros Hw Hc Hf H1 Hini Hts. pose proof (park_blocked c w Hw Hc Hf) as Hp.
  pose proof (parked_cur c w _ Hc Hp) as Hc1. pose proof (ok_step_cur _ _ _ Hc1 H1) as Hc2.
  destruct (cur_thread c w Hc Hf) as (t & Ht & He & _).
  assert (Hb : rt_threads (w_rt w1) !! c = Some (set_state GTH_THREAD_BLOCKED t)).
  { rewrite Hts. cbn. by rewrite list_lookup_alter_eq, Ht. }
  pose proof (world_blocked_pos w1 c _ (proj1 H1) Hb eq_refl) as Hpos.
  set (s2 := {| (upd_thread c (set_state GTH_THREAD_RUNNING) (w_rt w1)) with
                rt_blocked_threads := dec_pos (rt_blocked_threads (w_rt w1)) |}).
  destruct (change_ok (Some c) w1 (proj1 H1) c _ (set_state GTH_THREAD_RUNNING) s2 Hb) as [Hw2 Hev2];
    try done; [cbn; lia|cbn; rewrite dec_pos_pos by done; lia|].
  unfold cond_wait_undo. apply returns_bind, returns_modify, returns_bind, returns_modify.
  change (upd_rt _ _) with {| w1 with w_rt := s2 |}.
  apply returns_bind, returns_gets, returns_bind.
  pose proof (so_cond _ (wo_sync _ Hw2) cv Hini) as Hq.
  destruct (wq_ok_remove _ (u8 (Z.of_nat c)) Hq) as (wq' & E & Hq' & _).
  eapply returns_deref; [exact E|]. apply returns_modify. constructor.
  - by apply world_ok_set_cond.
  - cbn. eapply evolves_trans; [apply Hp|]. by eapply evolves_trans; [exact (proj1 (proj2 H1))|].
  - intros _ c' u [= <-]. cbn. rewrite list_lookup_alter_eq, Hb. by intros [= <-].
  - cbn. destruct H1 as (_ & _ & _ & -> & _). rewrite (pk_next _ _ _ Hp). lia.
Qed.

Lemma call_ok_cond_wait cur cv m : call_ok cur (gth_cond_wait cv m).
Proof.
  intros w Hw Hc Hf. apply safe_returns. unfold gth_cond_wait.
  destruct (_ || _); [by apply returns_ret, quiet_refl|]. apply returns_bind, returns_gets.
  destruct (Z.eqb_spec (cv_initialized (cond_at w cv)) 0) as [|Hini]; [by apply returns_ret, quiet_refl|].
  pose proof (so_cond _ (wo_sync _ Hw) cv Hini) as Hq. apply returns_bind.
  destruct cur as [c|]; unfold returns at 1; last first.
  { rewrite (current_slot_index_main w Hc). by apply returns_ret, quiet_refl. }
  rewrite (current_slot_index_cur w Hw c Hc). pose proof (cur_slot_lt c w Hw Hc) as Hlt.
  destruct (Nat.leb_spec GTH_MAX_THREADS c); [lia|].
  destruct (gth_wq_is_full _); [by apply returns_ret, quiet_refl|].
  unfold mark_blocked. apply returns_bind, returns_bind, returns_modify, returns_modify.
  pose proof (park_blocked c w Hw Hc Hf) as Hp. fold (blocked_world c w). apply returns_bind.
  destruct (wq_ok_enqueue _ c Hq Hlt) as (wq' & E & Hq' & _). eapply returns_deref; [exact E|].
  apply returns_bind, returns_modify, returns_bind, returns_gets, returns_bind, returns_modify, returns_bind.
  set (w2 := set_cond cv _ _). unfold gth_trace_cond_wait. set (w3 := gth_trace_record _ _ _ _ w2).
  assert (H2 : ok_step (Some c) (blocked_world c w) w2).
  { split; [by apply world_ok_set_cond; [apply Hp|]|apply calm_refl]. }
  pose proof (untrace_record GTH_EVT_COND_WAIT (gth_thread_self w2) cv 0 w2) as Eut. fold w3 in Eut.
  assert (H3 : ok_step (Some c) (blocked_world c w) w3).
  { eapply ok_step_trans; [exact H2|]. apply record_ok, H2. }
  pose proof (ok_step_cur _ _ _ (parked_cur c w _ Hc Hp) H3) as Hc3.
  pose proof (keeps_unlock (Some c) m w3 (proj1 H3) Hc3) as Hu.
  unfold returns in Hu |- *. destruct (gth_mutex_unlock m w3) as [[st w4]| |] eqn:Eu; [|done..].
  case_bool_decide as Hst; cbn [negb].
  - split_and!; try done. eapply parked_ok_step; [exact Hp|]. by eapply ok_step_trans.
  - apply unlock_refused in Eu as ->; [|done]. apply returns_fold, returns_bind.
    eapply returns_mono; [apply (cond_undo_post c w w3 cv); try done|].
    + unfold cond_at. rewrite (ut_conds _ _ Eut). fold (cond_at w2 cv).
      unfold w2. rewrite cond_at_set. by case_decide.
    + by rewrite (ut_threads _ _ Eut).
    + intros [] w5 H5. exact H5.
Qed.

Lemma call_ok_cond_resume c m : call_ok (Some c) (gth_cond_wait_resume m).
Proof. apply call_ok_lock. Qed.

(** ** Dispatching *)

(** Changes of the runtime record outside the thread table. *)
Lemma side_ok cur w s :
  world_ok w → table_ok s → rt_threads s = rt_threads (w_rt w) →
  rt_scheduler_ctx s = rt_scheduler_ctx (w_rt w) → rt_current_tid s = rt_current_tid (w_rt w) →
  rt_next_tid s = rt_next_tid (w_rt w) → rt_trace s = rt_trace (w_rt w) →
  ok_step cur w {| w with w_rt := s |}.
Proof.
  intros Hw Ht E1 E2 E3 E4 E5. split.
  - apply world_ok_rt; [done|done|]. rewrite E5. apply Hw.
  - by apply calm_same_table.
Qed.

Definition ready_choice (w : world) (o : option nat) (w' : world) : Prop :=
  ok_step None w w' ∧ rt_threads (w_rt w') = rt_threads (w_rt w) ∧
  match o with Some i => ∃ t, rt_threads (w_rt w) !! i = Some t ∧ is_ready t = true | None => True end.

Lemma pick_normal_safe w o s' :
  world_ok w → gth_scheduler_pick_ready_thread (w_rt w) = (o, s') →
  ready_choice w o {| w with w_rt := s' |}.
Proof.
  intros Hw E. destruct (wo_table _ Hw). apply pick_ready_spec in E as [(rr & Hrr & ->) Ho]; [|done..].
  split_and!; [|done|by destruct o]. by apply side_ok.
Qed.

(** The other side of the choice: only the fuzzing or replay state changes. *)
Lemma ready_choice_side w o o' w1 s :
  ready_choice w o w1 → table_ok s → rt_threads s = rt_threads (w_rt w1) →
  rt_scheduler_ctx s = rt_scheduler_ctx (w_rt w1) → rt_current_tid s = rt_current_tid (w_rt w1) →
  rt_next_tid s = rt_next_tid (w_rt w1) → rt_trace s = rt_trace (w_rt w1) →
  match o' with Some i => ∃ t, rt_threads (w_rt w) !! i = Some t ∧ is_ready t = true | None => True end →
  ready_choice w o' {| w1 with w_rt := s |}.
Proof.
  intros (H1 & H2 & _) ? ? ? ? ? ? Ho. split_and!; [|cbn; congruence|done].
  eapply ok_step_trans; [exact H1|]. apply side_ok; auto. apply H1.
Qed.

Lemma ready_bound w : world_ok w → countb is_ready (rt_threads (w_rt w)) ≤ Z.of_nat GTH_MAX_THREADS.
Proof.
  intros Hw. pose proof (countb_nonneg is_ready (rt_threads (w_rt w))).
  destruct (wo_table _ Hw). lia.
Qed.

Lemma pick_fuzzed_safe w : world_ok w → safe (fuzz_stuck w) pick_normal_or_fuzzed w (ready_choice w).
Proof.
  intros Hw. unfold safe, pick_normal_or_fuzzed.
  destruct (gth_scheduler_pick_ready_thread (w_rt w)) as [o s'] eqn:E.
  pose proof (pick_normal_safe w o s' Hw E) as H1. assert (Htb : table_ok s') by apply H1.
  assert (rt_mode s' = rt_mode (w_rt w) ∧ rt_fuzz s' = rt_fuzz (w_rt w)) as [Em Ef].
  { destruct (wo_table _ Hw). apply pick_ready_spec in E as [(rr & _ & ->) _]; done. }
  destruct (rt_mode s') eqn:Hm; try exact H1. destruct (rt_fuzz s') as [f|]; [|exact H1].
  unfold gth_fuzz_pick_thread. destruct o as [c|]; [|by apply (ready_choice_side w _ _ _ _ H1)].
  destruct (H1) as (_ & H2 & t & Ht & Hr). cbn in H2.
  destruct (gth_fuzz_should_perturb f) as [[] f1] eqn:Epert; cbn [negb]; last first.
  { apply (ready_choice_side w _ _ _ _ H1); eauto. }
  pose proof (pick_alternative_ready (w_fuel w) s' f1 c t) as Hp. rewrite H2 in Hp. specialize (Hp Ht Hr).
  cbn [w_fuel]. destruct (gth_fuzz_pick_alternative _ _ _ _) as [[i f2]| |]; [|done|].
  2: { unfold fuzz_stuck. rewrite <- Em, <- Ef. unfold gth_fuzz_count_ready_threads in *. rewrite H2 in Hp.
       pose proof (ready_bound _ Hw). split; [done|]. split; [lia|]. exists f. rewrite Epert. split_and!; [done|done|apply Hp]. }
  by apply (ready_choice_side w _ _ _ _ H1).
Qed.

(** The choice among ready threads, with no thread running. *)
Lemma pick_mode_safe w :
  world_ok w → none_running (w_rt w) → safe (fuzz_stuck w) gth_scheduler_pick_ready_thread_mode w (ready_choice w).
Proof.
  intros Hw Hnr. pose proof (pick_fuzzed_safe w Hw) as Hrest.
  unfold safe, gth_scheduler_pick_ready_thread_mode.
  destruct (rt_mode (w_rt w)) ; try exact Hrest. destruct (rt_replay (w_rt w)) as [r|]; [|exact Hrest].
  destruct (gth_replay_next_thread (w_rt w) r) as [o r'] eqn:E.
  split_and!; [apply side_ok; try done; apply Hw|done|]. destruct o as [i|]; [|done].
  assert (Hsel : ∃ tid, gth_replay_find_thread (w_rt w) tid = Some i).
  { unfold gth_replay_next_thread in E. repeat case_match; simplify_eq; eauto. }
  destruct Hsel as (tid & Hsel). apply replay_find_thread_Some in Hsel as (t & Ht & _ & [Hs|Hs]).
  - exists t. split; [done|]. by apply is_ready_true.
  - by destruct (Hnr i t Ht Hs).
Qed.

Lemma dispatch_ok i t w w1 s :
  ok_step None w w1 → rt_threads (w_rt w1) = rt_threads (w_rt w) →
  rt_threads (w_rt w) !! i = Some t → is_ready t = true →
  s = {| (upd_thread i (set_state GTH_THREAD_RUNNING) (w_rt w1)) with
         rt_current_tid := th_tid t;
         rt_context_switches := u64 (rt_context_switches (w_rt w1) + 1);
         rt_runnable_threads := if 0 <? rt_runnable_threads (w_rt w1)
                                then rt_runnable_threads (w_rt w1) - 1
                                else rt_runnable_threads (w_rt w1) |} →
  dispatched i w {| w1 with w_rt := s |}.
Proof.
  intros H1 Hts Ht Hr ->. assert (Ht1 : rt_threads (w_rt w1) !! i = Some t) by congruence.
  destruct H1 as (Hw1 & _ & _ & Hn & _). pose proof (world_runnable_pos w1 i t Hw1 Ht1 Hr).
  destruct (Z.ltb_spec 0 (rt_runnable_threads (w_rt w1))); [|lia].
  constructor; cbn; [|eauto|by rewrite Hts|done].
  apply world_ok_rt; [done| |apply Hw1]. apply is_ready_true in Hr.
  pose proof (tbl_alter _ i t (set_state GTH_THREAD_RUNNING) Ht1 _ _ _ _ _ (wo_table _ Hw1)) as Htb.
  unfold is_empty, is_ready, is_blocked in Htb. rewrite Hr in Htb. cbn in Htb.
  specialize (Htb eq_refl eq_refl eq_refl eq_refl). rewrite Z.sub_0_r, !Z.add_0_r in Htb. exact Htb.
Qed.

Lemma run_next_main k w :
  world_ok w → cur_ok None (w_rt w) →
  safe (fuzz_stuck w) (gth_scheduler_run_next k) w (λ r w',
    match r with
    | inl st => st ≠ GTH_OK ∧ ok_step None w w'
    | inr sw => ∃ i, sw = Swap SchedCtx (ThreadCtx i) (KRunNext 0 k) ∧ dispatched i w w'
    end).
Proof.
  intros Hw Hc. unfold gth_scheduler_run_next, safe. destruct (negb _); [by split; [|apply ok_step_refl]|].
  apply safe_fold, safe_bind. eapply safe_mono; [by apply pick_mode_safe, none_running_main|].
  intros [i|] w1 (H1 & Hts & Ho); [|by split]. destruct Ho as (t & Ht & Hr).
  assert (Ht1 : rt_threads (w_rt w1) !! i = Some t) by congruence.
  apply safe_bind, safe_returns. eapply returns_thread_at; [exact Ht1|].
  unfold safe. exists i. destruct (ok_step_cur _ _ _ Hc H1) as [Hcur _]. rewrite Hcur. split; [done|].
  match goal with |- context [if ?b then ?x else w1] => set (w2 := if b then x else w1) end.
  assert (H2 : ok_step None w w2 ∧ rt_threads (w_rt w2) = rt_threads (w_rt w)).
  { unfold w2. destruct (_ || _); [|done]. unfold gth_trace_context_switch. split.
    - eapply ok_step_trans; [exact H1|]. apply record_ok, H1.
    - by rewrite (ut_threads _ _ (untrace_record _ _ _ _ _)). }
  destruct H2 as [H2 Hts2]. by eapply (dispatch_ok i t w w2).
Qed.

(** ** Yield *)

Lemma call_ok_yield cur : call_ok cur gth_thread_yield.
Proof.
  intros w Hw Hc Hf. unfold gth_thread_yield, safe. destruct (negb _); [by apply quiet_refl|].
  destruct cur as [c|].
  - destruct (find_current w Hw c Hc) as (Hfind & Hnz & Hini). rewrite Hfind.
    destruct (Z.eqb_spec (rt_current_tid (w_rt w)) 0); [done|]. split_and!; try done.
    set (w1 := gth_trace_thread_yield _ w).
    assert (H1 : ok_step (Some c) w w1) by (unfold w1, gth_trace_thread_yield; by apply record_ok).
    eapply ok_step_parked; [exact H1|].
    apply (park_ready c w1); [apply H1|by eapply ok_step_cur|by eapply ok_step_free].
  - destruct (Hc) as [E _]. rewrite E. cbn [Z.eqb]. apply safe_fold, safe_bind.
    eapply safe_mono; [by apply run_next_main|]. intros [st|sw] w' H; cbn in H.
    + by apply ok_step_quiet, H.
    + destruct H as (i & -> & H). exists i. by split_and!.
Qed.

(** ** Join, from main *)

Lemma world_ok_mapped w x : world_ok w → world_ok {| w with w_mapped := x |}.
Proof. by intros [? [] ?]. Qed.

Lemma release_ok i w t :
  world_ok w → rt_threads (w_rt w) !! i = Some t → is_empty t = false →
  returns (gth_thread_release_slot i) w (λ _ w', quiet None w w').
Proof.
  intros Hw Ht He. pose proof (world_runnable_pos w i t Hw Ht) as Hr.
  pose proof (world_blocked_pos w i t Hw Ht) as Hb. unfold gth_thread_release_slot.
  apply returns_bind. eapply returns_thread_at; [exact Ht|].
  apply returns_bind, returns_modify, returns_bind, returns_modify, returns_bind, returns_modify, returns_modify.
  rewrite overwrite_after_free. set (w1 := upd_rt _ w).
  assert (Hfree : ∃ x, gth_stack_free (th_stack t) w1 = {| w1 with w_mapped := x |}).
  { unfold gth_stack_free, munmap. destruct (_ && _); [by eexists|]. exists (w_mapped w1). by destruct w1. }
  destruct Hfree as [x ->].
  pose proof (tbl_release (rt_threads (w_rt w)) i t Ht _ _ _ _ _ (wo_table _ Hw) He) as Htb.
  assert (Hs1 : rt_runnable_threads (w_rt w1) = rt_runnable_threads (w_rt w) - b2z (is_ready t) ∧
    rt_blocked_threads (w_rt w1) = rt_blocked_threads (w_rt w) - b2z (is_blocked t) ∧
    rt_threads (w_rt w1) = rt_threads (w_rt w) ∧ rest_same (w_rt w) (w_rt w1)).
  { unfold w1, is_ready, is_blocked, rest_same in *. cbn in *. destruct (th_state t); cbn in *;
      repeat match goal with |- context [0 <? ?x] => destruct (Z.ltb_spec 0 x); [|lia] end;
      cbn; split_and!; done || lia. }
  destruct Hs1 as (E1 & E2 & E3 & E4 & E5 & E6 & E7 & E8 & E9).
  set (w2 := upd_rt _ {| w1 with w_mapped := x |}).
  assert (Ew2 : w2 = {| w with w_mapped := x; w_rt := upd_thread i (λ _, thread_zero) (w_rt w1) |}) by done.
  clearbody w1 w2. subst w2.
  constructor; [|..|cbn; rewrite E4; lia].
  - apply (world_ok_rt {| w with w_mapped := x |}); [by apply world_ok_mapped| |cbn; rewrite E9; apply Hw].
    unfold table_ok. cbn. by rewrite E1, E2, E3, E4, E5, E6.
  - apply (evolves_alter None _ _ i t (λ _, thread_zero)); try done. cbn. by rewrite E3.
  - by intros _ c u [=].
Qed.

Lemma join_finish_post i w t :
  world_ok w → rt_threads (w_rt w) !! i = Some t → is_empty t = false →
  returns (join_finish i) w (λ r w', ∃ x, r = Return x ∧ quiet None w w').
Proof.
  intros Hw Ht He. unfold join_finish. apply returns_bind.
  eapply returns_thread_at; [exact Ht|]. apply returns_bind.
  eapply returns_mono; [by apply (release_ok i w t)|]. intros [] w' H. by eexists.
Qed.

(** [None] is the caller, and it has no record. *)
Lemma quiet_ok_step w1 w2 w3 : ok_step None w1 w2 → quiet None w2 w3 → quiet None w1 w3.
Proof.
  intros (? & ? & ? & E & ?) []. constructor; auto; [by eapply evolves_trans|]. by rewrite <- E.
Qed.

Lemma run_until_loop_main tid target w :
  world_ok w → cur_ok None (w_rt w) → (target < GTH_MAX_THREADS)%nat →
  safe (fuzz_stuck w) (run_until_loop tid target) w (λ r w',
    match r with
    | inl st => ok_step None w w'
    | inr sw => ∃ i, sw = Swap SchedCtx (ThreadCtx i) (KRunNext 0 (InJoin tid target)) ∧ dispatched i w w'
    end).
Proof.
  intros Hw Hc Hlt. unfold run_until_loop. destruct (lookup_is_some w Hw target Hlt) as [t Ht].
  apply safe_bind, safe_returns. eapply returns_thread_at; [exact Ht|].
  destruct (gth_thread_is_terminal (th_state t)) eqn:Hterm; [by apply ok_step_refl|].
  apply safe_bind. eapply safe_mono; [by apply run_next_main|].
  intros [st|sw] w' H; cbn in H; [|exact H]. destruct H as [_ H]. by destruct st.
Qed.

(** The rest of a join, started by main or continued when main is resumed. *)
Lemma join_loop_post tid target w :
  world_ok w → cur_ok None (w_rt w) → (target < GTH_MAX_THREADS)%nat →
  safe (fuzz_stuck w) (r <- run_until_loop tid target;; join_after_run_until tid r) w (call_post None w).
Proof.
  intros Hw Hc Hlt. apply safe_bind. eapply safe_mono; [by apply run_until_loop_main|].
  intros [st|sw] w' H; cbn in H.
  - unfold join_after_run_until. destruct st; try by apply ok_step_quiet.
    unfold safe. destruct (gth_runtime_find_thread (w_rt w') tid) as [i|] eqn:Hf; [|by apply ok_step_quiet].
    apply find_thread_Some in Hf as (t & Ht & He & _). apply is_empty_false in He.
    apply safe_fold, safe_returns. eapply returns_mono; [eapply join_finish_post; [apply H|done|done]|].
    intros r w2 (x & -> & H2). by eapply quiet_ok_step.
  - destruct H as (i & -> & H). exists i. by split_and!.
Qed.

Lemma call_ok_join tid : call_ok None (gth_thread_join tid).
Proof.
  intros w Hw Hc Hf. unfold gth_thread_join, safe. destruct (negb _) eqn:Hini; [by apply quiet_refl|].
  destruct (Z.eqb_spec tid 0); [by apply quiet_refl|].
  destruct (tid =? _) eqn:Ecur; [by apply quiet_refl|].
  destruct (gth_runtime_find_thread (w_rt w) tid) as [i|] eqn:Hfind; [|by apply quiet_refl].
  assert (Hfind' := Hfind). apply find_thread_Some in Hfind' as (t & Ht & He & _). apply is_empty_false in He.
  apply safe_fold, safe_bind, safe_returns. eapply returns_thread_at; [exact Ht|].
  destruct (negb (gth_thread_is_terminal _)).
  - pose proof (join_loop_post tid i w Hw Hc (lookup_lt_max w Hw i t Ht)) as H.
    unfold safe, bind, gth_scheduler_run_until in H |- *. by rewrite Hini, Ecur, Hfind.
  - apply safe_returns. eapply returns_mono; [by apply (join_finish_post i w t)|].
    intros r w' (x & -> & H). exact H.
Qed.

(** ** The code after a switch point *)

(** A green thread resumes after having been dispatched. *)
Lemma resume_thread_ok c k : thread_frame c k → call_ok (Some c) (resume_frame k).
Proof.
  destruct k as [|m my_slot|m| |]; cbn; intros Hk w Hw Hc Hf; try done.
  - by apply safe_returns, returns_ret, quiet_refl.
  - subst my_slot. by apply call_ok_lock_resume.
  - by apply call_ok_lock.
  - by apply safe_returns, returns_ret, quiet_refl.
Qed.

(** Main resumes when no thread is running, whatever [current_tid] says. *)
Lemma resume_main_ok k w :
  main_frame k → world_ok w →
  (∀ i t, rt_threads (w_rt w) !! i = Some t → th_state t ≠ GTH_THREAD_RUNNING) →
  safe (fuzz_stuck w) (resume_frame k) w (call_post None (gth_scheduler_run_next_resume 0 w)).
Proof.
  intros Hk Hw Hnr. set (w1 := gth_scheduler_run_next_resume 0 w).
  assert (Hw1 : world_ok w1) by (apply world_ok_rt; [done|apply Hw|apply Hw]).
  assert (Hc1 : cur_ok None (w_rt w1)).
  { constructor; [done|]. intros i t Ht Hr. exfalso. by eapply Hnr. }
  destruct k as [| | | |previous_tid [|tid target]]; cbn in Hk; try done.
  - subst previous_tid. cbn. by apply quiet_refl.
  - destruct Hk as [-> Hlt]. cbn [resume_frame]. apply safe_bind. cbn.
    change (fuzz_stuck w) with (fuzz_stuck w1). by apply join_loop_post.
Qed.

(** ** Thread creation *)

Lemma page_size_frame w : returns gth_page_size w (λ _ w', same_but_maps w w').
Proof.
  unfold returns, gth_page_size. destruct (_ =? _); [cbn; destruct (_ <? _)|]; unfold same_but_maps; by destruct w.
Qed.

(** The stack allocator touches nothing but the mappings. *)
Lemma stack_allocate_frame size w :
  returns (gth_stack_allocate size) w (λ _ w', same_but_maps w w').
Proof.
  unfold gth_stack_allocate. apply returns_bind. eapply returns_mono; [apply page_size_frame|].
  intros ps w1 H1. destruct (_ || _); [by apply returns_ret|].
  destruct (_ || _); [by apply returns_ret|]. cbv zeta. destruct (_ <? _); [by apply returns_ret|].
  destruct (_ <? _); [by apply returns_ret|]. apply returns_bind. unfold returns at 1, mmap, next_tick.
  cbn [w_os w_tick]. destruct (os_mmap _ _ _) as [a|]; [|unfold same_but_maps; by rewrite H1].
  apply returns_bind. unfold returns at 1, mprotect, next_tick. cbn [w_os w_tick].
  destruct (os_mprotect _ _); cbn [negb]; [|apply returns_bind, returns_modify]; apply returns_ret;
    unfold same_but_maps; by rewrite H1.
Qed.

Lemma world_ok_maps w w' : same_but_maps w w' → world_ok w → world_ok w'.
Proof. intros -> [? [] ?]. by constructor. Qed.

Lemma tbl_next ts n r b rr ini : tbl ts n r b rr ini → n + 1 < 2 ^ 64 → tbl ts (n + 1) r b rr ini.
Proof.
  intros Htb Hn. pose proof (tb_tid _ _ _ _ _ _ Htb) as Htid. destruct Htb. constructor; auto; try lia.
  intros i t Ht He. specialize (Htid i t Ht He). lia.
Qed.

Lemma alter_const {A} (f : A → A) (i : nat) (l : list A) x :
  l !! i = Some x → f x = x → alter f i l = l.
Proof.
  intros Hi E. apply list_eq. intros j. destruct (decide (j = i)) as [->|Hne].
  - rewrite list_lookup_alter_eq, Hi. cbn. by rewrite E.
  - by rewrite list_lookup_alter_ne.
Qed.

Lemma alter_at {A} (f : A → A) (i : nat) (l : list A) x y :
  l !! i = Some x → f x = y → alter f i l = alter (λ _, y) i l.
Proof.
  intros Hi E. apply list_eq. intros j. destruct (decide (j = i)) as [->|Hne].
  - rewrite !list_lookup_alter_eq, Hi. cbn. by rewrite E.
  - by rewrite !list_lookup_alter_ne.
Qed.

(** A fresh slot [i] filled by [f]. *)
Lemma created_ok cur w i t f s' :
  world_ok w → cur_ok cur (w_rt w) → rt_initialized (w_rt w) = true →
  rt_next_tid (w_rt w) + 1 < 2 ^ 64 →
  rt_threads (w_rt w) !! i = Some t → is_empty t = true →
  th_state (f t) = GTH_THREAD_READY → th_tid (f t) = rt_next_tid (w_rt w) → th_slot_index (f t) = i →
  (∃ top, ctx_resume (th_ctx (f t)) = CtxEntry i top) →
  s' = {| (w_rt w) with rt_threads := alter f i (rt_threads (w_rt w));
          rt_next_tid := rt_next_tid (w_rt w) + 1;
          rt_runnable_threads := rt_runnable_threads (w_rt w) + 1 |} →
  quiet cur w {| w with w_rt := s' |}.
Proof.
  intros Hw Hc Hini Hn Ht He Hst Htid Hslot Hctx ->. constructor; [| | |cbn; lia].
  - apply world_ok_rt; [done| |apply Hw]. unfold table_ok. cbn.
    by apply (tbl_create _ i t f Ht _ _ _ _ _ (wo_table _ Hw)).
  - apply (evolves_alter cur _ _ i t f); auto; cbn.
    + intros _ He'. congruence.
    + intros Hr. congruence.
  - intros Hf c u Ecur. cbn. destruct (decide (c = i)) as [->|Hne].
    + destruct Hc as [Hc _]. rewrite Ecur in Hc. destruct Hc as (t' & Ht' & He' & _). congruence.
    + rewrite list_lookup_alter_ne by done. by apply Hf.
Qed.

Lemma uncreated_ok cur w :
  world_ok w → rt_next_tid (w_rt w) + 1 < 2 ^ 64 →
  quiet cur w (upd_rt (λ s, {| s with rt_next_tid := rt_next_tid s + 1 |}) w).
Proof.
  intros Hw Hn. constructor; [| |done|cbn; lia].
  - apply world_ok_rt; [done| |apply Hw]. apply tbl_next; [apply Hw|done].
  - by apply evolves_same_table.
Qed.

Lemma quiet_maps cur w w1 w2 : same_but_maps w1 w2 → quiet cur w w1 → quiet cur w w2.
Proof.
  intros E []. pose proof (same_but_maps_rt _ _ E) as Ert.
  constructor; rewrite ?Ert; auto. by eapply world_ok_maps.
Qed.

Lemma quiet_then cur w w1 w2 : quiet cur w w1 → ok_step cur w1 w2 → quiet cur w w2.
Proof. intros [] (? & ? & ? & E & ?). constructor; auto; [by eapply evolves_trans|]. by rewrite E. Qed.

(** A thread id is left. *)
Definition tid_room (w : world) : Prop := rt_next_tid (w_rt w) + 1 < 2 ^ 64.

(** The record that [gth_thread_create] fills in, before its stack and context. *)
Definition new_thread (i : nat) (tid : Z) (attr : option gth_thread_attr_t) (fn arg : Z) : gth_thread_record_t :=
  {| thread_zero with th_slot_index := i; th_tid := tid; th_fn := fn; th_arg := arg; th_retval := 0;
     th_state := GTH_THREAD_READY;
     th_priority := match attr with Some a => attr_priority a | None => 0 end |}.

(** The state in which the stack is allocated. *)
Definition creating (i : nat) (t : gth_thread_record_t) (w : world) : world :=
  {| w with w_rt := {| (w_rt w) with rt_threads := alter (λ _, t) i (rt_threads (w_rt w));
                                     rt_next_tid := rt_next_tid (w_rt w) + 1 |} |}.

Section create.
Context (cur : option nat) (w : world) (Hw : world_ok w) (Hc : cur_ok cur (w_rt w)) (Hroom : tid_room w)
  (Hini : rt_initialized (w_rt w) = true) (i : nat) (t : gth_thread_record_t)
  (Ht : rt_threads (w_rt w) !! i = Some thread_zero) (w2 : world)
  (H2 : same_but_maps (creating i t w) w2).

Lemma create_failed :
  quiet cur w (upd_rt (upd_thread i (λ _, thread_zero)) w2).
Proof using All.
  rewrite H2. eapply quiet_maps; [|exact (uncreated_ok cur w Hw Hroom)].
  unfold same_but_maps, upd_rt, upd_thread, creating. cbn.
  by rewrite alter_alter, (alter_const _ _ _ thread_zero) by done.
Qed.

Lemma create_succeeded (f : gth_thread_record_t → gth_thread_record_t) :
  th_state (f t) = GTH_THREAD_READY → th_tid (f t) = rt_next_tid (w_rt w) → th_slot_index (f t) = i →
  (∃ top, ctx_resume (th_ctx (f t)) = CtxEntry i top) →
  quiet cur w (upd_rt (λ s, {| s with rt_runnable_threads := u64 (rt_runnable_threads s + 1) |})
                 (upd_rt (upd_thread i f) w2)).
Proof using All.
  intros E1 E2 E3 E4. rewrite H2. eapply quiet_maps;
    [|exact (created_ok cur w i thread_zero (λ _, f t) _ Hw Hc Hini Hroom Ht eq_refl E1 E2 E3 E4 eq_refl)].
  unfold same_but_maps, upd_rt, upd_thread, creating. cbn.
  rewrite alter_alter, counter_succ by (by apply world_counters). done.
Qed.
End create.

Lemma create_post cur out attr fn arg w :
  world_ok w → cur_ok cur (w_rt w) → tid_room w →
  returns (gth_thread_create out attr fn arg) w (λ _ w', quiet cur w w').
Proof.
  intros Hw Hc Hroom. unfold gth_thread_create, returns.
  destruct (rt_initialized (w_rt w)) eqn:Hini; cbn [negb]; [|by apply quiet_refl].
  destruct (_ || _); [by apply quiet_refl|]. apply returns_fold, returns_bind.
  unfold returns at 1, gth_thread_acquire_slot.
  destruct (gth_runtime_alloc_thread_slot (w_rt w)) as [i|] eqn:Ha; [|by apply returns_ret, quiet_refl].
  apply alloc_slot_Some in Ha as (t & Ht & Hst). apply is_empty_true in Hst.
  assert (t = thread_zero) as -> by (by eapply (tb_empty _ _ _ _ _ _ (wo_table _ Hw))).
  apply returns_bind, returns_gets, returns_bind, returns_modify, returns_bind, returns_modify.
  apply returns_bind, returns_gets, returns_bind.
  set (t := new_thread i (rt_next_tid (w_rt w)) attr fn arg).
  match goal with |- returns (gth_stack_allocate ?sz) ?x _ =>
    assert (E : x = creating i t w);
    [|rewrite E; eapply returns_mono; [apply (stack_allocate_frame sz (creating i t w))|]] end.
  { unfold creating, upd_rt, upd_thread. cbn. rewrite alter_alter.
    rewrite (wrap_small 64); [done|]. unfold fits, tid_room in *.
    pose proof (tb_next _ _ _ _ _ _ (wo_table _ Hw)). lia. }
  intros [st stk] w2 H2. cbn [fst snd] in *.
  pose proof (create_failed cur w Hw Hc Hroom Hini i t Ht w2 H2) as Hbad.
  destruct st; try (by apply returns_bind, returns_modify, returns_ret).
  apply returns_bind, returns_modify, returns_bind, returns_modify, returns_bind, returns_modify, returns_ret.
  unfold gth_trace_thread_create. eapply quiet_then; [|apply record_ok].
  - apply (create_succeeded cur w Hw Hc Hroom Hini i t Ht w2 H2); try done. by eexists.
  - eapply qu_world, (create_succeeded cur w Hw Hc Hroom Hini i t Ht w2 H2); try done. by eexists.
Qed.

Lemma call_ok_create cur out attr fn arg w :
  world_ok w → cur_ok cur (w_rt w) → tid_room w →
  safe (fuzz_stuck w) (r <- gth_thread_create out attr fn arg;; ret (Return r)) w (call_post cur w).
Proof.
  intros Hw Hc Hroom. apply safe_returns, returns_bind.
  eapply returns_mono; [by apply (create_post cur)|]. intros r w' H. exact H.
Qed.

(** ** Tracing, replay, fuzzing and modes *)

(** A state change that only the recorder can see. *)
Definition trace_only (w w' : world) : Prop :=
  untrace w' = untrace w ∧ trace_ok (rt_trace (w_rt w')).

Lemma trace_only_ok cur w w' : world_ok w → trace_only w w' → ok_step cur w w'.
Proof. intros Hw [E Ht]. by apply untrace_ok. Qed.

Lemma trace_init_frame w :
  trace_ok (rt_trace (w_rt w)) → returns gth_trace_init w (λ st w', trace_only w w' ∧
    (rt_initialized (w_rt w) = true → st = GTH_OK ∨ st = GTH_ESTATE → is_Some (rt_trace (w_rt w')))).
Proof.
  intros Ht. unfold gth_trace_init, returns. destruct (rt_initialized (w_rt w)); cbn [negb]; [|by split_and!].
  destruct (rt_trace (w_rt w)) as [tr|] eqn:E.
  { repeat split; [by rewrite E|]. intros _ _. by rewrite E. }
  unfold bind, malloc, next_tick. destruct (os_malloc _ _); cbn [negb].
  - by repeat split.
  - repeat split; [by cbn; rewrite E|]. intros _ [|]; done.
Qed.

Lemma write_header_tick fp w : ∃ st fp' k, gth_trace_write_header fp w = (st, fp', {| w with w_tick := k |}).
Proof. unfold gth_trace_write_header, fwrite, next_tick. destruct (negb _); by eexists _, _, _. Qed.

Lemma trace_only_cleanup w w1 : trace_only w w1 → trace_only w (gth_trace_cleanup w1).
Proof. intros [E Ht]. split; [by rewrite untrace_cleanup|by apply trace_ok_cleanup]. Qed.

Lemma trace_start_frame path w :
  trace_ok (rt_trace (w_rt w)) → returns (gth_trace_start path) w (λ _ w', trace_only w w').
Proof.
  intros Ht. unfold gth_trace_start, returns. destruct (rt_initialized (w_rt w)) eqn:Hini; cbn [negb]; [|done].
  destruct path as [path|]; [|done]. case_bool_decide; [done|]. apply returns_fold, returns_bind.
  eapply returns_mono; [by apply trace_init_frame|]. intros st w1 [[E1 Ht1] Hsome].
  destruct (negb _ && negb _) eqn:Hst; [by apply returns_ret|].
  assert (Hs : is_Some (rt_trace (w_rt w1))).
  { apply Hsome; [done|]. apply andb_false_iff in Hst as [Hst|Hst]; apply negb_false_iff, bool_decide_eq_true in Hst; auto. }
  unfold returns. destruct Hs as [tr Etr]. rewrite Etr. destruct (tr_file tr); [done|].
  unfold next_tick. cbn [w_os w_tick]. destruct (os_fopen _ _); cbn [negb]; last first.
  { apply trace_only_cleanup. by split. }
  match goal with |- context [gth_trace_write_header ?fp ?x] =>
    destruct (write_header_tick fp x) as (st2 & fp2 & k & ->) end.
  destruct (negb (bool_decide (st2 = GTH_OK))); [apply trace_only_cleanup; by split|].
  unfold bind. match goal with |- context [gth_trace_buffer_create ?a ?b ?x] =>
    pose proof (buffer_create_spec x a b ltac:(by vm_compute) ltac:(by vm_compute)) as Hb end.
  unfold returns in Hb. destruct (gth_trace_buffer_create _ _ _) as [[o w2]| |]; [|done..].
  destruct Hb as [Hb [k2 ->]]. destruct o as [b|].
  - destruct Hb as (Hwf & _ & Hrs & _). unfold gth_trace_timestamp, next_tick.
    match goal with |- trace_only w (gth_trace_record _ _ _ _ ?x) => set (w3 := x) end.
    split; [by rewrite untrace_record|]. apply trace_ok_record. cbn. split; [done|]. by rewrite Hrs.
  - apply trace_only_cleanup. by split.
Qed.

Lemma trace_flush_Some w : is_Some (rt_trace (w_rt w)) → is_Some (rt_trace (w_rt (gth_trace_flush w))).
Proof.
  intros [tr E]. unfold gth_trace_flush. rewrite E. destruct (tr_file tr) as [fp|]; [|rewrite ?E; by eexists].
  destruct (tr_buffer tr) as [b|]; [|done]. by destruct (gth_trace_buffer_flush b fp w) as [[[? ?] ?] ?].
Qed.

Lemma trace_record_Some type tid d1 d2 w :
  is_Some (rt_trace (w_rt w)) → is_Some (rt_trace (w_rt (gth_trace_record type tid d1 d2 w))).
Proof.
  intros [tr E]. unfold gth_trace_record, gth_trace_timestamp, next_tick. rewrite E.
  destruct (negb _); [by rewrite E|]. case_bool_decide; [by rewrite E|].
  destruct (tr_buffer tr) as [b|]; [|rewrite ?E; by eexists]. destruct (gth_trace_buffer_append b _) as [[] b1]; [done|].
  set (w1 := gth_trace_flush _).
  assert (H1 : is_Some (rt_trace (w_rt w1))) by (apply trace_flush_Some; rewrite ?E; by eexists).
  destruct (H1) as [tr2 E2]. rewrite E2. destruct (tr_buffer tr2) as [b2|]; [|done].
  by destruct (gth_trace_buffer_append b2 _) as [[] b3].
Qed.

Lemma trace_stop_frame w :
  trace_ok (rt_trace (w_rt w)) → returns gth_trace_stop w (λ _ w', trace_only w w').
Proof.
  intros Ht. unfold gth_trace_stop, returns. destruct (negb _); [done|].
  destruct (rt_trace (w_rt w)) as [tr|] eqn:Etr; [|split; [done|by rewrite Etr]].
  destruct (negb _); [split; [done|by rewrite Etr]|].
  set (w1 := gth_trace_record GTH_EVT_RUNTIME_SHUTDOWN 0 0 0 w). set (w2 := gth_trace_flush w1).
  assert (E2 : untrace w2 = untrace w) by (unfold w2, w1; by rewrite untrace_flush, untrace_record).
  assert (Ht2 : trace_ok (rt_trace (w_rt w2))) by (apply trace_ok_flush, trace_ok_record; by rewrite Etr).
  assert (Hs : is_Some (rt_trace (w_rt w2))) by (apply trace_flush_Some, trace_record_Some; by rewrite Etr).
  clearbody w2. destruct Hs as [tr2 Etr2]. rewrite Etr2 in *. apply trace_only_cleanup.
  split; [|by destruct (tr_file tr2)]. rewrite <- E2. by destruct (tr_file tr2).
Qed.

Lemma keeps_trace_start cur path : keeps cur (gth_trace_start path).
Proof.
  intros w Hw _. eapply returns_mono; [apply trace_start_frame, Hw|]. intros st w' H. by apply trace_only_ok.
Qed.

Lemma keeps_trace_stop cur : keeps cur gth_trace_stop.
Proof.
  intros w Hw _. eapply returns_mono; [apply trace_stop_frame, Hw|]. intros st w' H. by apply trace_only_ok.
Qed.

Lemma keeps_trace_init cur : keeps cur gth_trace_init.
Proof.
  intros w Hw _. eapply returns_mono; [apply trace_init_frame, Hw|]. intros st w' [H _]. by apply trace_only_ok.
Qed.

(** Changes of the fields of the runtime record that the invariant does not mention. *)
Lemma keeps_field cur f :
  (∀ s, ∃ r z m b, f s = {| s with rt_replay := r; rt_fuzz := z; rt_mode := m; rt_trace_enabled := b |}) →
  keeps cur (modify (upd_rt f)).
Proof.
  intros H. apply keeps_modify. intros w Hw _. destruct (H (w_rt w)) as (r & z & m & b & E).
  unfold upd_rt. rewrite E. by apply side_ok; try apply Hw.
Qed.

Lemma tick_ok cur w n : world_ok w → ok_step cur w {| w with w_tick := n |}.
Proof. intros Hw. apply trace_only_ok; [done|]. split; [done|apply Hw]. Qed.

Lemma keeps_malloc cur : keeps cur malloc.
Proof. intros w Hw _. by apply tick_ok. Qed.

Lemma keeps_read_file cur path : keeps cur (gth_replay_read_file path).
Proof.
  intros w Hw Hc. unfold gth_replay_read_file, returns. destruct (w_files w !! path) as [data|]; [|ok_refl].
  destruct (_ <? _); [ok_refl|]. destruct (_ <? _); [ok_refl|]. unfold bind, malloc, next_tick, ret.
  destruct (os_malloc _ _); cbn [negb]; [|by apply tick_ok].
  destruct (os_fread _ _); by apply (tick_ok cur w).
Qed.

Lemma keeps_replay_init cur path : keeps cur (gth_replay_init path).
Proof.
  intros w Hw Hc. unfold gth_replay_init, returns. destruct (negb _); [ok_refl|].
  destruct path as [path|]; [|ok_refl]. case_bool_decide; [ok_refl|].
  destruct (rt_replay (w_rt w)); [ok_refl|]. apply returns_fold.
  match goal with |- returns ?m w _ => assert (Hk : keeps cur m); [|by apply Hk] end.
  apply keeps_bind; [apply keeps_read_file|]. intros [data|]; [|apply keeps_ret].
  cbv zeta. apply keeps_if; [apply keeps_ret|]. apply keeps_bind; [apply keeps_malloc|]. intros ok.
  apply keeps_if; [apply keeps_ret|]. apply keeps_bind; [|intros; apply keeps_ret].
  apply keeps_field. intros s. by eexists _, _, _, _.
Qed.

Lemma keeps_replay_from cur path : keeps cur (gth_replay_from path).
Proof.
  intros w Hw Hc. unfold gth_replay_from, returns. destruct (negb _); [ok_refl|].
  destruct path as [path|]; [|ok_refl]. case_bool_decide; [ok_refl|]. apply returns_fold.
  match goal with |- returns ?m w _ => assert (Hk : keeps cur m); [|by apply Hk] end.
  apply keeps_bind; [apply keeps_replay_init|]. intros st. apply keeps_if; [apply keeps_ret|].
  apply keeps_bind; [|intros; apply keeps_ret]. apply keeps_field. intros s. by eexists _, _, _, _.
Qed.

Lemma keeps_fuzz_init cur seed : keeps cur (gth_fuzz_init seed).
Proof.
  intros w Hw Hc. unfold gth_fuzz_init, returns. destruct (negb _); [ok_refl|].
  destruct (rt_fuzz (w_rt w)); [ok_refl|]. apply returns_fold.
  match goal with |- returns ?m w _ => assert (Hk : keeps cur m); [|by apply Hk] end.
  apply keeps_bind; [apply keeps_malloc|]. intros ok. apply keeps_if; [apply keeps_ret|].
  apply keeps_bind; [|intros; apply keeps_ret]. apply keeps_field. intros s. by eexists _, _, _, _.
Qed.

Lemma keeps_fuzz_set_rate cur rate : keeps cur (gth_fuzz_set_rate rate).
Proof.
  intros w Hw Hc. unfold gth_fuzz_set_rate, returns. destruct (negb _); [ok_refl|].
  destruct (rt_fuzz (w_rt w)); [|ok_refl]. destruct (_ <? _); [ok_refl|].
  by apply side_ok; try apply Hw.
Qed.

Lemma field_ok cur w r z m : world_ok w →
  ok_step cur w {| w with w_rt := {| (w_rt w) with rt_replay := r; rt_fuzz := z; rt_mode := m |} |}.
Proof. intros Hw. by apply side_ok; try apply Hw. Qed.

Lemma leave_mode_ok cur w : world_ok w → ok_step cur w (leave_mode w).
Proof.
  intros Hw. unfold leave_mode.
  set (w1 := match rt_mode (w_rt w), rt_trace (w_rt w) with GTH_MODE_RECORD, Some _ => _ | _, _ => w end).
  assert (H1 : ok_step cur w w1).
  { unfold w1. destruct (rt_mode (w_rt w)); try ok_refl. destruct (rt_trace (w_rt w)); [by apply cleanup_ok|ok_refl]. }
  clearbody w1. set (w2 := match rt_mode (w_rt w1), rt_replay (w_rt w1) with GTH_MODE_REPLAY, Some _ => _ | _, _ => w1 end).
  assert (H2 : ok_step cur w w2).
  { unfold w2. destruct (rt_mode (w_rt w1)); try done. destruct (rt_replay (w_rt w1)); [|done].
    eapply ok_step_trans; [exact H1|]. by apply field_ok, H1. }
  clearbody w2. destruct (rt_mode (w_rt w2)); try done. destruct (rt_fuzz (w_rt w2)); [|done].
  eapply ok_step_trans; [exact H2|]. by apply field_ok, H2.
Qed.

Lemma keeps_set_mode_field cur m : keeps cur (modify (set_mode m)).
Proof. apply keeps_field. intros s. by eexists _, _, _, _. Qed.

Lemma keeps_set_mode cur mode : keeps cur (gth_scheduler_set_mode mode).
Proof.
  intros w Hw Hc. unfold gth_scheduler_set_mode, returns. destruct (negb _); [ok_refl|].
  set (w1 := set_mode mode (leave_mode w)).
  assert (H1 : ok_step cur w w1).
  { eapply ok_step_trans; [by apply leave_mode_ok|]. by apply field_ok, (leave_mode_ok cur). }
  assert (Hrun : ∀ m : M gth_status_t, keeps cur m → returns m w1 (λ _ w', ok_step cur w w')).
  { intros m Hm. eapply returns_mono; [apply Hm; [apply H1|by eapply ok_step_cur]|].
    intros st w' H. by eapply ok_step_trans. }
  clearbody w1. destruct mode; try exact H1; apply returns_fold, Hrun.
  - apply keeps_bind; [apply keeps_trace_init|]. intros st. apply keeps_if; [|apply keeps_ret].
    apply keeps_bind; [apply keeps_set_mode_field|]. intros _. apply keeps_ret.
  - apply keeps_bind; [apply keeps_fuzz_init|]. intros st. apply keeps_if; [|apply keeps_ret].
    apply keeps_bind; [apply keeps_set_mode_field|]. intros _. apply keeps_ret.
Qed.

(** ** Initialisation and shutdown *)

Lemma fresh_table n ini :
  0 ≤ n < 2 ^ 64 → (ini = true → 1 ≤ n) →
  ∀ rr, (rr < GTH_MAX_THREADS)%nat → tbl (replicate GTH_MAX_THREADS thread_zero) n 0 0 rr ini.
Proof.
  intros Hn Hini rr Hrr.
  assert (Hz : ∀ i t, replicate GTH_MAX_THREADS thread_zero !! i = Some t → t = thread_zero)
    by (intros i t [-> _]%lookup_replicate_1; done).
  constructor; auto.
  - intros i t Ht%Hz. by subst.
  - intros i t Ht%Hz. by subst.
  - intros i j t u Ht%Hz _. by subst.
  - intros i t Ht%Hz. by subst.
  - intros _ i t Ht%Hz. by subst.
Qed.

Lemma call_ok_init cur config : call_ok cur (returning (gth_runtime_init config)).
Proof.
  intros w Hw Hc Hf. apply safe_returns, returns_bind. unfold gth_runtime_init, returns.
  destruct config as [c|]; [|by apply quiet_refl]. destruct (negb _); [by apply quiet_refl|].
  destruct (rt_initialized (w_rt w)) eqn:Hini; [by apply quiet_refl|].
  destruct cur as [c0|]; [by destruct (find_current w Hw c0 Hc) as (_ & _ & ?); congruence|].
  destruct Hc as [Hcur _].
  assert (Hz : ∀ i t, replicate GTH_MAX_THREADS thread_zero !! i = Some t → t = thread_zero)
    by (intros i t [-> _]%lookup_replicate_1; done).
  constructor; [|constructor; try done|by intros _ ? ? [=]|cbn; lia].
  - apply world_ok_rt; [done| |done]. apply fresh_table; cbn; [lia|lia|]. unfold GTH_MAX_THREADS. lia.
  - intros j t' Ht%Hz. by subst.
  - intros j t' Ht%Hz. by subst.
Qed.

Lemma free_stacks_frame ts : ∀ i w, ∃ x s, free_stacks i ts w = {| w with w_mapped := x; w_rt := s |}.
Proof.
  induction ts as [|t ts IH]; intros i w; [exists (w_mapped w), (w_rt w); by destruct w|].
  cbn [free_stacks]. edestruct IH as (x & s & ->). exists x, s.
  unfold gth_stack_free, munmap. by destruct (_ && _).
Qed.

Lemma call_ok_shutdown : call_ok None (returning gth_runtime_shutdown).
Proof.
  intros w Hw [Hcur _] Hf. apply safe_returns, returns_bind. unfold gth_runtime_shutdown, returns.
  destruct (negb _); [by apply quiet_refl|].
  set (w1 := match rt_trace (w_rt w) with Some _ => gth_trace_cleanup w | None => w end).
  assert (H1 : ok_step None w w1) by (unfold w1; destruct (rt_trace (w_rt w)); [by apply cleanup_ok|ok_refl]).
  clearbody w1. set (w2 := match rt_replay (w_rt w1) with Some _ => gth_replay_cleanup w1 | None => w1 end).
  assert (H2 : world_ok w2) by (unfold w2; destruct (rt_replay (w_rt w1)); [by apply (field_ok None), H1|apply H1]).
  clearbody w2. set (w3 := match rt_fuzz (w_rt w2) with Some _ => gth_fuzz_cleanup w2 | None => w2 end).
  assert (H3 : world_ok w3) by (unfold w3; destruct (rt_fuzz (w_rt w2)); [by apply (field_ok None)|done]).
  clearbody w3. destruct (free_stacks_frame (rt_threads (w_rt w3)) 0 w3) as (x & s & ->).
  assert (Hz : ∀ i t, replicate GTH_MAX_THREADS thread_zero !! i = Some t → t = thread_zero)
    by (intros i t [-> _]%lookup_replicate_1; done).
  pose proof (tb_next _ _ _ _ _ _ (wo_table _ Hw)).
  constructor; [|constructor; try done|by intros _ ? ? [=]|cbn; lia].
  - apply (world_ok_rt {| w3 with w_mapped := x |}); [by apply world_ok_mapped| |done].
    apply fresh_table; cbn; [lia|done|unfold GTH_MAX_THREADS; lia].
  - intros j t' Ht%Hz. by subst.
  - intros j t' Ht%Hz. by subst.
Qed.

(** ** The end of a thread *)

(** Thread [c] has finished: the table is consistent, no thread is running, and
    the other threads are untouched. *)
Record exited (c : nat) (w w' : world) : Prop := {
  ex_world : world_ok w';
  ex_current : rt_current_tid (w_rt w') = 0;
  ex_sched : rt_scheduler_ctx (w_rt w') = rt_scheduler_ctx (w_rt w);
  ex_next : rt_next_tid (w_rt w') = rt_next_tid (w_rt w);
  ex_other : ∀ j t, rt_threads (w_rt w') !! j = Some t → counted t = true →
    j ≠ c ∧ rt_threads (w_rt w) !! j = Some t;
  ex_running : ∀ j t, rt_threads (w_rt w') !! j = Some t → th_state t ≠ GTH_THREAD_RUNNING
}.

(** The record of a thread function that has returned [res]. *)
Definition finished (res : Z) (t : gth_thread_record_t) : gth_thread_record_t :=
  match th_state t with
  | GTH_THREAD_CANCELED => {| t with th_retval := 0 |}
  | _ => {| t with th_retval := res; th_state := GTH_THREAD_DONE |}
  end.

Lemma trampoline_exit_eq c res w t :
  rt_threads (w_rt w) !! c = Some t →
  trampoline_exit c res w =
  Done (tt, upd_rt (λ s, {| s with rt_current_tid := 0 |})
             (gth_trace_thread_exit (th_tid t) (th_retval (finished res t))
               (upd_rt (upd_thread c (λ _, finished res t)) w))).
Proof.
  intros Ht. unfold trampoline_exit, bind, thread_at, deref, modify, finished. rewrite Ht. cbn -[gth_trace_thread_exit].
  destruct (th_state t) eqn:Est; unfold upd_rt, upd_thread; cbn -[gth_trace_thread_exit];
    rewrite list_lookup_alter_eq, Ht; cbn -[gth_trace_thread_exit];
    match goal with |- context [alter ?f c _] => rewrite (alter_at f c _ t _ Ht eq_refl) end; cbn beta; rewrite ?Est; done.
Qed.

Lemma trampoline_exit_ok c res w :
  world_ok w → cur_ok (Some c) (w_rt w) → cur_free (Some c) (w_rt w) →
  returns (trampoline_exit c res) w (λ _ w', exited c w w').
Proof.
  intros Hw Hc Hf. destruct (cur_thread c w Hc Hf) as (t & Ht & He & Hr & Hb & _).
  unfold returns. rewrite (trampoline_exit_eq c res w t Ht).
  assert (Hfin : is_empty (finished res t) = false ∧ counted (finished res t) = false ∧
    is_ready (finished res t) = false ∧ is_blocked (finished res t) = false ∧
    th_tid (finished res t) = th_tid t ∧ th_slot_index (finished res t) = th_slot_index t ∧
    th_state (finished res t) ≠ GTH_THREAD_RUNNING).
  { unfold finished, counted, is_ready, is_blocked, is_empty in *. by destruct (th_state t) eqn:E; cbn; rewrite ?E. }
  destruct Hfin as (Hfe & Hfc & Hfr & Hfb & Hft & Hfs & Hfn).
  set (w1 := upd_rt _ w).
  assert (H1 : ok_step (Some c) w w1).
  { apply (change_calm (Some c) w Hw c t (λ _, finished res t)); auto; cbn; try congruence;
      try (rewrite Hr, Hfr; cbn; lia); try (rewrite Hb, Hfb; cbn; lia). done. }
  unfold gth_trace_thread_exit. set (w2 := gth_trace_record _ _ _ _ w1).
  assert (H2 : ok_step (Some c) w1 w2) by (unfold w2; apply record_ok, H1).
  assert (Hts : rt_threads (w_rt w2) = rt_threads (w_rt w1)) by (unfold w2; apply ut_threads, untrace_record).
  assert (Hlook : ∀ j u, rt_threads (w_rt w2) !! j = Some u →
    (j = c ∧ u = finished res t) ∨ (j ≠ c ∧ rt_threads (w_rt w) !! j = Some u)).
  { intros j u. rewrite Hts. intros Hu.
    apply lookup_alter_cases in Hu as [(-> & y & Hy & ->)|[Hne Hu]]; auto. }
  clearbody w2. pose proof (ok_step_trans _ _ _ _ H1 H2) as (Hw2 & Hev & _ & Hn & _).
  constructor; cbn; auto.
  - apply world_ok_rt; [done|apply Hw2|apply Hw2].
  - by apply (ev_sched _ _ _ Hev).
  - intros j u Hu Hcu. destruct (Hlook j u Hu) as [[-> ->]|]; [congruence|done].
  - intros j u Hu Hru. destruct (Hlook j u Hu) as [[-> ->]|[Hne Hu']]; [done|].
    destruct Hc as [_ Hrun]. specialize (Hrun j u Hu' Hru). congruence.
Qed.

(** ** Every public function *)

(** The calls a green thread may make: all but joining and shutting down. *)
Definition thread_safe (a : api) : bool :=
  match a with AJoin _ | AShutdown => false | _ => true end.

Lemma call_ok_stats cur (f : world → resp) : call_ok cur (r <- gets f;; ret (Return r)).
Proof. apply keeps_returns_ok, keeps_gets. Qed.

Lemma api_ok cur a w :
  world_ok w → cur_ok cur (w_rt w) → cur_free cur (w_rt w) → tid_room w →
  (cur ≠ None → thread_safe a = true) → safe (fuzz_stuck w) (api_call a) w (call_post cur w).
Proof.
  intros Hw Hc Hf Hroom Hsafe.
  assert (Hkeeps : ∀ m, keeps cur m → safe (fuzz_stuck w) (returning m) w (call_post cur w))
    by (intros m Hm; by apply keeps_call_ok).
  destruct a; cbn [api_call]; try (by apply call_ok_stats).
  all: try (apply Hkeeps;
    first [apply keeps_mutex_init|apply keeps_trylock|apply keeps_unlock|apply keeps_mutex_destroy
          |apply keeps_sem_init|apply keeps_sem_post|apply keeps_sem_destroy|apply keeps_cond_init
          |apply keeps_signal|apply keeps_broadcast|apply keeps_cond_destroy|apply keeps_cancel
          |apply keeps_trace_start|apply keeps_trace_stop|apply keeps_replay_from
          |apply keeps_fuzz_set_rate|apply keeps_set_mode]).
  - by apply call_ok_init.
  - destruct cur; [by specialize (Hsafe ltac:(done))|by apply call_ok_shutdown].
  - by apply call_ok_create.
  - by apply call_ok_yield.
  - destruct cur; [by specialize (Hsafe ltac:(done))|by apply call_ok_join].
  - by apply call_ok_lock.
  - by apply call_ok_sem_wait.
  - by apply call_ok_cond_wait.
Qed.
