(* ===== verification/Safety.v ===== *)
(** * The runtime as a whole is safe

    The machine of [Machine] never reaches undefined behaviour, whatever the
    user program does with the public functions, as long as its green threads
    do not call [gth_thread_join] or [gth_runtime_shutdown]: no use of a
    released stack, no jump to a context that was never saved or was saved by
    a stack that has moved on, no index outside the thread table.  The
    invariant [mach_ok] says which context each suspended stack can be
    continued from. *)

From S2P Require Import Prelude WaitQueue TraceFormat State Stack TraceBuffer Trace Runtime Replay.
From S2P Require Import Fuzz Sched Thread Mutex Sem Cond Lifecycle Machine Scripts Invariant Ops Switching.

(** ** The saving half of a switch *)

Definition with_resume (p : ctx_point) (t : gth_thread_record_t) : gth_thread_record_t :=
  {| t with th_ctx := {| (th_ctx t) with ctx_resume := p |} |}.

Lemma world_ok_save_sched p w : world_ok w → world_ok (upd_rt (save_ctx SchedCtx p) w).
Proof. intros Hw. apply world_ok_rt; [done|apply Hw|apply Hw]. Qed.

Lemma world_ok_save_thread i t p w :
  world_ok w → rt_threads (w_rt w) !! i = Some t → is_empty t = false →
  world_ok (upd_rt (save_ctx (ThreadCtx i) p) w).
Proof.
  intros Hw Ht He. apply world_ok_rt; [done| |apply Hw]. unfold table_ok. cbn.
  pose proof (tbl_alter _ i t (with_resume p) Ht _ _ _ _ _ (wo_table _ Hw) He He eq_refl eq_refl) as H.
  rewrite !Z.sub_add in H. exact H.
Qed.

(** ** Programs *)

(** The states a green thread's function goes through. *)
Inductive thread_state (P : program) : p_state P → Prop :=
| ts_start mem fn arg : thread_state P (snd (p_start P mem fn arg))
| ts_feed mem u r : thread_state P u → thread_state P (snd (p_feed P mem u r)).

(** Green threads neither join nor shut the runtime down. *)
Definition disciplined (P : program) : Prop := ∀ u a,
  thread_state P u → p_next P u = ACall a → thread_safe a = true.

(** ** The invariant *)

Section invariant.
Context (P : program) (HP : disciplined P).

(** The stack of the suspended thread in slot [j] can be continued. *)
Definition slot_saved (m : machine P) (j : nat) (t : gth_thread_record_t) : Prop :=
  (∃ top, ctx_resume (th_ctx t) = CtxEntry j top) ∨
  (∃ n k u, ctx_resume (th_ctx t) = CtxSaved (Thr j) n ∧
     m_ctl P m (Thr j) = Some (mk_ctl P (th_tid t) (Suspended P n k u)) ∧
     thread_frame j k ∧ thread_state P u).

(** Main can be continued. *)
Definition main_saved (m : machine P) : Prop := ∃ n k u,
  ctx_resume (rt_scheduler_ctx (w_rt (m_world P m))) = CtxSaved Main n ∧
  m_ctl P m Main = Some (mk_ctl P 0 (Suspended P n k u)) ∧ main_frame k.

(** What the executing stack is doing. *)
Definition executing (m : machine P) : Prop :=
  let s := w_rt (m_world P m) in
  match m_run P m with
  | Main => ∃ mode, m_ctl P m Main = Some (mk_ctl P 0 mode) ∧
      match mode with
      | User _ _ => cur_ok None s
      | Resuming _ k _ => main_frame k ∧ none_running s
      | Suspended _ _ _ _ => False
      end
  | Thr c => cur_ok (Some c) s ∧ cur_free (Some c) s ∧ main_saved m ∧
      ∃ mode, m_ctl P m (Thr c) = Some (mk_ctl P (rt_current_tid s) mode) ∧
      match mode with
      | User _ u => thread_state P u
      | Resuming _ k u => thread_frame c k ∧ thread_state P u
      | Suspended _ _ _ _ => False
      end
  end.

Record mach_ok (m : machine P) : Prop := {
  mo_world : world_ok (m_world P m);
  mo_executing : executing m;
  mo_saved : ∀ j t, rt_threads (w_rt (m_world P m)) !! j = Some t → counted t = true →
    m_run P m ≠ Thr j → slot_saved m j t
}.

(** The slot of the executing stack. *)
Definition cur_of (o : owner) : option nat := match o with Main => None | Thr c => Some c end.

(** Steps of the machine: never a fault, and the fuel runs out only in fuzz
    mode. *)
Definition step_ok (m : machine P) (r : step_result P) : Prop :=
  match r with
  | Next _ m' => mach_ok m' ∧
      rt_next_tid (w_rt (m_world P m')) ≤ Z.max 1 (rt_next_tid (w_rt (m_world P m)) + 1)
  | Exit _ _ => True
  | Fault _ => False
  | Hang _ => fuzz_stuck (m_world P m)
  end.

(** A suspended thread stays continuable while the others run. *)
Lemma saved_evolves cur m m' :
  evolves cur (w_rt (m_world P m)) (w_rt (m_world P m')) →
  (∀ j t, rt_threads (w_rt (m_world P m)) !! j = Some t → counted t = true → cur ≠ Some j →
    slot_saved m j t) →
  (∀ j, cur ≠ Some j → m_ctl P m' (Thr j) = m_ctl P m (Thr j)) →
  ∀ j t, rt_threads (w_rt (m_world P m')) !! j = Some t → counted t = true → cur ≠ Some j →
    slot_saved m' j t.
Proof using Type.
  intros Hev Hs Hctl j t Ht Hc Hne.
  destruct (ev_other _ _ _ Hev j t Ht Hc Hne) as [(t0 & Ht0 & Hc0 & Etid & Ectx & _)|Hentry]; [|by left].
  destruct (Hs j t0 Ht0 Hc0 Hne) as [Hentry|(n & k & u & E1 & E2 & Hk & Hu)].
  - left. by rewrite Ectx.
  - right. exists n, k, u. by rewrite Ectx, Etid, Hctl.
Qed.

Lemma insert_ctl_ne (m : owner → option (ctl P)) o x o' : o ≠ o' → <[o := x]> m o' = m o'.
Proof using Type. apply fn_lookup_insert_ne. Qed.

(** ** Jumps *)

Definition jumped (m : machine P) (r : step_result P) : Prop :=
  match r with Next _ m' => mach_ok m' ∧ m_world P m' = m_world P m | _ => False end.

Lemma jump_main m :
  world_ok (m_world P m) → main_saved m → none_running (w_rt (m_world P m)) →
  (∀ j t, rt_threads (w_rt (m_world P m)) !! j = Some t → counted t = true → slot_saved m j t) →
  jumped m (jump_to P SchedCtx m).
Proof using Type.
  intros Hw (n & k & u & E1 & E2 & Hk) Hnr Hs. unfold jump_to. cbn. rewrite E1, E2.
  rewrite decide_True by done. split; [|done]. constructor; [done| |].
  - cbn. eexists. rewrite fn_lookup_insert. by split.
  - cbn. intros j t Ht Hc _. destruct (Hs j t Ht Hc) as [|(n' & k' & u' & H)]; [by left|right].
    exists n', k', u'. cbn. by rewrite insert_ctl_ne.
Qed.

Lemma jump_thread i t m :
  world_ok (m_world P m) → main_saved m → rt_threads (w_rt (m_world P m)) !! i = Some t →
  th_state t = GTH_THREAD_RUNNING → cur_ok (Some i) (w_rt (m_world P m)) → slot_saved m i t →
  (∀ j u, rt_threads (w_rt (m_world P m)) !! j = Some u → counted u = true → j ≠ i → slot_saved m j u) →
  jumped m (jump_to P (ThreadCtx i) m).
Proof using Type.
  intros Hw Hmain Ht Hrun Hc Hsi Hs.
  assert (Etid : th_tid t = rt_current_tid (w_rt (m_world P m))).
  { destruct (co_current _ _ Hc) as (t' & Ht' & _ & E). congruence. }
  assert (Hgo : ∀ mem mode, match mode with
      | User _ u => thread_state P u
      | Resuming _ k u => thread_frame i k ∧ thread_state P u
      | Suspended _ _ _ _ => False end →
    mach_ok {| m with m_run := Thr i; m_mem := mem; m_ctl := <[Thr i := Some (mk_ctl P (th_tid t) mode)]> (m_ctl P m) |}).
  { intros mem mode Hmode. constructor; [done| |].
    - cbn. split_and!; [done| | |].
      + intros c u [= <-] Hu. assert (u = t) as -> by congruence.
        unfold counted, is_ready, is_blocked. by rewrite Hrun.
      + destruct Hmain as (n & k & u & H). exists n, k, u. cbn. by rewrite insert_ctl_ne.
      + exists mode. by rewrite fn_lookup_insert, Etid.
    - cbn. intros j u Hu Hcu Hne. assert (j ≠ i) by congruence.
      destruct (Hs j u Hu Hcu) as [|(n' & k' & u' & Hx)]; [done|by left|right].
      exists n', k', u'. cbn. rewrite insert_ctl_ne; [done|]. congruence. }
  unfold jump_to. cbn. rewrite Ht. cbn.
  destruct Hsi as [[top ->]|(n & k & u & -> & -> & Hk & Hu)].
  - rewrite Ht. split; [|done]. by apply Hgo, ts_start.
  - rewrite decide_True by done. split; [|done]. by apply Hgo.
Qed.

(** ** Calls *)

(** The outcome of library code that satisfies the contract of [Switching]. *)
Definition out_ok (cur : option nat) (F : Prop) (w : world) (r : outcome (result * world)) : Prop :=
  match r with Done (a, w') => call_post cur w a w' | Undef => False | NoFuel => F end.

(** The threads other than [c], whose record and stack the step changes. *)
Lemma others_saved m m' c w' :
  evolves (Some c) (w_rt (m_world P m)) (w_rt w') →
  (∀ j t, rt_threads (w_rt (m_world P m)) !! j = Some t → counted t = true → Thr c ≠ Thr j →
    slot_saved m j t) →
  (∀ j, c ≠ j → m_ctl P m' (Thr j) = m_ctl P m (Thr j)) →
  ∀ j t, rt_threads (w_rt w') !! j = Some t → counted t = true → c ≠ j → slot_saved m' j t.
Proof using Type.
  intros Hev Hs Hctl j t Ht Hct Hne.
  apply (saved_evolves (Some c) m {| m' with m_world := w' |} Hev); cbn; try congruence.
  - intros j' t' ? ? Hne'. apply Hs; auto. congruence.
  - intros j' Hne'. apply Hctl. congruence.
Qed.

Lemma main_saved_evolves m m' c :
  main_saved m → evolves (Some c) (w_rt (m_world P m)) (w_rt (m_world P m')) →
  m_ctl P m' Main = m_ctl P m Main → main_saved m'.
Proof using Type.
  intros (n & k & u & E1 & E2 & Hk) Hev Hctl. exists n, k, u.
  rewrite Hctl. by rewrite (ev_sched _ _ _ Hev).
Qed.

Section thread.
Context (m : machine P) (c : nat) (u : p_state P) (Hm : mach_ok m) (Hrun : m_run P m = Thr c)
  (Hu : thread_state P u).

Lemma thread_parts : cur_ok (Some c) (w_rt (m_world P m)) ∧ cur_free (Some c) (w_rt (m_world P m)) ∧ main_saved m ∧
  ∀ j t, rt_threads (w_rt (m_world P m)) !! j = Some t → counted t = true → Thr c ≠ Thr j → slot_saved m j t.
Proof using Hm Hrun.
  destruct Hm as [_ Hex Hs]. unfold executing in Hex. rewrite Hrun in *.
  by destruct Hex as (? & ? & ? & _).
Qed.

Lemma after_return_thread x w' :
  quiet (Some c) (m_world P m) w' → step_ok m (after_call P m (Thr c) (rt_current_tid (w_rt (m_world P m))) u (Done (Return x, w'))).
Proof using Hm Hrun Hu.
  intros [Hw' Hev Hfree Hn]. destruct thread_parts as (Hc & Hf & Hmain & Hs).
  cbn. split; [|done]. constructor; [done| |].
  - unfold executing. cbn. rewrite Hrun. split_and!.
    + by eapply cur_ok_evolves.
    + by apply Hfree.
    + eapply main_saved_evolves; [done|done|]. by apply insert_ctl_ne.
    + eexists. rewrite fn_lookup_insert, (ev_current _ _ _ Hev). split; [done|]. by constructor.
  - cbn [m_run m_world]. rewrite Hrun. intros j t Ht Hct Hne.
    eapply (others_saved m _ c w'); try done; [|congruence].
    intros j' Hne'. apply insert_ctl_ne. congruence.
Qed.

Lemma after_switch_thread k w' :
  thread_frame c k → parked c (m_world P m) w' →
  step_ok m (after_call P m (Thr c) (rt_current_tid (w_rt (m_world P m))) u (Done (Swap (ThreadCtx c) SchedCtx k, w'))).
Proof using Hm Hrun Hu.
  intros Hk [Hw' Hev Hn Hst]. destruct thread_parts as (Hc & Hf & Hmain & Hs).
  destruct (co_current _ _ Hc) as (t0 & Ht0 & He0 & Etid).
  destruct (ev_cur _ _ _ Hev c t0 eq_refl Ht0 He0) as (t1 & Ht1 & He1 & Etid1).
  cbn [after_call]. match goal with |- step_ok m (jump_to _ _ ?x) => set (m1 := x) end.
  assert (Hm1 : ∀ j t, rt_threads (w_rt (m_world P m1)) !! j = Some t →
    (j = c ∧ t = with_resume (CtxSaved (Thr c) (m_serial P m)) t1) ∨
    (c ≠ j ∧ rt_threads (w_rt w') !! j = Some t)).
  { intros j t Ht. apply lookup_alter_cases in Ht as [(-> & y & Hy & ->)|[]]; [left|by right].
    by assert (y = t1) as -> by congruence. }
  assert (Hj : jumped m1 (jump_to P SchedCtx m1)).
  { apply jump_main.
    - by apply (world_ok_save_thread c t1).
    - eapply (main_saved_evolves m {| m1 with m_world := w' |}); [done|done|]. by apply insert_ctl_ne.
    - intros j t Ht Hrt. destruct (Hm1 j t Ht) as [[-> ->]|[Hne Ht']]; [by eapply Hst|].
      pose proof (co_running _ _ (cur_ok_evolves _ _ _ Hc Hev) j t Ht' Hrt). congruence.
    - intros j t Ht Hct. destruct (Hm1 j t Ht) as [[-> ->]|[Hne Ht']].
      + right. exists (m_serial P m), k, u. cbn. rewrite fn_lookup_insert. split_and!; try done.
        by rewrite Etid1, Etid.
      + eapply (others_saved m _ c w'); try done. intros j' Hne'. apply insert_ctl_ne. congruence. }
  unfold jumped in Hj. destruct (jump_to P SchedCtx m1) as [m2| | |]; try done.
  destruct Hj as [Hj E]. split; [done|]. rewrite E. cbn. lia.
Qed.

Lemma after_call_thread r :
  out_ok (Some c) (fuzz_stuck (m_world P m)) (m_world P m) r → step_ok m (after_call P m (Thr c) (rt_current_tid (w_rt (m_world P m))) u r).
Proof using Hm Hrun Hu.
  intros Hr. destruct r as [[[x|from to k] w']| |]; cbn in Hr; [by apply after_return_thread| |done|done].
  destruct Hr as (-> & -> & Hk & Hp). by apply after_switch_thread.
Qed.

(** The thread function returns. *)
Lemma after_exit w' :
  exited c (m_world P m) w' →
  step_ok m (jump_to P SchedCtx {| m with m_world := w'; m_ctl := <[Thr c := None]> (m_ctl P m) |}).
Proof using Hm Hrun.
  intros [Hw' Hcur Hsch Hn Hoth Hnr]. destruct thread_parts as (Hc & Hf & Hmain & Hs).
  set (m1 := {| m with m_world := w'; m_ctl := _ |}).
  assert (Hj : jumped m1 (jump_to P SchedCtx m1)).
  { apply jump_main; [done| |done|].
    - destruct Hmain as (n & k & u' & E1 & E2 & Hk). exists n, k, u'. cbn.
      rewrite insert_ctl_ne by done. by rewrite Hsch.
    - cbn. intros j t Ht Hct. destruct (Hoth j t Ht Hct) as [Hne Ht'].
      destruct (Hs j t Ht' Hct ltac:(congruence)) as [|(n & k & u' & H)]; [by left|right].
      exists n, k, u'. cbn. by rewrite insert_ctl_ne by congruence. }
  unfold jumped in Hj. destruct (jump_to P SchedCtx m1) as [m2| | |]; try done.
  destruct Hj as [Hj E]. split; [done|]. rewrite E. cbn. lia.
Qed.
End thread.

(** Main is executing; [w1] is its world once [current_tid] has been reset. *)
Section main.
Context (m : machine P) (w1 : world) (u : p_state P) (Hw : world_ok (m_world P m))
  (Hrun : m_run P m = Main) (Hc : cur_ok None (w_rt w1))
  (Hs : ∀ j t, rt_threads (w_rt (m_world P m)) !! j = Some t → counted t = true → slot_saved m j t)
  (Hw1 : rt_threads (w_rt w1) = rt_threads (w_rt (m_world P m)))
  (Hn1 : rt_next_tid (w_rt w1) = rt_next_tid (w_rt (m_world P m))).

Lemma after_return_main x w' :
  quiet None w1 w' → step_ok m (after_call P m Main 0 u (Done (Return x, w'))).
Proof using Hw Hrun Hc Hs Hw1 Hn1.
  intros [Hw' Hev _ Hn]. cbn. split; [|cbn; by rewrite <- Hn1]. constructor; [done| |].
  - unfold executing. cbn. rewrite Hrun. eexists. rewrite fn_lookup_insert. split; [done|].
    by eapply cur_ok_evolves.
  - cbn [m_run m_world]. intros j t Ht Hct _.
    eapply (saved_evolves None {| m with m_world := w1 |}); cbn; try done.
    intros j' t' Ht' Hct' _. rewrite Hw1 in Ht'. by apply Hs.
Qed.

Lemma after_switch_main i k w' :
  main_frame k → dispatched i w1 w' →
  step_ok m (after_call P m Main 0 u (Done (Swap SchedCtx (ThreadCtx i) k, w'))).
Proof using Hw Hrun Hc Hs Hw1 Hn1.
  intros Hk [Hw' (t & Ht & Hr & Hcur) Hts Hn]. rewrite Hw1 in *.
  assert (Hct : counted t = true) by (unfold counted; by rewrite Hr).
  cbn [after_call]. match goal with |- step_ok m (jump_to _ _ ?x) => set (m1 := x) end.
  assert (Hm1 : rt_threads (w_rt (m_world P m1)) = alter (set_state GTH_THREAD_RUNNING) i
            (rt_threads (w_rt (m_world P m)))) by (cbn; by rewrite Hts).
  assert (Hi : rt_threads (w_rt (m_world P m1)) !! i = Some (set_state GTH_THREAD_RUNNING t))
    by (by rewrite Hm1, list_lookup_alter_eq, Ht).
  assert (Hsaved : ∀ j x y, slot_saved m j x → th_ctx y = th_ctx x → th_tid y = th_tid x → slot_saved m1 j y).
  { intros j x y [|(n & k' & u' & H)] E1 E2; [left|right; exists n, k', u']; rewrite E1; [done|].
    cbn. by rewrite insert_ctl_ne, E2. }
  assert (Hj : jumped m1 (jump_to P (ThreadCtx i) m1)).
  { eapply jump_thread; [by apply world_ok_save_sched| |exact Hi|done| | |].
    - exists (m_serial P m), k, u. cbn. by rewrite fn_lookup_insert.
    - constructor; [exists (set_state GTH_THREAD_RUNNING t); by split_and!|].
      intros j x. rewrite Hm1. intros Hx Hrx.
      apply lookup_alter_cases in Hx as [(-> & y & Hy & ->)|[Hne Hx]]; [done|].
      pose proof (co_running _ _ Hc j x) as H. rewrite Hw1 in H. by specialize (H Hx Hrx).
    - by apply (Hsaved i t); [apply Hs|..].
    - intros j x. rewrite Hm1. intros Hx Hcx Hne. rewrite list_lookup_alter_ne in Hx by done.
      by apply (Hsaved j x); [apply Hs|..]. }
  unfold jumped in Hj. destruct (jump_to P (ThreadCtx i) m1) as [m2| | |]; try done.
  destruct Hj as [Hj E]. split; [done|]. rewrite E. cbn. lia.
Qed.

Lemma after_call_main r :
  out_ok None (fuzz_stuck (m_world P m)) w1 r → step_ok m (after_call P m Main 0 u r).
Proof using Hw Hrun Hc Hs Hw1 Hn1.
  intros Hr. destruct r as [[[x|from to k] w']| |]; cbn in Hr; [by apply after_return_main| |done|done].
  destruct Hr as (i & -> & -> & Hk & Hd). by apply after_switch_main.
Qed.
End main.

(** ** One step *)

(** A green thread's next call, if one is next, is neither a join nor a shutdown. *)
Definition safe_now (m : machine P) : bool :=
  match m_run P m, m_ctl P m (m_run P m) with
  | Thr _, Some (mk_ctl _ _ (User _ u)) => match p_next P u with ACall a => thread_safe a | AReturn _ => true end
  | _, _ => true
  end.

Lemma safe_step_preserves m : mach_ok m → tid_room (m_world P m) → safe_now m = true → step_ok m (step P m).
Proof using Type.
  intros Hm Hroom Hsafe. pose proof Hm as [Hw Hex Hs]. unfold step. unfold executing in Hex.
  destruct (m_run P m) as [|c] eqn:Hrun.
  - destruct Hex as (mode & -> & Hmode). cbn [stack_alive negb]. cbv iota.
    assert (Hs' : ∀ j t, rt_threads (w_rt (m_world P m)) !! j = Some t → counted t = true → slot_saved m j t)
      by (intros; by apply Hs).
    destruct mode as [u|k u|]; [|destruct Hmode as [Hk Hnr]|done].
    + destruct (p_next P u) as [v|a]; [done|]. apply (after_call_main m (m_world P m)); try done.
      apply (api_ok None a (m_world P m)); done.
    + apply (after_call_main m (gth_scheduler_run_next_resume 0 (m_world P m))); try done.
      * constructor; [done|]. intros i t Ht Hr. exfalso. by eapply Hnr.
      * apply (resume_main_ok k (m_world P m) Hk Hw Hnr).
  - destruct Hex as (Hc & Hf & Hmain & mode & Ectl & Hmode). unfold safe_now in Hsafe. rewrite Hrun, Ectl in Hsafe. rewrite Ectl.
    assert (stack_alive (m_world P m) (Thr c) (rt_current_tid (w_rt (m_world P m))) = true) as ->.
    { destruct (co_current _ _ Hc) as (t & Ht & He & E). cbn. rewrite Ht, He, E. cbn. apply Z.eqb_refl. }
    cbn [negb]. destruct mode as [u|k u|]; [|destruct Hmode as [Hk Hu]|done].
    + destruct (p_next P u) as [v|a] eqn:Hnext.
      * pose proof (trampoline_exit_ok c v _ Hw Hc Hf) as Hx. unfold returns in Hx.
        destruct (trampoline_exit c v (m_world P m)) as [[[] w']| |]; [|done|done]. by apply after_exit.
      * apply after_call_thread; try done.
        by apply (api_ok (Some c) a (m_world P m)).
    + apply after_call_thread; try done. by apply (resume_thread_ok c k Hk).
Qed.

Lemma step_preserves m : mach_ok m → tid_room (m_world P m) → step_ok m (step P m).
Proof using HP.
  intros Hm Hroom. apply safe_step_preserves; [done..|]. pose proof (mo_executing _ Hm) as Hex. unfold executing, safe_now in *.
  destruct (m_run P m) as [|c]; [done|]. destruct Hex as (_ & _ & _ & mode & -> & Hmode). destruct mode as [u| |]; try done.
  destruct (p_next P u) eqn:E; [done|]. by eapply HP.
Qed.

(** ** Runs *)

Lemma boot_ok os fuel : mach_ok (boot P os fuel).
Proof using Type.
  assert (Hz : ∀ i t, replicate GTH_MAX_THREADS thread_zero !! i = Some t → t = thread_zero)
    by (intros i t [-> _]%lookup_replicate_1; done).
  constructor.
  - constructor; [apply fresh_table; cbn; [lia|done|unfold GTH_MAX_THREADS; lia]|constructor|done];
      intros x; unfold mutex_at, sem_at, cond_at; cbn; by rewrite lookup_empty.
  - exists (User P (snd (p_boot P))). split; [done|]. constructor; [done|]. intros i t Ht%Hz. by subst.
  - intros j t Ht%Hz. by subst.
Qed.

Lemma run_preserves n : ∀ m b,
  mach_ok m → rt_next_tid (w_rt (m_world P m)) ≤ b → 0 < b → b + Z.of_nat n < 2 ^ 64 - 1 →
  match run P n m with
  | Next _ m' => mach_ok m' ∧ rt_next_tid (w_rt (m_world P m')) ≤ b + Z.of_nat n
  | Exit _ _ => True
  | Fault _ => False
  | Hang _ => ∃ k m', (k < n)%nat ∧ run P k m = Next P m' ∧ step P m' = Hang P ∧ fuzz_stuck (m_world P m')
  end.
Proof using HP.
  induction n as [|n IH]; intros m b Hm Hb Hpos Hlt; [split; [done|lia]|]. cbn [run].
  pose proof (step_preserves m Hm) as H. unfold tid_room in H. specialize (H ltac:(lia)).
  destruct (step P m) as [m1| | |] eqn:E; [|done|done|].
  - destruct H as [Hm1 Hb1]. specialize (IH m1 (b + 1) Hm1 ltac:(lia) ltac:(lia) ltac:(lia)).
    destruct (run P n m1); [destruct IH; split; [done|lia]|done..|]. destruct IH as (k & m' & Hk & Er & Hz).
    exists (S k), m'. cbn [run]. rewrite E. split_and!; [lia|done|apply Hz..].
  - exists O, m. split_and!; [lia|done|done|done].
Qed.
End invariant.

Lemma run_snoc P n : ∀ m m',
  run P (S n) m = Next P m' → ∃ m1, run P n m = Next P m1 ∧ step P m1 = Next P m'.
Proof.
  induction n as [|n IH]; intros m m' E.
  - exists m. split; [done|]. cbn in E. by destruct (step P m).
  - cbn [run] in E |- *. destruct (step P m) as [m0| | |]; try done. by apply IH.
Qed.

Lemma reachable_ok P os fuel n m :
  disciplined P → Z.of_nat n < 2 ^ 64 - 2 → run P n (boot P os fuel) = Next P m → mach_ok P m.
Proof.
  intros HP Hn E. pose proof (run_preserves P HP n (boot P os fuel) 1 (boot_ok P os fuel)) as H.
  rewrite E in H. apply H; cbn; lia.
Qed.

Lemma run_no_fault P os fuel n :
  disciplined P → Z.of_nat n < 2 ^ 64 - 2 → run P n (boot P os fuel) ≠ Fault P.
Proof.
  intros HP Hn E. pose proof (run_preserves P HP n (boot P os fuel) 1 (boot_ok P os fuel)) as H.
  rewrite E in H. apply H; cbn; lia.
Qed.

(** Thread ids do not run out: each step uses up at most one. *)
Lemma reachable_room P os fuel n m :
  disciplined P → Z.of_nat n < 2 ^ 64 - 2 → run P n (boot P os fuel) = Next P m → tid_room (m_world P m).
Proof.
  intros HP Hn E. pose proof (run_preserves P HP n (boot P os fuel) 1 (boot_ok P os fuel)) as H.
  rewrite E in H. destruct H as [_ H]; [cbn; lia..|]. unfold tid_room. lia.
Qed.

(** What a call made from user code may rely on. *)
Lemma user_call_ok P m u :
  mach_ok P m → (∃ tid, m_ctl P m (m_run P m) = Some (mk_ctl P tid (User P u))) →
  world_ok (m_world P m) ∧ cur_ok (cur_of (m_run P m)) (w_rt (m_world P m)) ∧
  cur_free (cur_of (m_run P m)) (w_rt (m_world P m)).
Proof.
  intros [Hw Hex _] [tid Hctl]. split; [done|]. unfold executing in Hex. destruct (m_run P m) as [|c]; cbn.
  - destruct Hex as (mode & Hm & Hmode). rewrite Hctl in Hm. simplify_eq. by split; [|intros ? ? [=]].
  - by destruct Hex as (? & ? & _).
Qed.

(** ** The theorems *)

(** C1. Whatever the user program does with the public functions, and whatever
    the operating system answers, an execution of fewer than 2^64 - 2 steps
    never reaches undefined behaviour, provided the functions of green threads
    do not call [gth_thread_join] or [gth_runtime_shutdown]: every library call
    stays inside its arrays, every context switch jumps to a stack that is
    allocated and was suspended by the switch whose registers are loaded, and
    no thread executes on a released stack. *)
Theorem no_undefined_behaviour P os fuel n :
  disciplined P → Z.of_nat n < 2 ^ 64 - 2 → run P n (boot P os fuel) ≠ Fault P.
Proof. apply run_no_fault. Qed.

(** C11. In every state such an execution reaches, the counters of the runtime
    are exact ([runnable_threads] is the number of READY records and
    [blocked_threads] the number of BLOCKED ones), live thread ids are distinct
    and below [next_tid], a RUNNING record belongs to the executing stack, and
    an executing green thread is the one [current_tid] names, with a live
    record. *)
Theorem reachable_consistent P os fuel n m :
  disciplined P → Z.of_nat n < 2 ^ 64 - 2 → run P n (boot P os fuel) = Next P m →
  let s := w_rt (m_world P m) in
  rt_runnable_threads s = countb is_ready (rt_threads s) ∧
  rt_blocked_threads s = countb is_blocked (rt_threads s) ∧
  (∀ i t, rt_threads s !! i = Some t → is_empty t = false → 1 ≤ th_tid t < rt_next_tid s) ∧
  (∀ i j t u, rt_threads s !! i = Some t → rt_threads s !! j = Some u → is_empty t = false →
     is_empty u = false → th_tid t = th_tid u → i = j) ∧
  (∀ i t, rt_threads s !! i = Some t → th_state t = GTH_THREAD_RUNNING → m_run P m = Thr i) ∧
  (∀ c, m_run P m = Thr c → ∃ t, rt_threads s !! c = Some t ∧ is_empty t = false ∧
     th_tid t = rt_current_tid s).
Proof.
  intros HP Hn E s. destruct (reachable_ok P os fuel n m HP Hn E) as [Hw Hex _].
  destruct (wo_table _ Hw) as [H1 H2 H3 H4 H5 H6 H7 H8 H9 H10 H11]. fold s in H1, H2, H3, H4, H5, H6, H7.
  unfold executing in Hex. fold s in Hex. split_and!; try done; destruct (m_run P m) as [|c0].
  - intros i t Ht Hr. destruct Hex as (mode & _ & Hmode). destruct mode; [|destruct Hmode as [_ Hnr]|done].
    + by pose proof (co_running _ _ Hmode i t Ht Hr).
    + by pose proof (Hnr i t Ht).
  - intros i t Ht Hr. destruct Hex as (Hc & _). pose proof (co_running _ _ Hc i t Ht Hr). congruence.
  - done.
  - intros c [= <-]. destruct Hex as ([Hc _] & _). exact Hc.
Qed.

(** ** The environment *)

(** The operating system and the bound on rejection sampling are no state of
    the program: nothing writes them. *)
Definition env (w : world) : OS * nat := (w_os w, w_fuel w).

Definition same_env {A} (m : M A) : Prop := ∀ w,
  match m w with Done (_, w') => env w' = env w | _ => True end.

Section env.
Lemma env_bind {A B} (m : M A) (k : A → M B) : same_env m → (∀ a, same_env (k a)) → same_env (bind m k).
Proof using.
  intros Hm Hk w. specialize (Hm w). unfold bind. destruct (m w) as [[a w1]| |]; [|done..].
  specialize (Hk a w1). destruct (k a w1) as [[b w2]| |]; [congruence|done..].
Qed.
Lemma env_upd_rt f w : env (upd_rt f w) = env w.
Proof using. done. Qed.
Lemma env_untrace w w' : untrace w' = untrace w → env w' = env w.
Proof using. intros E. unfold env. by rewrite (ut_os _ _ E), (ut_fuel _ _ E). Qed.
Lemma env_record type tid d1 d2 w : env (gth_trace_record type tid d1 d2 w) = env w.
Proof using. apply env_untrace, untrace_record. Qed.
Lemma env_cleanup w : env (gth_trace_cleanup w) = env w.
Proof using. apply env_untrace, untrace_cleanup. Qed.
Lemma env_flush w : env (gth_trace_flush w) = env w.
Proof using. apply env_untrace, untrace_flush. Qed.
Lemma env_modify f : (∀ w, env (f w) = env w) → same_env (modify f).
Proof using. intros H w. apply H. Qed.
Lemma env_at {A} (m : M A) w w1 : env w1 = env w → same_env m →
  match m w1 with Done (_, w') => env w' = env w | _ => True end.
Proof using. intros E H. specialize (H w1). destruct (m w1) as [[a w2]| |]; [congruence|done..]. Qed.
Lemma env_thread_at i : same_env (thread_at i).
Proof using. intros w. unfold thread_at, deref. by destruct (rt_threads (w_rt w) !! i). Qed.
Lemma env_deref {A} (o : option A) : same_env (deref o).
Proof using. intros w. by destruct o. Qed.
Lemma env_stack_free stk w : env (gth_stack_free stk w) = env w.
Proof using. unfold gth_stack_free, munmap. by destruct (_ && _). Qed.
Lemma env_slot_index : same_env gth_thread_current_slot_index.
Proof using.
  intros w. unfold gth_thread_current_slot_index. destruct (_ =? _); [done|]. destruct (gth_runtime_find_thread _ _); [|done].
  apply (env_at _ w w); [done|]. apply env_bind; [apply env_thread_at|done].
Qed.
End env.

Ltac env_world := intros; autounfold with keeps; repeat first
  [ reflexivity | rewrite env_upd_rt | rewrite env_record | rewrite env_cleanup | rewrite env_flush
  | rewrite env_stack_free | case_match ].
Ltac env_step := lazymatch goal with
  | |- same_env (bind _ _) => apply env_bind; [|intros ?]
  | |- same_env (ret _) => done
  | |- same_env (ret_status _) => done
  | |- same_env (gets _) => done
  | |- same_env (λ _, NoFuel) => done
  | |- same_env (thread_at _) => apply env_thread_at
  | |- same_env (deref _) => apply env_deref
  | |- same_env gth_thread_current_slot_index => apply env_slot_index
  | |- same_env (modify _) => apply env_modify; env_world
  | |- same_env (if ?b then _ else _) => destruct b
  | |- same_env (match ?x with _ => _ end) => destruct x
  | |- match (if ?b then _ else _) _ with _ => _ end => destruct b
  | |- match (match ?x with _ => _ end) _ with _ => _ end => destruct x
  | |- match (if ?b then _ else _) with _ => _ end => destruct b
  | |- match (match ?x with _ => _ end) with _ => _ end => destruct x
  | |- env _ = env _ => env_world
  | |- match Done _ with _ => _ end => cbv iota beta; env_world
  | |- match ?m ?w1 with _ => _ end => apply (env_at m _ w1); [env_world|]
  end.
Create HintDb env.
Ltac env_tac := cbv zeta; repeat env_step; auto with env.

Section env_calls.
Lemma env_block : same_env gth_thread_block.
Proof using. intros w. unfold gth_thread_block. env_tac. Qed.
#[local] Hint Resolve env_block : env.
Lemma env_unblock i : same_env (gth_thread_unblock_slot i).
Proof using. intros w. unfold gth_thread_unblock_slot. env_tac. Qed.
#[local] Hint Resolve env_unblock : env.
Lemma env_lock_acquire m : same_env (lock_acquire m).
Proof using. unfold lock_acquire. env_tac. Qed.
#[local] Hint Resolve env_lock_acquire : env.
Lemma env_lock_wait n m k : same_env (lock_wait n m k).
Proof using.
  induction n as [|n IH]; [done|]. cbn [lock_wait]. unfold mutex_enqueue. env_tac.
Qed.
#[local] Hint Resolve env_lock_wait : env.
Lemma env_lock m : same_env (gth_mutex_lock m).
Proof using. unfold gth_mutex_lock, mutex_enqueue. env_tac. Qed.
#[local] Hint Resolve env_lock : env.
Lemma env_unlock m : same_env (gth_mutex_unlock m).
Proof using. unfold gth_mutex_unlock. env_tac. Qed.
#[local] Hint Resolve env_unlock : env.
Lemma env_broadcast_loop n : ∀ c k, same_env (broadcast_loop n c k).
Proof using. induction n as [|n IH]; intros c k; cbn [broadcast_loop]; env_tac. Qed.
#[local] Hint Resolve env_broadcast_loop : env.
Lemma env_pick : same_env gth_scheduler_pick_ready_thread_mode.
Proof using.
  assert (H : same_env pick_normal_or_fuzzed).
  { intros w. unfold pick_normal_or_fuzzed. destruct (gth_scheduler_pick_ready_thread _) as [o s]. cbn zeta.
    destruct (rt_mode s); try done. destruct (rt_fuzz s); [|done]. by destruct (gth_fuzz_pick_thread _ _ _ _) as [[? ?]| |]. }
  intros w. unfold gth_scheduler_pick_ready_thread_mode. destruct (rt_mode (w_rt w)); try apply H.
  destruct (rt_replay (w_rt w)); [|apply H]. by destruct (gth_replay_next_thread _ _).
Qed.
#[local] Hint Resolve env_pick : env.
Lemma env_run_next k : same_env (gth_scheduler_run_next k).
Proof using.
  intros w. unfold gth_scheduler_run_next. env_tac. intros w1. env_tac.
Qed.
#[local] Hint Resolve env_run_next : env.
Lemma env_run_until_loop tid i : same_env (run_until_loop tid i).
Proof using. unfold run_until_loop. env_tac. Qed.
#[local] Hint Resolve env_run_until_loop : env.
Lemma env_join_finish i : same_env (join_finish i).
Proof using. unfold join_finish, gth_thread_release_slot. env_tac. Qed.
#[local] Hint Resolve env_join_finish : env.
Lemma env_join_after tid r : same_env (join_after_run_until tid r).
Proof using. intros w. unfold join_after_run_until. env_tac. Qed.
#[local] Hint Resolve env_join_after : env.
Lemma env_join tid : same_env (gth_thread_join tid).
Proof using.
  intros w. unfold gth_thread_join. env_tac.
  intros w1. unfold gth_scheduler_run_until. env_tac.
Qed.
#[local] Hint Resolve env_join : env.
Lemma env_yield : same_env gth_thread_yield.
Proof using. intros w. unfold gth_thread_yield. env_tac. Qed.
#[local] Hint Resolve env_yield : env.
Lemma env_create out attr fn arg : same_env (gth_thread_create out attr fn arg).
Proof using.
  intros w. unfold gth_thread_create, gth_thread_acquire_slot. env_tac.
  - intros w1. env_tac.
  - intros w1. pose proof (stack_allocate_frame a2 w1) as H. unfold returns in H.
    destruct (gth_stack_allocate a2 w1) as [[r w2]| |]; [|done..]. by rewrite H.
Qed.
#[local] Hint Resolve env_create : env.
Lemma env_cancel tid : same_env (gth_thread_cancel tid).
Proof using. intros w. unfold gth_thread_cancel, gth_runtime_set_thread_state. env_tac. Qed.
#[local] Hint Resolve env_cancel : env.
Lemma env_trace_init : same_env gth_trace_init.
Proof using. intros w. unfold gth_trace_init. env_tac. done. Qed.
#[local] Hint Resolve env_trace_init : env.
Lemma env_trace_start path : same_env (gth_trace_start path).
Proof using.
  intros w. unfold gth_trace_start. env_tac. intros w1. destruct (rt_trace (w_rt w1)) as [tr|]; [|done].
  destruct (tr_file tr); [done|]. unfold next_tick. cbn beta iota. destruct (negb _); [env_tac|].
  match goal with |- context [gth_trace_write_header ?fp ?x] =>
    destruct (write_header_tick fp x) as (st2 & fp2 & k & ->) end.
  destruct (negb _); [cbn beta iota; by rewrite env_cleanup|]. unfold bind.
  match goal with |- context [gth_trace_buffer_create ?a ?b ?x] =>
    pose proof (buffer_create_spec x a b ltac:(by vm_compute) ltac:(by vm_compute)) as Hb end.
  unfold returns in Hb. destruct (gth_trace_buffer_create _ _ _) as [[o w2]| |]; [|done..].
  destruct Hb as [_ [k2 ->]]. destruct o as [b|]; [|by rewrite env_cleanup].
  unfold gth_trace_timestamp, next_tick. by rewrite env_record.
Qed.
Lemma env_trace_stop : same_env gth_trace_stop.
Proof using.
  intros w. unfold gth_trace_stop. destruct (negb _); [done|]. destruct (rt_trace (w_rt w)); [|done].
  destruct (negb _); [done|]. destruct (rt_trace (w_rt (gth_trace_flush _))) as [tr|]; [|done].
  rewrite env_cleanup. transitivity (env (gth_trace_flush (gth_trace_record GTH_EVT_RUNTIME_SHUTDOWN 0 0 0 w)));
    [by destruct (tr_file tr)|by rewrite env_flush, env_record].
Qed.
Lemma env_fuzz_init seed : same_env (gth_fuzz_init seed).
Proof using. intros w. unfold gth_fuzz_init. env_tac. done. Qed.
#[local] Hint Resolve env_trace_start env_trace_stop env_fuzz_init : env.
Lemma env_replay_from path : same_env (gth_replay_from path).
Proof using.
  assert (Hinit : ∀ path, same_env (gth_replay_init path)).
  { intros p w. unfold gth_replay_init. env_tac; [|done]. intros w1. unfold gth_replay_read_file.
    destruct (w_files w1 !! _); [|done]. env_tac; [done|]. intros w2. unfold next_tick. env_tac. }
  intros w. unfold gth_replay_from. env_tac.
Qed.
#[local] Hint Resolve env_replay_from : env.
Lemma env_leave_mode w : env (leave_mode w) = env w.
Proof using.
  unfold leave_mode. set (w1 := match rt_mode (w_rt w), rt_trace (w_rt w) with GTH_MODE_RECORD, Some _ => _ | _, _ => w end).
  transitivity (env w1); [repeat case_match; done|]. unfold w1. env_world.
Qed.
Lemma env_set_mode mode : same_env (gth_scheduler_set_mode mode).
Proof using.
  intros w. unfold gth_scheduler_set_mode. destruct (negb _); [done|]. cbv zeta.
  assert (E : env (set_mode mode (leave_mode w)) = env w) by apply env_leave_mode.
  destruct mode; try exact E; (apply env_at; [exact E|env_tac]).
Qed.
Lemma env_shutdown : same_env gth_runtime_shutdown.
Proof using.
  intros w. unfold gth_runtime_shutdown. destruct (negb _); [done|]. cbv zeta.
  match goal with |- context [free_stacks ?i ?ts ?x] => destruct (free_stacks_frame ts i x) as (y & s & ->) end.
  set (w1 := match rt_trace (w_rt w) with Some _ => gth_trace_cleanup w | None => w end).
  transitivity (env w1); [cbn; repeat case_match; done|]. unfold w1. env_world.
Qed.
#[local] Hint Resolve env_set_mode env_shutdown : env.

Lemma env_mark_blocked i : same_env (mark_blocked i).
Proof using. unfold mark_blocked. env_tac. Qed.
Lemma env_undo c i : same_env (cond_wait_undo c i).
Proof using. unfold cond_wait_undo. env_tac. Qed.
#[local] Hint Resolve env_mark_blocked env_undo : env.

Lemma env_call a : same_env (api_call a).
Proof using.
  destruct a; cbn [api_call returning]; unfold returning;
    unfold gth_mutex_init, gth_mutex_trylock, gth_mutex_destroy, gth_sem_init, gth_sem_wait, gth_sem_post,
      gth_sem_destroy, gth_cond_init, gth_cond_wait, gth_cond_signal, gth_cond_broadcast, gth_cond_destroy;
    env_tac; intros w.
  - unfold gth_runtime_init. env_tac.
  - unfold gth_fuzz_set_rate. env_tac.
Qed.

Lemma env_resume k : same_env (resume_frame k).
Proof using.
  destruct k as [|m i|m| |prev [|tid i]]; cbn [resume_frame]; unfold gth_mutex_lock_resume, gth_cond_wait_resume; env_tac.
Qed.

Lemma env_exit c v : same_env (trampoline_exit c v).
Proof using. unfold trampoline_exit. env_tac. Qed.

Lemma jump_env P r m m' : jump_to P r m = Next P m' → env (m_world P m') = env (m_world P m).
Proof using. unfold jump_to. intros E. repeat case_match; simplify_eq; done. Qed.

Lemma after_call_env P m o tid u (c : M result) m' : same_env c →
  after_call P m o tid u (c (m_world P m)) = Next P m' → env (m_world P m') = env (m_world P m).
Proof using.
  intros H E. specialize (H (m_world P m)). unfold after_call in E.
  destruct (c (m_world P m)) as [[[x|from to k] w']| |]; [|apply jump_env in E|done..].
  - by injection E as <-.
  - rewrite E. by cbn.
Qed.

Lemma step_env P m m' : step P m = Next P m' → env (m_world P m') = env (m_world P m).
Proof using.
  unfold step. destruct (m_ctl P m (m_run P m)) as [[tid mode]|]; [|done]. destruct (negb _); [done|].
  destruct mode as [u|k u|]; [|by apply after_call_env, env_resume|done].
  destruct (p_next P u) as [v|a]; [|by apply after_call_env, env_call].
  destruct (m_run P m) as [|c]; [done|]. pose proof (env_exit c v (m_world P m)) as H.
  destruct (trampoline_exit c v (m_world P m)) as [[[] w']| |]; [|done..]. intros E%jump_env. by rewrite E.
Qed.

Lemma run_env P n : ∀ m m', run P n m = Next P m' → env (m_world P m') = env (m_world P m).
Proof using.
  induction n as [|n IH]; intros m m' E; cbn [run] in E; [by injection E as <-|].
  destruct (step P m) as [m1| | |] eqn:Es; try done. rewrite (IH _ _ E). by apply step_env.
Qed.
End env_calls.

(** C23. Such an execution always makes progress, but for the rejection loop of
    the fuzzer's random numbers, which has no bound in C.  If a step does not
    return when the loop is given [fuel] draws, then in the state before that
    step the scheduler is in fuzz mode with at least two ready threads, and the
    generator's next [fuel] draws (those after the draw that decided to perturb)
    are all rejected. *)
Theorem hang_only_in_fuzz_mode P os fuel n :
  disciplined P → Z.of_nat n < 2 ^ 64 - 2 → run P n (boot P os fuel) = Hang P →
  ∃ k m f, (k < n)%nat ∧ run P k (boot P os fuel) = Next P m ∧ step P m = Hang P ∧
    let s := w_rt (m_world P m) in
    let ready := gth_fuzz_count_ready_threads s in
    rt_mode s = GTH_MODE_FUZZ ∧ rt_fuzz s = Some f ∧ 2 ≤ ready ≤ Z.of_nat GTH_MAX_THREADS ∧
    ∀ j, (j < fuel)%nat → ready ≤ masked_draw (range_mask ready) j (snd (gth_fuzz_should_perturb f)).
Proof.
  intros HP Hn E. pose proof (run_preserves P HP n (boot P os fuel) 1 (boot_ok P os fuel)) as H.
  rewrite E in H. destruct H as (k & m & Hk & Er & Es & Hmode & Hready & f & Hf & _ & Hloop); [cbn; lia..|].
  exists k, m, f. split_and!; try done; try lia. pose proof (f_equal snd (run_env _ _ _ _ Er)) as Efuel. cbn in Efuel. rewrite Efuel in Hloop.
  unfold gth_fuzz_random_range in Hloop. destruct (Z.eqb_spec (gth_fuzz_count_ready_threads (w_rt (m_world P m))) 0); [lia|].
  pose proof (rejection_loop_spec fuel (range_mask (gth_fuzz_count_ready_threads (w_rt (m_world P m))))
    (gth_fuzz_count_ready_threads (w_rt (m_world P m))) (snd (gth_fuzz_should_perturb f))) as H.
  by rewrite Hloop in H.
Qed.

(** ** Witnesses *)

Lemma script_disciplined main threads :
  (∀ fn, forallb thread_safe (threads fn) = true) → disciplined (script_program main threads).
Proof.
  intros Hall u a Hu. assert (Hsafe : forallb thread_safe (fst u) = true).
  { induction Hu as [mem fn arg|mem [us rs] r Hu IH]; cbn in *; [apply Hall|].
    destruct us; cbn in *; [done|]. by apply andb_true_iff in IH as [_ ?]. }
  cbn. destruct (fst u) as [|x us]; [done|]. intros [= ->]. cbn in Hsafe.
  by apply andb_true_iff in Hsafe as [? _].
Qed.

(** Two threads that hand a mutex over while main waits for both. *)
Definition handoff_main : list api :=
  [AInit (Some demo_config); AMutexInit 5; ACreate true None 1 0; ACreate true None 2 0; AJoin 1; AJoin 2].
Definition handoff_threads (fn : Z) : list api :=
  if fn =? 1 then [ALock 5; AYield; AUnlock 5] else [ALock 5; AUnlock 5; ACancel 1].
Definition handoff : program := script_program handoff_main handoff_threads.

Lemma handoff_disciplined : disciplined handoff.
Proof. apply script_disciplined. intros fn. unfold handoff_threads. by destruct (fn =? 1). Qed.

Lemma no_undefined_behaviour_witness :
  run handoff 40 (boot handoff sunny_os 0) ≠ Fault handoff.
Proof. apply (no_undefined_behaviour handoff sunny_os 0 40); [apply handoff_disciplined|cbn; lia]. Defined.

Definition is_next {P} (r : step_result P) : bool := match r with Next _ _ => true | _ => false end.
Definition is_hang {P} (r : step_result P) : bool := match r with Hang _ => true | _ => false end.

Lemma is_next_true {P} (r : step_result P) : is_next r = true → ∃ m, r = Next P m.
Proof. destruct r; eauto; done. Qed.
Lemma is_hang_true {P} (r : step_result P) : is_hang r = true → r = Hang P.
Proof. by destruct r. Qed.

Lemma reachable_consistent_witness : ∃ m,
  run handoff 12 (boot handoff sunny_os 0) = Next handoff m ∧
  rt_runnable_threads (w_rt (m_world handoff m)) = countb is_ready (rt_threads (w_rt (m_world handoff m))).
Proof.
  destruct (is_next_true (run handoff 12 (boot handoff sunny_os 0))) as [m Hm]; [by vm_compute|].
  exists m. split; [exact Hm|].
  apply (reachable_consistent handoff sunny_os 0 12 m); [apply handoff_disciplined|cbn; lia|exact Hm].
Defined.

(** The stack that executes user code after a run. *)
Definition user_owner {P} (r : step_result P) : option owner :=
  match r with
  | Next _ m => match m_ctl P m (m_run P m) with
                | Some (mk_ctl _ _ (User _ _)) => Some (m_run P m)
                | _ => None
                end
  | _ => None
  end.

Lemma user_owner_ok P os fuel n o :
  disciplined P → Z.of_nat n < 2 ^ 64 - 2 → user_owner (run P n (boot P os fuel)) = Some o →
  ∃ m, run P n (boot P os fuel) = Next P m ∧ m_run P m = o ∧ world_ok (m_world P m) ∧
    cur_ok (cur_of o) (w_rt (m_world P m)) ∧ cur_free (cur_of o) (w_rt (m_world P m)).
Proof.
  intros HP Hn. unfold user_owner. destruct (run P n (boot P os fuel)) as [m| | |] eqn:E; try done.
  destruct (m_ctl P m (m_run P m)) as [[tid [u|k u|]]|] eqn:Ectl; try done. intros [= <-].
  exists m. split_and!; try done; apply (user_call_ok P m u); eauto using reachable_ok.
Qed.

(** A fuzzed run in which the rejection loop is given one draw only. *)
Definition fuzzed : program := script_program
  ([AInit (Some demo_config); ASetMode GTH_MODE_FUZZ; AFuzzSetRate 100; ACreate true None 1 0;
   ACreate true None 2 0; ACreate true None 3 0] ++ replicate 12 AYield) (λ _, replicate 12 AYield).

Lemma hang_only_in_fuzz_mode_witness : ∃ k m, (k < 60)%nat ∧
  run fuzzed k (boot fuzzed sunny_os 1) = Next fuzzed m ∧ step fuzzed m = Hang fuzzed ∧
  rt_mode (w_rt (m_world fuzzed m)) = GTH_MODE_FUZZ.
Proof.
  destruct (hang_only_in_fuzz_mode fuzzed sunny_os 1 60) as (k & m & f & H1 & H2 & H3 & H4 & _).
  - by apply script_disciplined.
  - cbn. lia.
  - apply is_hang_true. by vm_compute.
  - exists k, m. split; [exact H1|]. split; [exact H2|]. split; [exact H3|exact H4].
Defined.
