(* ===== verification/SyncSpec.v ===== *)
(** * What mutexes, semaphores and condition variables promise

    [Module Sync] is an abstract model of the synchronisation objects: owners,
    counts and FIFO lists of waiting slots, with the thread states they change.
    The theorems show that the code of src/src/sync/ (the ring buffers, the
    records it updates and the counters it keeps) computes exactly this
    model, answers and error codes included. *)

From S2P Require Import Prelude WaitQueue TraceFormat State Stack TraceBuffer Trace Runtime Replay.
From S2P Require Import Fuzz Sched Thread Mutex Sem Cond Lifecycle Machine Scripts Invariant Ops Switching Safety.

Module Sync.

(** A dead object is one that is not initialised. *)
Record amutex := mk_amutex { am_live : bool; am_owner : option Z; am_waiters : list Z }.
Record asem := mk_asem { as_live : bool; as_count : Z; as_waiters : list Z }.
Record acond := mk_acond { ac_live : bool; ac_waiters : list Z }.

Record astate := mk_astate {
  a_threads : list gth_thread_state_t;
  a_mutex : Z → amutex;
  a_sem : Z → asem;
  a_cond : Z → acond
}.

(** An operation answers, or parks its caller at a switch point. *)
Inductive verdict := Answer (st : gth_status_t) | Park (k : frame).

(** The executing thread: its id, and its slot unless it is main. *)
Record caller := mk_caller { cl_self : Z; cl_slot : option nat }.

Definition capacity : nat := 52.

Definition set_m (m : Z) (x : amutex) (a : astate) : astate := {| a with a_mutex := <[m := x]> (a_mutex a) |}.
Definition set_s (s : Z) (x : asem) (a : astate) : astate := {| a with a_sem := <[s := x]> (a_sem a) |}.
Definition set_c (c : Z) (x : acond) (a : astate) : astate := {| a with a_cond := <[c := x]> (a_cond a) |}.

Definition set_thread (i : nat) (st : gth_thread_state_t) (a : astate) : astate :=
  {| a with a_threads := alter (λ _, st) i (a_threads a) |}.

(** A waiter that is still blocked becomes ready. *)
Definition wake (slot : Z) (a : astate) : astate :=
  {| a with a_threads :=
     alter (λ s, if is_blocked_st s then GTH_THREAD_READY else s) (Z.to_nat slot) (a_threads a) |}.

(** ** Mutexes *)

Definition m_init (m : Z) (a : astate) : verdict * astate :=
  if m =? 0 then (Answer GTH_EINVAL, a) else (Answer GTH_OK, set_m m (mk_amutex true None []) a).

Definition m_full (x : amutex) : bool := negb (am_live x) || (capacity <=? length (am_waiters x))%nat.

Definition m_park (c : nat) (m : Z) (x : amutex) (a : astate) : verdict * astate :=
  if m_full x then (Answer GTH_EBUSY, a)
  else (Park (KLock m c), set_thread c GTH_THREAD_BLOCKED
         (set_m m {| x with am_waiters := am_waiters x ++ [Z.of_nat c] |} a)).

Definition m_take (cl : caller) (m : Z) (x : amutex) (a : astate) : verdict * astate :=
  (Answer GTH_OK, set_m m {| x with am_owner := Some (cl_self cl) |} a).

Definition m_lock (cl : caller) (m : Z) (a : astate) : verdict * astate :=
  let x := a_mutex a m in
  if m =? 0 then (Answer GTH_EINVAL, a)
  else if negb (am_live x) then (Answer GTH_ESTATE, a)
  else match am_owner x with
  | None => m_take cl m x a
  | Some o =>
      if o =? cl_self cl then (Answer GTH_EBUSY, a)
      else match cl_slot cl with
      | None => (Answer GTH_ESTATE, a)
      | Some c => m_park c m x a
      end
  end.

(** A woken waiter competes for the mutex again. *)
Definition m_relock (cl : caller) (c : nat) (m : Z) (a : astate) : verdict * astate :=
  let x := a_mutex a m in
  match am_owner x with None => m_take cl m x a | Some _ => m_park c m x a end.

Definition m_trylock (cl : caller) (m : Z) (a : astate) : verdict * astate :=
  let x := a_mutex a m in
  if m =? 0 then (Answer GTH_EINVAL, a)
  else if negb (am_live x) then (Answer GTH_ESTATE, a)
  else match am_owner x with
  | None => m_take cl m x a
  | Some _ => (Answer GTH_EBUSY, a)
  end.

Definition m_unlock (cl : caller) (m : Z) (a : astate) : gth_status_t * astate :=
  let x := a_mutex a m in
  if m =? 0 then (GTH_EINVAL, a)
  else if negb (am_live x) then (GTH_ESTATE, a)
  else match am_owner x with
  | None => (GTH_ESTATE, a)
  | Some o =>
      if negb (o =? 0) && negb (o =? cl_self cl) then (GTH_ESTATE, a)
      else match am_waiters x with
      | [] => (GTH_OK, set_m m (mk_amutex true None []) a)
      | slot :: q => (GTH_OK, wake slot (set_m m (mk_amutex true None q) a))
      end
  end.

Definition m_destroy (m : Z) (a : astate) : verdict * astate :=
  let x := a_mutex a m in
  if m =? 0 then (Answer GTH_EINVAL, a)
  else if negb (am_live x) then (Answer GTH_ESTATE, a)
  else match am_owner x, am_waiters x with
  | None, [] => (Answer GTH_OK, set_m m (mk_amutex false None []) a)
  | _, _ => (Answer GTH_EBUSY, a)
  end.

(** ** Semaphores *)

Definition s_init (s n : Z) (a : astate) : verdict * astate :=
  if s =? 0 then (Answer GTH_EINVAL, a) else (Answer GTH_OK, set_s s (mk_asem true n []) a).

Definition s_wait (cl : caller) (s : Z) (a : astate) : verdict * astate :=
  let x := a_sem a s in
  if s =? 0 then (Answer GTH_EINVAL, a)
  else if negb (as_live x) then (Answer GTH_ESTATE, a)
  else if as_count x =? 0 then
    match cl_slot cl with
    | None => (Answer GTH_ESTATE, a)
    | Some c =>
        if (capacity <=? length (as_waiters x))%nat then (Answer GTH_EBUSY, a)
        else (Park KSemWait, set_thread c GTH_THREAD_BLOCKED
               (set_s s {| x with as_waiters := as_waiters x ++ [Z.of_nat c] |} a))
    end
  else (Answer GTH_OK, set_s s {| x with as_count := as_count x - 1 |} a).

Definition s_post (s : Z) (a : astate) : verdict * astate :=
  let x := a_sem a s in
  if s =? 0 then (Answer GTH_EINVAL, a)
  else if negb (as_live x) then (Answer GTH_ESTATE, a)
  else match as_waiters x with
  | slot :: q => (Answer GTH_OK, wake slot (set_s s {| x with as_waiters := q |} a))
  | [] => if as_count x =? UINT32_MAX then (Answer GTH_EINVAL, a)
          else (Answer GTH_OK, set_s s {| x with as_count := as_count x + 1 |} a)
  end.

Definition s_destroy (s : Z) (a : astate) : verdict * astate :=
  let x := a_sem a s in
  if s =? 0 then (Answer GTH_EINVAL, a)
  else if negb (as_live x) then (Answer GTH_ESTATE, a)
  else match as_waiters x with
  | [] => (Answer GTH_OK, set_s s (mk_asem false 0 []) a)
  | _ => (Answer GTH_EBUSY, a)
  end.

(** ** Condition variables *)

Definition c_init (c : Z) (a : astate) : verdict * astate :=
  if c =? 0 then (Answer GTH_EINVAL, a) else (Answer GTH_OK, set_c c (mk_acond true []) a).

(** The caller joins the waiters and releases the mutex in one step; if it
    does not hold the mutex the wait is undone. *)
Definition c_wait (cl : caller) (c m : Z) (a : astate) : verdict * astate :=
  let x := a_cond a c in
  if (c =? 0) || (m =? 0) then (Answer GTH_EINVAL, a)
  else if negb (ac_live x) then (Answer GTH_ESTATE, a)
  else match cl_slot cl with
  | None => (Answer GTH_ESTATE, a)
  | Some i =>
      if (capacity <=? length (ac_waiters x))%nat then (Answer GTH_EBUSY, a)
      else
        let q := ac_waiters x ++ [Z.of_nat i] in
        let a1 := set_c c {| x with ac_waiters := q |} (set_thread i GTH_THREAD_BLOCKED a) in
        match m_unlock cl m a1 with
        | (GTH_OK, a2) => (Park (KCondWait m), a2)
        | (st, _) => (Answer st, set_c c {| x with ac_waiters := snd (Spec.remove q (Z.of_nat i)) |}
                                   (set_thread i GTH_THREAD_RUNNING a))
        end
  end.

Definition c_signal (c : Z) (a : astate) : verdict * astate :=
  let x := a_cond a c in
  if c =? 0 then (Answer GTH_EINVAL, a)
  else if negb (ac_live x) then (Answer GTH_ESTATE, a)
  else match ac_waiters x with
  | [] => (Answer GTH_OK, a)
  | slot :: q => (Answer GTH_OK, wake slot (set_c c (mk_acond true q) a))
  end.

Definition c_broadcast (c : Z) (a : astate) : verdict * astate :=
  let x := a_cond a c in
  if c =? 0 then (Answer GTH_EINVAL, a)
  else if negb (ac_live x) then (Answer GTH_ESTATE, a)
  else (Answer GTH_OK, foldl (λ a slot, wake slot a) (set_c c (mk_acond true []) a) (ac_waiters x)).

Definition c_destroy (c : Z) (a : astate) : verdict * astate :=
  let x := a_cond a c in
  if c =? 0 then (Answer GTH_EINVAL, a)
  else if negb (ac_live x) then (Answer GTH_ESTATE, a)
  else match ac_waiters x with
  | [] => (Answer GTH_OK, set_c c (mk_acond false []) a)
  | _ => (Answer GTH_EBUSY, a)
  end.
End Sync.

Import Sync.

(** ** Abstraction *)

Definition mutex_abs (x : gth_mutex_impl_t) : amutex :=
  mk_amutex (negb (mx_initialized x =? 0))
            (if mx_locked x =? 0 then None else Some (mx_owner x)) (wq_elems (mx_wq x)).
Definition sem_abs (x : gth_sem_impl_t) : asem :=
  mk_asem (negb (sm_initialized x =? 0)) (sm_count x) (wq_elems (sm_wq x)).
Definition cond_abs (x : gth_cond_impl_t) : acond :=
  mk_acond (negb (cv_initialized x =? 0)) (wq_elems (cv_wq x)).

Record abs (w : world) (a : astate) : Prop := {
  abs_threads : th_state <$> rt_threads (w_rt w) = a_threads a;
  abs_mutex : ∀ m, mutex_abs (mutex_at w m) = a_mutex a m;
  abs_sem : ∀ s, sem_abs (sem_at w s) = a_sem a s;
  abs_cond : ∀ c, cond_abs (cond_at w c) = a_cond a c
}.

(** The abstraction of a world. *)
Definition alpha (w : world) : astate :=
  mk_astate (th_state <$> rt_threads (w_rt w)) (λ m, mutex_abs (mutex_at w m))
            (λ s, sem_abs (sem_at w s)) (λ c, cond_abs (cond_at w c)).

Lemma abs_alpha w : abs w (alpha w).
Proof. done. Qed.

Definition caller_of (cur : option nat) (w : world) : caller := mk_caller (gth_thread_self w) cur.

Definition answers (cur : option nat) (v : verdict) (r : result) : Prop :=
  match v with
  | Answer st => r = Return (mk_resp st [])
  | Park k => ∃ c, cur = Some c ∧ r = Swap (ThreadCtx c) SchedCtx k
  end.

(** The code run from [w] does what the model says. *)
Definition refines (cur : option nat) (m : M result) (w : world) (spec : verdict * astate) : Prop :=
  returns m w (λ r w', answers cur (fst spec) r ∧ abs w' (snd spec)).

(** A read leaves the world alone. *)
Lemma refines_read {A} cur (m : M A) (k : A → M result) w x spec :
  m w = Done (x, w) → refines cur (k x) w spec → refines cur (bind m k) w spec.
Proof. unfold refines, returns, bind. by intros ->. Qed.

Lemma abs_untrace w w' a : untrace w' = untrace w → abs w a → abs w' a.
Proof.
  intros E []. constructor; unfold mutex_at, sem_at, cond_at in *.
  - by rewrite (ut_threads _ _ E).
  - by rewrite (ut_mutexes _ _ E).
  - by rewrite (ut_sems _ _ E).
  - by rewrite (ut_conds _ _ E).
Qed.

Lemma abs_record type tid d1 d2 w a : abs w a → abs (gth_trace_record type tid d1 d2 w) a.
Proof. apply abs_untrace, untrace_record. Qed.

Lemma abs_set_mutex m x w a : abs w a → abs (set_mutex m x w) (set_m m (mutex_abs x) a).
Proof.
  intros []. constructor; auto. intros m'. rewrite mutex_at_set. cbn.
  case_decide as E; [subst; by rewrite fn_lookup_insert|by rewrite fn_lookup_insert_ne].
Qed.
Lemma abs_set_sem s x w a : abs w a → abs (set_sem s x w) (set_s s (sem_abs x) a).
Proof.
  intros []. constructor; auto. intros s'. rewrite sem_at_set. cbn.
  case_decide as E; [subst; by rewrite fn_lookup_insert|by rewrite fn_lookup_insert_ne].
Qed.
Lemma abs_set_cond c x w a : abs w a → abs (set_cond c x w) (set_c c (cond_abs x) a).
Proof.
  intros []. constructor; auto. intros c'. rewrite cond_at_set. cbn.
  case_decide as E; [subst; by rewrite fn_lookup_insert|by rewrite fn_lookup_insert_ne].
Qed.

(** Changes of the thread table and the counters. *)
Lemma abs_threads_change w a f ts :
  abs w a → (th_state <$> rt_threads (f (w_rt w))) = ts → abs (upd_rt f w) {| a with a_threads := ts |}.
Proof. intros [] E. by constructor. Qed.

Lemma fmap_alter_state (f : gth_thread_record_t → gth_thread_record_t) g i (ts : list gth_thread_record_t) :
  (∀ t, th_state (f t) = g (th_state t)) → th_state <$> alter f i ts = alter g i (th_state <$> ts).
Proof.
  intros H. apply list_eq. intros j. rewrite list_lookup_fmap. destruct (decide (j = i)) as [->|Hne].
  - rewrite !list_lookup_alter_eq, list_lookup_fmap. destruct (ts !! i); cbn; [by rewrite H|done].
  - by rewrite !list_lookup_alter_ne, list_lookup_fmap by done.
Qed.

Lemma abs_blocked c w a : abs w a → abs (blocked_world c w) (set_thread c GTH_THREAD_BLOCKED a).
Proof.
  intros [E ? ? ?]. constructor; auto. cbn. rewrite <- E. by apply fmap_alter_state.
Qed.

(** Waking the thread in slot [x], whatever its state. *)
Lemma unblock_refines cur x w a :
  world_ok w → cur_ok cur (w_rt w) → 0 ≤ x < Z.of_nat GTH_MAX_THREADS → abs w a →
  returns (gth_thread_unblock_slot (Z.to_nat x)) w (λ _ w', abs w' (wake x a)).
Proof.
  intros Hw Hc Hx Ha. unfold returns. rewrite unblock_slot_spec by done.
  destruct (lookup_is_some w Hw (Z.to_nat x)) as [t Ht]; [lia|].
  assert (Hsame : is_blocked t = false → abs w (wake x a)).
  { intros Hb. destruct Ha as [E ? ? ?]. constructor; auto. cbn. rewrite <- E. symmetry.
    apply list_eq. intros j. destruct (decide (j = Z.to_nat x)) as [->|Hne].
    - rewrite list_lookup_alter_eq, list_lookup_fmap, Ht. cbn. unfold is_blocked in Hb. by rewrite Hb.
    - by rewrite list_lookup_alter_ne. }
  destruct (rt_initialized (w_rt w)) eqn:Hini; cbn [negb]; last first.
  { apply Hsame. pose proof (tb_uninit _ _ _ _ _ _ (wo_table _ Hw) Hini _ _ Ht) as He.
    apply is_empty_true in He. unfold is_blocked. by rewrite He. }
  destruct (Nat.leb_spec GTH_MAX_THREADS (Z.to_nat x)); [lia|]. rewrite Ht.
  destruct (is_blocked t) eqn:Hb; [|by apply Hsame].
  unfold gth_trace_thread_unblock. apply abs_record. destruct Ha as [E ? ? ?]. constructor; auto. cbn. rewrite <- E.
  apply list_eq. intros j. rewrite list_lookup_fmap. destruct (decide (j = Z.to_nat x)) as [->|Hne].
  - rewrite !list_lookup_alter_eq, list_lookup_fmap, Ht. cbn. unfold is_blocked in Hb. by rewrite Hb.
  - by rewrite !list_lookup_alter_ne, list_lookup_fmap.
Qed.

(** ** Mutexes *)

Lemma wq_full_capacity wq :
  wq_ok wq → gth_wq_is_full wq = (capacity <=? length (wq_elems wq))%nat.
Proof.
  intros (Hwf & Hcap & _). rewrite gth_wq_is_full_spec, Hcap by done. unfold capacity.
  destruct (Nat.leb_spec 52 (length (wq_elems wq)));
    [by apply bool_decide_eq_true|apply bool_decide_eq_false, Nat.lt_nge; done].
Qed.

(** Enqueueing into a queue that is not full. *)
Lemma wq_enqueue_room wq c :
  wq_ok wq → (c < GTH_MAX_THREADS)%nat → (capacity <=? length (wq_elems wq))%nat = false → ∃ wq',
    gth_wq_enqueue wq (u8 (Z.of_nat c)) = Some wq' ∧ wq_ok wq' ∧
    wq_elems wq' = wq_elems wq ++ [Z.of_nat c].
Proof.
  intros Hq Hc Hroom. destruct (wq_ok_enqueue wq c Hq Hc) as (wq' & E & Hq' & Eel).
  exists wq'. split_and!; [done|done|]. rewrite Eel. unfold Spec.enqueue. rewrite decide_True; [done|].
  apply Nat.leb_gt in Hroom. exact Hroom.
Qed.

Lemma mutex_full x : mutex_ok x → gth_wq_is_full (mx_wq x) = m_full (mutex_abs x).
Proof.
  intros [H1 H2]. unfold m_full, mutex_abs. cbn [am_live am_waiters].
  destruct (Z.eqb_spec (mx_initialized x) 0) as [E|E]; [by rewrite (H2 E)|].
  by rewrite wq_full_capacity by auto.
Qed.

Lemma block_refines c w a :
  world_ok w → cur_ok (Some c) (w_rt w) → abs w a →
  returns gth_thread_block w (λ b w', b = inr c ∧ abs w' (set_thread c GTH_THREAD_BLOCKED a)).
Proof.
  intros Hw Hc Ha. destruct (find_current w Hw c Hc) as (Hfind & Hnz & Hini).
  unfold gth_thread_block, returns. rewrite Hini, Hfind. cbn [negb].
  destruct (Z.eqb_spec (rt_current_tid (w_rt w)) 0); [done|]. split; [done|].
  unfold gth_trace_thread_block. set (w1 := gth_trace_record _ _ _ _ _).
  assert (Ha1 : abs w1 a) by (unfold w1; by apply abs_record). clearbody w1. by apply (abs_blocked c).
Qed.

Section calls.
Context (cur : option nat) (w : world) (a : astate) (Hw : world_ok w) (Hc : cur_ok cur (w_rt w))
  (Hf : cur_free cur (w_rt w)) (Ha : abs w a).
Let cl := caller_of cur w.

Lemma answer_refines st : refines cur (ret_status st) w (Answer st, a).
Proof using Ha. by apply returns_ret. Qed.

Lemma take_refines m : refines cur (lock_acquire m) w (m_take cl m (mutex_abs (mutex_at w m)) a).
Proof using Ha.
  unfold lock_acquire, refines, ret_status.
  apply returns_bind, returns_modify, returns_bind, returns_gets, returns_bind, returns_modify, returns_ret.
  split; [done|]. unfold gth_trace_mutex_lock. apply abs_record. by apply (abs_set_mutex m).
Qed.
End calls.

(** Enqueue the caller and block; [pre] is the trace record in between. *)
Lemma park_refines c m w a (pre : world → world) (k : gth_status_t → M result) :
  world_ok w → cur_ok (Some c) (w_rt w) → abs w a →
  (∀ w1, ok_step (Some c) w w1 → ok_step (Some c) w (pre w1) ∧ untrace (pre w1) = untrace w1) →
  m_full (mutex_abs (mutex_at w m)) = false →
  refines (Some c)
    (mutex_enqueue m c;; modify pre;; b <- gth_thread_block;;
     match b with inr i => ret (Swap (ThreadCtx i) SchedCtx (KLock m c)) | inl st => k st end) w
    (m_park c m (mutex_abs (mutex_at w m)) a).
Proof.
  intros Hw Hc Ha Hpre Hfull. unfold refines, m_park. rewrite Hfull.
  pose proof (so_mutex _ (wo_sync _ Hw) m) as Hx. pose proof Hfull as Hfull'.
  rewrite <- mutex_full in Hfull by done.
  pose proof (mutex_not_full _ Hx Hfull) as Hini. pose proof (proj1 Hx Hini) as Hq.
  rewrite (wq_full_capacity _ Hq) in Hfull.
  destruct (wq_enqueue_room _ c Hq (cur_slot_lt c w Hw Hc) Hfull) as (wq' & E & Hq' & Eel).
  apply returns_bind. unfold mutex_enqueue. apply returns_bind, returns_gets, returns_bind.
  eapply returns_deref; [exact E|]. apply returns_modify, returns_bind, returns_modify, returns_bind.
  match goal with |- context [set_mutex m ?x w] => set (x1 := x) end.
  assert (H1 : ok_step (Some c) w (set_mutex m x1 w)).
  { split; [|apply calm_refl]. apply world_ok_set_mutex; [done|]. by split. }
  destruct (Hpre _ H1) as [H2 Ept].
  eapply returns_mono; [apply block_refines|].
  - apply H2.
  - by eapply ok_step_cur.
  - eapply abs_untrace; [exact Ept|]. by apply abs_set_mutex.
  - intros b w' [-> Ha']. apply returns_ret. split; [by eexists|]. cbn [snd].
    unfold x1, mutex_abs in Ha'. cbn in Ha'. rewrite Eel in Ha'. exact Ha'.
Qed.

Lemma relock_refines c m w a :
  world_ok w → cur_ok (Some c) (w_rt w) → abs w a →
  refines (Some c) (gth_mutex_lock_resume m c) w (m_relock (caller_of (Some c) w) c m a).
Proof.
  intros Hw Hc Ha. unfold gth_mutex_lock_resume, lock_fuel, m_relock. cbn [lock_wait].
  eapply refines_read; [done|]. rewrite <- (abs_mutex _ _ Ha m). unfold mutex_abs at 1. cbn [am_owner].
  destruct (mx_locked (mutex_at w m) =? 0); [by apply (take_refines (Some c))|].
  rewrite mutex_full by apply (so_mutex _ (wo_sync _ Hw)).
  destruct (m_full (mutex_abs (mutex_at w m))) eqn:Hfull.
  - unfold m_park. rewrite Hfull. by apply (answer_refines (Some c)).
  - apply (park_refines c m w a id); auto.
Qed.

Lemma lock_refines cur m w a :
  world_ok w → cur_ok cur (w_rt w) → abs w a →
  refines cur (gth_mutex_lock m) w (m_lock (caller_of cur w) m a).
Proof.
  intros Hw Hc Ha. unfold gth_mutex_lock, m_lock. destruct (m =? 0); [by apply answer_refines|].
  eapply refines_read; [done|]. rewrite <- (abs_mutex _ _ Ha m). unfold mutex_abs at 1 2. cbn [am_live am_owner].
  rewrite negb_involutive. destruct (mx_initialized (mutex_at w m) =? 0); [by apply answer_refines|].
  destruct (mx_locked (mutex_at w m) =? 0); cbn [negb]; [by apply take_refines|].
  eapply refines_read; [done|]. cbn [cl_self caller_of].
  destruct (mx_owner (mutex_at w m) =? gth_thread_self w); [by apply answer_refines|].
  destruct cur as [c|]; cbn [cl_slot].
  - eapply refines_read; [by apply current_slot_index_cur|]. pose proof (cur_slot_lt c w Hw Hc).
    destruct (Nat.leb_spec GTH_MAX_THREADS c); [lia|].
    rewrite mutex_full by apply (so_mutex _ (wo_sync _ Hw)).
    destruct (m_full (mutex_abs (mutex_at w m))) eqn:Hfull.
    + unfold m_park. rewrite Hfull. by apply (answer_refines (Some c)).
    + apply park_refines; auto. intros w1 H1. unfold gth_trace_mutex_wait. split; [|apply untrace_record].
      eapply ok_step_trans; [exact H1|]. apply record_ok, H1.
  - eapply refines_read; [by apply current_slot_index_main|]. by apply (answer_refines None).
Qed.

Lemma trylock_refines cur m w a :
  abs w a → refines cur (returning (gth_mutex_trylock m)) w (m_trylock (caller_of cur w) m a).
Proof.
  intros Ha. unfold gth_mutex_trylock, m_trylock, returning, ret_status. apply returns_bind.
  destruct (m =? 0); [by apply returns_ret|].
  apply returns_bind, returns_gets. rewrite <- (abs_mutex _ _ Ha m). unfold mutex_abs. cbn [am_live am_owner].
  rewrite negb_involutive. destruct (mx_initialized (mutex_at w m) =? 0) eqn:Ei; [by apply returns_ret|].
  destruct (mx_locked (mutex_at w m) =? 0); cbn [negb]; [|by apply returns_ret].
  apply returns_bind, returns_modify, returns_ret. split; [done|].
  pose proof (abs_set_mutex m {| (mutex_at w m) with mx_locked := 1; mx_owner := gth_thread_self w |} w a Ha) as H.
  unfold mutex_abs in H. cbn in H. rewrite Ei in H. exact H.
Qed.

Lemma mutex_init_refines cur m w a : abs w a → refines cur (returning (gth_mutex_init m)) w (m_init m a).
Proof.
  intros Ha. unfold gth_mutex_init, m_init, returning, ret_status. apply returns_bind.
  destruct (m =? 0); [by apply returns_ret|]. apply returns_bind, returns_modify, returns_ret.
  split; [done|]. by apply (abs_set_mutex m).
Qed.

Lemma empty_match {A} wq (x y : A) :
  wq_ok wq → (if negb (gth_wq_is_empty wq) then x else y) = match wq_elems wq with [] => y | _ => x end.
Proof.
  intros (Hwf & _). rewrite gth_wq_is_empty_spec by done. case_bool_decide as E; [by rewrite E|].
  by destruct (wq_elems wq).
Qed.

Lemma mutex_destroy_refines cur m w a :
  world_ok w → abs w a → refines cur (returning (gth_mutex_destroy m)) w (m_destroy m a).
Proof.
  intros Hw Ha. unfold gth_mutex_destroy, m_destroy, returning, ret_status. apply returns_bind.
  destruct (m =? 0); [by apply returns_ret|].
  apply returns_bind, returns_gets. rewrite <- (abs_mutex _ _ Ha m). unfold mutex_abs. cbn [am_live am_owner am_waiters].
  rewrite negb_involutive. destruct (Z.eqb_spec (mx_initialized (mutex_at w m)) 0) as [|Hini]; [by apply returns_ret|].
  destruct (mx_locked (mutex_at w m) =? 0); cbn [negb]; [|by apply returns_ret].
  rewrite empty_match by (by apply (so_mutex _ (wo_sync _ Hw))).
  destruct (wq_elems (mx_wq (mutex_at w m))); [|by apply returns_ret].
  apply returns_bind, returns_modify, returns_ret. split; [done|]. by apply (abs_set_mutex m).
Qed.

(** Dequeueing the head of a queue that has one. *)
Lemma wq_dequeue_head wq x q :
  wq_ok wq → wq_elems wq = x :: q → ∃ wq', gth_wq_dequeue wq = Some (x, wq') ∧ wq_ok wq' ∧
    wq_elems wq' = q ∧ 0 ≤ x < Z.of_nat GTH_MAX_THREADS ∧ negb (x =? 0xFF) = true.
Proof.
  intros Hq E. destruct (wq_ok_dequeue wq Hq) as (wq' & Ed & Hq' & Eel). rewrite E in Ed, Eel.
  exists wq'. destruct Hq as (_ & _ & Hall). rewrite E in Hall. inversion Hall as [|? ? Hx]; subst.
  split_and!; try done; try apply Hx. unfold GTH_MAX_THREADS in Hx. destruct (Z.eqb_spec x 0xFF); [lia|done].
Qed.

(** The tail shared by unlock, post and signal: a trace record, then the wake. *)
Lemma traced_wake_refines cur type tid d1 d2 x w1 a :
  world_ok w1 → cur_ok cur (w_rt w1) → 0 ≤ x < Z.of_nat GTH_MAX_THREADS → abs w1 a →
  returns (modify (gth_trace_record type tid d1 d2);; gth_thread_unblock_slot (Z.to_nat x);; ret tt) w1
    (λ _ w', abs w' (wake x a)).
Proof.
  intros Hw Hc Hx Ha. apply returns_bind, returns_modify, returns_bind.
  pose proof (record_ok cur type tid d1 d2 w1 Hw) as H1.
  eapply returns_mono; [apply (unblock_refines cur)|].
  - apply H1.
  - by eapply ok_step_cur.
  - done.
  - by apply abs_record.
  - intros st w4 H4. by apply returns_ret.
Qed.

Lemma unlock_refines cur m w a :
  world_ok w → cur_ok cur (w_rt w) → abs w a →
  returns (gth_mutex_unlock m) w (λ st w',
    st = fst (m_unlock (caller_of cur w) m a) ∧ abs w' (snd (m_unlock (caller_of cur w) m a))).
Proof.
  intros Hw Hc Ha. unfold gth_mutex_unlock, m_unlock. destruct (m =? 0); [by apply returns_ret|].
  apply returns_bind, returns_gets. rewrite <- (abs_mutex _ _ Ha m). unfold mutex_abs. cbn [am_live am_owner am_waiters].
  rewrite negb_involutive. destruct (Z.eqb_spec (mx_initialized (mutex_at w m)) 0) as [|Hini]; [by apply returns_ret|].
  destruct (mx_locked (mutex_at w m) =? 0); [by apply returns_ret|].
  apply returns_bind, returns_gets. cbn [cl_self caller_of].
  destruct (negb _ && negb _); [by apply returns_ret|].
  pose proof (proj1 (so_mutex _ (wo_sync _ Hw) m) Hini) as Hq.
  apply returns_bind, returns_modify, returns_bind. rewrite empty_match by done.
  assert (Eini : negb (mx_initialized (mutex_at w m) =? 0) = true) by (by destruct (Z.eqb_spec (mx_initialized (mutex_at w m)) 0)).
  destruct (wq_elems (mx_wq (mutex_at w m))) as [|x q] eqn:Eel.
  - apply returns_ret, returns_bind, returns_modify, returns_ret. split; [done|].
    unfold gth_trace_mutex_unlock. apply abs_record. cbn [snd].
    pose proof (abs_set_mutex m {| (mutex_at w m) with mx_locked := 0; mx_owner := 0 |} w a Ha) as H.
    unfold mutex_abs in H. cbn in H. by rewrite Eel, Eini in H.
  - destruct (wq_dequeue_head _ x q Hq Eel) as (wq' & E & Hq' & Eel' & Hx & Hff).
    apply returns_bind. eapply returns_deref; [exact E|]. cbn [fst snd]. rewrite Hff.
    apply returns_bind, returns_modify.
    match goal with |- context [set_mutex m ?y (set_mutex m ?z w)] => set (y1 := y); set (w1 := set_mutex m z w) end.
    assert (H1 : ok_step cur w (set_mutex m y1 w1)).
    { split; [|apply calm_refl]. apply world_ok_set_mutex; [|by split]. apply world_ok_set_mutex; [done|].
      by split. }
    assert (Ha1 : abs (set_mutex m y1 w1) (set_m m (mk_amutex true None q) a)).
    { constructor; try apply Ha. intros m'. unfold w1. rewrite !mutex_at_set. cbn.
      case_decide as E'; [subst m'; rewrite fn_lookup_insert|rewrite fn_lookup_insert_ne by done; apply Ha].
      unfold y1, mutex_abs. cbn. by rewrite Eini, Eel'. }
    set (w2 := set_mutex m y1 w1) in *. clearbody w2. clear w1. unfold gth_trace_mutex_wake.
    eapply returns_mono; [by apply (traced_wake_refines cur); [apply H1|eapply ok_step_cur|..]|].
    intros [] w4 H4. apply returns_bind, returns_modify, returns_ret. split; [done|].
    unfold gth_trace_mutex_unlock. by apply abs_record.
Qed.

(** ** Semaphores *)

Lemma sem_init_refines cur s n w a :
  abs w a → refines cur (returning (gth_sem_init s n)) w (s_init s (u32 n) a).
Proof.
  intros Ha. unfold gth_sem_init, s_init, returning, ret_status. apply returns_bind.
  destruct (s =? 0); [by apply returns_ret|]. apply returns_bind, returns_modify, returns_ret.
  split; [done|]. by apply (abs_set_sem s).
Qed.

Lemma sem_destroy_refines cur s w a :
  world_ok w → abs w a → refines cur (returning (gth_sem_destroy s)) w (s_destroy s a).
Proof.
  intros Hw Ha. unfold gth_sem_destroy, s_destroy, returning, ret_status. apply returns_bind.
  destruct (s =? 0); [by apply returns_ret|].
  apply returns_bind, returns_gets. rewrite <- (abs_sem _ _ Ha s). unfold sem_abs. cbn [as_live as_waiters].
  rewrite negb_involutive. destruct (Z.eqb_spec (sm_initialized (sem_at w s)) 0) as [|Hini]; [by apply returns_ret|].
  destruct (so_sem _ (wo_sync _ Hw) s Hini) as (Hq & _). rewrite empty_match by done.
  destruct (wq_elems (sm_wq (sem_at w s))); [|by apply returns_ret].
  apply returns_bind, returns_modify, returns_ret. split; [done|]. by apply (abs_set_sem s).
Qed.

Lemma sem_wait_refines cur s w a :
  world_ok w → cur_ok cur (w_rt w) → abs w a →
  refines cur (gth_sem_wait s) w (s_wait (caller_of cur w) s a).
Proof.
  intros Hw Hc Ha. unfold gth_sem_wait, s_wait. destruct (s =? 0); [by apply answer_refines|].
  eapply refines_read; [done|]. rewrite <- (abs_sem _ _ Ha s).
  change (as_live (sem_abs (sem_at w s))) with (negb (sm_initialized (sem_at w s) =? 0)).
  change (as_count (sem_abs (sem_at w s))) with (sm_count (sem_at w s)).
  change (as_waiters (sem_abs (sem_at w s))) with (wq_elems (sm_wq (sem_at w s))).
  rewrite negb_involutive. destruct (Z.eqb_spec (sm_initialized (sem_at w s)) 0) as [|Hini]; [by apply answer_refines|].
  pose proof (proj2 (Z.eqb_neq _ _) Hini) as Eini.
  destruct (so_sem _ (wo_sync _ Hw) s Hini) as (Hq & Hfit & _).
  destruct (Z.eqb_spec (sm_count (sem_at w s)) 0) as [Hz|Hz].
  - destruct cur as [c|]; cbn [cl_slot caller_of].
    + eapply refines_read; [by apply current_slot_index_cur|]. pose proof (cur_slot_lt c w Hw Hc) as Hlt.
      destruct (Nat.leb_spec GTH_MAX_THREADS c); [lia|]. rewrite (wq_full_capacity _ Hq).
      destruct (_ <=? _)%nat eqn:Hfull; [by apply (answer_refines (Some c))|].
      unfold mark_blocked, refines. apply returns_bind, returns_bind, returns_modify, returns_modify.
      fold (blocked_world c w). apply returns_bind.
      destruct (wq_enqueue_room _ c Hq Hlt Hfull) as (wq' & E & Hq' & Eel). eapply returns_deref; [exact E|].
      apply returns_bind, returns_modify, returns_bind, returns_gets, returns_bind, returns_modify, returns_ret.
      split; [by eexists|]. unfold gth_trace_sem_wait. apply abs_record. cbn [snd].
      pose proof (abs_set_sem s {| (sem_at w s) with sm_wq := wq' |} _ _ (abs_blocked c w a Ha)) as Hset.
      unfold sem_abs in Hset. cbn in Hset. rewrite Eel, Eini in Hset. exact Hset.
    + eapply refines_read; [by apply current_slot_index_main|]. by apply (answer_refines None).
  - assert (Edec : u32 (sm_count (sem_at w s) - 1) = sm_count (sem_at w s) - 1)
      by (apply wrap_small; unfold fits in *; lia).
    apply returns_bind, returns_modify, returns_bind, returns_gets, returns_bind, returns_modify, returns_ret.
    split; [done|]. unfold gth_trace_sem_wait. apply abs_record. cbn [snd]. rewrite Edec.
    pose proof (abs_set_sem s {| (sem_at w s) with sm_count := sm_count (sem_at w s) - 1 |} w a Ha) as H.
    unfold sem_abs in H at 1. cbn in H. rewrite Eini in H. exact H.
Qed.

Lemma sem_post_refines cur s w a :
  world_ok w → cur_ok cur (w_rt w) → abs w a → refines cur (returning (gth_sem_post s)) w (s_post s a).
Proof.
  intros Hw Hc Ha. unfold gth_sem_post, s_post, returning, ret_status. apply returns_bind.
  destruct (s =? 0); [by apply returns_ret|].
  apply returns_bind, returns_gets. rewrite <- (abs_sem _ _ Ha s).
  change (as_live (sem_abs (sem_at w s))) with (negb (sm_initialized (sem_at w s) =? 0)).
  change (as_count (sem_abs (sem_at w s))) with (sm_count (sem_at w s)).
  change (as_waiters (sem_abs (sem_at w s))) with (wq_elems (sm_wq (sem_at w s))).
  rewrite negb_involutive. destruct (Z.eqb_spec (sm_initialized (sem_at w s)) 0) as [|Hini]; [by apply returns_ret|].
  pose proof (proj2 (Z.eqb_neq _ _) Hini) as Eini.
  destruct (so_sem _ (wo_sync _ Hw) s Hini) as (Hq & Hfit & Hidle). apply returns_bind, returns_gets.
  rewrite empty_match by done. destruct (wq_elems (sm_wq (sem_at w s))) as [|x q] eqn:Eel.
  - destruct (Z.eqb_spec (sm_count (sem_at w s)) UINT32_MAX) as [|Hmax]; [by apply returns_ret|].
    apply returns_bind, returns_modify, returns_bind, returns_modify, returns_ret. split; [done|].
    unfold gth_trace_sem_post. apply abs_record. cbn [snd].
    assert (u32 (sm_count (sem_at w s) + 1) = sm_count (sem_at w s) + 1) as ->
      by (apply wrap_small; unfold fits, UINT32_MAX in *; lia).
    pose proof (abs_set_sem s {| (sem_at w s) with sm_count := sm_count (sem_at w s) + 1 |} w a Ha) as H.
    unfold sem_abs in H at 1. cbn in H. rewrite Eini, Eel in H. exact H.
  - destruct (wq_dequeue_head _ x q Hq Eel) as (wq' & E & Hq' & Eel' & Hx & Hff).
    apply returns_bind. eapply returns_deref; [exact E|]. cbn [fst snd]. rewrite Hff.
    apply returns_bind, returns_modify, returns_bind. set (w1 := set_sem s _ w).
    assert (H1 : ok_step cur w w1).
    { split; [|apply calm_refl]. apply world_ok_set_sem; [done|]. intros _. cbn.
      split_and!; [done|done|]. left. by destruct Hidle; [|congruence]. }
    assert (Ha1 : abs w1 (set_s s (mk_asem true (sm_count (sem_at w s)) q) a)).
    { pose proof (abs_set_sem s {| (sem_at w s) with sm_wq := wq' |} w a Ha) as H.
      unfold sem_abs in H at 1. cbn in H. rewrite Eel', Eini in H. exact H. }
    clearbody w1. unfold gth_trace_sem_wake.
    eapply returns_mono; [by apply (traced_wake_refines cur); [apply H1|eapply ok_step_cur|..]|].
    intros [] w4 H4. apply returns_bind, returns_modify, returns_ret. split; [done|].
    unfold gth_trace_sem_post. by apply abs_record.
Qed.

(** ** Condition variables *)

(** Abstract states with the same objects; functions are compared pointwise. *)
Definition aeq (a b : astate) : Prop :=
  a_threads a = a_threads b ∧ (∀ m, a_mutex a m = a_mutex b m) ∧ (∀ s, a_sem a s = a_sem b s) ∧
  ∀ c, a_cond a c = a_cond b c.

#[export] Instance aeq_equiv : Equivalence aeq.
Proof.
  split; [done|..].
  - intros a b (? & ? & ? & ?). by split_and!.
  - intros a b c (? & E1 & E2 & E3) (? & E4 & E5 & E6). split_and!; [congruence|..]; intros x.
    + by rewrite E1.
    + by rewrite E2.
    + by rewrite E3.
Qed.

#[export] Instance abs_proper w : Proper (aeq ==> iff) (abs w).
Proof.
  assert (H : ∀ a b, aeq a b → abs w a → abs w b).
  { intros a b (E0 & E1 & E2 & E3) []. constructor; [congruence|..]; intros x.
    - by rewrite <- E1.
    - by rewrite <- E2.
    - by rewrite <- E3. }
  intros a b E. split; [by apply H|]. apply H. by symmetry.
Qed.

#[export] Instance wake_proper x : Proper (aeq ==> aeq) (wake x).
Proof. intros a b (E0 & E1 & E2 & E3). split_and!; auto. cbn. by rewrite E0. Qed.

#[export] Instance wakes_proper : Proper (aeq ==> eq ==> aeq) (foldl (λ a slot, wake slot a)).
Proof.
  intros a b E q _ <-. revert a b E. induction q as [|x q IH]; intros a b E; cbn; [done|].
  apply IH. by rewrite E.
Qed.

Lemma set_c_twice c x y z a : aeq (set_c c x (wake z (set_c c y a))) (wake z (set_c c x a)).
Proof.
  split_and!; try done. intros c'. cbn. destruct (decide (c = c')) as [->|Hne].
  - by rewrite !fn_lookup_insert.
  - by rewrite !fn_lookup_insert_ne.
Qed.

Lemma set_c_same c a : aeq (set_c c (a_cond a c) a) a.
Proof.
  split_and!; try done. intros c'. cbn. destruct (decide (c = c')) as [->|Hne].
  - by rewrite fn_lookup_insert.
  - by rewrite fn_lookup_insert_ne.
Qed.

Lemma cond_init_refines cur c w a : abs w a → refines cur (returning (gth_cond_init c)) w (c_init c a).
Proof.
  intros Ha. unfold gth_cond_init, c_init, returning, ret_status. apply returns_bind.
  destruct (c =? 0); [by apply returns_ret|]. apply returns_bind, returns_modify, returns_ret.
  split; [done|]. by apply (abs_set_cond c).
Qed.

Lemma cond_destroy_refines cur c w a :
  world_ok w → abs w a → refines cur (returning (gth_cond_destroy c)) w (c_destroy c a).
Proof.
  intros Hw Ha. unfold gth_cond_destroy, c_destroy, returning, ret_status. apply returns_bind.
  destruct (c =? 0); [by apply returns_ret|].
  apply returns_bind, returns_gets. rewrite <- (abs_cond _ _ Ha c). unfold cond_abs. cbn [ac_live ac_waiters].
  rewrite negb_involutive. destruct (Z.eqb_spec (cv_initialized (cond_at w c)) 0) as [|Hini]; [by apply returns_ret|].
  rewrite empty_match by (by apply (so_cond _ (wo_sync _ Hw))).
  destruct (wq_elems (cv_wq (cond_at w c))); [|by apply returns_ret].
  apply returns_bind, returns_modify, returns_ret. split; [done|]. by apply (abs_set_cond c).
Qed.

(** The world with the head of [c]'s queue removed. *)
Lemma dequeued_cond cur c w a x q :
  world_ok w → abs w a → cv_initialized (cond_at w c) ≠ 0 → wq_elems (cv_wq (cond_at w c)) = x :: q →
  ∃ wq', gth_wq_dequeue (cv_wq (cond_at w c)) = Some (x, wq') ∧
    0 ≤ x < Z.of_nat GTH_MAX_THREADS ∧ negb (x =? 0xFF) = true ∧
    let w1 := set_cond c {| (cond_at w c) with cv_wq := wq' |} w in
    ok_step cur w w1 ∧ abs w1 (set_c c (mk_acond true q) a).
Proof.
  intros Hw Ha Hini Eel. pose proof (so_cond _ (wo_sync _ Hw) c Hini) as Hq.
  destruct (wq_dequeue_head _ x q Hq Eel) as (wq' & E & Hq' & Eel' & Hx & Hff).
  exists wq'. do 3 (split; [done|]). cbv zeta. split.
  - split; [|apply calm_refl]. by apply world_ok_set_cond.
  - pose proof (abs_set_cond c {| (cond_at w c) with cv_wq := wq' |} w a Ha) as H.
    unfold cond_abs in H at 1. cbn in H. rewrite (proj2 (Z.eqb_neq _ _) Hini), Eel' in H. exact H.
Qed.

Lemma signal_refines cur c w a :
  world_ok w → cur_ok cur (w_rt w) → abs w a →
  refines cur (returning (gth_cond_signal c)) w (c_signal c a).
Proof.
  intros Hw Hc Ha. unfold gth_cond_signal, c_signal, returning, ret_status. apply returns_bind.
  destruct (c =? 0); [by apply returns_ret|].
  apply returns_bind, returns_gets. rewrite <- (abs_cond _ _ Ha c). unfold cond_abs. cbn [ac_live ac_waiters].
  rewrite negb_involutive. destruct (Z.eqb_spec (cv_initialized (cond_at w c)) 0) as [|Hini]; [by apply returns_ret|].
  rewrite empty_match by (by apply (so_cond _ (wo_sync _ Hw))).
  destruct (wq_elems (cv_wq (cond_at w c))) as [|x q] eqn:Eel; [by apply returns_ret|].
  destruct (dequeued_cond cur c w a x q Hw Ha Hini Eel) as (wq' & E & Hx & Hff & H1 & Ha1).
  apply returns_bind. eapply returns_deref; [exact E|]. cbn [fst snd]. rewrite Hff.
  apply returns_bind, returns_modify, returns_bind. set (w1 := set_cond c _ w) in *. clearbody w1.
  destruct (lookup_is_some w1 (proj1 H1) (Z.to_nat x)) as [t Ht]; [lia|].
  apply returns_bind. eapply returns_thread_at; [exact Ht|]. apply returns_bind, returns_gets.
  unfold gth_trace_cond_signal.
  eapply returns_mono; [by apply (traced_wake_refines cur); [apply H1|eapply ok_step_cur|..]|].
  intros [] w4 H4. by apply returns_ret.
Qed.

(** The loop of broadcast empties the queue, waking in order. *)
Lemma broadcast_loop_refines cur c q : ∀ n w a wake_count,
  world_ok w → cur_ok cur (w_rt w) → abs w a → cv_initialized (cond_at w c) ≠ 0 →
  wq_elems (cv_wq (cond_at w c)) = q → (length q ≤ n)%nat →
  returns (broadcast_loop n c wake_count) w (λ _ w',
    abs w' (foldl (λ a slot, wake slot a) (set_c c (mk_acond true []) a) q)).
Proof.
  induction q as [|x q IH]; intros n w a wake_count Hw Hc Ha Hini Eel Hn.
  - assert (Hnil : abs w (set_c c (mk_acond true []) a)).
    { assert (mk_acond true [] = a_cond a c) as ->; [|by rewrite set_c_same].
      rewrite <- (abs_cond _ _ Ha). unfold cond_abs. rewrite Eel.
      by rewrite (proj2 (Z.eqb_neq _ _) Hini). }
    destruct n; cbn [broadcast_loop]; apply returns_bind, returns_gets;
      (rewrite gth_wq_is_empty_spec by apply (so_cond _ (wo_sync _ Hw) c Hini));
      (rewrite bool_decide_eq_true_2 by done); by apply returns_ret.
  - destruct n as [|n]; [cbn in Hn; lia|]. cbn [broadcast_loop]. apply returns_bind, returns_gets.
    rewrite gth_wq_is_empty_spec by apply (so_cond _ (wo_sync _ Hw) c Hini).
    rewrite bool_decide_eq_false_2 by congruence.
    destruct (dequeued_cond cur c w a x q Hw Ha Hini Eel) as (wq' & E & Hx & Hff & H1 & Ha1).
    apply returns_bind. eapply returns_deref; [exact E|]. cbn [fst snd]. rewrite Hff.
    apply returns_bind, returns_modify, returns_bind.
    assert (Hat : cond_at (set_cond c {| (cond_at w c) with cv_wq := wq' |} w) c =
                  {| (cond_at w c) with cv_wq := wq' |}) by (rewrite cond_at_set; by case_decide).
    set (w1 := set_cond c _ w) in *.
    assert (Hc1 : cur_ok cur (w_rt w1)) by (by eapply ok_step_cur).
    eapply returns_mono; [apply returns_and; [apply (unblock_returns cur)|apply (unblock_refines cur)]|];
      try done; try apply H1.
    intros st w2 [[H2 F2] Ha2]. unfold cond_at in Hat. rewrite <- (wf_conds _ _ F2) in Hat.
    fold (cond_at w2 c) in Hat.
    assert (Ewq : wq_elems wq' = q).
    { pose proof (abs_cond _ _ Ha2 c) as H. cbn in H. rewrite fn_lookup_insert, Hat in H.
      by inversion H. }
    assert (Hc2 : cur_ok cur (w_rt w2)) by (by eapply ok_step_cur).
    eapply returns_mono; [apply (IH n w2 _ _ (proj1 H2) Hc2 Ha2); [by rewrite Hat..|cbn in Hn; lia]|].
    intros k w3 H3. cbn beta in H3. cbn [foldl]. by rewrite set_c_twice in H3.
Qed.

Lemma broadcast_refines cur c w a :
  world_ok w → cur_ok cur (w_rt w) → abs w a →
  refines cur (returning (gth_cond_broadcast c)) w (c_broadcast c a).
Proof.
  intros Hw Hc Ha. unfold gth_cond_broadcast, c_broadcast, returning, ret_status. apply returns_bind.
  destruct (c =? 0); [by apply returns_ret|].
  apply returns_bind, returns_gets. rewrite <- (abs_cond _ _ Ha c). unfold cond_abs. cbn [ac_live ac_waiters].
  rewrite negb_involutive. destruct (Z.eqb_spec (cv_initialized (cond_at w c)) 0) as [|Hini]; [by apply returns_ret|].
  apply returns_bind. eapply returns_mono.
  - eapply (broadcast_loop_refines cur); [done..|]. by rewrite wq_elems_length.
  - intros n w1 H1. apply returns_bind, returns_gets, returns_bind, returns_modify, returns_ret.
    split; [done|]. unfold gth_trace_cond_broadcast. by apply abs_record.
Qed.

Lemma self_untrace w w' : untrace w' = untrace w → gth_thread_self w' = gth_thread_self w.
Proof.
  intros E. unfold gth_thread_self. by rewrite (ut_initialized _ _ E), (ut_current_tid _ _ E).
Qed.

(** A wait that is undone. *)
Lemma cond_undo_refines c cv w a q :
  world_ok w → (c < GTH_MAX_THREADS)%nat → abs w a → cv_initialized (cond_at w cv) ≠ 0 →
  wq_elems (cv_wq (cond_at w cv)) = q →
  returns (cond_wait_undo cv c) w (λ _ w', abs w'
    (set_c cv (mk_acond true (snd (Spec.remove q (Z.of_nat c)))) (set_thread c GTH_THREAD_RUNNING a))).
Proof.
  intros Hw Hlt Ha Hini Eel. unfold cond_wait_undo.
  apply returns_bind, returns_modify, returns_bind, returns_modify, returns_bind, returns_gets, returns_bind.
  match goal with |- returns _ ?x _ => set (w1 := x) end.
  assert (Ha1 : abs w1 (set_thread c GTH_THREAD_RUNNING a)).
  { destruct Ha as [E ? ? ?]. constructor; auto. cbn. rewrite <- E. by apply fmap_alter_state. }
  change (cond_at w1 cv) with (cond_at w cv). clearbody w1.
  destruct (wq_ok_remove _ (u8 (Z.of_nat c)) (so_cond _ (wo_sync _ Hw) cv Hini)) as (wq' & E & Hq' & Eel').
  eapply returns_deref; [exact E|]. apply returns_modify. cbn [snd].
  pose proof (abs_set_cond cv {| (cond_at w cv) with cv_wq := wq' |} w1 _ Ha1) as H.
  unfold cond_abs in H. cbn [cv_initialized cv_wq] in H. rewrite (proj2 (Z.eqb_neq _ _) Hini), Eel', Eel in H.
  rewrite u8_small in H; [exact H|]. unfold GTH_MAX_THREADS in Hlt. lia.
Qed.

(** Undoing the state change and the queue change restores the rest. *)
Lemma undo_aeq cv i x y a :
  aeq (set_c cv x (set_thread i GTH_THREAD_RUNNING (set_c cv y (set_thread i GTH_THREAD_BLOCKED a))))
      (set_c cv x (set_thread i GTH_THREAD_RUNNING a)).
Proof.
  split_and!; try done; cbn.
  - by rewrite alter_alter.
  - intros c'. destruct (decide (cv = c')) as [->|Hne].
    + by rewrite !fn_lookup_insert.
    + by rewrite !fn_lookup_insert_ne.
Qed.

(** The part of the wait after the caller has joined the queue. *)
Lemma cond_wait_tail i c m w q a :
  let a1 := set_c c (mk_acond true q) (set_thread i GTH_THREAD_BLOCKED a) in
  world_ok w → cur_ok (Some i) (w_rt w) → abs w a1 → cv_initialized (cond_at w c) ≠ 0 →
  refines (Some i)
    (st <- gth_mutex_unlock m;;
     if negb (bool_decide (st = GTH_OK)) then cond_wait_undo c i;; ret_status st
     else ret (Swap (ThreadCtx i) SchedCtx (KCondWait m))) w
    match m_unlock (caller_of (Some i) w) m a1 with
    | (GTH_OK, a2) => (Park (KCondWait m), a2)
    | (st, _) => (Answer st, set_c c (mk_acond true (snd (Spec.remove q (Z.of_nat i))))
                               (set_thread i GTH_THREAD_RUNNING a))
    end.
Proof.
  intros a1 Hw Hc Ha Hini. pose proof (unlock_refines (Some i) m w a1 Hw Hc Ha) as Hu.
  unfold refines. apply returns_bind. unfold returns in Hu |- *.
  destruct (gth_mutex_unlock m w) as [[st w4]| |] eqn:Eu; [|done..].
  destruct (m_unlock _ m a1) as [st' a2]. cbn [fst snd] in Hu. destruct Hu as [-> Ha4].
  case_bool_decide as Hst; cbn [negb].
  { subst st'. split; [by eexists|done]. }
  apply unlock_refused in Eu as ->; [|done].
  assert (Hel : wq_elems (cv_wq (cond_at w c)) = q).
  { pose proof (abs_cond _ _ Ha c) as H. cbn in H. rewrite fn_lookup_insert in H. by inversion H. }
  apply returns_fold, returns_bind.
  eapply returns_mono; [eapply (cond_undo_refines i c w a1 q Hw (cur_slot_lt i w Hw Hc) Ha Hini Hel)|].
  intros [] w5 H5. cbn beta in H5. unfold a1 in H5. rewrite undo_aeq in H5.
  apply returns_ret. by destruct st'.
Qed.

Lemma cond_wait_refines cur c m w a :
  world_ok w → cur_ok cur (w_rt w) → cur_free cur (w_rt w) → abs w a →
  refines cur (gth_cond_wait c m) w (c_wait (caller_of cur w) c m a).
Proof.
  intros Hw Hc Hf Ha. unfold gth_cond_wait, c_wait. destruct (_ || _); [by apply answer_refines|].
  eapply refines_read; [done|]. rewrite <- (abs_cond _ _ Ha c).
  change (ac_live (cond_abs (cond_at w c))) with (negb (cv_initialized (cond_at w c) =? 0)).
  change (ac_waiters (cond_abs (cond_at w c))) with (wq_elems (cv_wq (cond_at w c))).
  rewrite negb_involutive. destruct (Z.eqb_spec (cv_initialized (cond_at w c)) 0) as [|Hini]; [by apply answer_refines|].
  pose proof (so_cond _ (wo_sync _ Hw) c Hini) as Hq.
  destruct cur as [i|]; cbn [cl_slot caller_of negb]; last first.
  { eapply refines_read; [by apply current_slot_index_main|]. by apply (answer_refines None). }
  eapply refines_read; [by apply current_slot_index_cur|]. pose proof (cur_slot_lt i w Hw Hc) as Hlt.
  destruct (Nat.leb_spec GTH_MAX_THREADS i); [lia|]. rewrite (wq_full_capacity _ Hq).
  destruct (_ <=? _)%nat eqn:Hfull; [by apply (answer_refines (Some i))|].
  pose proof (park_blocked i w Hw Hc Hf) as Hp. pose proof (abs_blocked i w a Ha) as Hab.
  destruct (wq_enqueue_room _ i Hq Hlt Hfull) as (wq' & E & Hq' & Eel).
  set (w2 := set_cond c {| (cond_at w c) with cv_wq := wq' |} (blocked_world i w)).
  set (w3 := gth_trace_cond_wait (gth_thread_self w2) c w2). unfold gth_trace_cond_wait in w3.
  assert (H3 : ok_step (Some i) (blocked_world i w) w3).
  { assert (H2 : ok_step (Some i) (blocked_world i w) w2)
      by (split; [by apply world_ok_set_cond; [apply Hp|]|apply calm_refl]).
    eapply ok_step_trans; [exact H2|]. unfold w3. apply record_ok, H2. }
  assert (Hcl : caller_of (Some i) w3 = caller_of (Some i) w).
  { unfold caller_of, w3. by rewrite (self_untrace _ _ (untrace_record _ _ _ _ w2)). }
  assert (Ha3 : abs w3 (set_c c (mk_acond true (wq_elems (cv_wq (cond_at w c)) ++ [Z.of_nat i]))
                                (set_thread i GTH_THREAD_BLOCKED a))).
  { unfold w3. apply abs_record. pose proof (abs_set_cond c {| (cond_at w c) with cv_wq := wq' |} _ _ Hab) as H'.
    unfold cond_abs in H'. cbn in H'. rewrite Eel, (proj2 (Z.eqb_neq _ _) Hini) in H'. exact H'. }
  assert (Hini3 : cv_initialized (cond_at w3 c) ≠ 0).
  { unfold w3, cond_at. rewrite (ut_conds _ _ (untrace_record _ _ _ _ w2)). fold (cond_at w2 c).
    unfold w2. rewrite cond_at_set. by case_decide. }
  pose proof (cond_wait_tail i c m w3 _ a (proj1 H3) (ok_step_cur _ _ _ (parked_cur i w _ Hc Hp) H3) Ha3 Hini3) as Ht.
  rewrite Hcl in Ht. unfold mark_blocked. apply returns_bind, returns_bind, returns_modify, returns_modify, returns_bind.
  eapply returns_deref; [exact E|].
  apply returns_bind, returns_modify, returns_bind, returns_gets, returns_bind, returns_modify. exact Ht.
Qed.

(** ** The theorems *)

Definition answer_of (p : gth_status_t * astate) : verdict * astate := (Answer (fst p), snd p).

Lemma unlock_call_refines cur m w a :
  world_ok w → cur_ok cur (w_rt w) → abs w a →
  refines cur (returning (gth_mutex_unlock m)) w (answer_of (m_unlock (caller_of cur w) m a)).
Proof.
  intros Hw Hc Ha. unfold returning, refines. apply returns_bind.
  eapply returns_mono; [by apply (unlock_refines cur)|]. intros st w' [-> H]. by apply returns_ret.
Qed.

(** The public functions on synchronisation objects, and the model of each. *)
Definition sync_spec (cl : caller) (f : api) (a : astate) : option (verdict * astate) :=
  match f with
  | AMutexInit m => Some (m_init m a)
  | ALock m => Some (m_lock cl m a)
  | ATrylock m => Some (m_trylock cl m a)
  | AUnlock m => Some (answer_of (m_unlock cl m a))
  | AMutexDestroy m => Some (m_destroy m a)
  | ASemInit s n => Some (s_init s (u32 n) a)
  | ASemWait s => Some (s_wait cl s a)
  | ASemPost s => Some (s_post s a)
  | ASemDestroy s => Some (s_destroy s a)
  | ACondInit c => Some (c_init c a)
  | ACondWait c m => Some (c_wait cl c m a)
  | ACondSignal c => Some (c_signal c a)
  | ACondBroadcast c => Some (c_broadcast c a)
  | ACondDestroy c => Some (c_destroy c a)
  | _ => None
  end.

Lemma api_refines_at cur f w a spec :
  world_ok w → cur_ok cur (w_rt w) → cur_free cur (w_rt w) → abs w a →
  sync_spec (caller_of cur w) f a = Some spec → refines cur (api_call f) w spec.
Proof.
  intros Hw Hc Hf Ha E.
  destruct f; try done; cbn [sync_spec api_call] in *; injection E as <-;
    auto using mutex_init_refines, lock_refines, trylock_refines, unlock_call_refines, mutex_destroy_refines,
      sem_init_refines, sem_wait_refines, sem_post_refines, sem_destroy_refines, cond_init_refines,
      cond_wait_refines, signal_refines, broadcast_refines, cond_destroy_refines.
Qed.

Lemma api_refines cur f w spec :
  world_ok w → cur_ok cur (w_rt w) → cur_free cur (w_rt w) →
  sync_spec (caller_of cur w) f (alpha w) = Some spec → refines cur (api_call f) w spec.
Proof. intros Hw Hc Hf E. by apply (api_refines_at cur f w (alpha w)). Qed.

(** [MResume c]: the waiter in slot [c] has been woken and continues. *)
Inductive mutex_op := MInit | MLock | MResume (c : nat) | MTrylock | MUnlock | MDestroy.

Definition mutex_call (op : mutex_op) (m : Z) : M result :=
  match op with
  | MInit => returning (gth_mutex_init m)
  | MLock => gth_mutex_lock m
  | MResume c => gth_mutex_lock_resume m c
  | MTrylock => returning (gth_mutex_trylock m)
  | MUnlock => returning (gth_mutex_unlock m)
  | MDestroy => returning (gth_mutex_destroy m)
  end.

Definition mutex_spec (cl : caller) (op : mutex_op) (m : Z) (a : astate) : verdict * astate :=
  match op with
  | MInit => m_init m a
  | MLock => m_lock cl m a
  | MResume c => m_relock cl c m a
  | MTrylock => m_trylock cl m a
  | MUnlock => answer_of (m_unlock cl m a)
  | MDestroy => m_destroy m a
  end.

(** C6. Every mutex operation, called in a consistent state, returns or parks
    its caller exactly as the abstract mutex says: a free mutex is taken by
    the caller, a second lock by the owner is EBUSY, other threads queue up in
    FIFO order (at most 52 of them), only the owner unlocks (a mutex main owns
    is unlocked by anyone), unlocking wakes the longest waiter, which competes
    again when it runs, and a mutex in use is not destroyed. *)
Theorem mutex_refines cur op m w :
  world_ok w → cur_ok cur (w_rt w) → (∀ c, op = MResume c → cur = Some c) →
  refines cur (mutex_call op m) w (mutex_spec (caller_of cur w) op m (alpha w)).
Proof.
  intros Hw Hc Hop. pose proof (abs_alpha w) as Ha. destruct op as [| |c| | |]; cbn [mutex_call mutex_spec].
  - by apply mutex_init_refines.
  - by apply lock_refines.
  - specialize (Hop c eq_refl) as ->. by apply relock_refines.
  - by apply trylock_refines.
  - by apply unlock_call_refines.
  - by apply mutex_destroy_refines.
Qed.

Inductive sem_op := SInit (n : Z) | SWait | SPost | SDestroy.

Definition sem_call (op : sem_op) (s : Z) : M result :=
  match op with
  | SInit n => returning (gth_sem_init s n)
  | SWait => gth_sem_wait s
  | SPost => returning (gth_sem_post s)
  | SDestroy => returning (gth_sem_destroy s)
  end.

Definition sem_spec (cl : caller) (op : sem_op) (s : Z) (a : astate) : verdict * astate :=
  match op with
  | SInit n => s_init s (u32 n) a
  | SWait => s_wait cl s a
  | SPost => s_post s a
  | SDestroy => s_destroy s a
  end.

(** C7. Every semaphore operation, called in a consistent state, behaves as the
    abstract counting semaphore: a wait takes a unit or parks the caller at
    the tail of the queue, a post hands its unit to the longest waiter or else
    adds it to the count, never past UINT32_MAX, and no arithmetic wraps. *)
Theorem sem_refines cur op s w :
  world_ok w → cur_ok cur (w_rt w) →
  refines cur (sem_call op s) w (sem_spec (caller_of cur w) op s (alpha w)).
Proof.
  intros Hw Hc. pose proof (abs_alpha w) as Ha. destruct op as [n| | |]; cbn [sem_call sem_spec].
  - by apply sem_init_refines.
  - by apply sem_wait_refines.
  - by apply sem_post_refines.
  - by apply sem_destroy_refines.
Qed.

(** [CResume]: a woken waiter takes the mutex [m] again. *)
Inductive cond_op := CInit | CWait (m : Z) | CResume (m : Z) | CSignal | CBroadcast | CDestroy.

Definition cond_call (op : cond_op) (c : Z) : M result :=
  match op with
  | CInit => returning (gth_cond_init c)
  | CWait m => gth_cond_wait c m
  | CResume m => gth_cond_wait_resume m
  | CSignal => returning (gth_cond_signal c)
  | CBroadcast => returning (gth_cond_broadcast c)
  | CDestroy => returning (gth_cond_destroy c)
  end.

Definition cond_spec (cl : caller) (op : cond_op) (c : Z) (a : astate) : verdict * astate :=
  match op with
  | CInit => c_init c a
  | CWait m => c_wait cl c m a
  | CResume m => m_lock cl m a
  | CSignal => c_signal c a
  | CBroadcast => c_broadcast c a
  | CDestroy => c_destroy c a
  end.

(** C8. Every condition-variable operation, called in a consistent state,
    behaves as the abstract model: a wait joins the queue and releases the
    mutex in one step, and restores the caller when the mutex cannot be
    released; a signal wakes the longest waiter, a broadcast all of them in
    order; a woken waiter locks the mutex before the wait returns. *)
Theorem cond_refines cur op c w :
  world_ok w → cur_ok cur (w_rt w) → cur_free cur (w_rt w) →
  refines cur (cond_call op c) w (cond_spec (caller_of cur w) op c (alpha w)).
Proof.
  intros Hw Hc Hf. pose proof (abs_alpha w) as Ha. destruct op as [|m|m| | |]; cbn [cond_call cond_spec].
  - by apply cond_init_refines.
  - by apply cond_wait_refines.
  - by apply lock_refines.
  - by apply signal_refines.
  - by apply broadcast_refines.
  - by apply cond_destroy_refines.
Qed.

(** ** Witnesses: thread 2 of [handoff] when thread 1 holds the mutex *)

Lemma handoff_second : ∃ m, run handoff 8 (boot handoff sunny_os 0) = Next handoff m ∧
  m_run handoff m = Thr 1 ∧ world_ok (m_world handoff m) ∧
  cur_ok (Some 1%nat) (w_rt (m_world handoff m)) ∧ cur_free (Some 1%nat) (w_rt (m_world handoff m)).
Proof.
  apply (user_owner_ok handoff sunny_os 0 8 (Thr 1)); [apply handoff_disciplined|cbn; lia|by vm_compute].
Qed.

Lemma mutex_refines_witness : ∃ w,
  refines (Some 1%nat) (gth_mutex_lock 5) w (m_lock (caller_of (Some 1%nat) w) 5 (alpha w)).
Proof.
  destruct handoff_second as (m & _ & _ & Hw & Hc & Hf). exists (m_world handoff m).
  apply (mutex_refines (Some 1%nat) MLock 5 _ Hw Hc). done.
Defined.

(** Thread 1 waits for semaphore 7; thread 2 holds mutex 5 and is about to wait on condition 6. *)
Definition duet : program := script_program
  [AInit (Some demo_config); AMutexInit 5; ASemInit 7 0; ACondInit 6; ACreate true None 1 0; ACreate true None 2 0; AJoin 1]
  (λ fn, if fn =? 1 then [ASemWait 7] else [ALock 5; ACondWait 6 5]).

Definition duet_ready (r : step_result duet) : bool :=
  match r with
  | Next _ m => let w := m_world duet m in
      (sm_initialized (sem_at w 7) =? 1) && (wq_count (sm_wq (sem_at w 7)) =? 1) &&
      (cv_initialized (cond_at w 6) =? 1) && (mx_owner (mutex_at w 5) =? gth_thread_self w)
  | _ => false
  end.

Lemma duet_second : ∃ m, run duet 10 (boot duet sunny_os 0) = Next duet m ∧ duet_ready (Next duet m) = true ∧
  world_ok (m_world duet m) ∧ cur_ok (Some 1%nat) (w_rt (m_world duet m)) ∧ cur_free (Some 1%nat) (w_rt (m_world duet m)).
Proof.
  destruct (user_owner_ok duet sunny_os 0 10 (Thr 1)) as (m & E & _ & H);
    [apply script_disciplined; intros fn; by destruct (fn =? 1)|cbn; lia|by vm_compute|].
  exists m. split; [done|]. split; [|done]. rewrite <- E. by vm_compute.
Qed.

Lemma sem_refines_witness : ∃ m, duet_ready (Next duet m) = true ∧ let w := m_world duet m in
  refines (Some 1%nat) (gth_sem_wait 7) w (s_wait (caller_of (Some 1%nat) w) 7 (alpha w)).
Proof.
  destruct duet_second as (m & _ & Hr & Hw & Hc & Hf). exists m. split; [exact Hr|].
  apply (sem_refines (Some 1%nat) SWait 7 _ Hw Hc).
Defined.

Lemma cond_refines_witness : ∃ m, duet_ready (Next duet m) = true ∧ let w := m_world duet m in
  refines (Some 1%nat) (gth_cond_wait 6 5) w (c_wait (caller_of (Some 1%nat) w) 6 5 (alpha w)).
Proof.
  destruct duet_second as (m & _ & Hr & Hw & Hc & Hf). exists m. split; [exact Hr|].
  apply (cond_refines (Some 1%nat) (CWait 5) 6 _ Hw Hc Hf).
Defined.
