(* ===== verification/Frame.v ===== *)
(** * What the rest of the library leaves alone

    The functions that are not about a synchronisation object do not touch
    any: mutexes, semaphores and condition variables change only through their
    own operations.  They do not block a thread either ([settles]).  Most
    functions do not touch the stacks' memory.  [Frame] is the interface such a
    relation between the worlds before and after offers; the functions that
    only move threads between states and keep their own books satisfy every
    frame. *)

From S2P Require Import Prelude WaitQueue TraceFormat State Stack TraceBuffer Trace Runtime Replay.
From S2P Require Import Fuzz Sched Thread Mutex Sem Cond Lifecycle Machine Scripts Invariant Ops Switching Safety.
From S2P Require Import SyncSpec.
Import Sync.

Definition objs (w : world) : gmap Z gth_mutex_impl_t * gmap Z gth_sem_impl_t * gmap Z gth_cond_impl_t :=
  (w_mutexes w, w_sems w, w_conds w).

(** What a slot of the table is, apart from what its thread is doing. *)
Definition slot_id (t : gth_thread_record_t) : Z * gth_stack_allocation_t * gth_ctx_t * Z * Z :=
  (th_tid t, th_stack t, th_ctx t, th_fn t, th_arg t).

(** Memory outside the table: the mapped pages, their size, and the scheduler's context. *)
Definition grounds (w : world) : gmap Z page_prot * Z * gth_ctx_t := (w_mapped w, page_of w, rt_scheduler_ctx (w_rt w)).

(** Holds of steps that leave the objects, the table and the [grounds] alone. *)
Class Keep (R : world → world → Prop) : Prop := {
  fr_preorder :: PreOrder R;
  fr_same w w' : objs w' = objs w → rt_threads (w_rt w') = rt_threads (w_rt w) →
    grounds w' = grounds w → R w w'
}.

(** Holds of changes of a record too, as long as they block no thread. *)
Class Frame (R : world → world → Prop) : Prop := {
  fr_keep :: Keep R;
  fr_alter w w' i f : objs w' = objs w → rt_threads (w_rt w') = alter f i (rt_threads (w_rt w)) →
    grounds w' = grounds w → (∀ t, slot_id (f t) = slot_id t) →
    (∀ t, is_blocked (f t) = true → is_blocked t = true) → R w w'
}.

Definition frames (R : world → world → Prop) {A} (m : M A) : Prop := ∀ w,
  match m w with Done (_, w') => R w w' | _ => True end.

(** Closes a case in which only fields outside the table have changed. *)
Ltac framed := first [done | reflexivity | by apply fr_same].

Section combinators.
Context {R : world → world → Prop} `{!PreOrder R}.

Lemma frames_ret {A} (a : A) : frames R (ret a).
Proof using All. intros w. cbn. reflexivity. Qed.
Lemma frames_gets {A} (f : world → A) : frames R (gets f).
Proof using All. intros w. cbn. reflexivity. Qed.
Lemma frames_modify f : (∀ w, R w (f w)) → frames R (modify f).
Proof using All. intros H w. apply H. Qed.
Lemma frames_bind {A B} (m : M A) (k : A → M B) : frames R m → (∀ a, frames R (k a)) → frames R (bind m k).
Proof using All.
  intros Hm Hk w. specialize (Hm w). unfold bind. destruct (m w) as [[a w1]| |]; [|done..].
  specialize (Hk a w1). destruct (k a w1) as [[b w2]| |]; [by etrans|done..].
Qed.
Lemma frames_if {A} (b : bool) (m1 m2 : M A) : frames R m1 → frames R m2 → frames R (if b then m1 else m2).
Proof using All. by destruct b. Qed.
Lemma frames_thread_at i : frames R (thread_at i).
Proof using All. intros w. unfold thread_at, deref. by destruct (rt_threads (w_rt w) !! i). Qed.
Lemma frames_deref {A} (o : option A) : frames R (deref o).
Proof using All. intros w. destruct o; cbn; [reflexivity|done]. Qed.
Lemma frames_done {A} (m : M A) w : frames R m → match m w with Done (_, w') => R w w' | _ => True end.
Proof using All. intros H. apply H. Qed.

Lemma frames_then {A} (m : M A) w w1 :
  R w w1 → frames R m → match m w1 with Done (_, w') => R w w' | _ => True end.
Proof using All. intros H Hm. specialize (Hm w1). destruct (m w1) as [[a w2]| |]; [by etrans|done..]. Qed.

Lemma frames_returning m : frames R m → frames R (returning m).
Proof using All. intros H. apply frames_bind; [done|]. intros st. apply frames_ret. Qed.

Lemma frames_slot_index : frames R gth_thread_current_slot_index.
Proof using All.
  intros w. unfold gth_thread_current_slot_index. destruct (_ =? _); [cbn; reflexivity|].
  destruct (gth_runtime_find_thread _ _) as [i|]; [|cbn; reflexivity]. apply frames_done.
  apply frames_bind; [apply frames_thread_at|]. intros t. apply frames_ret.
Qed.
End combinators.

Lemma ut_page_of w w' : untrace w' = untrace w → page_of w' = page_of w.
Proof. intros E. unfold page_of. by rewrite (ut_page_size _ _ E), (ut_os _ _ E). Qed.

Section basics.
Context {R : world → world → Prop} `{!Keep R}.

Lemma frame_untrace w w' : untrace w' = untrace w → R w w'.
Proof using All.
  intros E. apply fr_same; [exact (f_equal objs E)|exact (ut_threads _ _ E)|].
  unfold grounds. by rewrite (ut_mapped _ _ E), (ut_scheduler_ctx _ _ E), (ut_page_of _ _ E).
Qed.

Lemma frame_record type tid d1 d2 w : R w (gth_trace_record type tid d1 d2 w).
Proof using All. apply frame_untrace, untrace_record. Qed.

Lemma frame_cleanup w : R w (gth_trace_cleanup w).
Proof using All. apply frame_untrace, untrace_cleanup. Qed.

Lemma frames_upd_rt f :
  (∀ s, rt_threads (f s) = rt_threads s ∧ rt_scheduler_ctx (f s) = rt_scheduler_ctx s) → frames R (modify (upd_rt f)).
Proof using All.
  intros H. apply frames_modify. intros w. apply fr_same; [done|apply H|]. unfold grounds. cbn. by rewrite (proj2 (H _)).
Qed.
Lemma frames_record type tid d1 d2 : frames R (modify (gth_trace_record type tid d1 d2)).
Proof using All. apply frames_modify, frame_record. Qed.

Lemma frames_malloc : frames R malloc.
Proof using All. intros w. unfold malloc, next_tick. framed. Qed.
End basics.

Lemma frames_upd_thread {R} `{!Frame R} i f :
  (∀ t, slot_id (f t) = slot_id t) → (∀ t, is_blocked (f t) = true → is_blocked t = true) →
  frames R (modify (upd_rt (upd_thread i f))).
Proof. intros H1 H2. apply frames_modify. intros w. by apply (fr_alter w _ i f). Qed.

Ltac frames_step :=
  lazymatch goal with
  | |- frames _ (ret _) => apply frames_ret
  | |- frames _ (ret_status _) => apply frames_ret
  | |- frames _ (gets _) => apply frames_gets
  | |- frames _ (modify (upd_rt (upd_thread _ _))) => apply frames_upd_thread; by intros
  | |- frames _ (modify (upd_rt _)) => apply frames_upd_rt; intros;
      unfold gth_runtime_account_state_change; repeat case_match; done
  | |- frames _ (modify (gth_trace_record _ _ _ _)) => apply frames_record
  | |- frames _ (modify _) => apply frames_modify; intros; framed
  | |- frames _ (thread_at _) => apply frames_thread_at
  | |- frames _ (bind _ _) => apply frames_bind; [|intros ?]
  | |- frames _ (if _ then _ else _) => apply frames_if
  | |- frames _ (match ?x with _ => _ end) => destruct x
  end.
Ltac frames_tac := autounfold with keeps; repeat frames_step.

(** Functions that leave the table alone. *)
Section books.
Context {R : world → world → Prop} `{!Keep R}.

Lemma pick_table s : rt_threads (snd (gth_scheduler_pick_ready_thread s)) = rt_threads s ∧
  rt_scheduler_ctx (snd (gth_scheduler_pick_ready_thread s)) = rt_scheduler_ctx s.
Proof using All.
  unfold gth_scheduler_pick_ready_thread. destruct (_ =? _); [|done]. by destruct (rr_scan _ _ _ _).
Qed.

Lemma frames_pick : frames R gth_scheduler_pick_ready_thread_mode.
Proof using All.
  assert (H : frames R pick_normal_or_fuzzed).
  { intros w. unfold pick_normal_or_fuzzed. pose proof (pick_table (w_rt w)) as [E Ec].
    destruct (gth_scheduler_pick_ready_thread _) as [o s']. cbn [snd] in E, Ec.
    assert (Hs : ∀ f, R w (set_fuzz f {| w with w_rt := s' |}) ∧ R w {| w with w_rt := s' |}).
    { intros f. split; (apply fr_same; [done|done|]); unfold grounds; cbn; by rewrite Ec. }
    destruct (rt_mode s'); try apply (Hs None). destruct (rt_fuzz s') as [f|]; [|apply (Hs None)].
    destruct (gth_fuzz_pick_thread _ _ _ _) as [[i f2]| |]; [apply Hs|done|done]. }
  intros w. unfold gth_scheduler_pick_ready_thread_mode. specialize (H w).
  destruct (rt_mode (w_rt w)); try exact H. destruct (rt_replay (w_rt w)) as [r|]; [|exact H].
  destruct (gth_replay_next_thread _ _). framed.
Qed.

Lemma frames_trace_init : frames R gth_trace_init.
Proof using All.
  intros w. unfold gth_trace_init. destruct (negb _); [framed|]. destruct (rt_trace (w_rt w)); [framed|].
  unfold bind, malloc, next_tick. destruct (os_malloc _ _); framed.
Qed.

Lemma frames_trace_start path w :
  trace_ok (rt_trace (w_rt w)) → match gth_trace_start path w with Done (_, w') => R w w' | _ => True end.
Proof using All.
  intros Ht. pose proof (trace_start_frame path w Ht) as H. unfold returns in H.
  destruct (gth_trace_start path w) as [[st w']| |]; [|done..]. apply frame_untrace, H.
Qed.

Lemma frames_trace_stop w :
  trace_ok (rt_trace (w_rt w)) → match gth_trace_stop w with Done (_, w') => R w w' | _ => True end.
Proof using All.
  intros Ht. pose proof (trace_stop_frame w Ht) as H. unfold returns in H.
  destruct (gth_trace_stop w) as [[st w']| |]; [|done..]. apply frame_untrace, H.
Qed.

Lemma frames_replay_from path : frames R (gth_replay_from path).
Proof using All.
  intros w. unfold gth_replay_from. destruct (negb _); [framed|]. destruct path as [path|]; [|framed].
  case_bool_decide; [framed|]. apply frames_done. apply frames_bind; [|intros; frames_tac; done].
  intros w1. unfold gth_replay_init. destruct (negb _); [framed|]. case_bool_decide; [framed|].
  destruct (rt_replay (w_rt w1)); [framed|]. apply frames_done. apply frames_bind.
  - intros w2. unfold gth_replay_read_file. destruct (w_files w2 !! path); [|framed].
    destruct (_ <? _); [framed|]. destruct (_ <? _); [framed|]. unfold bind, malloc, next_tick, ret.
    destruct (os_malloc _ _); [|framed]. cbn [negb]. destruct (os_fread _ _); framed.
  - intros [data|]; [|apply frames_ret]. cbv zeta. apply frames_if; [apply frames_ret|].
    apply frames_bind; [apply frames_malloc|]. intros ok. frames_tac.
Qed.

Lemma frames_fuzz_init seed : frames R (gth_fuzz_init seed).
Proof using All.
  intros w. unfold gth_fuzz_init. destruct (negb _); [framed|]. destruct (rt_fuzz (w_rt w)); [framed|].
  apply frames_done. apply frames_bind; [apply frames_malloc|]. intros ok. frames_tac.
Qed.

Lemma frames_fuzz_set_rate rate : frames R (gth_fuzz_set_rate rate).
Proof using All.
  intros w. unfold gth_fuzz_set_rate. destruct (negb _); [framed|]. destruct (rt_fuzz (w_rt w)); [|framed].
  destruct (_ <? _); framed.
Qed.

Lemma frame_leave_mode w : R w (leave_mode w).
Proof using All.
  unfold leave_mode.
  set (w1 := match rt_mode (w_rt w), rt_trace (w_rt w) with GTH_MODE_RECORD, Some _ => _ | _, _ => w end).
  assert (E1 : R w w1).
  { unfold w1. destruct (rt_mode (w_rt w)); try framed. destruct (rt_trace (w_rt w)); [apply frame_cleanup|framed]. }
  clearbody w1. etrans; [exact E1|]. repeat case_match; framed.
Qed.

Lemma frames_set_mode mode : frames R (gth_scheduler_set_mode mode).
Proof using All.
  intros w. unfold gth_scheduler_set_mode. destruct (negb _); [framed|].
  pose proof (frame_leave_mode w) as E. set (w1 := set_mode mode (leave_mode w)).
  assert (E1 : R w w1) by (etrans; [exact E|framed]). clearbody w1.
  destruct mode; try exact E1; eapply frames_then; try exact E1; apply frames_bind;
    try apply frames_trace_init; try apply frames_fuzz_init; intros st; frames_tac.
Qed.

End books.

Section table.
Context {R : world → world → Prop} `{!Frame R}.

Lemma frames_unblock i : frames R (gth_thread_unblock_slot i).
Proof using All.
  intros w. unfold gth_thread_unblock_slot. destruct (negb _); [framed|]. destruct (_ <=? _)%nat; [framed|].
  apply frames_done. frames_tac.
Qed.

Lemma frames_cancel tid : frames R (gth_thread_cancel tid).
Proof using All.
  intros w. unfold gth_thread_cancel. destruct (negb _); [framed|]. destruct (_ =? _); [framed|].
  destruct (gth_runtime_find_thread _ _) as [i|]; [|framed]. apply frames_done. unfold gth_runtime_set_thread_state.
  frames_tac. apply frames_unblock.
Qed.

Lemma frames_run_next k : frames R (gth_scheduler_run_next k).
Proof using All.
  intros w. unfold gth_scheduler_run_next. destruct (negb _); [framed|]. apply frames_done.
  apply frames_bind; [apply frames_pick|]. intros [i|]; [|apply frames_ret].
  apply frames_bind; [apply frames_thread_at|]. intros t w1. cbn beta zeta.
  set (w2 := if _ : bool then _ else w1).
  assert (E2 : R w1 w2) by (unfold w2, gth_trace_context_switch; destruct (_ || _); [apply frame_record|reflexivity]).
  clearbody w2. etrans; [exact E2|]. by apply (fr_alter _ _ i (set_state GTH_THREAD_RUNNING)).
Qed.

Lemma frames_yield : frames R gth_thread_yield.
Proof using All.
  intros w. unfold gth_thread_yield. destruct (negb _); [framed|]. destruct (_ =? _).
  - apply frames_done. apply frames_bind; [apply frames_run_next|]. intros []; apply frames_ret.
  - destruct (gth_runtime_find_thread _ _) as [i|]; [|framed]. cbn beta zeta.
    etrans; [apply (frame_record GTH_EVT_THREAD_YIELD (rt_current_tid (w_rt w)) 0 0 w)|].
    by apply (fr_alter _ _ i (set_state GTH_THREAD_READY)).
Qed.

Lemma frames_run_until_loop tid target : frames R (run_until_loop tid target).
Proof using All.
  unfold run_until_loop. apply frames_bind; [apply frames_thread_at|]. intros t.
  apply frames_if; [apply frames_ret|]. apply frames_bind; [apply frames_run_next|].
  intros [st|sw]; [|apply frames_ret]. destruct st; apply frames_ret.
Qed.

Lemma frames_run_until tid : frames R (gth_scheduler_run_until tid).
Proof using All.
  intros w. unfold gth_scheduler_run_until. destruct (negb _); [framed|]. destruct (_ && _); [framed|].
  destruct (gth_runtime_find_thread _ _) as [j|]; [|framed]. apply (frames_run_until_loop tid j w).
Qed.

Lemma frames_trampoline c v : frames R (trampoline_exit c v).
Proof using All. unfold trampoline_exit. frames_tac. Qed.

End table.

(** ** Steps that have nothing to do with synchronisation objects *)

(** Threads blocked after a step were blocked before it. *)
Definition no_new_blocked (w w' : world) : Prop := ∀ i t',
  rt_threads (w_rt w') !! i = Some t' → is_blocked t' = true →
  ∃ t, rt_threads (w_rt w) !! i = Some t ∧ is_blocked t = true.

(** A step that has nothing to do with synchronisation objects. *)
Definition settles (w w' : world) : Prop := objs w' = objs w ∧ no_new_blocked w w'.

#[export] Instance settles_preorder : PreOrder settles.
Proof.
  split.
  - intros w. split; [done|]. intros i t Ht Hb. eauto.
  - intros w1 w2 w3 [E1 H1] [E2 H2]. split; [congruence|]. intros i t Ht Hb.
    destruct (H2 i t Ht Hb) as (t2 & Ht2 & Hb2). eauto.
Qed.

Lemma settles_same w w' : objs w' = objs w → rt_threads (w_rt w') = rt_threads (w_rt w) → settles w w'.
Proof. intros E1 E2. split; [done|]. intros i t. rewrite E2. eauto. Qed.

Lemma settles_alter w w' i f :
  objs w' = objs w → rt_threads (w_rt w') = alter f i (rt_threads (w_rt w)) →
  (∀ t, is_blocked (f t) = true → is_blocked t = true) → settles w w'.
Proof.
  intros E1 E2 Hf. split; [done|]. intros j t. rewrite E2.
  intros [(-> & t0 & Ht0 & ->)|[_ Ht]]%lookup_alter_cases Hb; eauto.
Qed.

Lemma settles_save r p w : settles w (upd_rt (save_ctx r p) w).
Proof. destruct r as [|i]; [by apply settles_same|by eapply settles_alter]. Qed.

#[export] Instance settles_frame : Frame settles.
Proof.
  split; [split; [apply _|intros; by apply settles_same]|intros w w' i f E1 E2 _ _ Hf; by apply (settles_alter w w' i f)].
Qed.

Lemma settles_zero w w' :
  objs w' = objs w → rt_threads (w_rt w') = replicate GTH_MAX_THREADS thread_zero → settles w w'.
Proof. intros E1 E2. split; [done|]. intros j t. rewrite E2. by intros [-> _]%lookup_replicate_1. Qed.

Ltac settle := first [done | reflexivity | by apply settles_same].

Lemma settles_upd_thread i f :
  (∀ t, is_blocked (f t) = true → is_blocked t = true) → frames settles (modify (upd_rt (upd_thread i f))).
Proof. intros H. apply frames_modify. intros w. by apply (settles_alter w _ i f). Qed.

Lemma settles_stack_free stk w : settles w (gth_stack_free stk w).
Proof. unfold gth_stack_free, munmap. destruct (_ && _); settle. Qed.

Lemma frames_release i : frames settles (gth_thread_release_slot i).
Proof. unfold gth_thread_release_slot. frames_tac; try (by apply settles_upd_thread). apply frames_modify, settles_stack_free. Qed.

Lemma frames_join_finish i : frames settles (join_finish i).
Proof. unfold join_finish. frames_tac. apply frames_release. Qed.

Lemma frames_stack_allocate size : frames settles (gth_stack_allocate size).
Proof.
  intros w. pose proof (stack_allocate_frame size w) as H. unfold returns in H.
  destruct (gth_stack_allocate size w) as [[a w']| |]; [|done..]. rewrite H. settle.
Qed.

Lemma frames_create out attr fn arg : frames settles (gth_thread_create out attr fn arg).
Proof.
  intros w. unfold gth_thread_create. destruct (negb _); [settle|]. destruct (_ || _); [settle|].
  apply frames_done. apply frames_bind.
  - intros w1. unfold gth_thread_acquire_slot. destruct (gth_runtime_alloc_thread_slot _) as [i|]; [|settle].
    by eapply settles_alter.
  - intros [i|]; [|apply frames_ret]. do 4 (apply frames_bind; [first [frames_step|by apply settles_upd_thread]|intros ?]).
    apply frames_bind; [apply frames_stack_allocate|]. intros [st stk].
    assert (Hok : frames settles (modify (upd_rt (upd_thread i (λ t,
               {| t with th_stack := stk; th_ctx := gth_context_init_thread stk i |})));;
             modify (upd_rt (λ s, {| s with rt_runnable_threads := u64 (rt_runnable_threads s + 1) |}));;
             modify (gth_trace_thread_create a);; ret (mk_resp GTH_OK [a]))) by (frames_tac; by apply settles_upd_thread).
    destruct st; try exact Hok; frames_tac; by apply settles_upd_thread.
Qed.

Lemma frames_join_after tid r : frames settles (join_after_run_until tid r).
Proof.
  intros w. unfold join_after_run_until. destruct r as [st|sw]; [|settle]. destruct st; try settle.
  destruct (gth_runtime_find_thread _ _) as [i|]; [|settle]. apply (frames_join_finish i w).
Qed.

Lemma frames_join tid : frames settles (gth_thread_join tid).
Proof.
  intros w. unfold gth_thread_join. destruct (negb _); [settle|]. destruct (tid =? 0); [settle|].
  destruct (tid =? _); [settle|]. destruct (gth_runtime_find_thread _ _) as [i|]; [|settle].
  apply frames_done. apply frames_bind; [apply frames_thread_at|]. intros t. apply frames_if; [|apply frames_join_finish].
  apply frames_bind; [apply frames_run_until|apply frames_join_after].
Qed.

Lemma frames_init config : frames settles (gth_runtime_init config).
Proof.
  intros w. unfold gth_runtime_init. destruct config as [c|]; [|settle]. destruct (negb _); [settle|].
  destruct (rt_initialized _); [settle|by apply settles_zero].
Qed.

Lemma frames_shutdown : frames settles gth_runtime_shutdown.
Proof.
  intros w. unfold gth_runtime_shutdown. destruct (negb _); [settle|].
  set (w1 := match rt_trace (w_rt w) with Some _ => gth_trace_cleanup w | None => w end).
  assert (E1 : settles w w1) by (unfold w1; destruct (rt_trace (w_rt w)); [apply frame_cleanup|settle]).
  clearbody w1. set (w2 := match rt_replay (w_rt w1) with Some _ => gth_replay_cleanup w1 | None => w1 end).
  set (w3 := match rt_fuzz (w_rt w2) with Some _ => gth_fuzz_cleanup w2 | None => w2 end).
  assert (E3 : settles w1 w3) by (unfold w3, w2; repeat case_match; settle).
  clearbody w3. destruct (free_stacks_frame (rt_threads (w_rt w3)) 0 w3) as (x & s & ->).
  etrans; [exact E1|]. etrans; [exact E3|]. by apply settles_zero.
Qed.

(** Main continues after a switch. *)
Lemma frames_resume_main prev k : frames settles (resume_frame (KRunNext prev k)).
Proof.
  destruct k as [|tid target]; cbn [resume_frame].
  - apply frames_bind; [|intros; apply frames_ret]. apply frames_modify. intros. settle.
  - apply frames_bind; [apply frames_modify; intros; settle|]. intros _.
    apply frames_bind; [apply frames_run_until_loop|apply frames_join_after].
Qed.

(** ** Which calls change which objects *)

Lemma api_frames a w :
  trace_ok (rt_trace (w_rt w)) → (∀ cl s, sync_spec cl a s = None) →
  match api_call a w with Done (_, w') => settles w w' | _ => True end.
Proof.
  intros Ht Hs. specialize (Hs (mk_caller 0 None) (alpha w)). destruct a; try done; cbn [api_call];
    try (apply frames_bind; [apply frames_gets|intros; apply frames_ret]).
  - apply frames_returning, frames_init.
  - apply frames_returning, frames_shutdown.
  - apply frames_bind; [apply frames_create|intros; apply frames_ret].
  - apply frames_yield.
  - apply frames_join.
  - apply frames_returning, frames_cancel.
  - pose proof (frames_trace_start path w Ht) as H. unfold returning, bind.
    by destruct (gth_trace_start path w) as [[st w']| |].
  - pose proof (frames_trace_stop w Ht) as H. unfold returning, bind.
    by destruct (gth_trace_stop w) as [[st w']| |].
  - apply frames_returning, frames_replay_from.
  - apply frames_returning, frames_fuzz_set_rate.
  - apply frames_returning, frames_set_mode.
Qed.

Lemma objs_mutex w w' m : objs w' = objs w → mutex_at w' m = mutex_at w m.
Proof. intros [= E _ _]. unfold mutex_at. by rewrite E. Qed.

