(* ===== verification/Exclusion.v ===== *)
(** * Mutual exclusion

    [SyncInv] is the interface between properties of the abstract
    synchronisation objects and the machine: a property that the operations of
    [Module Sync] keep holds along every execution.  Ownership of a mutex is
    the first instance. *)

From S2P Require Import Prelude WaitQueue TraceFormat State Stack TraceBuffer Trace Runtime Replay.
From S2P Require Import Fuzz Sched Thread Mutex Sem Cond Lifecycle Machine Scripts Invariant Ops Switching Safety.
From S2P Require Import SyncSpec Frame.
Import Sync.

(** ** Invariants of the synchronisation objects

    A property [J] of the model is invariant under executions in which no stack makes a [bad] call
    when the abstract operations keep it; the rest of the library settles. *)

Class SyncInv (bad : caller → api → astate → Prop) (J : astate → Prop) : Prop := {
  si_abs w a : abs w a → J a → J (alpha w);
  si_settles w w' : settles w w' → J (alpha w) → J (alpha w');
  si_spec cl f a spec : J a → ¬ bad cl f a → sync_spec cl f a = Some spec → J (snd spec);
  si_lock cl m a : J a → J (snd (m_lock cl m a));
  si_relock cl c m a : J a → J (snd (m_relock cl c m a))
}.

Lemma sync_spec_None cl f a : sync_spec cl f a = None → ∀ cl' a', sync_spec cl' f a' = None.
Proof. by destruct f. Qed.

Section machine.
Context (P : program).

(** The executing stack is about to make a bad call. *)
Definition about_to (bad : caller → api → astate → Prop) (m : machine P) : Prop := ∃ tid u a,
  m_ctl P m (m_run P m) = Some (mk_ctl P tid (User P u)) ∧ p_next P u = ACall a ∧
  bad (mk_caller tid (cur_of (m_run P m))) a (alpha (m_world P m)).

Lemma jump_world r m m' : jump_to P r m = Next P m' → m_world P m' = m_world P m.
Proof using Type.
  unfold jump_to. destruct (ctx_at _ r) as [c|]; [|done]. destruct (ctx_resume c) as [|slot top|o n]; [done|..].
  - destruct (rt_threads _ !! slot); [|done]. by intros [= <-].
  - destruct (m_ctl P m o) as [[tid [| |n' k u]]|]; try done. case_decide; [|done]. by intros [= <-].
Qed.

Lemma after_call_world m o tid u r m' :
  after_call P m o tid u r = Next P m' → ∃ a w', r = Done (a, w') ∧
    (m_world P m' = w' ∨ ∃ from p, m_world P m' = upd_rt (save_ctx from p) w').
Proof using Type.
  unfold after_call. destruct r as [[[x|from to k] w']| |]; try done.
  - intros [= <-]. exists (Return x), w'. split; [done|]. by left.
  - intros E%jump_world. exists (Swap from to k), w'. split; [done|]. right. by eexists _, _.
Qed.

Lemma after_call_settles m o tid u r m' :
  after_call P m o tid u r = Next P m' → ∃ a w', r = Done (a, w') ∧ settles w' (m_world P m').
Proof using Type.
  intros (a & w' & -> & [->|(from & p & ->)])%after_call_world; exists a, w'; (split; [done|]); [reflexivity|apply settles_save].
Qed.

Lemma executing_self m tid u :
  mach_ok P m → m_ctl P m (m_run P m) = Some (mk_ctl P tid (User P u)) →
  gth_thread_self (m_world P m) = tid.
Proof using Type.
  intros [Hw Hex _] Hctl. unfold executing in Hex. unfold gth_thread_self. destruct (m_run P m) as [|c].
  - destruct Hex as (mode & Hm & Hmode). rewrite Hctl in Hm. simplify_eq. destruct Hmode as [Hcur _].
    rewrite Hcur. by destruct (negb _).
  - destruct Hex as (Hc & _ & _ & mode & Hm & _). rewrite Hctl in Hm. simplify_eq.
    by destruct (find_current _ Hw c Hc) as (_ & _ & ->).
Qed.

Section invariant.
Context (bad : caller → api → astate → Prop) (J : astate → Prop) `{!SyncInv bad J}.

Lemma refines_inv cur m w spec r w' :
  refines cur m w spec → m w = Done (r, w') → J (snd spec) → J (alpha w').
Proof using All. unfold refines, returns. intros H E. rewrite E in H. apply si_abs, H. Qed.

Lemma api_inv cur f w r w' :
  world_ok w → cur_ok cur (w_rt w) → cur_free cur (w_rt w) → J (alpha w) →
  ¬ bad (caller_of cur w) f (alpha w) → api_call f w = Done (r, w') → J (alpha w').
Proof using All.
  intros Hw Hc Hf HJ Hbad E. destruct (sync_spec (caller_of cur w) f (alpha w)) as [spec|] eqn:Hs.
  - eapply refines_inv; [by eapply (api_refines cur)|exact E|]. by eapply si_spec.
  - pose proof (api_frames f w (wo_trace _ Hw) (sync_spec_None _ _ _ Hs)) as H. rewrite E in H.
    by eapply si_settles.
Qed.

(** The code after a switch point. *)
Lemma resume_inv cur k w r w' :
  world_ok w → (∀ c, cur = Some c → cur_ok cur (w_rt w) ∧ thread_frame c k) →
  (cur = None → main_frame k) → J (alpha w) → resume_frame k w = Done (r, w') → J (alpha w').
Proof using All.
  intros Hw Hthr Hmain HJ E. pose proof (abs_alpha w) as Ha. destruct cur as [c|].
  - destruct (Hthr c eq_refl) as [Hc Hk]. destruct k as [|m my_slot|m| |]; try done; cbn in E.
    + by injection E as <- <-.
    + cbn in Hk. subst my_slot.
      eapply refines_inv; [by apply (relock_refines c m)|exact E|]. by apply si_relock.
    + eapply refines_inv; [by apply (lock_refines (Some c) m)|exact E|]. by apply si_lock.
    + by injection E as <- <-.
  - specialize (Hmain eq_refl). destruct k as [| | | |prev kr]; try done.
    pose proof (frames_resume_main prev kr w) as Hfr. rewrite E in Hfr. by eapply si_settles.
Qed.

Lemma step_inv m m' :
  mach_ok P m → step P m = Next P m' → J (alpha (m_world P m)) → ¬ about_to bad m →
  J (alpha (m_world P m')).
Proof using All.
  intros Hm E HJ Hbad. pose proof Hm as [Hw Hex _]. unfold step in E.
  destruct (m_ctl P m (m_run P m)) as [[tid mode]|] eqn:Hctl; [|done]. destruct (negb _); [done|].
  destruct mode as [u|k u|]; [|..|done].
  - destruct (user_call_ok P m u Hm ltac:(eauto)) as (_ & Hc & Hf). destruct (p_next P u) as [v|a] eqn:Hnext.
    + destruct (m_run P m) as [|c]; [done|]. pose proof (frames_trampoline (R := settles) c v (m_world P m)) as Hfr.
      destruct (trampoline_exit c v (m_world P m)) as [[[] w']| |]; try done.
      apply jump_world in E. rewrite E. cbn [m_world]. by eapply si_settles.
    + apply after_call_settles in E as (r & w' & E & Eo). eapply si_settles; [exact Eo|].
      eapply (api_inv (cur_of (m_run P m))); [done..| |exact E].
      intros Hb. apply Hbad. exists tid, u, a. split_and!; [done|done|].
      unfold caller_of in Hb. by rewrite (executing_self m tid u Hm Hctl) in Hb.
  - apply after_call_settles in E as (r & w' & E & Eo). eapply si_settles; [exact Eo|].
    eapply (resume_inv (cur_of (m_run P m)) k); [done|..|exact HJ|exact E]; unfold executing in Hex;
      destruct (m_run P m) as [|c0]; try done; cbn.
    + intros c [= <-]. destruct Hex as (Hc & _ & _ & mode & Hm' & Hmode). rewrite Hctl in Hm'. simplify_eq.
      by destruct Hmode.
    + intros _. destruct Hex as (mode & Hm' & Hmode). rewrite Hctl in Hm'. simplify_eq. apply Hmode.
Qed.

(** From a reachable state on. *)
Lemma run_inv os fuel n d m :
  disciplined P → Z.of_nat (n + d) < 2 ^ 64 - 2 → run P n (boot P os fuel) = Next P m →
  J (alpha (m_world P m)) →
  (∀ k m', (k < d)%nat → run P (n + k) (boot P os fuel) = Next P m' → ¬ about_to bad m') →
  ∀ m', run P (n + d) (boot P os fuel) = Next P m' → J (alpha (m_world P m')).
Proof using All.
  intros HP Hn Hrun HJ. induction d as [|d IH]; intros Hbad m' E.
  - rewrite Nat.add_0_r in E. congruence.
  - rewrite Nat.add_succ_r in E. apply run_snoc in E as (m1 & E1 & E2).
    eapply (step_inv m1); [|exact E2| |].
    + eapply reachable_ok; [done| |exact E1]. lia.
    + apply IH; [lia| |done]. intros k m2 Hk. apply Hbad. lia.
    + apply (Hbad d); [lia|done].
Qed.
End invariant.
End machine.

(** ** Mutex ownership *)

Definition owner_in (a : astate) (x : Z) : option Z := am_owner (a_mutex a x).
Definition owner_of (w : world) (x : Z) : option Z := am_owner (mutex_abs (mutex_at w x)).

Lemma owner_set_m m y a x :
  owner_in (set_m m y a) x = if decide (m = x) then am_owner y else owner_in a x.
Proof.
  unfold owner_in. cbn. case_decide as E; [subst; by rewrite fn_lookup_insert|by rewrite fn_lookup_insert_ne].
Qed.

Section stable.
Context (a : astate) (x t : Z) (Ht : owner_in a x = Some t).

(** Locking never changes the owner of a locked mutex. *)
Lemma park_owner c m : owner_in (snd (m_park c m (a_mutex a m) a)) x = Some t.
Proof using Ht.
  unfold m_park. destruct (m_full _); [done|]. cbn [snd].
  change (owner_in (set_m m {| (a_mutex a m) with am_waiters := am_waiters (a_mutex a m) ++ [Z.of_nat c] |} a) x = Some t).
  rewrite owner_set_m. case_decide; [by subst|done].
Qed.

Lemma take_owner cl m : am_owner (a_mutex a m) = None → owner_in (snd (m_take cl m (a_mutex a m) a)) x = Some t.
Proof using Ht.
  intros E. cbn [snd m_take]. rewrite owner_set_m. case_decide; [subst|done].
  unfold owner_in in Ht. congruence.
Qed.

Lemma lock_owner cl m : owner_in (snd (m_lock cl m a)) x = Some t.
Proof using Ht.
  unfold m_lock. destruct (m =? 0); [done|]. destruct (negb _); [done|].
  destruct (am_owner (a_mutex a m)) eqn:E; [|by apply take_owner]. destruct (_ =? _); [done|].
  destruct (cl_slot cl); [apply park_owner|done].
Qed.

Lemma relock_owner cl c m : owner_in (snd (m_relock cl c m a)) x = Some t.
Proof using Ht.
  unfold m_relock. destruct (am_owner (a_mutex a m)) eqn:E; [apply park_owner|by apply take_owner].
Qed.

Lemma trylock_owner cl m : owner_in (snd (m_trylock cl m a)) x = Some t.
Proof using Ht.
  unfold m_trylock. destruct (m =? 0); [done|]. destruct (negb _); [done|].
  destruct (am_owner (a_mutex a m)) eqn:E; [done|by apply take_owner].
Qed.

Lemma destroy_owner m : owner_in (snd (m_destroy m a)) x = Some t.
Proof using Ht.
  unfold m_destroy. destruct (m =? 0); [done|]. destruct (negb _); [done|].
  destruct (am_owner (a_mutex a m)) eqn:E; [done|]. destruct (am_waiters _); [|done].
  cbn [snd]. rewrite owner_set_m. case_decide; [subst|done]. unfold owner_in in Ht. congruence.
Qed.

(** Only its owner unlocks a mutex that a thread owns. *)
Lemma unlock_owner cl m : t ≠ 0 → (m = x → cl_self cl ≠ t) → owner_in (snd (m_unlock cl m a)) x = Some t.
Proof using Ht.
  intros Hnz Hcl. unfold m_unlock. destruct (m =? 0); [done|]. destruct (negb (am_live _)); [done|].
  destruct (am_owner (a_mutex a m)) as [o|] eqn:E; [|done].
  destruct (negb (o =? 0) && negb (o =? cl_self cl)) eqn:Eo; [done|].
  assert (Hne : m ≠ x).
  { intros ->. unfold owner_in in Ht. assert (o = t) as -> by congruence. specialize (Hcl eq_refl).
    destruct (Z.eqb_spec t 0); [done|]. by destruct (Z.eqb_spec t (cl_self cl)). }
  assert (Hs : ∀ y, owner_in (set_m m y a) x = Some t) by (intros y; rewrite owner_set_m; by case_decide).
  destruct (am_waiters (a_mutex a m)); apply Hs.
Qed.

End stable.

Lemma cond_wait_owner a x t cl c m :
  owner_in a x = Some t → t ≠ 0 → (m = x → cl_self cl ≠ t) → owner_in (snd (c_wait cl c m a)) x = Some t.
Proof.
  intros Ht Hnz Hcl. unfold c_wait. destruct (_ || _); [done|]. destruct (negb _); [done|].
  destruct (cl_slot cl) as [i|]; [|done]. destruct (_ <=? _)%nat; [done|].
  match goal with |- context [m_unlock cl m ?b] => set (a1 := b) end.
  pose proof (unlock_owner a1 x t Ht cl m Hnz Hcl) as Hu.
  destruct (m_unlock cl m a1) as [st a2]. by destruct st.
Qed.

Lemma wakes_mutex q : ∀ a x, owner_in (foldl (λ a slot, wake slot a) a q) x = owner_in a x.
Proof. induction q as [|y q IH]; intros a x; cbn [foldl]; [done|]. by rewrite IH. Qed.

(** ** Ownership across a step *)

(** What a call may do to a mutex [x] owned by [t]. *)
Definition may_release (x t tid : Z) (a : api) : Prop :=
  a = AMutexInit x ∨ (tid = t ∧ (a = AUnlock x ∨ ∃ c, a = ACondWait c x)).

Lemma spec_owner cl f a spec x t :
  owner_in a x = Some t → t ≠ 0 → ¬ may_release x t (cl_self cl) f →
  sync_spec cl f a = Some spec → owner_in (snd spec) x = Some t.
Proof.
  intros Ho Hnz Hrel E.
  assert (Hself : ∀ m, (m = x → f = AUnlock m ∨ ∃ c, f = ACondWait c m) → m = x → cl_self cl ≠ t).
  { intros m Hm -> Ht. apply Hrel. right. split; [done|]. by apply Hm. }
  destruct f; try done; cbn [sync_spec] in E; injection E as <-.
  - unfold m_init. destruct (m =? 0); [done|]. cbn [snd]. rewrite owner_set_m. case_decide; [|done].
    subst. exfalso. apply Hrel. by left.
  - by apply lock_owner.
  - by apply trylock_owner.
  - apply unlock_owner; [done..|]. apply Hself. auto.
  - by apply destroy_owner.
  - unfold s_init. by destruct (_ =? _).
  - unfold s_wait. repeat case_match; done.
  - unfold s_post. repeat case_match; done.
  - unfold s_destroy. repeat case_match; done.
  - unfold c_init. by destruct (_ =? _).
  - apply cond_wait_owner; [done..|]. apply Hself. eauto.
  - unfold c_signal. repeat case_match; done.
  - unfold c_broadcast. destruct (_ =? _); [done|]. destruct (negb _); [done|]. cbn [snd]. by rewrite wakes_mutex.
  - unfold c_destroy. repeat case_match; done.
Qed.

#[export] Instance owner_sync_inv x t (Hnz : t ≠ 0) :
  SyncInv (λ cl f _, may_release x t (cl_self cl) f) (λ a, owner_in a x = Some t).
Proof.
  constructor.
  - intros w a Ha Ho. unfold owner_in. cbn [alpha a_mutex]. by rewrite (abs_mutex _ _ Ha).
  - intros w w' Hs Ho. unfold owner_in in *. cbn [alpha a_mutex] in *. by rewrite (objs_mutex w w' x (proj1 Hs)).
  - intros. by eapply spec_owner.
  - intros. by apply lock_owner.
  - intros. by apply relock_owner.
Qed.

(** The executing stack is about to release mutex [x], which thread [t] owns. *)
Definition releasing (P : program) (m : machine P) (x t : Z) : Prop := ∃ tid u a,
  m_ctl P m (m_run P m) = Some (mk_ctl P tid (User P u)) ∧ p_next P u = ACall a ∧ may_release x t tid a.

(** C2. Mutual exclusion.  Once thread [t] owns a mutex, it owns it in every
    state of the execution until a step in which [t] itself calls unlock or a
    condition wait on it, or some stack initialises the mutex anew.  (Taking a
    mutex makes the taker its owner, so no other stack acquires it in the
    meantime.) *)
Theorem mutual_exclusion P os fuel n d x t m :
  disciplined P → Z.of_nat (n + d) < 2 ^ 64 - 2 → run P n (boot P os fuel) = Next P m →
  owner_of (m_world P m) x = Some t → t ≠ 0 →
  (∀ k m', (k < d)%nat → run P (n + k) (boot P os fuel) = Next P m' → ¬ releasing P m' x t) →
  ∀ m', run P (n + d) (boot P os fuel) = Next P m' → owner_of (m_world P m') x = Some t.
Proof.
  intros HP Hn Hrun Ho Hnz Hrel. pose proof (owner_sync_inv x t Hnz) as Hinv.
  apply (run_inv P _ (λ a, owner_in a x = Some t) os fuel n d m); [done..|].
  intros k m1 Hk E (tid & u & a & H1 & H2 & H3). apply (Hrel k m1 Hk E). by exists tid, u, a.
Qed.

(** ** Witness: thread 1 of [handoff] keeps the mutex while thread 2 queues up *)

Definition owner_after {P} (r : step_result P) (x : Z) : option Z :=
  match r with Next _ m => owner_of (m_world P m) x | _ => None end.

(** The call the executing stack is about to make. *)
Definition next_call {P} (r : step_result P) : option (Z * api) :=
  match r with
  | Next _ m => match m_ctl P m (m_run P m) with
                | Some (mk_ctl _ tid (User _ u)) =>
                    match p_next P u with ACall a => Some (tid, a) | AReturn _ => None end
                | _ => None
                end
  | _ => None
  end.

Lemma next_call_eq P m tid u a :
  m_ctl P m (m_run P m) = Some (mk_ctl P tid (User P u)) → p_next P u = ACall a →
  next_call (Next P m) = Some (tid, a).
Proof. intros E1 E2. cbn. by rewrite E1, E2. Qed.

Lemma next_call_releasing P m x t :
  releasing P m x t → ∃ tid a, next_call (Next P m) = Some (tid, a) ∧ may_release x t tid a.
Proof. intros (tid & u & a & E & Ea & H). exists tid, a. eauto using next_call_eq. Qed.

Lemma mutual_exclusion_witness : ∃ m',
  run handoff 11 (boot handoff sunny_os 0) = Next handoff m' ∧ owner_of (m_world handoff m') 5 = Some 1.
Proof.
  destruct (is_next_true (run handoff 6 (boot handoff sunny_os 0))) as [m Hm]; [by vm_compute|].
  destruct (is_next_true (run handoff 11 (boot handoff sunny_os 0))) as [m' Hm']; [by vm_compute|].
  exists m'. split; [exact Hm'|].
  apply (mutual_exclusion handoff sunny_os 0 6 5 5 1 m).
  - apply handoff_disciplined.
  - cbn. lia.
  - exact Hm.
  - assert (E : owner_after (run handoff 6 (boot handoff sunny_os 0)) 5 = Some 1) by (by vm_compute).
    by rewrite Hm in E.
  - done.
  - intros k m1 Hk E Hrel. apply next_call_releasing in Hrel as (tid & a & En & Hmay). rewrite <- E in En.
    clear - Hk En Hmay. do 5 (destruct k as [|k]; [vm_compute in En; simplify_eq;
      destruct Hmay as [Ha|[Ht [Ha|[c Ha]]]]; simplify_eq; done|]). lia.
  - exact Hm'.
Defined.
