(* ===== verification/Waiting.v ===== *)
(** * No waiter is lost

    A thread that is BLOCKED has to be in some wait queue, for only operations that take it out of
    a queue make it ready again.  The invariant is proved on the abstract model of [SyncSpec] and
    carried over to the machine by the refinement. *)

From S2P Require Import Prelude WaitQueue TraceFormat State Stack TraceBuffer Trace Runtime Replay.
From S2P Require Import Fuzz Sched Thread Mutex Sem Cond Lifecycle Machine Scripts Invariant Ops Switching Safety.
From S2P Require Import SyncSpec Frame Exclusion.
Import Sync.

(** Slot [i] is in the queue of some object. *)
Definition queued (a : astate) (i : nat) : Prop :=
  (∃ m, Z.of_nat i ∈ am_waiters (a_mutex a m)) ∨
  (∃ s, Z.of_nat i ∈ as_waiters (a_sem a s)) ∨
  (∃ c, Z.of_nat i ∈ ac_waiters (a_cond a c)).

Definition blocked_in (a : astate) (i : nat) : Prop := a_threads a !! i = Some GTH_THREAD_BLOCKED.

(** Every blocked thread is queued, or in [q], the waiters about to be woken. *)
Definition accounted_but (q : list Z) (a : astate) : Prop :=
  ∀ i, blocked_in a i → queued a i ∨ Z.of_nat i ∈ q.

Definition accounted (a : astate) : Prop := ∀ i, blocked_in a i → queued a i.

Lemma accounted_nil a : accounted_but [] a ↔ accounted a.
Proof.
  split; intros H i Hi; [|left; by apply H]. destruct (H i Hi) as [|Hn]; [done|]. by apply not_elem_of_nil in Hn.
Qed.

(** ** Queues *)

Section queues.
Context (a : astate) (i : nat).

Lemma queued_set_m m y :
  queued a i → (Z.of_nat i ∈ am_waiters (a_mutex a m) → Z.of_nat i ∈ am_waiters y) →
  queued (set_m m y a) i.
Proof using Type.
  intros [[m' Hm]|[Hs|Hc]] Hy; [|by right; left|by right; right]. left. exists m'. cbn.
  destruct (decide (m = m')) as [<-|Hne]; [rewrite fn_lookup_insert; auto|by rewrite fn_lookup_insert_ne].
Qed.

Lemma queued_set_s s y :
  queued a i → (Z.of_nat i ∈ as_waiters (a_sem a s) → Z.of_nat i ∈ as_waiters y) →
  queued (set_s s y a) i.
Proof using Type.
  intros [Hm|[[s' Hs]|Hc]] Hy; [by left| |by right; right]. right. left. exists s'. cbn.
  destruct (decide (s = s')) as [<-|Hne]; [rewrite fn_lookup_insert; auto|by rewrite fn_lookup_insert_ne].
Qed.

Lemma queued_set_c c y :
  queued a i → (Z.of_nat i ∈ ac_waiters (a_cond a c) → Z.of_nat i ∈ ac_waiters y) →
  queued (set_c c y a) i.
Proof using Type.
  intros [Hm|[Hs|[c' Hc]]] Hy; [by left|by right; left|]. right. right. exists c'. cbn.
  destruct (decide (c = c')) as [<-|Hne]; [rewrite fn_lookup_insert; auto|by rewrite fn_lookup_insert_ne].
Qed.

Lemma queued_in_m m y : Z.of_nat i ∈ am_waiters y → queued (set_m m y a) i.
Proof using Type. intros H. left. exists m. cbn. by rewrite fn_lookup_insert. Qed.
Lemma queued_in_s s y : Z.of_nat i ∈ as_waiters y → queued (set_s s y a) i.
Proof using Type. intros H. right. left. exists s. cbn. by rewrite fn_lookup_insert. Qed.
Lemma queued_in_c c y : Z.of_nat i ∈ ac_waiters y → queued (set_c c y a) i.
Proof using Type. intros H. right. right. exists c. cbn. by rewrite fn_lookup_insert. Qed.
End queues.

(** ** Steps of the model *)

Lemma accounted_same a a' :
  accounted a → a_threads a' = a_threads a → (∀ i, queued a i → queued a' i) → accounted a'.
Proof. intros H E Hq i Hi. apply Hq, H. unfold blocked_in in *. by rewrite <- E. Qed.

(** A waiter that leaves its queue is woken. *)
Lemma accounted_wake slot q a : accounted_but (slot :: q) a → accounted_but q (wake slot a).
Proof.
  intros H i Hi. unfold blocked_in, wake in Hi. cbn in Hi. destruct (decide (i = Z.to_nat slot)) as [->|Hne].
  - rewrite list_lookup_alter_eq in Hi. destruct (a_threads a !! Z.to_nat slot) as [st|]; [|done]. by destruct st.
  - rewrite list_lookup_alter_ne in Hi by done.
    destruct (H i Hi) as [|[Hs|]%elem_of_cons]; [by left| |by right]. lia.
Qed.

(** A thread that blocks has joined a queue. *)
Lemma accounted_block c a : accounted a → queued a c → accounted (set_thread c GTH_THREAD_BLOCKED a).
Proof.
  intros H Hc i Hi. unfold blocked_in in Hi. cbn in Hi. destruct (decide (i = c)) as [->|Hne]; [exact Hc|].
  rewrite list_lookup_alter_ne in Hi by done. exact (H i Hi).
Qed.

Lemma accounted_wakes q : ∀ a, accounted_but q a → accounted (foldl (λ a slot, wake slot a) a q).
Proof.
  induction q as [|slot q IH]; intros a H; cbn [foldl]; [by apply accounted_nil|].
  apply IH. by apply accounted_wake.
Qed.

(** What happens to the waiters of the object that an operation replaces. *)
Lemma accounted_set_m m y a q :
  accounted a → (∀ z, z ∈ am_waiters (a_mutex a m) → z ∈ am_waiters y ∨ z ∈ q) →
  accounted_but q (set_m m y a).
Proof.
  intros H Hy i Hi. destruct (decide (Z.of_nat i ∈ q)) as [|Hq]; [by right|left].
  apply queued_set_m; [exact (H i Hi)|]. intros Hin. by destruct (Hy _ Hin).
Qed.
Lemma accounted_set_s s y a q :
  accounted a → (∀ z, z ∈ as_waiters (a_sem a s) → z ∈ as_waiters y ∨ z ∈ q) →
  accounted_but q (set_s s y a).
Proof.
  intros H Hy i Hi. destruct (decide (Z.of_nat i ∈ q)) as [|Hq]; [by right|left].
  apply queued_set_s; [exact (H i Hi)|]. intros Hin. by destruct (Hy _ Hin).
Qed.
Lemma accounted_set_c c y a q :
  accounted a → (∀ z, z ∈ ac_waiters (a_cond a c) → z ∈ ac_waiters y ∨ z ∈ q) →
  accounted_but q (set_c c y a).
Proof.
  intros H Hy i Hi. destruct (decide (Z.of_nat i ∈ q)) as [|Hq]; [by right|left].
  apply queued_set_c; [exact (H i Hi)|]. intros Hin. by destruct (Hy _ Hin).
Qed.

Section model.
Context (a : astate) (Ha : accounted a).

Lemma accounted_take cl m : accounted (snd (m_take cl m (a_mutex a m) a)).
Proof using Ha. apply accounted_nil, accounted_set_m; auto. Qed.

Lemma accounted_park c m : accounted (snd (m_park c m (a_mutex a m) a)).
Proof using Ha.
  unfold m_park. destruct (m_full _); [done|]. cbn [snd]. apply accounted_block.
  - apply accounted_nil, accounted_set_m; [done|]. intros z Hz. left. cbn. set_solver.
  - apply queued_in_m. cbn. set_solver.
Qed.

Lemma accounted_lock cl m : accounted (snd (m_lock cl m a)).
Proof using Ha.
  unfold m_lock. destruct (m =? 0); [done|]. destruct (negb _); [done|].
  destruct (am_owner _); [|apply accounted_take]. destruct (_ =? _); [done|].
  destruct (cl_slot cl); [apply accounted_park|done].
Qed.

Lemma accounted_relock cl c m : accounted (snd (m_relock cl c m a)).
Proof using Ha. unfold m_relock. destruct (am_owner _); [apply accounted_park|apply accounted_take]. Qed.

Lemma accounted_unlock cl m : accounted (snd (m_unlock cl m a)).
Proof using Ha.
  unfold m_unlock. destruct (m =? 0); [done|]. destruct (negb _); [done|]. destruct (am_owner _) as [o|]; [|done].
  destruct (_ && _); [done|]. destruct (am_waiters (a_mutex a m)) as [|slot q] eqn:E; cbn [snd].
  - apply accounted_nil, accounted_set_m; [done|]. intros z. rewrite E. auto.
  - apply accounted_nil, accounted_wake, accounted_set_m; [done|]. intros z. rewrite E. cbn. set_solver.
Qed.

Lemma accounted_sem_wait cl s : accounted (snd (s_wait cl s a)).
Proof using Ha.
  unfold s_wait. destruct (s =? 0); [done|]. destruct (negb _); [done|]. destruct (_ =? 0).
  - destruct (cl_slot cl) as [c|]; [|done]. destruct (_ <=? _)%nat; [done|]. cbn [snd]. apply accounted_block.
    + apply accounted_nil, accounted_set_s; [done|]. intros z Hz. left. cbn. set_solver.
    + apply queued_in_s. cbn. set_solver.
  - apply accounted_nil, accounted_set_s; auto.
Qed.

Lemma accounted_sem_post s : accounted (snd (s_post s a)).
Proof using Ha.
  unfold s_post. destruct (s =? 0); [done|]. destruct (negb _); [done|].
  destruct (as_waiters (a_sem a s)) as [|slot q] eqn:E; cbn [snd].
  - destruct (_ =? _); [done|]. apply accounted_nil, accounted_set_s; [done|]. intros z. rewrite E. auto.
  - apply accounted_nil, accounted_wake, accounted_set_s; [done|]. intros z. rewrite E. cbn. set_solver.
Qed.

End model.

Lemma spec_remove_other q x z : z ∈ q → z ≠ x → z ∈ snd (Spec.remove q x).
Proof.
  intros Hz Hne. induction q as [|y q IH]; [done|]. cbn [Spec.remove].
  destruct (Z.eqb_spec y x); cbn [snd]; [set_solver|]. destruct (Spec.remove q x) as [b r]. cbn in *. set_solver.
Qed.

Lemma accounted_cond_wait a cl c m : accounted a → accounted (snd (c_wait cl c m a)).
Proof.
  intros Ha. unfold c_wait. destruct (_ || _); [done|]. destruct (negb _); [done|]. destruct (cl_slot cl) as [i|]; [|done].
  destruct (_ <=? _)%nat; [done|]. cbv zeta. set (q := ac_waiters (a_cond a c) ++ [Z.of_nat i]).
  match goal with |- context [m_unlock cl m ?b] => set (a1 := b) end.
  assert (H1 : accounted a1).
  { apply (accounted_block i (set_c c {| (a_cond a c) with ac_waiters := q |} a)).
    - apply accounted_nil, accounted_set_c; [done|]. intros z Hz. left. cbn. unfold q. set_solver.
    - apply queued_in_c. cbn. unfold q. set_solver. }
  assert (H2 : accounted (set_c c {| (a_cond a c) with ac_waiters := snd (Spec.remove q (Z.of_nat i)) |}
                            (set_thread i GTH_THREAD_RUNNING a))).
  { intros j Hj. unfold blocked_in in Hj. cbn in Hj. destruct (decide (j = i)) as [->|Hne].
    { rewrite list_lookup_alter_eq in Hj. by destruct (a_threads a !! i). }
    rewrite list_lookup_alter_ne in Hj by done. apply (queued_set_c (set_thread i GTH_THREAD_RUNNING a) j c).
    - exact (Ha j Hj).
    - intros Hin. apply spec_remove_other; [|lia]. unfold q. apply elem_of_app. by left. }
  pose proof (accounted_unlock a1 H1 cl m) as H3.
  destruct (m_unlock cl m a1) as [st a2]. by destruct st.
Qed.

(** The call discards waiters: it initialises an object that has some. *)
Definition drops_waiters (f : api) (a : astate) : Prop :=
  match f with
  | AMutexInit m => am_waiters (a_mutex a m) ≠ []
  | ASemInit s _ => as_waiters (a_sem a s) ≠ []
  | ACondInit c => ac_waiters (a_cond a c) ≠ []
  | _ => False
  end.

Lemma accounted_spec cl f a spec :
  accounted a → ¬ drops_waiters f a → sync_spec cl f a = Some spec → accounted (snd spec).
Proof.
  intros Ha Hd E. destruct f; try done; cbn [sync_spec drops_waiters] in *; injection E as <-.
  - unfold m_init. destruct (_ =? _); [done|]. apply accounted_nil, accounted_set_m; [done|].
    apply dec_stable in Hd. rewrite Hd. auto.
  - by apply accounted_lock.
  - unfold m_trylock. repeat case_match; try done. by apply accounted_take.
  - by apply accounted_unlock.
  - unfold m_destroy. repeat case_match; try done. apply accounted_nil, accounted_set_m; [done|].
    intros z. replace (am_waiters (a_mutex a m)) with (@nil Z) by congruence. auto.
  - unfold s_init. destruct (_ =? _); [done|]. apply accounted_nil, accounted_set_s; [done|].
    apply dec_stable in Hd. rewrite Hd. auto.
  - by apply accounted_sem_wait.
  - by apply accounted_sem_post.
  - unfold s_destroy. repeat case_match; try done. apply accounted_nil, accounted_set_s; [done|].
    intros z. replace (as_waiters (a_sem a s)) with (@nil Z) by congruence. auto.
  - unfold c_init. destruct (_ =? _); [done|]. apply accounted_nil, accounted_set_c; [done|].
    apply dec_stable in Hd. rewrite Hd. auto.
  - by apply accounted_cond_wait.
  - unfold c_signal. repeat case_match; try done. cbn [snd].
    apply accounted_nil, accounted_wake, accounted_set_c; [done|]. intros y.
    match goal with H : ac_waiters _ = _ :: _ |- _ => rewrite H end. cbn. set_solver.
  - unfold c_broadcast. repeat case_match; try done. cbn [snd].
    apply accounted_wakes, accounted_set_c; auto.
  - unfold c_destroy. repeat case_match; try done. apply accounted_nil, accounted_set_c; [done|].
    intros z. replace (ac_waiters (a_cond a c)) with (@nil Z) by congruence. auto.
Qed.

(** ** Steps of the machine *)

Lemma accounted_abs w a : abs w a → accounted a → accounted (alpha w).
Proof.
  intros [E Em Es Ec] Ha i Hi. unfold blocked_in in Hi. cbn in Hi. rewrite E in Hi.
  destruct (Ha i Hi) as [[m H]|[[s H]|[c H]]].
  - left. exists m. by rewrite <- Em in H.
  - right. left. exists s. by rewrite <- Es in H.
  - right. right. exists c. by rewrite <- Ec in H.
Qed.

Lemma queues_objs w w' : objs w' = objs w → ∀ ts,
  mk_astate ts (a_mutex (alpha w')) (a_sem (alpha w')) (a_cond (alpha w')) =
  mk_astate ts (a_mutex (alpha w)) (a_sem (alpha w)) (a_cond (alpha w)).
Proof. intros [= Em Es Ec] ts. unfold alpha, mutex_at, sem_at, cond_at. cbn. by rewrite Em, Es, Ec. Qed.

Lemma accounted_settles w w' : settles w w' → accounted (alpha w) → accounted (alpha w').
Proof.
  intros [Eo Hb] Ha i Hi. unfold blocked_in in Hi. cbn in Hi.
  apply list_lookup_fmap_Some in Hi as (t' & Est & Ht').
  destruct (Hb i t' Ht') as (t & Ht & Hbt); [unfold is_blocked; by rewrite <- Est|].
  assert (Hi : blocked_in (alpha w) i).
  { unfold blocked_in. cbn. rewrite list_lookup_fmap, Ht. cbn. unfold is_blocked in Hbt. by destruct (th_state t). }
  pose proof (Ha i Hi) as Hq. change (queued (mk_astate [] (a_mutex (alpha w)) (a_sem (alpha w)) (a_cond (alpha w))) i) in Hq.
  rewrite <- (queues_objs w w' Eo) in Hq. exact Hq.
Qed.

#[export] Instance accounted_sync_inv : SyncInv (λ _ f a, drops_waiters f a) accounted.
Proof.
  constructor; intros.
  - by eapply accounted_abs.
  - by eapply accounted_settles.
  - by eapply accounted_spec.
  - by apply accounted_lock.
  - by apply accounted_relock.
Qed.

(** The executing stack is about to initialise an object that has waiters. *)
Definition reinitialises (P : program) (m : machine P) : Prop :=
  about_to P (λ _ f a, drops_waiters f a) m.

(** C9. No waiter is lost.  In every reachable state of a program that does not initialise an
    object anew while threads wait for it, every BLOCKED thread is in the wait queue of some mutex,
    semaphore or condition variable, so that a later unlock, post or signal finds it.  Blocking and
    leaving a queue are done in the right order on every path, the failed condition wait and
    cancellation included. *)
Theorem no_lost_waiter P os fuel n m i t :
  disciplined P → Z.of_nat n < 2 ^ 64 - 2 → run P n (boot P os fuel) = Next P m →
  (∀ k m', (k < n)%nat → run P k (boot P os fuel) = Next P m' → ¬ reinitialises P m') →
  rt_threads (w_rt (m_world P m)) !! i = Some t → th_state t = GTH_THREAD_BLOCKED →
  (∃ x, Z.of_nat i ∈ wq_elems (mx_wq (mutex_at (m_world P m) x))) ∨
  (∃ s, Z.of_nat i ∈ wq_elems (sm_wq (sem_at (m_world P m) s))) ∨
  (∃ c, Z.of_nat i ∈ wq_elems (cv_wq (cond_at (m_world P m) c))).
Proof.
  intros HP Hn Hrun Hre Ht Hst.
  assert (H0 : accounted (alpha (m_world P (boot P os fuel)))).
  { intros j Hj. change ((th_state <$> replicate GTH_MAX_THREADS thread_zero) !! j = Some GTH_THREAD_BLOCKED) in Hj.
    rewrite list_lookup_fmap in Hj.
    apply fmap_Some in Hj as (t0 & Ht0 & Hb). by apply lookup_replicate_1 in Ht0 as [-> _]. }
  pose proof (run_inv P _ accounted os fuel 0 n (boot P os fuel) HP Hn eq_refl H0 Hre m Hrun) as H.
  apply (H i). unfold blocked_in. cbn [alpha a_threads]. by rewrite list_lookup_fmap, Ht, <- Hst.
Qed.

(** ** Witness: thread 2 of [handoff] waits for the mutex *)

Definition waiters_after {P} (r : step_result P) (x : Z) : list Z :=
  match r with Next _ m => am_waiters (a_mutex (alpha (m_world P m)) x) | _ => [] end.

Lemma no_lost_waiter_witness : ∃ m t,
  run handoff 10 (boot handoff sunny_os 0) = Next handoff m ∧
  rt_threads (w_rt (m_world handoff m)) !! 1%nat = Some t ∧ th_state t = GTH_THREAD_BLOCKED ∧
  ((∃ x, 1 ∈ wq_elems (mx_wq (mutex_at (m_world handoff m) x))) ∨
   (∃ s, 1 ∈ wq_elems (sm_wq (sem_at (m_world handoff m) s))) ∨
   (∃ c, 1 ∈ wq_elems (cv_wq (cond_at (m_world handoff m) c)))).
Proof.
  destruct (is_next_true (run handoff 10 (boot handoff sunny_os 0))) as [m Hm]; [by vm_compute|].
  assert (Hb : match run handoff 10 (boot handoff sunny_os 0) with
    | Next _ m => th_state <$> rt_threads (w_rt (m_world handoff m)) !! 1%nat | _ => None end =
    Some GTH_THREAD_BLOCKED) by (by vm_compute).
  rewrite Hm in Hb. apply fmap_Some in Hb as (t & Ht & Hst). exists m, t.
  split; [exact Hm|]. split; [exact Ht|]. split; [done|].
  apply (no_lost_waiter handoff sunny_os 0 10 m 1 t).
  - apply handoff_disciplined.
  - cbn. lia.
  - exact Hm.
  - intros k m1 Hk E (tid & u & a & H1 & H2 & H3).
    pose proof (next_call_eq _ _ _ _ _ H1 H2) as En.
    rewrite <- E in En.
    assert (Hwait : waiters_after (run handoff k (boot handoff sunny_os 0)) 5 = [] ∨ ¬ ∃ x, a = AMutexInit x).
    { clear - Hk En. do 10 (destruct k as [|k]; [vm_compute in En; injection En as <- <- || done;
        first [left; by vm_compute | right; by intros [x Hx]]|]). lia. }
    assert (Hone : a = AMutexInit 5 ∨ ¬ drops_waiters a (alpha (m_world handoff m1))).
    { clear - Hk En. do 10 (destruct k as [|k]; [vm_compute in En; injection En as <- <- || done;
        first [by left | right; by intros []]|]). lia. }
    rewrite E in Hwait. clear - Hwait Hone H3. destruct Hone as [Ea|Hn]; [|exact (Hn H3)]. rewrite Ea in H3.
    destruct Hwait as [Hw|Hw]; [exact (H3 Hw)|]. apply Hw. exists 5. exact Ea.
  - exact Ht.
  - done.
Defined.
