(* ===== verification/ThreadSpec.v ===== *)
(** * What the thread functions promise

    The outcome of [gth_thread_create], [gth_thread_join],
    [gth_thread_cancel], [gth_runtime_init], [gth_runtime_shutdown] and
    [gth_runtime_get_stats] on every branch, with the exact change of the
    thread table and of the mapped stacks. *)

From S2P Require Import Prelude WaitQueue TraceFormat State Stack TraceBuffer Trace Runtime Replay.
From S2P Require Import Fuzz Sched Thread Mutex Sem Cond Lifecycle Machine Scripts Invariant Ops Switching Safety SyncSpec Frame.

(** ** Creation *)

(** The record of a thread that has just been created. *)
Definition created_thread (i : nat) (tid : Z) (attr : option gth_thread_attr_t) (fn arg : Z)
    (stk : gth_stack_allocation_t) : gth_thread_record_t :=
  {| (new_thread i tid attr fn arg) with th_stack := stk; th_ctx := gth_context_init_thread stk i |}.

Definition create_outcome (size page : Z) (i : nat) (attr : option gth_thread_attr_t) (fn arg : Z)
    (w : world) (r : resp) (w' : world) : Prop :=
  let s := w_rt w in let s' := w_rt w' in
  rt_next_tid s' = rt_next_tid s + 1 ∧ page_of w' = page_of w ∧
  match r_status r with
  | GTH_OK => r_out r = [rt_next_tid s] ∧ GTH_MIN_STACK_SIZE ≤ size ≤ GTH_MAX_STACK_SIZE ∧
      ∃ stk, stack_layout size page stk ∧
      rt_threads s' = <[i := created_thread i (rt_next_tid s) attr fn arg stk]> (rt_threads s) ∧
      rt_runnable_threads s' = rt_runnable_threads s + 1 ∧
      maps_stack page stk (w_mapped w) (w_mapped w')
  | GTH_EINVAL => (size < GTH_MIN_STACK_SIZE ∨ GTH_MAX_STACK_SIZE < size) ∧
      rt_threads s' = rt_threads s ∧ rt_runnable_threads s' = rt_runnable_threads s ∧
      w_mapped w' = w_mapped w
  | GTH_ENOMEM | GTH_EINTERNAL =>
      rt_threads s' = rt_threads s ∧ rt_runnable_threads s' = rt_runnable_threads s ∧
      w_mapped w' = w_mapped w
  | _ => False
  end.

Lemma alter_insert {A} (i : nat) (x : A) (l : list A) : alter (λ _, x) i l = <[i := x]> l.
Proof.
  apply list_eq. intros j. destruct (decide (j = i)) as [->|Hne].
  - rewrite list_lookup_alter_eq. destruct (l !! i) as [y|] eqn:E.
    + rewrite list_lookup_insert_eq; [done|]. by eapply lookup_lt_Some.
    + cbn. symmetry. apply lookup_ge_None. rewrite length_insert. by apply lookup_ge_None.
  - by rewrite list_lookup_alter_ne, list_lookup_insert_ne.
Qed.

(** The allocation of the new thread's stack. *)
Lemma allocate_outcome w size k :
  page_of w = 2 ^ k → 0 ≤ k ≤ 30 → mmap_sound w →
  returns (gth_stack_allocate size) w (λ '(st, stk) w', same_but_maps w w' ∧ page_of w' = page_of w ∧
    match st with
    | GTH_OK => GTH_MIN_STACK_SIZE ≤ size ≤ GTH_MAX_STACK_SIZE ∧
        stack_layout size (2 ^ k) stk ∧ maps_stack (2 ^ k) stk (w_mapped w) (w_mapped w')
    | GTH_EINVAL => (size < GTH_MIN_STACK_SIZE ∨ GTH_MAX_STACK_SIZE < size) ∧ w_mapped w' = w_mapped w
    | GTH_ENOMEM | GTH_EINTERNAL => w_mapped w' = w_mapped w
    | _ => False
    end).
Proof.
  intros Hp Hk Hmm. destruct (decide (GTH_MIN_STACK_SIZE ≤ size ≤ GTH_MAX_STACK_SIZE)) as [Hsz|Hsz].
  - eapply returns_mono; [by apply (stack_allocate_in_range w size k)|].
    intros [st stk] w' (Hrt & Hpg & [(-> & Hl & Hm)|([->| ->] & -> & Hm)]); auto.
  - unfold returns. rewrite (stack_allocate_out_of_range w size k) by (done || lia).
    split; [done|]. split; [apply page_of_cached|]. split; [lia|done].
Qed.

Lemma create_slot_outcome i attr fn arg w w2 st stk size k :
  world_ok w → rt_threads (w_rt w) !! i = Some thread_zero →
  same_but_maps (creating i (new_thread i (rt_next_tid (w_rt w)) attr fn arg) w) w2 → page_of w2 = page_of w →
  match st with
  | GTH_OK => GTH_MIN_STACK_SIZE ≤ size ≤ GTH_MAX_STACK_SIZE ∧
        stack_layout size (2 ^ k) stk ∧ maps_stack (2 ^ k) stk (w_mapped w) (w_mapped w2)
  | GTH_EINVAL => (size < GTH_MIN_STACK_SIZE ∨ GTH_MAX_STACK_SIZE < size) ∧ w_mapped w2 = w_mapped w
  | GTH_ENOMEM | GTH_EINTERNAL => w_mapped w2 = w_mapped w
  | _ => False
  end →
  returns match st with
    | GTH_OK =>
        modify (upd_rt (upd_thread i (λ t, {| t with th_stack := stk; th_ctx := gth_context_init_thread stk i |})));;
        modify (upd_rt (λ s, {| s with rt_runnable_threads := u64 (rt_runnable_threads s + 1) |}));;
        modify (gth_trace_thread_create (rt_next_tid (w_rt w)));;
        ret (mk_resp GTH_OK [rt_next_tid (w_rt w)])
    | st => modify (upd_rt (upd_thread i (λ _, thread_zero)));; ret (status st)
    end w2 (create_outcome size (2 ^ k) i attr fn arg w).
Proof.
  intros Hw Ht H2 Hpg Hst. pose proof (same_but_maps_rt _ _ H2) as Ert.
  assert (Hbad : rt_threads (w_rt (upd_rt (upd_thread i (λ _, thread_zero)) w2)) = rt_threads (w_rt w)).
  { cbn. rewrite Ert. cbn. by rewrite alter_alter, (alter_const _ _ _ thread_zero). }
  destruct st; try done; try (apply returns_bind, returns_modify, returns_ret; unfold create_outcome; cbn -[Z.pow];
    cbn -[Z.pow] in Hbad; rewrite Ert in *; split; [done|]; split; [exact Hpg|]; split_and!; try apply Hst; try done; by rewrite ?Hbad).
  destruct Hst as (Hsize & Hl & Hm). apply returns_bind, returns_modify, returns_bind, returns_modify, returns_bind,
    returns_modify, returns_ret. unfold gth_trace_thread_create.
  match goal with |- context [gth_trace_record ?e ?t ?a ?b ?x] =>
    pose proof (untrace_record e t a b x) as Eut; set (w3 := gth_trace_record e t a b x) in *; set (w4 := x) in * end.
  unfold create_outcome. cbn [r_status r_out]. rewrite (ut_next_tid _ _ Eut).
  split; [unfold w4; cbn; by rewrite Ert|]. split; [rewrite (ut_page_of _ _ Eut); exact Hpg|]. split; [done|]. split; [done|]. exists stk.
  rewrite (ut_threads _ _ Eut), (ut_runnable_threads _ _ Eut), (ut_mapped _ _ Eut).
  unfold w4. cbn -[Z.pow]. rewrite Ert. cbn -[Z.pow]. rewrite alter_alter, alter_insert.
  split_and!; try done. apply counter_succ. by apply world_counters.
Qed.

Lemma create_spec out attr fn arg w k :
  world_ok w → tid_room w → page_of w = 2 ^ k → 0 ≤ k ≤ 30 → mmap_sound w →
  returns (gth_thread_create out attr fn arg) w (λ r w',
    if negb (rt_initialized (w_rt w)) then r = status GTH_ESTATE ∧ w' = w
    else if negb out || (fn =? 0) then r = status GTH_EINVAL ∧ w' = w
    else match gth_runtime_alloc_thread_slot (w_rt w) with
    | None => r = status GTH_ENOMEM ∧ w' = w
    | Some i => create_outcome (cfg_stack_size_bytes (rt_config (w_rt w))) (2 ^ k) i attr fn arg w r w'
    end).
Proof.
  intros Hw Hroom Hp Hk Hmm. unfold gth_thread_create, returns. destruct (negb (rt_initialized _)); [done|].
  destruct (negb out || (fn =? 0)); [done|]. apply returns_fold, returns_bind.
  unfold returns at 1, gth_thread_acquire_slot.
  destruct (gth_runtime_alloc_thread_slot (w_rt w)) as [i|] eqn:Ha; [|by apply returns_ret].
  apply alloc_slot_Some in Ha as (t & Ht & Hst). apply is_empty_true in Hst.
  assert (t = thread_zero) as -> by (by eapply (tb_empty _ _ _ _ _ _ (wo_table _ Hw))).
  apply returns_bind, returns_gets, returns_bind, returns_modify, returns_bind, returns_modify.
  apply returns_bind, returns_gets, returns_bind.
  match goal with |- returns (gth_stack_allocate ?sz) ?x _ =>
    assert (E : x = creating i (new_thread i (rt_next_tid (w_rt w)) attr fn arg) w) end.
  { unfold creating, upd_rt, upd_thread. cbn. rewrite alter_alter.
    rewrite (wrap_small 64); [done|]. unfold fits, tid_room in *.
    pose proof (tb_next _ _ _ _ _ _ (wo_table _ Hw)). lia. }
  rewrite E. clear E. eapply returns_mono; [by apply (allocate_outcome _ _ k)|].
  intros [st stk] w2 (H2 & Hpg & Hout). exact (create_slot_outcome i attr fn arg w w2 st stk _ k Hw Ht H2 Hpg Hout).
Qed.

(** C24. Creating a thread, with a page size that is a power of two: refused
    before initialisation, without an out-parameter or a function, and when
    the table is full; otherwise the first free slot gets a READY record with
    the next id, a stack of the configured size and a context that enters the
    trampoline on that stack, and the runnable count grows by one.  If the
    stack cannot be allocated the table and the mappings are as before and
    only the id is used up. *)
Theorem thread_create_outcome out attr fn arg w k :
  world_ok w → tid_room w → page_of w = 2 ^ k → 0 ≤ k ≤ 30 → mmap_sound w →
  returns (gth_thread_create out attr fn arg) w (λ r w',
    if negb (rt_initialized (w_rt w)) then r = status GTH_ESTATE ∧ w' = w
    else if negb out || (fn =? 0) then r = status GTH_EINVAL ∧ w' = w
    else match gth_runtime_alloc_thread_slot (w_rt w) with
    | None => r = status GTH_ENOMEM ∧ w' = w
    | Some i => create_outcome (cfg_stack_size_bytes (rt_config (w_rt w))) (2 ^ k) i attr fn arg w r w'
    end).
Proof. apply create_spec. Qed.

Definition ready_world_0 : world :=
  mk_world {| rt_zero with rt_initialized := true; rt_next_tid := 1; rt_config := demo_config;
              rt_last_rr_slot := 127%nat |} ∅ ∅ ∅ ∅ ∅ 0
    (mk_os 4096 (λ _, true) (λ _ size, if size <? 2 ^ 40 then Some (2 ^ 32) else None) (λ _, true)
       (λ _, 0) (λ _, None) (λ _, true) (λ _ k, k) (λ _, true)) 0 0.

Lemma ready_world_0_ok : world_ok ready_world_0.
Proof.
  constructor; [apply fresh_table; cbn; [lia|lia|unfold GTH_MAX_THREADS; lia]|constructor|done];
    intros x; unfold mutex_at, sem_at, cond_at; cbn; by rewrite lookup_empty.
Qed.

Lemma ready_world_0_mmap : mmap_sound ready_world_0.
Proof.
  intros size a _. cbn -[Z.pow Z.ltb]. destruct (Z.ltb_spec size (2 ^ 40)); [|done].
  intros [= <-]. split_and!; [lia|lia| |done]. by exists (2 ^ 20).
Qed.

Lemma thread_create_outcome_witness :
  returns (gth_thread_create true None 7 9) ready_world_0
    (create_outcome 65536 (2 ^ 12) 0 None 7 9 ready_world_0).
Proof.
  apply (thread_create_outcome true None 7 9 ready_world_0 12).
  - apply ready_world_0_ok.
  - unfold tid_room. cbn. lia.
  - reflexivity.
  - lia.
  - apply ready_world_0_mmap.
Defined.

(** ** Dispatching from main *)

Definition no_ready (s : gth_runtime_state_t) : Prop :=
  ∀ j u, rt_threads s !! j = Some u → is_ready u = false.

Lemma pick_none w w' :
  world_ok w → gth_scheduler_pick_ready_thread_mode w = Done (None, w') →
  rt_mode (w_rt w) ≠ GTH_MODE_REPLAY → no_ready (w_rt w).
Proof.
  intros Hw E Hmode. assert (E' : pick_normal_or_fuzzed w = Done (None, w')).
  { unfold gth_scheduler_pick_ready_thread_mode in E. by destruct (rt_mode (w_rt w)). }
  clear E. unfold pick_normal_or_fuzzed in E'. destruct (wo_table _ Hw).
  destruct (gth_scheduler_pick_ready_thread (w_rt w)) as [o s'] eqn:Ep.
  apply pick_ready_spec in Ep as [_ Ho]; [|done..]. destruct o as [i|]; [|exact Ho]. exfalso.
  destruct (rt_mode s'); try done. destruct (rt_fuzz s') as [f|]; [|done].
  unfold gth_fuzz_pick_thread in E'. destruct (gth_fuzz_should_perturb f) as [[] f1]; cbn in E'; [|done].
  by destruct (gth_fuzz_pick_alternative _ _ _ _) as [[j f2]| |].
Qed.

(** The outcome of handing the processor over from main. *)
Definition dispatch_outcome (k : run_next_caller) (w : world) (r : gth_status_t + result) (w' : world) : Prop :=
  match r with
  | inl st => st = GTH_ENOTFOUND ∧ rt_threads (w_rt w') = rt_threads (w_rt w) ∧
      (rt_mode (w_rt w) ≠ GTH_MODE_REPLAY → no_ready (w_rt w))
  | inr sw => ∃ j u, sw = Swap SchedCtx (ThreadCtx j) (KRunNext 0 k) ∧
      rt_threads (w_rt w) !! j = Some u ∧ is_ready u = true ∧
      rt_threads (w_rt w') = <[j := set_state GTH_THREAD_RUNNING u]> (rt_threads (w_rt w)) ∧
      rt_current_tid (w_rt w') = th_tid u
  end.

Lemma run_next_outcome k w :
  world_ok w → cur_ok None (w_rt w) → rt_initialized (w_rt w) = true →
  safe (fuzz_stuck w) (gth_scheduler_run_next k) w (dispatch_outcome k w).
Proof.
  intros Hw Hc Hini. pose proof (run_next_main k w Hw Hc) as Hr. pose proof (pick_none w) as Hnone.
  pose proof (pick_mode_safe w Hw (none_running_main _ Hc)) as Hpick.
  unfold gth_scheduler_run_next, safe in *. rewrite Hini in *. cbn [negb] in *. unfold bind at 1 in Hr. unfold bind at 1.
  destruct (gth_scheduler_pick_ready_thread_mode w) as [[[i|] w1]| |]; [| |done|done].
  - destruct Hpick as (H1 & Hts & t & Ht & Hready).
    destruct (bind (thread_at i) _ w1) as [[r w2]| |] eqn:E; [|done..].
    unfold bind, thread_at, deref in E. rewrite Hts, Ht in E. cbn beta iota zeta in E. injection E as <- <-.
    destruct Hr as (j & Esw & [_ (u & Hu & Hur & Hcur) Hts' _]). exists j, u. rewrite Esw.
    split_and!; [done|done|done| |done].
    rewrite Hts'. rewrite (alter_at _ _ _ u _ Hu eq_refl). by rewrite alter_insert.
  - destruct Hpick as (H1 & Hts & _). split_and!; [done|done|]. by apply (Hnone w1).
Qed.

(** ** Join *)

(** The world after the finished thread in slot [i] has been released. *)
Definition released (i : nat) (t : gth_thread_record_t) (w w' : world) : Prop :=
  rt_threads (w_rt w') = <[i := thread_zero]> (rt_threads (w_rt w)) ∧
  rt_runnable_threads (w_rt w') = rt_runnable_threads (w_rt w) ∧
  rt_blocked_threads (w_rt w') = rt_blocked_threads (w_rt w) ∧
  w_mapped w' = w_mapped (gth_stack_free (th_stack t) w).

Lemma mapped_stack_free stk w w' : w_mapped w' = w_mapped w → page_of w' = page_of w →
  w_mapped (gth_stack_free stk w') = w_mapped (gth_stack_free stk w).
Proof. intros E1 E2. unfold gth_stack_free, munmap. destruct (_ && _); cbn; congruence. Qed.

Lemma stack_free_rt stk w : w_rt (gth_stack_free stk w) = w_rt w.
Proof. unfold gth_stack_free, munmap. by destruct (_ && _). Qed.

Lemma join_finish_outcome i t w :
  rt_threads (w_rt w) !! i = Some t → gth_thread_is_terminal (th_state t) = true →
  returns (join_finish i) w (λ r w', r = Return (mk_resp GTH_OK [th_retval t]) ∧ released i t w w').
Proof.
  intros Ht Hterm. unfold join_finish, gth_thread_release_slot.
  apply returns_bind. eapply returns_thread_at; [exact Ht|].
  apply returns_bind, returns_bind. eapply returns_thread_at; [exact Ht|].
  apply returns_bind, returns_modify, returns_bind, returns_modify, returns_bind, returns_modify, returns_modify.
  apply returns_ret. rewrite overwrite_after_free. split; [done|]. unfold is_ready, is_blocked. unfold released.
  assert (is_ready_st (th_state t) = false ∧ is_blocked_st (th_state t) = false) as [-> ->]
    by (by destruct (th_state t)).
  cbn -[gth_stack_free]. rewrite stack_free_rt. cbn -[gth_stack_free]. rewrite alter_insert.
  split_and!; try done. by apply mapped_stack_free.
Qed.

Definition join_outcome (tid : Z) (i : nat) (t : gth_thread_record_t) (w : world) (r : result) (w' : world) : Prop :=
  if gth_thread_is_terminal (th_state t)
  then r = Return (mk_resp GTH_OK [th_retval t]) ∧ released i t w w'
  else (r = Return (status GTH_EBUSY) ∧ rt_threads (w_rt w') = rt_threads (w_rt w) ∧
          (rt_mode (w_rt w) ≠ GTH_MODE_REPLAY → no_ready (w_rt w))) ∨
       dispatch_outcome (InJoin tid i) w (inr r) w'.

(** The loop of a join whose target is in slot [i]. *)
Lemma join_loop_outcome tid i t w :
  world_ok w → cur_ok None (w_rt w) → rt_initialized (w_rt w) = true →
  gth_runtime_find_thread (w_rt w) tid = Some i → rt_threads (w_rt w) !! i = Some t →
  safe (fuzz_stuck w) (r <- run_until_loop tid i;; join_after_run_until tid r) w (join_outcome tid i t w).
Proof.
  intros Hw Hc Hini Hfind Ht. unfold join_outcome, run_until_loop.
  apply safe_bind, safe_bind, safe_returns. eapply returns_thread_at; [exact Ht|].
  destruct (gth_thread_is_terminal (th_state t)) eqn:Hterm.
  - unfold safe, ret, join_after_run_until. rewrite Hfind. by apply safe_fold, safe_returns, join_finish_outcome.
  - apply safe_bind. eapply safe_mono; [by apply run_next_outcome|].
    intros [st|sw] w1 H; cbn beta in H.
    + destruct H as (-> & Hts & Hnr). left. by split_and!.
    + right. exact H.
Qed.

Lemma join_spec tid w :
  world_ok w → cur_ok None (w_rt w) →
  safe (fuzz_stuck w) (gth_thread_join tid) w (λ r w',
    if negb (rt_initialized (w_rt w)) then r = Return (status GTH_ESTATE) ∧ w' = w
    else if tid =? 0 then r = Return (status GTH_EINVAL) ∧ w' = w
    else match gth_runtime_find_thread (w_rt w) tid with
    | None => r = Return (status GTH_ENOTFOUND) ∧ w' = w
    | Some i => ∃ t, rt_threads (w_rt w) !! i = Some t ∧ th_tid t = tid ∧ join_outcome tid i t w r w'
    end).
Proof.
  intros Hw Hc. unfold gth_thread_join, safe. destruct (rt_initialized (w_rt w)) eqn:Hini; cbn [negb]; [|done].
  destruct (Z.eqb_spec tid 0) as [|Hnz]; [done|]. rewrite (co_current _ _ Hc).
  destruct (Z.eqb_spec tid 0); [done|].
  destruct (gth_runtime_find_thread (w_rt w) tid) as [i|] eqn:Hfind; [|done].
  assert (Hfind' := Hfind). apply find_thread_Some in Hfind' as (t & Ht & He & Htid).
  apply safe_fold. eapply (safe_mono _ _ _ (join_outcome tid i t w)); [|intros r w' H; by exists t].
  pose proof (join_loop_outcome tid i t w Hw Hc Hini Hfind Ht) as Hloop.
  apply safe_bind, safe_returns. eapply returns_thread_at; [exact Ht|].
  destruct (gth_thread_is_terminal (th_state t)) eqn:Hterm; cbn [negb].
  - unfold join_outcome. rewrite Hterm. by apply safe_returns, join_finish_outcome.
  - unfold safe, bind, gth_scheduler_run_until in Hloop |- *. rewrite Hini, Hfind, (co_current _ _ Hc). cbn [negb].
    destruct (Z.eqb_spec tid 0); [done|]. exact Hloop.
Qed.

(** C25. Joining from main: refused before initialisation, for id 0 and for an id
    that no live record has; a finished thread is reaped (its return value is
    handed over, its slot cleared, its stack unmapped); for an unfinished one
    a ready thread is dispatched, and EBUSY, which the header does not list, is
    answered if there is none.  The call always ends in one of these, except in the fuzzer's rejection loop. *)
Theorem thread_join_outcome tid w :
  world_ok w → cur_ok None (w_rt w) →
  safe (fuzz_stuck w) (gth_thread_join tid) w (λ r w',
    if negb (rt_initialized (w_rt w)) then r = Return (status GTH_ESTATE) ∧ w' = w
    else if tid =? 0 then r = Return (status GTH_EINVAL) ∧ w' = w
    else match gth_runtime_find_thread (w_rt w) tid with
    | None => r = Return (status GTH_ENOTFOUND) ∧ w' = w
    | Some i => ∃ t, rt_threads (w_rt w) !! i = Some t ∧ th_tid t = tid ∧ join_outcome tid i t w r w'
    end).
Proof. apply join_spec. Qed.

(** ** Cancellation *)

Definition canceled (t : gth_thread_record_t) : gth_thread_record_t :=
  {| t with th_state := GTH_THREAD_CANCELED; th_retval := 0 |}.

Lemma account_threads from to s : rt_threads (gth_runtime_account_state_change from to s) = rt_threads s.
Proof. unfold gth_runtime_account_state_change. repeat case_match; done. Qed.

(** The table after the last two statements of [gth_thread_cancel]. *)
Lemma set_canceled_table i u w :
  rt_threads (w_rt w) !! i = Some u → gth_thread_is_terminal (th_state u) = false →
  returns (gth_runtime_set_thread_state i GTH_THREAD_CANCELED;;
           modify (upd_rt (upd_thread i (λ t, {| t with th_retval := 0 |})));; ret GTH_OK) w
    (λ st w', st = GTH_OK ∧ rt_threads (w_rt w') = <[i := canceled u]> (rt_threads (w_rt w))).
Proof.
  intros Hu Hterm. unfold gth_runtime_set_thread_state. apply returns_bind, returns_bind.
  eapply returns_thread_at; [exact Hu|]. case_bool_decide as E; [by rewrite E in Hterm|].
  apply returns_bind, returns_modify, returns_modify, returns_bind, returns_modify, returns_ret.
  split; [done|]. cbn. rewrite account_threads, alter_alter.
  by rewrite (alter_at _ _ _ u _ Hu eq_refl), alter_insert.
Qed.

Lemma insert_alter {A} (f : A → A) i (x : A) (l : list A) : <[i := x]> (alter f i l) = <[i := x]> l.
Proof. rewrite <- !alter_insert. by rewrite alter_alter. Qed.

Lemma cancel_table tid i t w :
  world_ok w → rt_initialized (w_rt w) = true → tid ≠ 0 → gth_runtime_find_thread (w_rt w) tid = Some i →
  rt_threads (w_rt w) !! i = Some t → gth_thread_is_terminal (th_state t) = false →
  returns (gth_thread_cancel tid) w (λ st w', st = GTH_OK ∧
    rt_threads (w_rt w') = <[i := canceled t]> (rt_threads (w_rt w))).
Proof.
  intros Hw Hini Hnz Hfind Ht Hterm. unfold gth_thread_cancel, returns. rewrite Hini, Hfind. cbn [negb].
  destruct (Z.eqb_spec tid 0); [done|]. apply returns_fold, returns_bind. eapply returns_thread_at; [exact Ht|].
  rewrite Hterm. apply returns_bind, returns_modify, returns_bind. unfold gth_trace_thread_cancel.
  match goal with |- context [gth_trace_record ?e ?a ?b ?c w] =>
    pose proof (record_ok None e a b c w Hw) as H1; pose proof (untrace_record e a b c w) as Eut;
    set (w1 := gth_trace_record e a b c w) in * end.
  pose proof (ut_threads _ _ Eut) as Hts. pose proof (ut_initialized _ _ Eut) as Hini1. clearbody w1.
  destruct (is_blocked t) eqn:Hb.
  - assert (He : is_empty t = false) by (apply is_blocked_true in Hb; apply is_empty_false; congruence).
    rewrite (tb_slot _ _ _ _ _ _ (wo_table _ Hw) i t Ht He). unfold returns at 1.
    rewrite unblock_slot_spec, Hini1, Hini, Hts, Ht, Hb by apply H1. cbn [negb].
    destruct (Nat.leb_spec GTH_MAX_THREADS i); [by pose proof (lookup_lt_max w Hw i t Ht); lia|].
    unfold gth_trace_thread_unblock. set (w2 := gth_trace_record _ _ _ _ (woken i w1)).
    assert (Hts2 : rt_threads (w_rt w2) = alter (set_state GTH_THREAD_READY) i (rt_threads (w_rt w))).
    { unfold w2. rewrite (ut_threads _ _ (untrace_record _ _ _ _ _)). cbn. by rewrite Hts. }
    clearbody w2. eapply returns_mono; [apply (set_canceled_table i (set_state GTH_THREAD_READY t))|].
    + by rewrite Hts2, list_lookup_alter_eq, Ht.
    + done.
    + intros st w3 [-> ->]. split; [done|]. rewrite Hts2. by apply insert_alter.
  - apply returns_ret. eapply returns_mono; [apply (set_canceled_table i t); [congruence|done]|].
    intros st w3 [-> ->]. split; [done|]. by rewrite Hts.
Qed.

Lemma cancel_spec cur tid w :
  world_ok w → cur_ok cur (w_rt w) →
  returns (gth_thread_cancel tid) w (λ st w',
    if negb (rt_initialized (w_rt w)) then st = GTH_ESTATE ∧ w' = w
    else if tid =? 0 then st = GTH_EINVAL ∧ w' = w
    else match gth_runtime_find_thread (w_rt w) tid with
    | None => st = GTH_ENOTFOUND ∧ w' = w
    | Some i => ∃ t, rt_threads (w_rt w) !! i = Some t ∧ th_tid t = tid ∧
        if gth_thread_is_terminal (th_state t) then st = GTH_ESTATE ∧ w' = w
        else st = GTH_OK ∧ rt_threads (w_rt w') = <[i := canceled t]> (rt_threads (w_rt w)) ∧
          rt_runnable_threads (w_rt w') = rt_runnable_threads (w_rt w) - b2z (is_ready t) ∧
          rt_blocked_threads (w_rt w') = rt_blocked_threads (w_rt w) - b2z (is_blocked t) ∧
          objs w' = objs w
    end).
Proof.
  intros Hw Hc. pose proof (keeps_cancel cur tid w Hw Hc) as Hkeep. pose proof (frames_cancel tid w) as Hobj.
  pose proof (cancel_table tid) as Htab. unfold gth_thread_cancel, returns in *.
  destruct (rt_initialized (w_rt w)) eqn:Hini; cbn [negb] in *; [|done].
  destruct (Z.eqb_spec tid 0) as [|Hnz]; [done|].
  destruct (gth_runtime_find_thread (w_rt w) tid) as [i|] eqn:Hfind; [|done].
  assert (Hfind' := Hfind). apply find_thread_Some in Hfind' as (t & Ht & He & Htid).
  destruct (gth_thread_is_terminal (th_state t)) eqn:Hterm.
  - unfold bind at 1, thread_at, deref. rewrite Ht, Hterm. exists t. by rewrite Hterm.
  - specialize (Htab i t w Hw Hini Hnz Hfind Ht Hterm). rewrite Hini, Hfind in Htab. cbn [negb] in Htab.
    destruct (bind (thread_at i) _ w) as [[st w']| |]; [|done..]. destruct Htab as [-> Hts].
    exists t. rewrite Hterm. split_and!; try done; [..|exact (proj1 Hobj)].
    + rewrite (tb_runnable _ _ _ _ _ _ (wo_table _ (proj1 Hkeep))), (tb_runnable _ _ _ _ _ _ (wo_table _ Hw)), Hts.
      rewrite <- alter_insert, (countb_alter is_ready _ _ i t Ht). cbn. unfold b2z. lia.
    + rewrite (tb_blocked _ _ _ _ _ _ (wo_table _ (proj1 Hkeep))), (tb_blocked _ _ _ _ _ _ (wo_table _ Hw)), Hts.
      rewrite <- alter_insert, (countb_alter is_blocked _ _ i t Ht). cbn. unfold b2z. lia.
Qed.

(** C27. Cancelling a thread: refused before initialisation, for id 0, for an id
    no live record has and for a finished thread; otherwise the record becomes
    CANCELED with return value 0, the counters lose it if it was ready or
    blocked, and nothing else in the table and no synchronisation object
    changes (so a cancelled waiter's slot stays in the queue it waited in). *)
Theorem thread_cancel_outcome cur tid w :
  world_ok w → cur_ok cur (w_rt w) →
  returns (gth_thread_cancel tid) w (λ st w',
    if negb (rt_initialized (w_rt w)) then st = GTH_ESTATE ∧ w' = w
    else if tid =? 0 then st = GTH_EINVAL ∧ w' = w
    else match gth_runtime_find_thread (w_rt w) tid with
    | None => st = GTH_ENOTFOUND ∧ w' = w
    | Some i => ∃ t, rt_threads (w_rt w) !! i = Some t ∧ th_tid t = tid ∧
        if gth_thread_is_terminal (th_state t) then st = GTH_ESTATE ∧ w' = w
        else st = GTH_OK ∧ rt_threads (w_rt w') = <[i := canceled t]> (rt_threads (w_rt w)) ∧
          rt_runnable_threads (w_rt w') = rt_runnable_threads (w_rt w) - b2z (is_ready t) ∧
          rt_blocked_threads (w_rt w') = rt_blocked_threads (w_rt w) - b2z (is_blocked t) ∧
          objs w' = objs w
    end).
Proof. apply cancel_spec. Qed.

(** ** From the end of a thread to its join *)

(** The value a join reports for a thread function that returned [v]. *)
Definition result_of_thread (t : gth_thread_record_t) (v : Z) : Z :=
  match th_state t with GTH_THREAD_CANCELED => 0 | _ => v end.

Lemma finished_terminal v t : gth_thread_is_terminal (th_state (finished v t)) = true.
Proof. unfold finished. by destruct (th_state t) eqn:E; cbn; rewrite ?E. Qed.

Lemma finished_retval v t : th_retval (finished v t) = result_of_thread t v.
Proof. unfold finished, result_of_thread. by destruct (th_state t). Qed.

(** C26. A thread's return value reaches whoever joins it: when a thread function
    returns [v] and main then joins the thread, the join succeeds at once with
    [v] (with 0 if the thread was cancelled while it ran), and the slot and
    the stack are free again. *)
Theorem exit_then_join c t v w :
  world_ok w → cur_ok (Some c) (w_rt w) → cur_free (Some c) (w_rt w) → rt_threads (w_rt w) !! c = Some t →
  returns (trampoline_exit c v;; gth_thread_join (th_tid t)) w (λ r w',
    r = Return (mk_resp GTH_OK [result_of_thread t v]) ∧
    rt_threads (w_rt w') = <[c := thread_zero]> (rt_threads (w_rt w)) ∧
    w_mapped w' = w_mapped (gth_stack_free (th_stack t) w)).
Proof.
  intros Hw Hc Hf Ht. destruct (find_current w Hw c Hc) as (_ & _ & Hini).
  destruct (cur_thread c w Hc Hf) as (t' & Ht' & He & _). assert (t' = t) as -> by congruence.
  pose proof (trampoline_exit_ok c v w Hw Hc Hf) as Hex. unfold returns in Hex.
  apply returns_bind. unfold returns at 1. rewrite (trampoline_exit_eq c v w t Ht) in *.
  unfold gth_trace_thread_exit in *. set (w1 := upd_rt (upd_thread c _) w) in *.
  match type of Hex with exited _ _ (upd_rt _ ?x) => set (w2 := x) in *; set (w3 := upd_rt _ w2) in * end.
  assert (Eut : untrace w2 = untrace w1) by apply untrace_record.
  assert (Hts : rt_threads (w_rt w3) = <[c := finished v t]> (rt_threads (w_rt w))).
  { unfold w3. cbn. rewrite (ut_threads _ _ Eut). cbn. apply alter_insert. }
  assert (Hini3 : rt_initialized (w_rt w3) = true) by (unfold w3; cbn; by rewrite (ut_initialized _ _ Eut)).
  assert (Hmap : w_mapped w3 = w_mapped w) by (unfold w3; cbn; by rewrite (ut_mapped _ _ Eut)).
  assert (Hpg : page_of w3 = page_of w) by exact (ut_page_of _ _ Eut).
  clearbody w3. clear w1 w2 Eut.
  assert (H3 : rt_threads (w_rt w3) !! c = Some (finished v t)).
  { rewrite Hts, list_lookup_insert_eq; [done|]. by eapply lookup_lt_Some. }
  assert (Htid : th_tid (finished v t) = th_tid t) by (unfold finished; by destruct (th_state t)).
  assert (Hlive : is_empty (finished v t) = false).
  { pose proof (finished_terminal v t). unfold is_empty. by destruct (th_state (finished v t)). }
  pose proof (find_thread_unique w3 (ex_world _ _ _ Hex) c _ H3 Hlive) as Hfind.
  pose proof (tb_tid _ _ _ _ _ _ (wo_table _ Hw) c t Ht He) as Hpos.
  unfold gth_thread_join, returns. rewrite Hini3, (ex_current _ _ _ Hex), <- Htid, Hfind. cbn [negb].
  destruct (Z.eqb_spec (th_tid (finished v t)) 0); [lia|]. apply returns_fold, returns_bind.
  eapply returns_thread_at; [exact H3|]. rewrite finished_terminal. cbn [negb].
  eapply returns_mono; [by apply (join_finish_outcome c (finished v t)); [|apply finished_terminal]|].
  intros r w4 (-> & Hts4 & _ & _ & Hmap4). rewrite finished_retval. split_and!; [done| |].
  - rewrite Hts4, Hts. by rewrite list_insert_insert_eq.
  - rewrite Hmap4. assert (th_stack (finished v t) = th_stack t) as -> by (unfold finished; by destruct (th_state t)).
    by apply mapped_stack_free.
Qed.

(** ** Statistics *)

(** The counters that every state change keeps up to date. *)
Definition counters (s : gth_runtime_state_t) : list Z :=
  [rt_context_switches s; rt_runnable_threads s; rt_blocked_threads s].

(** The statistics, which [gth_runtime_get_stats] counts by a scan of the
    table, are the counters the runtime keeps incrementally; the scan refuses
    a NULL argument and an uninitialised runtime. *)
Theorem get_stats_equals_counters out w :
  world_ok w →
  gth_runtime_get_stats out w =
    if negb out then status GTH_EINVAL
    else if negb (rt_initialized (w_rt w)) then status GTH_ESTATE
    else mk_resp GTH_OK (counters (w_rt w)).
Proof.
  intros Hw. unfold gth_runtime_get_stats. destruct (negb out); [done|]. destruct (negb _); [done|].
  destruct (wo_table _ Hw) as [Hlen _ _ _ _ Hr Hb _ _ _ _]. rewrite snapshot_counts by done. cbn.
  unfold counters. by rewrite Hr, Hb.
Qed.

(** ** Shutdown *)

(** Page [p] belongs to a stack that [gth_stack_free] would unmap. *)
Definition owns_page (page : Z) (ts : list gth_thread_record_t) (p : Z) : Prop :=
  ∃ t, t ∈ ts ∧ stk_memory (th_stack t) ≠ 0 ∧ stk_total_size (th_stack t) ≠ 0 ∧
    p ∈ pages page (stk_memory (th_stack t)) (stk_total_size (th_stack t)).

Lemma stack_free_lookup stk w p x :
  w_mapped (gth_stack_free stk w) !! p = Some x ↔ w_mapped w !! p = Some x ∧
    ¬ (stk_memory stk ≠ 0 ∧ stk_total_size stk ≠ 0 ∧ p ∈ pages (page_of w) (stk_memory stk) (stk_total_size stk)).
Proof.
  unfold gth_stack_free, munmap.
  destruct (Z.eqb_spec (stk_memory stk) 0) as [?|Hm], (Z.eqb_spec (stk_total_size stk) 0) as [?|Ht]; cbn [negb andb]; try naive_solver.
  cbn [w_mapped]. rewrite lookup_set_pages. case_decide; naive_solver.
Qed.

Lemma free_stacks_mapped ts : ∀ i w p x,
  w_mapped (free_stacks i ts w) !! p = Some x ↔ w_mapped w !! p = Some x ∧ ¬ owns_page (page_of w) ts p.
Proof.
  induction ts as [|t ts IH]; intros i w p x; cbn [free_stacks].
  { split; [|by intros [? _]]. intros H. split; [done|]. by intros (t & ?%elem_of_nil & _). }
  rewrite IH, (mapped_stack_free _ w) by done. rewrite stack_free_lookup.
  match goal with |- context [owns_page (page_of ?v) ts p] => replace (page_of v) with (page_of w) by (symmetry; etrans; [apply page_of_unmap|done]) end.
  unfold owns_page. setoid_rewrite elem_of_cons. naive_solver.
Qed.

Lemma shutdown_spec w :
  returns gth_runtime_shutdown w (λ st w',
    if negb (rt_initialized (w_rt w)) then st = GTH_ESTATE ∧ w' = w
    else st = GTH_OK ∧ w_rt w' = rt_zero ∧ objs w' = objs w ∧
      ∀ p x, w_mapped w' !! p = Some x ↔ w_mapped w !! p = Some x ∧ ¬ owns_page (page_of w) (rt_threads (w_rt w)) p).
Proof.
  pose proof (frames_shutdown w) as Hobj. unfold gth_runtime_shutdown, returns in *. destruct (negb _); [done|].
  set (w1 := match rt_trace (w_rt w) with Some _ => gth_trace_cleanup w | None => w end) in *.
  assert (E1 : untrace w1 = untrace w) by (unfold w1; destruct (rt_trace (w_rt w)); [apply untrace_cleanup|done]).
  clearbody w1. set (w2 := match rt_replay (w_rt w1) with Some _ => gth_replay_cleanup w1 | None => w1 end) in *.
  set (w3 := match rt_fuzz (w_rt w2) with Some _ => gth_fuzz_cleanup w2 | None => w2 end) in *.
  assert (E3 : rt_threads (w_rt w3) = rt_threads (w_rt w) ∧ w_mapped w3 = w_mapped w ∧ page_of w3 = page_of w).
  { rewrite <- (ut_threads _ _ E1), <- (ut_mapped _ _ E1), <- (ut_page_of _ _ E1). unfold w3, w2. by repeat case_match. }
  clearbody w3. destruct E3 as (Ets & Emap & Epg). split_and!; [done|done|exact (proj1 Hobj)|].
  intros p x. cbn. rewrite free_stacks_mapped. by rewrite Ets, Emap, Epg.
Qed.

(** C33. Shutting the runtime down is refused when it is not initialised;
    otherwise it always succeeds, resets the whole runtime state and unmaps
    exactly the pages of the stacks of the threads in the table, whatever their
    state. *)
Theorem shutdown_outcome w :
  returns gth_runtime_shutdown w (λ st w',
    if negb (rt_initialized (w_rt w)) then st = GTH_ESTATE ∧ w' = w
    else st = GTH_OK ∧ w_rt w' = rt_zero ∧ objs w' = objs w ∧
      ∀ p x, w_mapped w' !! p = Some x ↔ w_mapped w !! p = Some x ∧ ¬ owns_page (page_of w) (rt_threads (w_rt w)) p).
Proof. apply shutdown_spec. Qed.

(** ** Witnesses *)

(** Main of [handoff] when both threads have been created. *)
Lemma handoff_created : ∃ w, world_ok w ∧ cur_ok None (w_rt w) ∧ rt_initialized (w_rt w) = true ∧
  gth_runtime_find_thread (w_rt w) 1 = Some 0%nat ∧
  ∃ t, rt_threads (w_rt w) !! 0%nat = Some t ∧ th_state t = GTH_THREAD_READY.
Proof.
  destruct (user_owner_ok handoff sunny_os 0 4 Main handoff_disciplined) as (m & E & _ & Hw & Hc & _);
    [cbn; lia|by vm_compute|].
  exists (m_world handoff m). split_and!; [done|done|..].
  - assert (H : match run handoff 4 (boot handoff sunny_os 0) with
                | Next _ m => rt_initialized (w_rt (m_world handoff m)) | _ => false end = true) by (by vm_compute).
    by rewrite E in H.
  - assert (H : match run handoff 4 (boot handoff sunny_os 0) with
                | Next _ m => gth_runtime_find_thread (w_rt (m_world handoff m)) 1 | _ => None end = Some O)
      by (by vm_compute).
    by rewrite E in H.
  - assert (H : match run handoff 4 (boot handoff sunny_os 0) with
                | Next _ m => th_state <$> rt_threads (w_rt (m_world handoff m)) !! 0%nat | _ => None end
                = Some GTH_THREAD_READY) by (by vm_compute).
    rewrite E in H. apply fmap_Some in H as (t & Ht & Hs). exists t. split; [exact Ht|exact (eq_sym Hs)].
Qed.

Lemma thread_join_outcome_witness : ∃ w,
  safe (fuzz_stuck w) (gth_thread_join 1) w (λ r w', ∃ t, join_outcome 1 0 t w r w').
Proof.
  destruct handoff_created as (w & Hw & Hc & Hini & Hfind & _). exists w.
  pose proof (thread_join_outcome 1 w Hw Hc) as H. rewrite Hini, Hfind in H. cbn [negb Z.eqb] in H.
  eapply safe_mono; [exact H|]. intros r w' (t & _ & _ & Hout). exists t. exact Hout.
Defined.

Lemma thread_cancel_outcome_witness : ∃ w t,
  rt_threads (w_rt w) !! 0%nat = Some t ∧ th_state t = GTH_THREAD_READY ∧
  returns (gth_thread_cancel 1) w (λ st w', st = GTH_OK ∧
    rt_threads (w_rt w') = <[0%nat := canceled t]> (rt_threads (w_rt w)) ∧
    rt_runnable_threads (w_rt w') = rt_runnable_threads (w_rt w) - 1 ∧ objs w' = objs w).
Proof.
  destruct handoff_created as (w & Hw & Hc & Hini & Hfind & t & Ht & Hst). exists w, t.
  pose proof (thread_cancel_outcome None 1 w Hw Hc) as H. rewrite Hini, Hfind in H. cbn [negb Z.eqb] in H.
  split_and!; [exact Ht|exact Hst|]. eapply returns_mono; [exact H|]. intros r w' (t' & Ht' & _ & Hout).
  simplify_eq. unfold is_ready in Hout. rewrite Hst in Hout. cbn in Hout.
  destruct Hout as (? & ? & ? & _ & ?). split_and!; assumption.
Defined.

Lemma exit_then_join_witness : ∃ w t,
  returns (trampoline_exit 1 42;; gth_thread_join (th_tid t)) w (λ r w',
    r = Return (mk_resp GTH_OK [result_of_thread t 42])).
Proof.
  destruct handoff_second as (m & _ & _ & Hw & Hc & Hf).
  destruct (co_current _ _ Hc) as (t & Ht & _). exists (m_world handoff m), t.
  eapply returns_mono; [apply (exit_then_join 1 t 42 (m_world handoff m) Hw Hc Hf Ht)|].
  intros r w' H. exact (proj1 H).
Defined.

Lemma get_stats_equals_counters_witness :
  gth_runtime_get_stats true ready_world_0 = mk_resp GTH_OK [0; 0; 0].
Proof. apply (get_stats_equals_counters true ready_world_0). apply ready_world_0_ok. Defined.
