(* ===== verification/Slots.v ===== *)
(** * Slots keep their threads

    A slot of the table belongs to one thread from its creation to its join:
    id, stack and saved context of a record change only in creation, join,
    initialisation and shutdown, and in the switches themselves.  The frame
    [same_slots] says so of every other function. *)

From S2P Require Import Prelude WaitQueue TraceFormat State Stack TraceBuffer Trace Runtime Replay.
From S2P Require Import Fuzz Sched Thread Mutex Sem Cond Lifecycle Machine Scripts Invariant Ops Switching Safety.
From S2P Require Import SyncSpec Frame Exclusion Waiting ThreadSpec.
Import Sync.

Definition slots (w : world) : list (Z * gth_stack_allocation_t * gth_ctx_t * Z * Z) := slot_id <$> rt_threads (w_rt w).

Definition same_slots (w w' : world) : Prop := grounds w' = grounds w ∧ slots w' = slots w.

Lemma slots_alter f (i : nat) (ts : list gth_thread_record_t) :
  (∀ t, slot_id (f t) = slot_id t) → slot_id <$> alter f i ts = slot_id <$> ts.
Proof.
  intros Hf. apply list_eq. intros j. rewrite !list_lookup_fmap. destruct (decide (j = i)) as [->|Hne].
  - rewrite list_lookup_alter_eq. destruct (ts !! i); cbn; [by rewrite Hf|done].
  - by rewrite list_lookup_alter_ne.
Qed.

#[export] Instance same_slots_frame : Frame same_slots.
Proof.
  split; [split|].
  - split; [by intros w|]. intros w1 w2 w3 [] []. split; congruence.
  - intros w w' _ E1 E2. split; [done|]. unfold slots. by rewrite E1.
  - intros w w' i f _ E1 E2 Hf _. split; [done|]. unfold slots. rewrite E1. by apply slots_alter.
Qed.

(** ** Synchronisation changes states only *)

(** A record without the state of its thread. *)
Definition brief (t : gth_thread_record_t) : gth_thread_record_t := set_state GTH_THREAD_EMPTY t.
Definition briefs (w : world) : list gth_thread_record_t := brief <$> rt_threads (w_rt w).

Definition same_briefs (w w' : world) : Prop := grounds w' = grounds w ∧ briefs w' = briefs w.

#[export] Instance same_briefs_keep : Keep same_briefs.
Proof.
  split; [split|].
  - by intros w.
  - intros w1 w2 w3 [] []. split; congruence.
  - intros w w' _ E1 E2. split; [done|]. unfold briefs. by rewrite E1.
Qed.

Lemma briefs_alter st (i : nat) (ts : list gth_thread_record_t) : brief <$> alter (set_state st) i ts = brief <$> ts.
Proof.
  apply list_eq. intros j. rewrite !list_lookup_fmap. destruct (decide (j = i)) as [->|Hne].
  - rewrite list_lookup_alter_eq. by destruct (ts !! i).
  - by rewrite list_lookup_alter_ne.
Qed.

Lemma briefs_slots w w' : same_briefs w w' → same_slots w w'.
Proof.
  intros [H1 H2]. split; [done|]. unfold slots. apply (f_equal (fmap slot_id)) in H2. unfold briefs in H2.
  by rewrite <- !list_fmap_compose in H2.
Qed.

Lemma briefs_set_state i st : frames same_briefs (modify (upd_rt (upd_thread i (set_state st)))).
Proof. apply frames_modify. intros w. split; [done|]. apply briefs_alter. Qed.

Lemma briefs_block : frames same_briefs gth_thread_block.
Proof.
  intros w. unfold gth_thread_block. destruct (negb _); [framed|]. destruct (_ =? _); [framed|].
  destruct (gth_runtime_find_thread _ _) as [i|]; [|framed]. cbn beta zeta.
  etrans; [apply (frame_record GTH_EVT_THREAD_BLOCK (rt_current_tid (w_rt w)) GTH_BLOCK_REASON_NONE 0 w)|].
  split; [done|]. apply briefs_alter.
Qed.

Lemma briefs_unblock i : frames same_briefs (gth_thread_unblock_slot i).
Proof.
  intros w. unfold gth_thread_unblock_slot. destruct (negb _); [framed|]. destruct (_ <=? _)%nat; [framed|].
  apply frames_done. autounfold with keeps. repeat first [apply briefs_set_state|frames_step].
Qed.

Ltac briefs_step :=
  first
    [ lazymatch goal with
      | |- frames _ (modify (upd_rt (upd_thread _ (set_state _)))) => apply briefs_set_state
      | |- frames _ (deref _) => apply frames_deref
      | |- frames _ gth_thread_current_slot_index => apply frames_slot_index
      | |- frames _ gth_thread_block => apply briefs_block
      | |- frames _ (gth_thread_unblock_slot _) => apply briefs_unblock
      end
    | frames_step
    | lazymatch goal with |- frames _ (modify _) => apply frames_modify; intros; by split end ].
Ltac briefs_tac := autounfold with keeps; cbv zeta; repeat briefs_step.

Lemma briefs_lock_acquire m : frames same_briefs (lock_acquire m).
Proof. unfold lock_acquire. briefs_tac. Qed.

Lemma briefs_lock_wait fuel m my_slot : frames same_briefs (lock_wait fuel m my_slot).
Proof.
  induction fuel as [|fuel IH]; [by intros w|]. cbn [lock_wait]. unfold mutex_enqueue.
  briefs_tac; [apply briefs_lock_acquire|apply IH].
Qed.

Lemma briefs_lock m : frames same_briefs (gth_mutex_lock m).
Proof. unfold gth_mutex_lock, mutex_enqueue. briefs_tac; [apply briefs_lock_wait|apply briefs_lock_acquire]. Qed.

Lemma briefs_unlock m : frames same_briefs (gth_mutex_unlock m).
Proof. unfold gth_mutex_unlock. briefs_tac. Qed.

Lemma briefs_sem_wait s : frames same_briefs (gth_sem_wait s).
Proof. unfold gth_sem_wait, mark_blocked. briefs_tac. Qed.

Lemma briefs_cond_wait c m : frames same_briefs (gth_cond_wait c m).
Proof. unfold gth_cond_wait, cond_wait_undo, mark_blocked. briefs_tac. apply briefs_unlock. Qed.

Lemma briefs_broadcast_loop n : ∀ c k, frames same_briefs (broadcast_loop n c k).
Proof.
  induction n as [|n IH]; intros c k; cbn [broadcast_loop]; briefs_tac; try apply IH. by intros w.
Qed.

(** The functions on synchronisation objects. *)
Definition about_objects (a : api) : bool :=
  match a with
  | AMutexInit _ | ALock _ | ATrylock _ | AUnlock _ | AMutexDestroy _ | ASemInit _ _ | ASemWait _ | ASemPost _ | ASemDestroy _
  | ACondInit _ | ACondWait _ _ | ACondSignal _ | ACondBroadcast _ | ACondDestroy _ => true
  | _ => false
  end.

Lemma briefs_api a : about_objects a = true → frames same_briefs (api_call a).
Proof.
  intros Ha. destruct a; try done; cbn [api_call]; try apply frames_returning.
  - unfold gth_mutex_init. briefs_tac.
  - apply briefs_lock.
  - unfold gth_mutex_trylock. briefs_tac.
  - apply briefs_unlock.
  - unfold gth_mutex_destroy. briefs_tac.
  - unfold gth_sem_init. briefs_tac.
  - apply briefs_sem_wait.
  - unfold gth_sem_post. briefs_tac.
  - unfold gth_sem_destroy. briefs_tac.
  - unfold gth_cond_init. briefs_tac.
  - apply briefs_cond_wait.
  - unfold gth_cond_signal. briefs_tac.
  - unfold gth_cond_broadcast. briefs_tac. apply briefs_broadcast_loop.
  - unfold gth_cond_destroy. briefs_tac.
Qed.

Lemma briefs_resume k :
  match k with KRunNext _ _ => False | _ => True end → frames same_briefs (resume_frame k).
Proof.
  destruct k as [|m my_slot|m| |prev kr]; intros H; cbn [resume_frame]; try done; try apply frames_ret.
  - apply briefs_lock_wait.
  - apply briefs_lock.
Qed.

(** The public functions that fill or clear a slot. *)
Definition moves_slots (a : api) : bool :=
  match a with AInit _ | AShutdown | ACreate _ _ _ _ | AJoin _ => true | _ => false end.

Lemma slots_api a w :
  trace_ok (rt_trace (w_rt w)) → moves_slots a = false →
  match api_call a w with Done (_, w') => same_slots w w' | _ => True end.
Proof.
  intros Ht Hm. destruct (about_objects a) eqn:Ha.
  { pose proof (briefs_api a Ha w) as H. destruct (api_call a w) as [[r w']| |]; [by apply briefs_slots|done..]. }
  destruct a; try done; cbn [api_call]; try (apply frames_bind; [apply frames_gets|intros; apply frames_ret]).
  - apply frames_yield.
  - apply frames_returning, frames_cancel.
  - pose proof (frames_trace_start (R := same_slots) path w Ht) as H. unfold returning, bind.
    by destruct (gth_trace_start path w) as [[st w']| |].
  - pose proof (frames_trace_stop (R := same_slots) w Ht) as H. unfold returning, bind.
    by destruct (gth_trace_stop w) as [[st w']| |].
  - apply frames_returning, frames_replay_from.
  - apply frames_returning, frames_fuzz_set_rate.
  - apply frames_returning, frames_set_mode.
Qed.

(** ** Functions that fill or clear one slot *)

Definition only_slot (i : nat) (w w' : world) : Prop :=
  rt_scheduler_ctx (w_rt w') = rt_scheduler_ctx (w_rt w) ∧
  ∀ j, j ≠ i → rt_threads (w_rt w') !! j = rt_threads (w_rt w) !! j.

#[export] Instance only_slot_keep i : Keep (only_slot i).
Proof.
  split; [split|].
  - by intros w.
  - intros w1 w2 w3 [E1 H1] [E2 H2]. split; [congruence|]. intros j Hj. by rewrite H2, H1.
  - intros w w' _ E1 [= _ E2]. split; [done|]. intros j _. by rewrite E1.
Qed.

Lemma only_upd_thread i f : frames (only_slot i) (modify (upd_rt (upd_thread i f))).
Proof. apply frames_modify. intros w. split; [done|]. intros j Hj. cbn. by rewrite list_lookup_alter_ne. Qed.

Lemma only_stack_allocate i size : frames (only_slot i) (gth_stack_allocate size).
Proof.
  intros w. pose proof (stack_allocate_frame size w) as H. unfold returns in H.
  destruct (gth_stack_allocate size w) as [[a w']| |]; [|done..]. rewrite H. by split.
Qed.

Ltac only_step :=
  first
    [ lazymatch goal with
      | |- frames _ (modify (upd_rt (upd_thread _ _))) => apply only_upd_thread
      | |- frames _ (gth_stack_allocate _) => apply only_stack_allocate
      end
    | frames_step ].

Lemma create_only out attr fn arg w :
  match gth_thread_create out attr fn arg w with
  | Done (_, w') => w' = w ∨ ∃ i t, rt_threads (w_rt w) !! i = Some t ∧ is_empty t = true ∧ only_slot i w w'
  | _ => True
  end.
Proof.
  unfold gth_thread_create. destruct (negb _); [by left|]. destruct (_ || _); [by left|].
  unfold bind at 1, gth_thread_acquire_slot. destruct (gth_runtime_alloc_thread_slot (w_rt w)) as [i|] eqn:Ha; [|by left].
  apply alloc_slot_Some in Ha as (t & Ht & He). set (w1 := upd_rt (upd_thread i _) w).
  assert (H1 : only_slot i w w1) by (split; [done|]; intros j Hj; cbn; by rewrite list_lookup_alter_ne).
  clearbody w1. match goal with |- context [?m w1] => assert (Hm : frames (only_slot i) m) end.
  { autounfold with keeps. repeat only_step. }
  specialize (Hm w1). match goal with |- context [?m w1] => destruct (m w1) as [[r w2]| |]; [|done..] end.
  right. exists i, t. split_and!; [done|by apply is_empty_true|]. by etrans.
Qed.

Lemma only_join_finish i : frames (only_slot i) (join_finish i).
Proof.
  unfold join_finish, gth_thread_release_slot, destroy_context. repeat only_step.
  apply frames_modify. intros w. unfold gth_stack_free, munmap. by destruct (_ && _).
Qed.

(** ** What a call does to the slots *)

(** [what] is the call, [None] when a stack continues after a switch. *)
Inductive slot_change (cur : option nat) (what : option api) (w w' : world) : result → Prop :=
| sc_same r : grounds w' = grounds w → rt_threads (w_rt w') = rt_threads (w_rt w) → slot_change cur what w w' (Return r)
| sc_yield c t : cur = Some c → grounds w' = grounds w → rt_threads (w_rt w) !! c = Some t → is_empty t = false →
    rt_threads (w_rt w') = <[c := set_state GTH_THREAD_READY t]> (rt_threads (w_rt w)) →
    slot_change cur what w w' (Swap (ThreadCtx c) SchedCtx KYield)
| sc_dispatch i t k : cur = None → grounds w' = grounds w → rt_threads (w_rt w) !! i = Some t → is_ready t = true →
    rt_threads (w_rt w') = <[i := set_state GTH_THREAD_RUNNING t]> (rt_threads (w_rt w)) →
    slot_change cur what w w' (Swap SchedCtx (ThreadCtx i) (KRunNext 0 k))
| sc_cancel i t r : what = Some (ACancel (th_tid t)) → grounds w' = grounds w → rt_threads (w_rt w) !! i = Some t →
    is_empty t = false → rt_threads (w_rt w') = <[i := canceled t]> (rt_threads (w_rt w)) → slot_change cur what w w' (Return r)
| sc_create i t r : rt_threads (w_rt w) !! i = Some t → is_empty t = true → only_slot i w w' →
    slot_change cur what w w' (Return r)
| sc_release i t r : cur = None → rt_scheduler_ctx (w_rt w') = rt_scheduler_ctx (w_rt w) →
    rt_threads (w_rt w) !! i = Some t → gth_thread_is_terminal (th_state t) = true →
    rt_threads (w_rt w') = <[i := thread_zero]> (rt_threads (w_rt w)) → slot_change cur what w w' (Return r)
| sc_clear r : cur = None → what = Some AShutdown ∨ (∀ i t, rt_threads (w_rt w) !! i = Some t → is_empty t = true) →
    rt_threads (w_rt w') = replicate GTH_MAX_THREADS thread_zero → slot_change cur what w w' (Return r).

(** The thread [tid] is in slot [i]. *)
Definition slot_of (w : world) (i : nat) (tid : Z) : Prop :=
  ∃ t, rt_threads (w_rt w) !! i = Some t ∧ is_empty t = false ∧ th_tid t = tid.

(** A switch point of main in a join names the slot of the thread that is joined. *)
Definition joins (w : world) (r : result) : Prop :=
  match r with
  | Swap _ _ (KRunNext _ (InJoin tid i)) => slot_of w i tid
  | _ => True
  end.

(** The books of the library change, nothing else. *)
Definition same_table (w w' : world) : Prop :=
  objs w' = objs w ∧ rt_threads (w_rt w') = rt_threads (w_rt w) ∧ grounds w' = grounds w.

#[export] Instance same_table_keep : Keep same_table.
Proof.
  split; [split|].
  - by intros w.
  - intros w1 w2 w3 (? & ? & ?) (? & ? & ?). split_and!; congruence.
  - by intros w w'.
Qed.

Lemma sc_table cur what w w' r : same_table w w' → slot_change cur what w w' (Return r).
Proof. intros (_ & ? & ?). by apply sc_same. Qed.

(** ** Main runs threads *)

Section main.
Context (w : world) (Hw : world_ok w) (Hc : cur_ok None (w_rt w)) (Hini : rt_initialized (w_rt w) = true).

Lemma run_next_slots what k r w' :
  gth_scheduler_run_next k w = Done (r, w') →
  match r with
  | inl st => st = GTH_ENOTFOUND ∧ ∀ x, slot_change None what w w' (Return x)
  | inr sw => slot_change None what w w' sw ∧ ∃ i, sw = Swap SchedCtx (ThreadCtx i) (KRunNext 0 k)
  end.
Proof using All.
  intros E. pose proof (run_next_outcome k w Hw Hc Hini) as Ho. pose proof (frames_run_next (R := same_slots) k w) as Hs.
  unfold safe in Ho. rewrite E in Ho, Hs. destruct Hs as [Hg _]. destruct r as [st|sw]; cbn in Ho.
  - destruct Ho as (-> & Ets & _). split; [done|]. intros x. by apply sc_same.
  - destruct Ho as (j & u & -> & Hu & Hr & Ets & _). split; [by eapply sc_dispatch|by exists j].
Qed.

(** The end of a join. *)
Lemma join_finish_slots what i t r w' :
  rt_threads (w_rt w) !! i = Some t → gth_thread_is_terminal (th_state t) = true →
  join_finish i w = Done (r, w') → slot_change None what w w' r ∧ joins w r.
Proof using Hw.
  intros Ht Hterm E. pose proof (join_finish_outcome i t w Ht Hterm) as Ho. unfold returns in Ho. rewrite E in Ho.
  destruct Ho as [-> [Ets _]]. split; [|done]. eapply sc_release; try done.
  pose proof (only_join_finish i w) as H. rewrite E in H. apply H.
Qed.

Lemma join_loop_slots what tid i t r w' :
  gth_runtime_find_thread (w_rt w) tid = Some i → rt_threads (w_rt w) !! i = Some t →
  (x <- run_until_loop tid i;; join_after_run_until tid x) w = Done (r, w') →
  slot_change None what w w' r ∧ joins w r.
Proof using All.
  intros Hfind Ht E. unfold bind at 1, run_until_loop, bind at 1, thread_at, deref in E. rewrite Ht in E.
  destruct (gth_thread_is_terminal (th_state t)) eqn:Hterm.
  - unfold ret, join_after_run_until in E. rewrite Hfind in E. by apply (join_finish_slots what i t r w' Ht Hterm).
  - unfold bind at 1 in E.
    destruct (gth_scheduler_run_next (InJoin tid i) w) as [[x w1]| |] eqn:En; [|done..].
    apply (run_next_slots what) in En. destruct x as [st|sw].
    + destruct En as [-> Hs]. cbn in E. injection E as <- <-. by split.
    + destruct En as [Hs [j ->]]. cbn in E. injection E as <- <-. split; [done|].
      apply find_thread_Some in Hfind as (t' & Ht' & He & Htid). simplify_eq.
      exists t'. split_and!; [done|by apply is_empty_false|done].
Qed.

Lemma join_slots what tid r w' :
  gth_thread_join tid w = Done (r, w') → slot_change None what w w' r ∧ joins w r.
Proof using All.
  intros E. assert (Hsame : ∀ x, slot_change None what w w (Return x) ∧ joins w (Return x)).
  { intros x. split; [by apply sc_same|done]. }
  unfold gth_thread_join in E. rewrite Hini in E. cbn [negb] in E. rewrite (co_current _ _ Hc) in E.
  destruct (tid =? 0) eqn:Hz; [injection E as <- <-; apply Hsame|].
  destruct (gth_runtime_find_thread (w_rt w) tid) as [i|] eqn:Hfind; [|injection E as <- <-; apply Hsame].
  pose proof Hfind as (t & Ht & _)%find_thread_Some. unfold bind at 1, thread_at, deref in E. rewrite Ht in E.
  destruct (gth_thread_is_terminal (th_state t)) eqn:Hterm; cbn [negb] in E.
  - by apply (join_finish_slots what i t r w' Ht Hterm).
  - apply (join_loop_slots what tid i t r w' Hfind Ht). rewrite <- E.
    assert (Eru : gth_scheduler_run_until tid w = run_until_loop tid i w).
    { unfold gth_scheduler_run_until. by rewrite Hini, (co_current _ _ Hc), Hz, Hfind. }
    unfold bind. by rewrite Eru.
Qed.
End main.

(** ** Calls that are not about synchronisation objects *)

Lemma yield_slots cur what w r w' :
  world_ok w → cur_ok cur (w_rt w) → gth_thread_yield w = Done (r, w') → slot_change cur what w w' r ∧ joins w r.
Proof.
  intros Hw Hc E. pose proof (frames_yield (R := same_slots) w) as Hs. rewrite E in Hs. destruct Hs as [Hg _].
  unfold gth_thread_yield in E.
  destruct (rt_initialized (w_rt w)) eqn:Hini; cbn [negb] in E; [|injection E as <- <-; split; [by apply sc_same|done]].
  destruct cur as [c|].
  - destruct (find_current w Hw c Hc) as (Hfind & Hnz & _). apply Z.eqb_neq in Hnz. rewrite Hnz, Hfind in E.
    injection E as <- <-. split; [|done]. destruct (co_current _ _ Hc) as (t & Ht & He & _). eapply sc_yield; try done.
    cbn. unfold gth_trace_thread_yield. rewrite (ut_threads _ _ (untrace_record _ _ _ _ _)).
    by rewrite (alter_at _ _ _ t _ Ht eq_refl), alter_insert.
  - rewrite (co_current _ _ Hc) in E. cbn [Z.eqb] in E. unfold bind in E.
    destruct (gth_scheduler_run_next InYield w) as [[x w1]| |] eqn:En; [|done..].
    apply (run_next_slots w Hw Hc Hini what) in En.
    destruct x as [st|sw]; injection E as <- <-; [by destruct En|]. by destruct En as [Hs [i ->]].
Qed.

Lemma cancel_slots cur tid w st w' :
  world_ok w → gth_thread_cancel tid w = Done (st, w') → slot_change cur (Some (ACancel tid)) w w' (Return (status st)).
Proof.
  intros Hw E. pose proof (frames_cancel (R := same_slots) tid w) as Hs. rewrite E in Hs. destruct Hs as [Hg _].
  pose proof (cancel_table tid) as Htab. unfold gth_thread_cancel, returns in *.
  destruct (rt_initialized (w_rt w)) eqn:Hini; cbn [negb] in *; [|injection E as <- <-; by apply sc_same].
  destruct (Z.eqb_spec tid 0) as [|Hnz]; [injection E as <- <-; by apply sc_same|].
  destruct (gth_runtime_find_thread (w_rt w) tid) as [i|] eqn:Hfind; [|injection E as <- <-; by apply sc_same].
  pose proof Hfind as (t & Ht & He & Htid)%find_thread_Some.
  destruct (gth_thread_is_terminal (th_state t)) eqn:Hterm.
  { unfold bind at 1, thread_at, deref in E. rewrite Ht, Hterm in E. injection E as <- <-. by apply sc_same. }
  specialize (Htab i t w Hw Hini Hnz Hfind Ht Hterm). rewrite Hini, Hfind in Htab. cbn [negb] in Htab.
  destruct (Z.eqb_spec tid 0); [done|]. rewrite E in Htab. destruct Htab as [_ Ets].
  eapply (sc_cancel _ _ _ _ i t); [by rewrite Htid|done|done|by apply is_empty_false|done].
Qed.

Lemma init_slots cur config w st w' :
  world_ok w → cur_ok cur (w_rt w) → gth_runtime_init config w = Done (st, w') →
  slot_change cur (Some (AInit config)) w w' (Return (status st)).
Proof.
  intros Hw Hc E. unfold gth_runtime_init in E. destruct config as [c|]; [|injection E as <- <-; by apply sc_same].
  destruct (negb _); [injection E as <- <-; by apply sc_same|].
  destruct (rt_initialized (w_rt w)) eqn:Hini; injection E as <- <-; [by apply sc_same|]. apply sc_clear; [|right|done].
  - destruct cur as [c'|]; [|done]. destruct (find_current w Hw c' Hc) as (_ & _ & Hi). congruence.
  - intros i t Ht. by apply (tb_uninit _ _ _ _ _ _ (wo_table _ Hw) Hini i t).
Qed.

Lemma shutdown_slots w st w' :
  gth_runtime_shutdown w = Done (st, w') → slot_change None (Some AShutdown) w w' (Return (status st)).
Proof.
  unfold gth_runtime_shutdown. destruct (negb _); intros E; injection E as <- <-; [by apply sc_same|]. apply sc_clear; auto.
Qed.

Lemma other_call cur a w r w' :
  world_ok w → cur_ok cur (w_rt w) → (cur ≠ None → thread_safe a = true) →
  (∀ cl s, sync_spec cl a s = None) → api_call a w = Done (r, w') →
  slot_change cur (Some a) w w' r ∧ joins w r.
Proof.
  intros Hw Hc Hsafe Hns E. specialize (Hns (mk_caller 0 None) (alpha w)).
  assert (Hret : ∀ (m : M gth_status_t), api_call a w = returning m w →
    (∀ st w1, m w = Done (st, w1) → slot_change cur (Some a) w w1 (Return (status st))) →
    slot_change cur (Some a) w w' r ∧ joins w r).
  { intros m Em Hm. rewrite Em in E. unfold returning, bind in E. destruct (m w) as [[st w1]| |]; [|done..].
    injection E as <- <-. split; [by apply Hm|done]. }
  assert (Hkeep : ∀ (m : M gth_status_t), api_call a w = returning m w →
    match m w with Done (_, w1) => same_table w w1 | _ => True end → slot_change cur (Some a) w w' r ∧ joins w r).
  { intros m Em Hm. apply (Hret m Em). intros st w1 E1. rewrite E1 in Hm. by apply sc_table. }
  assert (Hgets : ∀ x, Done (Return x, w) = Done (r, w') → slot_change cur (Some a) w w' r ∧ joins w r).
  { intros x [= <- <-]. split; [by apply sc_same|done]. }
  destruct a; try done; cbn [api_call] in E; try (eapply Hgets; exact E).
  - apply (Hret (gth_runtime_init config)); [done|]. intros st w1. by apply init_slots.
  - destruct cur as [c|]; [by specialize (Hsafe ltac:(done))|]. apply (Hret gth_runtime_shutdown); [done|]. apply shutdown_slots.
  - pose proof (create_only out_nonnull attr fn arg w) as Ho. unfold bind in E.
    destruct (gth_thread_create _ _ _ _ w) as [[x w1]| |]; [|done..]. injection E as <- <-. split; [|done].
    destruct Ho as [->|(i & t & Ht & He & Hon)]; [by apply sc_same|by eapply sc_create].
  - by apply yield_slots.
  - destruct cur as [c|]; [by specialize (Hsafe ltac:(done))|]. destruct (rt_initialized (w_rt w)) eqn:Hini.
    + by apply (join_slots w Hw Hc Hini _ tid).
    + unfold gth_thread_join in E. rewrite Hini in E. eapply Hgets; exact E.
  - apply (Hret (gth_thread_cancel tid)); [done|]. intros st w1. by apply cancel_slots.
  - apply (Hkeep (gth_trace_start path)); [done|]. apply frames_trace_start, Hw.
  - apply (Hkeep gth_trace_stop); [done|]. apply frames_trace_stop, Hw.
  - apply (Hkeep (gth_replay_from path)); [done|apply frames_replay_from].
  - apply (Hkeep (gth_fuzz_set_rate rate)); [done|apply frames_fuzz_set_rate].
  - apply (Hkeep (gth_scheduler_set_mode mode)); [done|apply frames_set_mode].
Qed.

(** ** Who waits *)

Lemma blocked_in_alpha w i : blocked_in (alpha w) i ↔ ∃ t, rt_threads (w_rt w) !! i = Some t ∧ is_blocked t = true.
Proof.
  unfold blocked_in. cbn. rewrite list_lookup_fmap. split.
  - intros (t & Ht & E)%fmap_Some. exists t. split; [done|]. unfold is_blocked. by rewrite <- E.
  - intros (t & -> & E%is_blocked_true). cbn. by rewrite E.
Qed.

(** The call takes threads away from the objects they wait for, or objects from the waiters. *)
Definition abandons (w : world) (a : api) : Prop :=
  match a with
  | ACancel tid => ∃ i t, rt_threads (w_rt w) !! i = Some t ∧ th_tid t = tid ∧ is_blocked t = true
  | AShutdown => ∃ i, blocked_in (alpha w) i
  | _ => drops_waiters a (alpha w)
  end.

Lemma not_blocked_st t : th_state t ≠ GTH_THREAD_BLOCKED → is_blocked t = false.
Proof. unfold is_blocked. by destruct (th_state t). Qed.

(** Otherwise the threads that wait go on waiting. *)
Lemma slot_change_waiting cur what w w' r j u :
  cur_free cur (w_rt w) → (∀ a, what = Some a → ¬ abandons w a) → slot_change cur what w w' r →
  rt_threads (w_rt w) !! j = Some u → is_blocked u = true → rt_threads (w_rt w') !! j = Some u.
Proof.
  intros Hf Hab H Hu Hb.
  assert (Hins : ∀ i t t', rt_threads (w_rt w) !! i = Some t → is_blocked t = false →
    rt_threads (w_rt w') = <[i := t']> (rt_threads (w_rt w)) → rt_threads (w_rt w') !! j = Some u).
  { intros i t t' Ht Hn ->. rewrite list_lookup_insert_ne; [done|]. intros ->. congruence. }
  destruct H as [r Hg Ets|c t Hcur Hg Ht He Ets|i t k Hcur Hg Ht Hr Ets|i t r Hwh Hg Ht He Ets|i t r Ht He Ho|i t r Hcur Hg Ht Hte Ets|r Hcur Hcl Ets].
  - by rewrite Ets.
  - eapply Hins; [exact Ht| |exact Ets]. specialize (Hf c t Hcur Ht). by apply orb_false_iff in Hf as [_ ?].
  - eapply Hins; [exact Ht| |exact Ets]. apply is_ready_true in Hr. apply not_blocked_st. congruence.
  - eapply Hins; [exact Ht| |exact Ets]. destruct (is_blocked t) eqn:E; [|done]. exfalso.
    apply (Hab _ Hwh). by exists i, t.
  - rewrite (proj2 Ho); [done|]. intros ->. apply is_empty_true in He. apply is_blocked_true in Hb. congruence.
  - eapply Hins; [exact Ht| |exact Ets]. apply not_blocked_st. intros E. by rewrite E in Hte.
  - exfalso. destruct Hcl as [->|Hcl].
    + apply (Hab _ eq_refl). exists j. apply blocked_in_alpha. by exists u.
    + apply Hcl, is_empty_true in Hu. unfold is_blocked in Hb. by rewrite Hu in Hb.
Qed.
