(* ===== verification/Steps.v ===== *)
(** * The steps of the machine, one by one

    A step of a consistent machine is one of four things: a call returns, a
    thread switches to main, main switches to a thread, or a thread ends.
    [stepped] has the machine after each of them, and [task_effect] what the
    library code in it has done to the synchronisation objects and the slots.
    Properties of executions that need both are proved by cases on these. *)

From S2P Require Import Prelude WaitQueue TraceFormat State Stack TraceBuffer Trace Runtime Replay.
From S2P Require Import Fuzz Sched Thread Mutex Sem Cond Lifecycle Machine Scripts Invariant Ops Switching Safety.
From S2P Require Import SyncSpec Frame Exclusion Waiting ThreadSpec Slots.
Import Sync.

(** The library code that a stack runs next. *)
Inductive task := TCall (a : api) | TResume (k : frame).

Definition code (t : task) : M result :=
  match t with TCall a => api_call a | TResume k => resume_frame k end.

Section steps.
Context (P : program) (HP : disciplined P).

Definition mode_of (t : task) (u : p_state P) (mode : cmode P) : Prop :=
  match t with
  | TCall a => mode = User P u ∧ p_next P u = ACall a
  | TResume k => mode = Resuming P k u
  end.

(** The executing stack runs [t] in its state [u]. *)
Definition runs_task (m : machine P) (tid : Z) (u : p_state P) (t : task) : Prop :=
  ∃ mode, m_ctl P m (m_run P m) = Some (mk_ctl P tid mode) ∧ mode_of t u mode.

Definition main_waits (m : machine P) (n : nat) (k : frame) (u : p_state P) : Prop :=
  m_ctl P m Main = Some (mk_ctl P 0 (Suspended P n k u)) ∧ main_frame k.

(** How the thread in slot [i] with record [t] is entered: at its beginning, or
    where it was suspended. *)
Inductive entered (m : machine P) (i : nat) (t : gth_thread_record_t) : p_mem P → cmode P → Prop :=
| en_start top : ctx_resume (th_ctx t) = CtxEntry i top →
    entered m i t (fst (p_start P (m_mem P m) (th_fn t) (th_arg t))) (User P (snd (p_start P (m_mem P m) (th_fn t) (th_arg t))))
| en_resume n k u : ctx_resume (th_ctx t) = CtxSaved (Thr i) n →
    m_ctl P m (Thr i) = Some (mk_ctl P (th_tid t) (Suspended P n k u)) → thread_frame i k →
    entered m i t (m_mem P m) (Resuming P k u).

Inductive stepped (m : machine P) : machine P → Prop :=
| st_return tid u t r w :
    runs_task m tid u t → code t (m_world P m) = Done (Return r, w) →
    stepped m {| m with m_world := w; m_mem := fst (p_feed P (m_mem P m) u r);
      m_ctl := <[m_run P m := Some (mk_ctl P tid (User P (snd (p_feed P (m_mem P m) u r))))]> (m_ctl P m) |}
| st_park c tid u t k w n k0 u0 :
    m_run P m = Thr c → runs_task m tid u t → code t (m_world P m) = Done (Swap (ThreadCtx c) SchedCtx k, w) →
    thread_frame c k → main_waits m n k0 u0 →
    stepped m (mk_machine P (upd_rt (save_ctx (ThreadCtx c) (CtxSaved (Thr c) (m_serial P m))) w) (m_mem P m) Main
      (<[Main := Some (mk_ctl P 0 (Resuming P k0 u0))]>
        (<[Thr c := Some (mk_ctl P tid (Suspended P (m_serial P m) k u))]> (m_ctl P m))) (S (m_serial P m)))
| st_dispatch i ti u t k w mem mode :
    m_run P m = Main → runs_task m 0 u t → code t (m_world P m) = Done (Swap SchedCtx (ThreadCtx i) k, w) → main_frame k →
    rt_threads (w_rt (m_world P m)) !! i = Some ti → is_ready ti = true → entered m i ti mem mode →
    stepped m (mk_machine P (upd_rt (save_ctx SchedCtx (CtxSaved Main (m_serial P m))) w) mem (Thr i)
      (<[Thr i := Some (mk_ctl P (th_tid ti) mode)]>
        (<[Main := Some (mk_ctl P 0 (Suspended P (m_serial P m) k u))]> (m_ctl P m))) (S (m_serial P m)))
| st_exit c tid u v w n k0 u0 :
    m_run P m = Thr c → m_ctl P m (Thr c) = Some (mk_ctl P tid (User P u)) → p_next P u = AReturn v →
    trampoline_exit c v (m_world P m) = Done (tt, w) → main_waits m n k0 u0 →
    stepped m {| m with m_world := w; m_run := Main;
      m_ctl := <[Main := Some (mk_ctl P 0 (Resuming P k0 u0))]> (<[Thr c := None]> (m_ctl P m)) |}.

(** Control goes to main through the scheduler's context. *)
Lemma jump_sched m m1 m' :
  main_saved P m → rt_scheduler_ctx (w_rt (m_world P m1)) = rt_scheduler_ctx (w_rt (m_world P m)) →
  m_ctl P m1 Main = m_ctl P m Main → jump_to P SchedCtx m1 = Next P m' →
  ∃ n k u, main_waits m n k u ∧
    m' = {| m1 with m_run := Main; m_ctl := <[Main := Some (mk_ctl P 0 (Resuming P k u))]> (m_ctl P m1) |}.
Proof using Type.
  intros (n & k & u & E1 & E2 & Hk) Es Ec E. unfold jump_to in E. cbn in E. rewrite Es, E1, Ec, E2 in E.
  rewrite decide_True in E by done. injection E as <-. by exists n, k, u.
Qed.

(** The executing stack in a consistent machine. *)
Lemma task_ok m tid u t :
  mach_ok P m → tid_room (m_world P m) → runs_task m tid u t →
  (tid = match m_run P m with Main => 0 | Thr _ => rt_current_tid (w_rt (m_world P m)) end) ∧
  out_ok (cur_of (m_run P m)) (fuzz_stuck (m_world P m))
    match t, m_run P m with TResume _, Main => gth_scheduler_run_next_resume 0 (m_world P m) | _, _ => m_world P m end
    (code t (m_world P m)).
Proof using HP.
  intros Hm Hroom (mode & Hctl & Hmode). pose proof Hm as [Hw Hex _]. unfold executing in Hex.
  destruct (m_run P m) as [|c] eqn:Hrun.
  - destruct Hex as (mode' & E & Hx). rewrite Hctl in E. injection E as -> <-. split; [done|].
    destruct t as [a|k]; cbn in Hmode.
    + destruct Hmode as [-> Hn]. apply (api_ok None a (m_world P m)); done.
    + subst mode. destruct Hx as [Hk Hnr]. apply (resume_main_ok k (m_world P m) Hk Hw Hnr).
  - destruct Hex as (Hc & Hf & Hmain & mode' & E & Hx). rewrite Hctl in E. injection E as -> <-. split; [done|].
    destruct t as [a|k]; cbn in Hmode.
    + destruct Hmode as [-> Hn]. apply (api_ok (Some c) a (m_world P m)); eauto.
    + subst mode. by apply (resume_thread_ok c k (proj1 Hx)).
Qed.

Lemma entered_jump m m1 i t t1 m' :
  rt_threads (w_rt (m_world P m1)) !! i = Some t1 → th_ctx t1 = th_ctx t → th_tid t1 = th_tid t → th_fn t1 = th_fn t →
  th_arg t1 = th_arg t → m_mem P m1 = m_mem P m → m_ctl P m1 (Thr i) = m_ctl P m (Thr i) → slot_saved P m i t →
  jump_to P (ThreadCtx i) m1 = Next P m' →
  ∃ mem mode, entered m i t mem mode ∧ m' = {| m1 with m_run := Thr i; m_mem := mem;
    m_ctl := <[Thr i := Some (mk_ctl P (th_tid t) mode)]> (m_ctl P m1) |}.
Proof using Type.
  intros Ht1 E1 E2 E3 E4 Em Ec Hs E. unfold jump_to in E. cbn in E. rewrite Ht1 in E. cbn in E. rewrite E1 in E.
  destruct Hs as [[top Hr]|(n & k & u & Hr & Hctl & Hk & _)]; rewrite Hr in E.
  - rewrite Ht1, E2, E3, E4, Em in E. injection E as <-. eexists _, _. split; [by eapply en_start|done].
  - rewrite Ec, Hctl in E. rewrite decide_True in E by done. injection E as <-.
    exists (m_mem P m), (Resuming P k u). split; [by eapply en_resume|]. rewrite <- Em. done.
Qed.

Lemma after_stepped m tid u t m' :
  mach_ok P m → tid_room (m_world P m) → runs_task m tid u t →
  after_call P m (m_run P m) tid u (code t (m_world P m)) = Next P m' → stepped m m'.
Proof using HP.
  intros Hm Hroom Ht E. destruct (task_ok m tid u t Hm Hroom Ht) as [-> Hok].
  destruct (code t (m_world P m)) as [[[r|from to k] w]| |] eqn:Ec; try done.
  { injection E as <-. by eapply st_return. }
  pose proof Hm as [_ Hex Hs]. unfold executing in Hex. cbn [after_call] in E. cbn in Hok.
  destruct (m_run P m) as [|c] eqn:Hrun.
  - destruct Hok as (i & -> & -> & Hk & Hd). destruct Hd as [_ (ti & Hti & Hr & _) Hts _].
    assert (Hti' : rt_threads (w_rt (m_world P m)) !! i = Some ti) by (by destruct t).
    assert (Hts' : rt_threads (w_rt w) = alter (set_state GTH_THREAD_RUNNING) i (rt_threads (w_rt (m_world P m)))) by (by destruct t).
    eapply (entered_jump m _ i ti (set_state GTH_THREAD_RUNNING ti)) in E as (mem & mode & He & ->);
      [by eapply (st_dispatch m i ti u t k w mem mode)| |done..|by apply insert_ctl_ne|].
    + cbn. by rewrite Hts', list_lookup_alter_eq, Hti'.
    + apply Hs; [done|unfold counted; by rewrite Hr|done].
  - destruct Hok as (-> & -> & Hk & Hp). destruct Hex as (_ & _ & Hmain & _).
    eapply (jump_sched m) in E as (n & k0 & u0 & Hwait & ->); [|done| |].
    + by eapply (st_park m c _ u t).
    + cbn. pose proof (ev_sched _ _ _ (pk_evolves _ _ _ Hp) ltac:(done)) as Es. by destruct t.
    + cbn. by rewrite insert_ctl_ne.
Qed.

Lemma step_stepped m m' : mach_ok P m → tid_room (m_world P m) → step P m = Next P m' → stepped m m'.
Proof using HP.
  intros Hm Hroom E. unfold step in E. destruct (m_ctl P m (m_run P m)) as [[tid mode]|] eqn:Hctl; [|done].
  destruct (negb _); [done|]. destruct mode as [u|k u|]; [|..|done].
  - destruct (p_next P u) as [v|a] eqn:Hnext.
    + destruct (m_run P m) as [|c] eqn:Hrun; [done|]. pose proof Hm as [Hw Hex _]. unfold executing in Hex. rewrite Hrun in Hex.
      destruct Hex as (Hc & Hf & Hmain & _). pose proof (trampoline_exit_ok c v _ Hw Hc Hf) as Hx. unfold returns in Hx.
      destruct (trampoline_exit c v (m_world P m)) as [[[] w]| |] eqn:Et; [|done..].
      eapply (jump_sched m) in E as (n & k0 & u0 & Hwait & ->); [|done|apply Hx|by cbn; rewrite insert_ctl_ne].
      by eapply (st_exit m c tid u v w).
    + apply (after_stepped m tid u (TCall a)); try done. by exists (User P u).
  - apply (after_stepped m tid u (TResume k)); try done. by exists (Resuming P k u).
Qed.

(** ** The target of a join *)

Definition frame_of (mode : cmode P) : option frame :=
  match mode with User _ _ => None | Resuming _ k _ | Suspended _ _ k _ => Some k end.

(** While main is in a join, the slot it watches is that of the thread it joins. *)
Definition joining (m : machine P) : Prop :=
  match m_ctl P m Main with
  | Some (mk_ctl _ _ mode) =>
      match frame_of mode with Some (KRunNext _ (InJoin tid i)) => slot_of (m_world P m) i tid | _ => True end
  | None => True
  end.
End steps.

(** ** What the library code does *)

(** The abstract operation a task performs. *)
Definition task_spec (cl : caller) (t : task) (a : astate) : option (verdict * astate) :=
  match t with
  | TCall f => sync_spec cl f a
  | TResume (KLock m c) => Some (m_relock cl c m a)
  | TResume (KCondWait m) => Some (m_lock cl m a)
  | TResume _ => None
  end.

Definition what_of (t : task) : option api := match t with TCall a => Some a | TResume _ => None end.

Definition task_abandons (w : world) (t : task) : Prop :=
  match t with TCall a => abandons w a | TResume _ => False end.

Inductive task_effect (cur : option nat) (t : task) (w : world) (r : result) (w' : world) : Prop :=
| te_sync v a : task_spec (caller_of cur w) t (alpha w) = Some (v, a) → answers cur v r → abs w' a → same_briefs w w' →
    task_effect cur t w r w'
| te_other : (∀ cl a, task_spec cl t a = None) → settles w w' → slot_change cur (what_of t) w w' r → joins w r →
    task_effect cur t w r w'.

Lemma call_effect cur f w r w' :
  world_ok w → cur_ok cur (w_rt w) → cur_free cur (w_rt w) → (cur ≠ None → thread_safe f = true) →
  api_call f w = Done (r, w') → task_effect cur (TCall f) w r w'.
Proof.
  intros Hw Hc Hf Hsafe E. destruct (sync_spec (caller_of cur w) f (alpha w)) as [[v a]|] eqn:Hs.
  - pose proof (api_refines cur f w (v, a) Hw Hc Hf Hs) as Hr. unfold refines, returns in Hr. rewrite E in Hr.
    destruct Hr as [Ha Habs]. apply (te_sync _ _ _ _ _ v a); try done.
    assert (Hab : about_objects f = true) by (by destruct f). pose proof (briefs_api f Hab w) as H. by rewrite E in H.
  - pose proof (sync_spec_None _ _ _ Hs) as Hn. destruct (other_call cur f w r w' Hw Hc Hsafe Hn E) as [H1 H2].
    pose proof (api_frames f w (wo_trace _ Hw) Hn) as H3. rewrite E in H3. by apply te_other.
Qed.

Lemma resume_thread_effect c k w r w' :
  world_ok w → cur_ok (Some c) (w_rt w) → cur_free (Some c) (w_rt w) → thread_frame c k →
  resume_frame k w = Done (r, w') → task_effect (Some c) (TResume k) w r w'.
Proof.
  intros Hw Hc Hf Hk E. assert (Hsl : same_briefs w w').
  { assert (Hk' : match k with KRunNext _ _ => False | _ => True end) by (by destruct k as [| | | |? []]).
    pose proof (briefs_resume k Hk' w) as H. by rewrite E in H. }
  destruct k as [|m my_slot|m| |]; try done; cbn [resume_frame] in E.
  - injection E as <- <-. apply te_other; [done|reflexivity|by apply sc_same|done].
  - cbn in Hk. subst my_slot. pose proof (relock_refines c m w (alpha w) Hw Hc (abs_alpha w)) as Hr.
    unfold refines, returns in Hr. rewrite E in Hr. destruct Hr as [Ha Habs].
    eapply te_sync; [cbn; by rewrite <- surjective_pairing|..]; done.
  - pose proof (lock_refines (Some c) m w (alpha w) Hw Hc (abs_alpha w)) as Hr.
    unfold refines, returns in Hr. unfold gth_cond_wait_resume in E. rewrite E in Hr. destruct Hr as [Ha Habs].
    eapply te_sync; [cbn; by rewrite <- surjective_pairing|..]; done.
  - injection E as <- <-. apply te_other; [done|reflexivity|by apply sc_same|done].
Qed.

Lemma resume_main_effect k w r w' :
  world_ok w → main_frame k → none_running (w_rt w) →
  match k with KRunNext _ (InJoin tid i) => slot_of w i tid | _ => True end →
  resume_frame k w = Done (r, w') → task_effect None (TResume k) w r w'.
Proof.
  intros Hw Hk Hnr Hj E. assert (Hse : settles w w').
  { destruct k as [| | | |prev kr]; try done. pose proof (frames_resume_main prev kr w) as H. by rewrite E in H. }
  destruct k as [| | | |prev [|tid i]]; try done; cbn in E, Hk.
  - injection E as <- <-. apply te_other; [done|done|by apply sc_same|done].
  - destruct Hk as [-> _]. unfold bind at 1, modify in E. set (w1 := gth_scheduler_run_next_resume 0 w) in *.
    destruct Hj as (t & Ht & He & Htid).
    assert (Hw1 : world_ok w1) by (apply world_ok_rt; [done|apply Hw|apply Hw]).
    assert (Hc1 : cur_ok None (w_rt w1)) by (constructor; [done|]; intros j u Hu Hr; exfalso; by eapply Hnr).
    assert (Hini : rt_initialized (w_rt w1) = true).
    { destruct (rt_initialized (w_rt w1)) eqn:Hi; [done|].
      by rewrite (tb_uninit _ _ _ _ _ _ (wo_table _ Hw) Hi i t Ht) in He. }
    assert (Hfind : gth_runtime_find_thread (w_rt w1) tid = Some i) by (rewrite <- Htid; by apply (find_thread_unique w1 Hw1)).
    destruct (join_loop_slots w1 Hw1 Hc1 Hini None tid i t r w' Hfind Ht E) as [Hsc Hjo].
    apply te_other; [done|done| |done]. by destruct Hsc; econstructor.
Qed.

Section effects.
Context (P : program) (HP : disciplined P).

Lemma task_effect_ok m tid u t r w :
  mach_ok P m → joining P m → runs_task P m tid u t →
  code t (m_world P m) = Done (r, w) → task_effect (cur_of (m_run P m)) t (m_world P m) r w.
Proof using HP.
  intros Hm Hj (mode & Hctl & Hmode) E. pose proof Hm as [Hw Hex _]. destruct t as [a|k]; cbn in Hmode.
  - destruct Hmode as [-> Hn]. destruct (user_call_ok P m u Hm ltac:(eauto)) as (_ & Hc & Hf).
    apply call_effect; try done. unfold executing in Hex. destruct (m_run P m) as [|c]; [done|]. intros _.
    destruct Hex as (_ & _ & _ & mode & E' & Hu). rewrite Hctl in E'. injection E' as -> <-. by eapply HP.
  - subst mode. unfold executing in Hex. destruct (m_run P m) as [|c].
    + destruct Hex as (mode & E' & Hx). rewrite Hctl in E'. injection E' as -> <-. destruct Hx as [Hk Hnr].
      apply resume_main_effect; try done. unfold joining in Hj. rewrite Hctl in Hj. cbn in Hj. by destruct k as [| | | |? []].
    + destruct Hex as (Hc & Hf & _ & mode & E' & Hx). rewrite Hctl in E'. injection E' as -> <-. destruct Hx as [Hk _].
      by apply resume_thread_effect.
Qed.

(** ** Slots along an execution *)

Lemma slot_of_same w w' i tid : world_ok w → world_ok w' → same_slots w w' → slot_of w i tid → slot_of w' i tid.
Proof using Type.
  intros Hw Hw' [_ E] (t & Ht & He & Htid). assert (Hi : slots w' !! i = Some (slot_id t)).
  { rewrite E. unfold slots. by rewrite list_lookup_fmap, Ht. }
  unfold slots in Hi. apply list_lookup_fmap_Some in Hi as (t' & Eid & Ht'). exists t'. injection Eid as E1 _ _ _ _.
  split_and!; [done| |congruence]. destruct (is_empty t') eqn:He'; [|done].
  rewrite (tb_empty _ _ _ _ _ _ (wo_table _ Hw') i t' Ht' He') in E1. cbn in E1.
  pose proof (tb_tid _ _ _ _ _ _ (wo_table _ Hw) i t Ht He). lia.
Qed.

Lemma slot_of_only w w' i j tid t :
  rt_threads (w_rt w) !! j = Some t → is_empty t = true → only_slot j w w' → slot_of w i tid → slot_of w' i tid.
Proof using Type.
  intros Hj Hej [_ Ho] (t' & Ht & He & Htid). exists t'. rewrite Ho; [done|]. intros ->. congruence.
Qed.

Lemma slot_of_insert w w' i j tid t t' :
  rt_threads (w_rt w) !! j = Some t → is_empty t' = false → th_tid t' = th_tid t →
  rt_threads (w_rt w') = <[j := t']> (rt_threads (w_rt w)) → slot_of w i tid → slot_of w' i tid.
Proof using Type.
  intros Hj E1 E2 Ets (ti & Hti & He & Htid). unfold slot_of. rewrite Ets.
  destruct (decide (i = j)) as [->|Hne]; [|rewrite list_lookup_insert_ne by done; by exists ti].
  rewrite list_lookup_insert_eq by (by eapply lookup_lt_Some). exists t'. simplify_eq. by split_and!.
Qed.

Lemma slot_of_save w r p i tid : slot_of w i tid → slot_of (upd_rt (save_ctx r p) w) i tid.
Proof using Type.
  intros (t & Ht & He & Htid). destruct r as [|j]; [by exists t|]. unfold slot_of. cbn. destruct (decide (i = j)) as [->|Hne].
  - rewrite list_lookup_alter_eq, Ht. by eexists.
  - rewrite list_lookup_alter_ne by done. by exists t.
Qed.

Lemma joining_ctl m m' :
  m_ctl P m' Main = m_ctl P m Main ∨
  (∃ n k u, main_waits P m n k u ∧ m_ctl P m' Main = Some (mk_ctl P 0 (Resuming P k u))) →
  (∀ i tid, slot_of (m_world P m) i tid → slot_of (m_world P m') i tid) → joining P m → joining P m'.
Proof using Type.
  intros Hc Hs Hj. unfold joining in *. destruct Hc as [->|(n & k & u & [Hc _] & ->)].
  - destruct (m_ctl P m Main) as [[tid mode]|]; [|done]. destruct (frame_of P mode) as [[| | | |? []]|]; auto.
  - rewrite Hc in Hj. cbn in *. destruct k as [| | | |? []]; auto.
Qed.

Lemma insert_ctl_eq (f : owner → option (ctl P)) o x : <[o := x]> f o = x.
Proof using Type. apply fn_lookup_insert. Qed.

(** Tasks of threads leave the slots of the others. *)
Lemma thread_task_slots c t w r w' i tid :
  world_ok w → world_ok w' → task_effect (Some c) t w r w' → slot_of w i tid → slot_of w' i tid.
Proof using Type.
  intros Hw Hw' [v a _ _ _ Hs|_ _ Hs _] Hi; [by apply (slot_of_same w); [..|apply briefs_slots|]|].
  destruct Hs as [r Hg Ets|j tj Hcur Hg Hj He Ets|j tj k Hcur|j tj r Hwh Hg Hj He Ets|j tj r Hj Hej Ho|j tj r Hcur|r Hcur]; try done.
  - unfold slot_of. by rewrite Ets.
  - by apply (slot_of_insert w w' i j tid tj (set_state GTH_THREAD_READY tj)).
  - by apply (slot_of_insert w w' i j tid tj (canceled tj)).
  - by apply (slot_of_only w w' i j tid tj).
Qed.

Definition about_to_abandon (m : machine P) : Prop := ∃ tid u a,
  m_ctl P m (m_run P m) = Some (mk_ctl P tid (User P u)) ∧ p_next P u = ACall a ∧ abandons (m_world P m) a.

Lemma not_abandoning m tid u t : ¬ about_to_abandon m → runs_task P m tid u t → ¬ task_abandons (m_world P m) t.
Proof using Type.
  intros Hn (mode & Hctl & Hmode). destruct t as [a|k]; [|by intros []]. destruct Hmode as [-> Hnext].
  intros Hab. apply Hn. by exists tid, u, a.
Qed.

(** The world before the context is saved. *)
Lemma task_world_ok m tid u t r w :
  mach_ok P m → tid_room (m_world P m) → runs_task P m tid u t → code t (m_world P m) = Done (r, w) → world_ok w.
Proof using HP.
  intros Hm Hroom Ht E. destruct (task_ok P HP m tid u t Hm Hroom Ht) as [_ Hok]. rewrite E in Hok. cbn in Hok.
  destruct r as [r|from to k]; [apply Hok|]. destruct (cur_of (m_run P m)) as [c|]; [apply Hok|].
  destruct Hok as (i & _ & _ & _ & Hd). apply Hd.
Qed.

Lemma joining_step m m' :
  mach_ok P m → tid_room (m_world P m) → joining P m → step P m = Next P m' → joining P m'.
Proof using HP.
  intros Hm Hroom Hj E. pose proof Hm as [Hw _ _].
  apply step_stepped in E as [tid u t r w Ht Ec|c tid u t k w n k0 u0 Hrun Ht Ec Hk Hwait|i ti u t k w mem mode Hrun Ht Ec Hk Hti Hr He|c tid u v w n k0 u0 Hrun Hctl Hn Et Hwait]; try done.
  - pose proof (task_world_ok _ _ _ _ _ _ Hm Hroom Ht Ec) as Hw'.
    pose proof (task_effect_ok m tid u t _ w Hm Hj Ht Ec) as He.
    destruct (m_run P m) as [|c]; [unfold joining; cbn; by rewrite insert_ctl_eq|].
    apply (joining_ctl m); [left; cbn; by rewrite insert_ctl_ne| |done]. intros i tid'. by apply (thread_task_slots c t _ (Return r)).
  - pose proof (task_world_ok _ _ _ _ _ _ Hm Hroom Ht Ec) as Hw'.
    pose proof (task_effect_ok m tid u t _ w Hm Hj Ht Ec) as He. rewrite Hrun in He.
    apply (joining_ctl m); [right; exists n, k0, u0; split; [done|]; cbn; by rewrite insert_ctl_eq| |done].
    intros i tid' Hi. apply slot_of_save. by apply (thread_task_slots c t (m_world P m) (Swap (ThreadCtx c) SchedCtx k)).
  - pose proof (task_world_ok _ _ _ _ _ _ Hm Hroom Ht Ec) as Hw'.
    pose proof (task_effect_ok m 0 u t _ w Hm Hj Ht Ec) as Hef. rewrite Hrun in Hef.
    unfold joining. cbn. rewrite insert_ctl_ne, insert_ctl_eq by done. cbn.
    destruct k as [| | | |prev [|tid j]]; try done. apply (slot_of_save w SchedCtx).
    destruct Hef as [v a _ Ha _ _|_ _ Hs Hjo]; [by destruct v as [|k']; [|destruct Ha as (c & ? & _)]|].
    inversion Hs; subst. by apply (slot_of_insert (m_world P m) w j i tid t0 (set_state GTH_THREAD_RUNNING t0)).
  - apply (joining_ctl m); [right; exists n, k0, u0; split; [done|]; cbn; by rewrite insert_ctl_eq| |done].
    pose proof Hm as [_ Hex _]. unfold executing in Hex. rewrite Hrun in Hex. destruct Hex as (Hc & Hf & _).
    pose proof (trampoline_exit_ok c v _ Hw Hc Hf) as Hx. unfold returns in Hx. rewrite Et in Hx.
    pose proof (frames_trampoline (R := same_slots) c v (m_world P m)) as Hs. rewrite Et in Hs.
    intros i tid' Hi. cbn. apply (slot_of_same (m_world P m)); [done|apply Hx|done|done].
Qed.

Lemma reachable_joining os fuel n : ∀ m,
  Z.of_nat n < 2 ^ 64 - 2 → run P n (boot P os fuel) = Next P m → joining P m.
Proof using HP.
  induction n as [|n IH]; intros m Hn E; [by injection E as <-|]. apply run_snoc in E as (m1 & E1 & E2).
  eapply (joining_step m1); [| | |exact E2].
  - eapply reachable_ok; [done| |exact E1]. lia.
  - eapply reachable_room; [done| |exact E1]. lia.
  - apply IH; [lia|done].
Qed.

(** The thread that executes is not waiting. *)
Lemma running_free m : mach_ok P m → cur_free (cur_of (m_run P m)) (w_rt (m_world P m)).
Proof using Type.
  intros [_ Hex _]. unfold executing in Hex. destruct (m_run P m) as [|c]; [by intros ? ? [=]|]. apply Hex.
Qed.

Lemma running_not_blocked m c t :
  mach_ok P m → m_run P m = Thr c → rt_threads (w_rt (m_world P m)) !! c = Some t → is_blocked t = false.
Proof using Type.
  intros Hm Hrun Ht. pose proof (running_free m Hm c t) as Hf. rewrite Hrun in Hf. specialize (Hf eq_refl Ht).
  by apply orb_false_iff in Hf as [_ ?].
Qed.

(** The threads that wait go on waiting while a task runs that is not about objects. *)
Lemma other_task_waiting m tid u t r w i ti :
  mach_ok P m → ¬ about_to_abandon m → runs_task P m tid u t → slot_change (cur_of (m_run P m)) (what_of t) (m_world P m) w r →
  rt_threads (w_rt (m_world P m)) !! i = Some ti → is_blocked ti = true →
  m_run P m ≠ Thr i ∧ rt_threads (w_rt w) !! i = Some ti.
Proof using Type.
  intros Hm Hab Ht Hsc Hti Hb. split.
  - intros Hrun. by rewrite (running_not_blocked m i ti Hm Hrun Hti) in Hb.
  - eapply slot_change_waiting; [by apply running_free| |exact Hsc|done|done].
    intros f Ef. destruct t as [f'|]; [|done]. injection Ef as ->. exact (not_abandoning m tid u (TCall f) Hab Ht).
Qed.

(** A thread that ends leaves the other slots alone. *)
Lemma exit_only c v w w' : trampoline_exit c v w = Done (tt, w') → only_slot c w w'.
Proof using Type.
  intros E. assert (H : frames (only_slot c) (trampoline_exit c v)).
  { unfold trampoline_exit. autounfold with keeps. repeat only_step. }
  specialize (H w). by rewrite E in H.
Qed.
End effects.
