(* ===== verification/Queues.v ===== *)
(** * Wait queues list exactly the threads that wait

    [Waiting] shows that a blocked thread is in some queue.  Here the queue is
    the right one: in every reachable state the queue of an object lists,
    without repetition, exactly the threads that are blocked in a call on that
    object.  So nobody is woken by an operation on an object it does not wait
    for, and every unit of a semaphore is accounted for.  The programs are those
    that do not cancel a blocked thread, shut down while threads are blocked, or
    initialise an object that has waiters; cancellation of a blocked thread
    does break the queues ([stale_slot_wakes_another_thread] of Findings.v). *)

From S2P Require Import Prelude WaitQueue TraceFormat State Stack TraceBuffer Trace Runtime Replay.
From S2P Require Import Fuzz Sched Thread Mutex Sem Cond Lifecycle Machine Scripts Invariant Ops Switching Safety.
From S2P Require Import SyncSpec Frame Exclusion Waiting ThreadSpec Slots Steps.
Import Sync.

(** ** Objects and their queues *)

Inductive obj := OMutex (m : Z) | OSem (s : Z) | OCond (c : Z).

#[export] Instance obj_eq_dec : EqDecision obj.
Proof. solve_decision. Defined.

Definition queue (a : astate) (o : obj) : list Z :=
  match o with
  | OMutex m => am_waiters (a_mutex a m)
  | OSem s => as_waiters (a_sem a s)
  | OCond c => ac_waiters (a_cond a c)
  end.

(** The object that a thread suspended at switch point [k] of the call [act] waits for. *)
Definition wait_obj (k : frame) (act : action) : option obj :=
  match k, act with
  | KLock m _, _ => Some (OMutex m)
  | KSemWait, ACall (ASemWait s) => Some (OSem s)
  | KCondWait _, ACall (ACondWait c _) => Some (OCond c)
  | _, _ => None
  end.

(** [g] is what the suspended threads wait for. *)
Record exact (a : astate) (g : nat → option obj) : Prop := {
  ex_nodup o : NoDup (queue a o);
  ex_slot o z : z ∈ queue a o → 0 ≤ z;
  ex_iff o i : Z.of_nat i ∈ queue a o ↔ blocked_in a i ∧ g i = Some o
}.

(** Only what blocked threads wait for matters. *)
Lemma exact_ext a a' g g' :
  exact a g → (∀ o, queue a' o = queue a o) → (∀ i, blocked_in a' i ↔ blocked_in a i) →
  (∀ i, blocked_in a i → g' i = g i) → exact a' g'.
Proof.
  intros [H1 H2 H3] Eq Eb Eg. constructor.
  - intros o. by rewrite Eq.
  - intros o z. rewrite Eq. apply H2.
  - intros o i. rewrite Eq, H3, Eb. split; intros [Hb Hg]; (split; [done|]); by rewrite ?Eg, <- ?Eg in *.
Qed.

Lemma blocked_set_thread a i st j :
  is_Some (a_threads a !! i) → is_blocked_st st = false →
  blocked_in (set_thread i st a) j ↔ blocked_in a j ∧ j ≠ i.
Proof.
  intros [x Hx] Hst. unfold blocked_in. cbn. destruct (decide (j = i)) as [->|Hne].
  - rewrite list_lookup_alter_eq, Hx. cbn. split; [intros [= ->]; done|tauto].
  - rewrite list_lookup_alter_ne by done. tauto.
Qed.

Lemma blocked_set_blocked a i j :
  is_Some (a_threads a !! i) → blocked_in (set_thread i GTH_THREAD_BLOCKED a) j ↔ blocked_in a j ∨ j = i.
Proof.
  intros [x Hx]. unfold blocked_in. cbn. destruct (decide (j = i)) as [->|Hne].
  - rewrite list_lookup_alter_eq, Hx. cbn. tauto.
  - rewrite list_lookup_alter_ne by done. tauto.
Qed.

Lemma blocked_wake a z i : 0 ≤ z → blocked_in (wake z a) i ↔ blocked_in a i ∧ Z.of_nat i ≠ z.
Proof.
  intros Hz. unfold blocked_in. cbn. destruct (decide (i = Z.to_nat z)) as [->|Hne].
  - rewrite list_lookup_alter_eq. destruct (a_threads a !! Z.to_nat z) as [st|]; cbn.
    + split; [by destruct st|]. rewrite Z2Nat.id by done. tauto.
    + split; [done|]. tauto.
  - rewrite list_lookup_alter_ne by done. split; [|tauto]. intros H. split; [done|]. lia.
Qed.

Lemma blocked_wakes q : ∀ a i,
  (∀ z, z ∈ q → 0 ≤ z) → blocked_in (foldl (λ a slot, wake slot a) a q) i ↔ blocked_in a i ∧ Z.of_nat i ∉ q.
Proof.
  induction q as [|z q IH]; intros a i Hq; cbn [foldl]; [set_solver|].
  rewrite IH by set_solver. rewrite blocked_wake by set_solver. set_solver.
Qed.

Lemma queue_wakes q : ∀ a o, queue (foldl (λ a slot, wake slot a) a q) o = queue a o.
Proof. induction q as [|z q IH]; intros a o; cbn [foldl]; [done|]. rewrite IH. by destruct o. Qed.

Section steps.
Context (a : astate) (g : nat → option obj) (Hx : exact a g).

(** The caller [c] joins the queue of [o]. *)
Lemma exact_push a' o c :
  ¬ blocked_in a c → (∀ o', queue a' o' = if decide (o' = o) then queue a o ++ [Z.of_nat c] else queue a o') →
  (∀ i, blocked_in a' i ↔ blocked_in a i ∨ i = c) → exact a' (<[c := Some o]> g).
Proof using Hx.
  destruct Hx as [H1 H2 H3]. intros Hc Eq Eb. constructor.
  - intros o'. rewrite Eq. case_decide; [|apply H1]. apply NoDup_app. split_and!; [apply H1| |apply NoDup_singleton].
    intros z Hz ->%list_elem_of_singleton. apply H3 in Hz. tauto.
  - intros o' z. rewrite Eq. case_decide; [|apply H2]. intros [Hz| ->%list_elem_of_singleton]%elem_of_app; [by eapply H2|lia].
  - intros o' i. rewrite Eb. destruct (decide (c = i)) as [<-|Hne].
    + rewrite fn_lookup_insert, Eq. case_decide as E; [subst; set_solver|]. rewrite H3. split; [tauto|]. intros [_ [= ->]]. done.
    + rewrite fn_lookup_insert_ne by done. rewrite Eq. case_decide as E; [subst|rewrite H3; naive_solver].
      rewrite elem_of_app, H3, list_elem_of_singleton. split; [intros [|]; [tauto|lia]|]. intros [[|] ?]; [tauto|congruence].
Qed.

(** The first waiters of [o] are woken. *)
Lemma exact_pop a' o woken rest :
  queue a o = woken ++ rest → (∀ o', queue a' o' = if decide (o' = o) then rest else queue a o') →
  (∀ i, blocked_in a' i ↔ blocked_in a i ∧ Z.of_nat i ∉ woken) → exact a' g.
Proof using Hx.
  destruct Hx as [H1 H2 H3]. intros E Eq Eb. pose proof (H1 o) as Hnd. rewrite E in Hnd.
  apply NoDup_app in Hnd as (Hn1 & Hn2 & Hn3). constructor.
  - intros o'. rewrite Eq. case_decide; [done|apply H1].
  - intros o' z. rewrite Eq. case_decide; [|apply H2]. intros Hz. apply (H2 o). rewrite E. set_solver.
  - intros o' i. rewrite Eq, Eb. case_decide as Eo.
    + subst o'. pose proof (H3 o i) as Hi. rewrite E, elem_of_app in Hi. split.
      * intros Hr. assert (Hnw : Z.of_nat i ∉ woken) by (intros Hw; by apply (Hn2 _ Hw)). tauto.
      * intros [[Hb Hw] Hg]. destruct Hi as [_ Hi]. destruct Hi; [done|done|done].
    + rewrite H3. split; [|tauto]. intros [Hb Hg]. split; [|done]. split; [done|]. intros Hw.
      assert (Ho : Z.of_nat i ∈ queue a o) by (rewrite E; set_solver). apply H3 in Ho as [_ Ho]. congruence.
Qed.
End steps.

(** ** Operations *)

Lemma queue_set_m m y a o : queue (set_m m y a) o = if decide (o = OMutex m) then am_waiters y else queue a o.
Proof.
  destruct o as [m'|s|c]; cbn; [|done..]. case_decide as E; [injection E as ->; by rewrite fn_lookup_insert|].
  rewrite fn_lookup_insert_ne; [done|]. congruence.
Qed.
Lemma queue_set_s s y a o : queue (set_s s y a) o = if decide (o = OSem s) then as_waiters y else queue a o.
Proof.
  destruct o as [m|s'|c]; cbn; [done| |done]. case_decide as E; [injection E as ->; by rewrite fn_lookup_insert|].
  rewrite fn_lookup_insert_ne; [done|]. congruence.
Qed.
Lemma queue_set_c c y a o : queue (set_c c y a) o = if decide (o = OCond c) then ac_waiters y else queue a o.
Proof.
  destruct o as [m|s|c']; cbn; [done|done|]. case_decide as E; [injection E as ->; by rewrite fn_lookup_insert|].
  rewrite fn_lookup_insert_ne; [done|]. congruence.
Qed.
Lemma queue_set_thread i st a o : queue (set_thread i st a) o = queue a o.
Proof. by destruct o. Qed.
Lemma queue_wake z a o : queue (wake z a) o = queue a o.
Proof. by destruct o. Qed.

(** What the threads wait for once the caller has made the call [act]. *)
Definition after (cl : caller) (act : action) (v : verdict) (g : nat → option obj) : nat → option obj :=
  match v, cl_slot cl with
  | Park k, Some c => <[c := wait_obj k act]> g
  | _, _ => g
  end.

(** The caller runs. *)
Definition caller_runs (cl : caller) (a : astate) : Prop := ∀ c, cl_slot cl = Some c →
  is_Some (a_threads a !! c) ∧ ¬ blocked_in a c.

Section operations.
Context (a : astate) (g : nat → option obj) (cl : caller) (Hx : exact a g) (Hcl : caller_runs cl a).

(** The operation replaces an object by one with the same queue. *)
Lemma exact_same a' : (∀ o, queue a' o = queue a o) → a_threads a' = a_threads a → exact a' g.
Proof using Hx. intros Eq Et. eapply exact_ext; [done..| |done]. intros i. unfold blocked_in. by rewrite Et. Qed.

Lemma exact_set_m m y : am_waiters y = am_waiters (a_mutex a m) → exact (set_m m y a) g.
Proof using Hx. intros E. apply exact_same; [|done]. intros o. rewrite queue_set_m. case_decide; [by subst|done]. Qed.
Lemma exact_set_s s y : as_waiters y = as_waiters (a_sem a s) → exact (set_s s y a) g.
Proof using Hx. intros E. apply exact_same; [|done]. intros o. rewrite queue_set_s. case_decide; [by subst|done]. Qed.
Lemma exact_set_c c y : ac_waiters y = ac_waiters (a_cond a c) → exact (set_c c y a) g.
Proof using Hx. intros E. apply exact_same; [|done]. intros o. rewrite queue_set_c. case_decide; [by subst|done]. Qed.

Lemma exact_park c m act :
  cl_slot cl = Some c → exact (snd (m_park c m (a_mutex a m) a)) (after cl act (fst (m_park c m (a_mutex a m) a)) g).
Proof using Hx Hcl.
  intros Hc. destruct (Hcl c Hc) as [Hs Hb]. unfold m_park, after. destruct (m_full _); [done|]. cbn [fst snd]. rewrite Hc.
  apply (exact_push a g Hx _ (OMutex m)); [done| |].
  - intros o. rewrite queue_set_thread, queue_set_m. done.
  - intros i. by rewrite blocked_set_blocked.
Qed.

Lemma exact_lock m act : exact (snd (m_lock cl m a)) (after cl act (fst (m_lock cl m a)) g).
Proof using Hx Hcl.
  unfold m_lock. destruct (m =? 0); [done|]. destruct (negb _); [done|].
  destruct (am_owner (a_mutex a m)); [|by apply exact_set_m]. destruct (_ =? _); [done|].
  destruct (cl_slot cl) as [c|] eqn:E; [by apply exact_park|done].
Qed.

Lemma exact_relock c m act :
  cl_slot cl = Some c → exact (snd (m_relock cl c m a)) (after cl act (fst (m_relock cl c m a)) g).
Proof using Hx Hcl.
  intros Hc. unfold m_relock. destruct (am_owner (a_mutex a m)); [by apply exact_park|by apply exact_set_m].
Qed.

(** Waking the first waiter, if there is one. *)
Lemma exact_wake_head o z q a' :
  queue a o = z :: q → (∀ o', queue a' o' = if decide (o' = o) then q else queue a o') →
  a_threads a' = a_threads a → exact (wake z a') g.
Proof using Hx.
  intros E Eq Et. assert (Hz : 0 ≤ z) by (apply (ex_slot _ _ Hx o); rewrite E; by left).
  apply (exact_pop a g Hx _ o [z] q); [done|intros o'; by rewrite queue_wake|].
  intros i. rewrite blocked_wake by done. unfold blocked_in. rewrite Et, list_elem_of_singleton. done.
Qed.

Lemma exact_unlock m : exact (snd (m_unlock cl m a)) g.
Proof using Hx.
  unfold m_unlock. destruct (m =? 0); [done|]. destruct (negb _); [done|]. destruct (am_owner _) as [w|]; [|done].
  destruct (_ && _); [done|]. destruct (am_waiters (a_mutex a m)) as [|z q] eqn:E; cbn [snd].
  - by apply exact_set_m.
  - apply (exact_wake_head (OMutex m) z q); [done| |done]. intros o'. by rewrite queue_set_m.
Qed.

Lemma exact_sem_wait s :
  exact (snd (s_wait cl s a)) (after cl (ACall (ASemWait s)) (fst (s_wait cl s a)) g).
Proof using Hx Hcl.
  unfold s_wait, after. destruct (s =? 0); [done|]. destruct (negb _); [done|].
  destruct (_ =? 0); [|by apply exact_set_s]. destruct (cl_slot cl) as [c|] eqn:Hc; [|done]. destruct (Hcl c Hc) as [Hs Hb].
  destruct (_ <=? _)%nat; [done|]. apply (exact_push a g Hx _ (OSem s)); [done| |].
  - intros o. cbn [snd]. rewrite queue_set_thread, queue_set_s. done.
  - intros i. cbn [snd]. by rewrite blocked_set_blocked.
Qed.

Lemma exact_sem_post s : exact (snd (s_post s a)) g.
Proof using Hx.
  unfold s_post. destruct (s =? 0); [done|]. destruct (negb _); [done|].
  destruct (as_waiters (a_sem a s)) as [|z q] eqn:E; cbn [snd].
  - destruct (_ =? _); [done|]. by apply exact_set_s.
  - apply (exact_wake_head (OSem s) z q); [done| |done]. intros o'. by rewrite queue_set_s.
Qed.

Lemma exact_signal c : exact (snd (c_signal c a)) g.
Proof using Hx.
  unfold c_signal. destruct (c =? 0); [done|]. destruct (negb _); [done|].
  destruct (ac_waiters (a_cond a c)) as [|z q] eqn:E; cbn [snd]; [done|].
  apply (exact_wake_head (OCond c) z q); [done| |done]. intros o'. by rewrite queue_set_c.
Qed.

Lemma exact_broadcast c : exact (snd (c_broadcast c a)) g.
Proof using Hx.
  unfold c_broadcast. destruct (c =? 0); [done|]. destruct (negb _); [done|]. cbn [snd].
  apply (exact_pop a g Hx _ (OCond c) (ac_waiters (a_cond a c)) []).
  - cbn. by rewrite app_nil_r.
  - intros o'. by rewrite queue_wakes, queue_set_c.
  - intros i. rewrite blocked_wakes; [done|]. intros z. apply (ex_slot _ _ Hx (OCond c)).
Qed.
End operations.

(** The caller is at the end of the queue it has just joined. *)
Lemma spec_remove_last q x : x ∉ q → snd (Spec.remove (q ++ [x]) x) = q.
Proof.
  induction q as [|y q IH]; cbn [app Spec.remove]; intros Hx.
  - by rewrite Z.eqb_refl.
  - destruct (Z.eqb_spec y x); [set_solver|]. specialize (IH ltac:(set_solver)).
    destruct (Spec.remove (q ++ [x]) x) as [b r]. cbn in *. by rewrite IH.
Qed.

Lemma exact_cond_wait a g cl c m :
  exact a g → caller_runs cl a →
  exact (snd (c_wait cl c m a)) (after cl (ACall (ACondWait c m)) (fst (c_wait cl c m a)) g).
Proof.
  intros Hx Hcl. unfold c_wait, after. destruct (_ || _); [done|]. destruct (negb _); [done|].
  destruct (cl_slot cl) as [i|] eqn:Hc; [|done]. destruct (Hcl i Hc) as [Hs Hb]. destruct (_ <=? _)%nat; [done|]. cbv zeta.
  match goal with |- context [m_unlock cl m ?b] => set (a1 := b) end.
  assert (H1 : exact a1 (<[i := Some (OCond c)]> g)).
  { apply (exact_push a g Hx _ (OCond c)); [done| |].
    - intros o. unfold a1. rewrite queue_set_c. by rewrite queue_set_thread.
    - intros j. change (blocked_in (set_thread i GTH_THREAD_BLOCKED a) j ↔ blocked_in a j ∨ j = i). by rewrite blocked_set_blocked. }
  assert (Hfail : ∀ st, exact (snd (Answer st, set_c c {| (a_cond a c) with ac_waiters :=
      snd (Spec.remove (ac_waiters (a_cond a c) ++ [Z.of_nat i]) (Z.of_nat i)) |} (set_thread i GTH_THREAD_RUNNING a))) g).
  { intros st. cbn [snd]. eapply exact_ext; [exact Hx| | |done].
    - intros o. rewrite queue_set_c, queue_set_thread. case_decide; [subst|done]. cbn.
      rewrite spec_remove_last; [done|]. intros Hin. by apply (ex_iff _ _ Hx (OCond c) i) in Hin as [? _].
    - intros j. change (blocked_in (set_thread i GTH_THREAD_RUNNING a) j ↔ blocked_in a j). rewrite blocked_set_thread by done.
      split; [tauto|]. intros Hj. split; [done|]. by intros ->. }
  pose proof (exact_unlock a1 _ cl H1 m) as H2.
  destruct (m_unlock cl m a1) as [st a2]. destruct st; try apply Hfail. exact H2.
Qed.

Lemma exact_spec cl f a g spec :
  exact a g → caller_runs cl a → ¬ drops_waiters f a → sync_spec cl f a = Some spec →
  exact (snd spec) (after cl (ACall f) (fst spec) g).
Proof.
  intros Hx Hcl Hd E. destruct f; try done; cbn [sync_spec drops_waiters] in *; injection E as <-.
  - unfold m_init. destruct (_ =? _); [done|]. apply exact_set_m; [done|]. apply dec_stable in Hd. by rewrite Hd.
  - by apply exact_lock.
  - unfold m_trylock. repeat case_match; try done. by apply exact_set_m.
  - pose proof (exact_unlock a g cl Hx m) as H. unfold answer_of. by destruct (m_unlock cl m a).
  - unfold m_destroy. repeat case_match; try done. by apply exact_set_m.
  - unfold s_init. destruct (_ =? _); [done|]. apply exact_set_s; [done|]. apply dec_stable in Hd. by rewrite Hd.
  - by apply exact_sem_wait.
  - pose proof (exact_sem_post a g Hx s) as H. unfold after.
    replace (match fst (s_post s a) with Answer _ => g | Park k => _ end) with g; [done|]. unfold s_post. by repeat case_match.
  - unfold s_destroy. repeat case_match; try done. by apply exact_set_s.
  - unfold c_init. destruct (_ =? _); [done|]. apply exact_set_c; [done|]. apply dec_stable in Hd. by rewrite Hd.
  - by apply exact_cond_wait.
  - pose proof (exact_signal a g Hx c) as H. unfold after.
    replace (match fst (c_signal c a) with Answer _ => g | Park k => _ end) with g; [done|]. unfold c_signal. by repeat case_match.
  - pose proof (exact_broadcast a g Hx c) as H. unfold after.
    replace (match fst (c_broadcast c a) with Answer _ => g | Park k => _ end) with g; [done|]. unfold c_broadcast. by repeat case_match.
  - unfold c_destroy. repeat case_match; try done. by apply exact_set_c.
Qed.

(** ** Executions *)

Lemma exact_abs w a g : abs w a → exact a g → exact (alpha w) g.
Proof.
  intros [E1 E2 E3 E4] Hx. eapply exact_ext; [exact Hx| | |done].
  - intros [m|s|c]; cbn; [by rewrite <- E2|by rewrite <- E3|by rewrite <- E4].
  - intros i. unfold blocked_in. cbn. by rewrite E1.
Qed.

Lemma alpha_save r p w : alpha (upd_rt (save_ctx r p) w) = alpha w.
Proof.
  destruct r as [|i]; [done|]. unfold alpha. f_equal. cbn. apply list_eq. intros j. rewrite !list_lookup_fmap.
  destruct (decide (j = i)) as [->|Hne]; [|by rewrite list_lookup_alter_ne]. rewrite list_lookup_alter_eq.
  by destruct (rt_threads (w_rt w) !! i).
Qed.

Lemma exact_task cl t act a g v a' :
  exact a g → caller_runs cl a → (∀ f, t = TCall f → act = ACall f ∧ ¬ drops_waiters f a) →
  (∀ m c, t = TResume (KLock m c) → cl_slot cl = Some c) → task_spec cl t a = Some (v, a') → exact a' (after cl act v g).
Proof.
  intros Hx Hcl Hf Hk E. destruct t as [f|k]; cbn in E.
  - destruct (Hf f eq_refl) as [-> Hd]. by apply (exact_spec cl f a g (v, a')).
  - destruct k as [|m c|m| |]; try done; injection E as E.
    + pose proof (exact_relock a g cl Hx Hcl c m act (Hk m c eq_refl)) as H. by rewrite E in H.
    + pose proof (exact_lock a g cl Hx Hcl m act) as H. by rewrite E in H.
Qed.

Section machine.
Context (P : program) (HP : disciplined P).

(** What the thread in slot [i] waits for: it is suspended in its context, at a switch point of a
    call on the object. *)
Definition waits_for (m : machine P) (i : nat) : option obj :=
  match rt_threads (w_rt (m_world P m)) !! i, m_ctl P m (Thr i) with
  | Some t, Some (mk_ctl _ _ (Suspended _ n k u)) =>
      if decide (ctx_resume (th_ctx t) = CtxSaved (Thr i) n) then wait_obj k (p_next P u) else None
  | _, _ => None
  end.

Definition exact_in (m : machine P) : Prop := exact (alpha (m_world P m)) (waits_for m).

Lemma waits_for_ext m m' i :
  th_ctx <$> rt_threads (w_rt (m_world P m')) !! i = th_ctx <$> rt_threads (w_rt (m_world P m)) !! i →
  m_ctl P m' (Thr i) = m_ctl P m (Thr i) → waits_for m' i = waits_for m i.
Proof using Type.
  intros E1 E2. unfold waits_for. rewrite E2.
  destruct (rt_threads (w_rt (m_world P m')) !! i) as [t'|], (rt_threads (w_rt (m_world P m)) !! i) as [t|]; try done.
  injection E1 as ->. done.
Qed.

Lemma slots_ctx w w' i : same_slots w w' → th_ctx <$> rt_threads (w_rt w') !! i = th_ctx <$> rt_threads (w_rt w) !! i.
Proof using Type.
  intros [_ E]. apply (f_equal (.!! i)) in E. unfold slots in E. rewrite !list_lookup_fmap in E.
  destruct (rt_threads (w_rt w') !! i), (rt_threads (w_rt w) !! i); try done. injection E as _ _ E _ _. cbn. by rewrite E.
Qed.

Lemma save_ctx_ne r p w i : r ≠ ThreadCtx i → rt_threads (save_ctx r p (w_rt w)) !! i = rt_threads (w_rt w) !! i.
Proof using Type. destruct r as [|j]; [done|]. intros Hne. cbn. rewrite list_lookup_alter_ne; [done|]. congruence. Qed.

Lemma caller_runs_machine m :
  mach_ok P m → caller_runs (caller_of (cur_of (m_run P m)) (m_world P m)) (alpha (m_world P m)).
Proof using Type.
  intros Hm c Hc. cbn in Hc. pose proof (running_free P m Hm c) as Hf. pose proof Hm as [_ Hex _]. unfold executing in Hex.
  destruct (m_run P m) as [|c']; [done|]. injection Hc as ->. destruct Hex as [[(t & Ht & _) _] _].
  split; [cbn; rewrite list_lookup_fmap, Ht; by eexists|]. intros (t' & Ht' & Hb)%blocked_in_alpha.
  specialize (Hf t' eq_refl Ht'). unfold counted in Hf. rewrite Hb in Hf. by rewrite orb_true_r in Hf.
Qed.

(** A step in which the waiting threads are left alone. *)
Lemma exact_others m m' :
  settles (m_world P m) (m_world P m') →
  (∀ i t, rt_threads (w_rt (m_world P m)) !! i = Some t → is_blocked t = true →
    m_ctl P m' (Thr i) = m_ctl P m (Thr i) ∧ rt_threads (w_rt (m_world P m')) !! i = Some t) →
  exact_in m → exact_in m'.
Proof using Type.
  intros [Eo Hb] Hw Hx. eapply exact_ext; [exact Hx| | |].
  - injection Eo as E1 E2 E3. intros [x|x|x]; cbn; unfold mutex_at, sem_at, cond_at; congruence.
  - intros i. rewrite !blocked_in_alpha. split.
    + intros (t & Ht & Hbt). by eapply Hb.
    + intros (t & Ht & Hbt). exists t. split; [|done]. by apply (Hw i t).
  - intros i (t & Ht & Hbt)%blocked_in_alpha. destruct (Hw i t Ht Hbt) as [E1 E2]. apply waits_for_ext; [|done].
    by rewrite E2, Ht.
Qed.

Lemma waits_for_running m tid u t c : runs_task P m tid u t → m_run P m = Thr c → waits_for m c = None.
Proof using Type.
  intros (mode & Hctl & Hmode) Hrun. rewrite Hrun in Hctl. unfold waits_for. rewrite Hctl.
  destruct (rt_threads _ !! c); [|done]. by destruct t; [destruct Hmode as [-> _]|cbn in Hmode; subst mode].
Qed.

(** The premises of [exact_task] in the machine. *)
Lemma task_exact m tid u t v a :
  mach_ok P m → ¬ about_to_abandon P m → exact_in m → runs_task P m tid u t →
  task_spec (caller_of (cur_of (m_run P m)) (m_world P m)) t (alpha (m_world P m)) = Some (v, a) →
  exact a (after (caller_of (cur_of (m_run P m)) (m_world P m)) (p_next P u) v (waits_for m)).
Proof using Type.
  intros Hm Hab Hx Ht Hsp. pose proof Ht as (mode & Hctl & Hmode).
  eapply exact_task; [done|by apply caller_runs_machine| | |exact Hsp].
  - intros f ->. destruct Hmode as [-> Hn]. split; [done|]. intros Hd. apply Hab. exists tid, u, f.
    split_and!; [done|done|]. by destruct f.
  - intros x c ->. cbn in Hmode. subst mode. cbn. pose proof Hm as [_ Hex _]. unfold executing in Hex.
    destruct (m_run P m) as [|c']; rewrite Hctl in Hex.
    + destruct Hex as (mode & E & Hx'). injection E as -> <-. by destruct Hx' as [[] _].
    + destruct Hex as (_ & _ & _ & mode & E & Hx'). injection E as -> <-. cbn in Hx'. by destruct Hx' as [-> _].
Qed.

Lemma exact_return m tid u t r w m' :
  mach_ok P m → joining P m → ¬ about_to_abandon P m → exact_in m → runs_task P m tid u t →
  code t (m_world P m) = Done (Return r, w) → m_world P m' = w →
  (∀ i, m_run P m ≠ Thr i → m_ctl P m' (Thr i) = m_ctl P m (Thr i)) →
  (∀ c, m_run P m = Thr c → ∃ x, m_ctl P m' (Thr c) = Some (mk_ctl P tid (User P x))) → exact_in m'.
Proof using HP.
  intros Hm Hj Hab Hx Ht Ec Ew Hctl Hctl'.
  pose proof (task_effect_ok P HP m tid u t _ w Hm Hj Ht Ec) as [v a Hsp Hans Habs Hss|Hn Hse Hsc _].
  - destruct v as [st|k]; [|by destruct Hans as (c & _ & [=])].
    pose proof (task_exact m tid u t _ a Hm Hab Hx Ht Hsp) as Hxa. cbn [after] in Hxa.
    eapply exact_ext; [exact (exact_abs w a _ Habs Hxa)|by rewrite Ew|by rewrite Ew|].
    intros i _. destruct (decide (m_run P m = Thr i)) as [Hrun|Hne].
    + rewrite (waits_for_running m tid u t i Ht Hrun). destruct (Hctl' i Hrun) as [x E]. unfold waits_for. rewrite E.
      by destruct (rt_threads _ !! i).
    + apply waits_for_ext; [|by apply Hctl]. rewrite Ew. by apply slots_ctx, briefs_slots.
  - apply (exact_others m); rewrite ?Ew; [done| |done]. intros i ti Hti Hb.
    destruct (other_task_waiting P m tid u t _ w i ti Hm Hab Ht Hsc Hti Hb) as [Hne Hi]. split; [by apply Hctl|done].
Qed.

Lemma exact_park_step m c tid u t k w ctl_main :
  mach_ok P m → joining P m → ¬ about_to_abandon P m → exact_in m → m_run P m = Thr c → runs_task P m tid u t →
  code t (m_world P m) = Done (Swap (ThreadCtx c) SchedCtx k, w) →
  exact_in (mk_machine P (upd_rt (save_ctx (ThreadCtx c) (CtxSaved (Thr c) (m_serial P m))) w) (m_mem P m) Main
      (<[Main := ctl_main]> (<[Thr c := Some (mk_ctl P tid (Suspended P (m_serial P m) k u))]> (m_ctl P m))) (S (m_serial P m))).
Proof using HP.
  intros Hm Hj Hab Hx Hrun Ht Ec. set (m' := mk_machine _ _ _ _ _ _).
  assert (Hctl : ∀ i, i ≠ c → m_ctl P m' (Thr i) = m_ctl P m (Thr i)).
  { intros i Hi. cbn. rewrite !insert_ctl_ne by congruence. done. }
  pose proof (task_effect_ok P HP m tid u t _ w Hm Hj Ht Ec) as [v a Hsp Hans Habs Hss|Hn Hse Hsc _].
  - destruct v as [st|k']; [done|]. destruct Hans as (c' & Hc' & E'). rewrite Hrun in Hc'. injection Hc' as <-. injection E' as <-.
    pose proof (task_exact m tid u t _ a Hm Hab Hx Ht Hsp) as Hxa. unfold after in Hxa. cbn [cl_slot caller_of] in Hxa. rewrite Hrun in Hxa.
    cbn [cur_of] in Hxa. unfold exact_in. cbn [m_world m']. rewrite alpha_save.
    eapply exact_ext; [exact (exact_abs w a _ Habs Hxa)|done|done|]. intros i (ti & Hti & Hb)%blocked_in_alpha.
    destruct (decide (c = i)) as [<-|Hne].
    + rewrite fn_lookup_insert. unfold waits_for. cbn [m_world m' m_ctl].
      rewrite insert_ctl_ne, insert_ctl_eq by done. cbn. rewrite list_lookup_alter_eq, Hti. cbn. by rewrite decide_True.
    + rewrite fn_lookup_insert_ne by done. apply waits_for_ext; [|by apply Hctl].
      change (m_world P m') with (upd_rt (save_ctx (ThreadCtx c) (CtxSaved (Thr c) (m_serial P m))) w). cbn [upd_rt w_rt].
      rewrite save_ctx_ne by congruence. by apply slots_ctx, briefs_slots.
  - apply (exact_others m); [|intros i ti Hti Hb|done].
    + etrans; [exact Hse|apply settles_save].
    + destruct (other_task_waiting P m tid u t _ w i ti Hm Hab Ht Hsc Hti Hb) as [Hne Hi]. rewrite Hrun in Hne.
      split; [apply Hctl; congruence|].
      change (m_world P m') with (upd_rt (save_ctx (ThreadCtx c) (CtxSaved (Thr c) (m_serial P m))) w).
      cbn [upd_rt w_rt]. rewrite save_ctx_ne; [done|]. congruence.
Qed.

Lemma exact_step m m' :
  mach_ok P m → tid_room (m_world P m) → joining P m → ¬ about_to_abandon P m → exact_in m →
  step P m = Next P m' → exact_in m'.
Proof using HP.
  intros Hm Hroom Hj Hab Hx E.
  apply step_stepped in E as [tid u t r w Ht Ec|c tid u t k w n k0 u0 Hrun Ht Ec Hk Hwait|i ti u t k w mem mode Hrun Ht Ec Hk Hti Hr He|c tid u v w n k0 u0 Hrun Hctl Hn Et Hwait]; try done.
  - eapply (exact_return m tid u t r w); try done.
    + intros i Hi. by apply insert_ctl_ne.
    + intros c ->. eexists. apply insert_ctl_eq.
  - by apply (exact_park_step m c tid u t).
  - pose proof (task_effect_ok P HP m 0 u t _ w Hm Hj Ht Ec) as [v a Hsp Hans Habs Hss|_ Hse Hsc _].
    { destruct v; [done|]. rewrite Hrun in Hans. by destruct Hans as (c & [=] & _). }
    apply (exact_others m); [etrans; [exact Hse|apply settles_save]|intros j tj Htj Hb|done].
    destruct (other_task_waiting P m 0 u t _ w j tj Hm Hab Ht Hsc Htj Hb) as [_ Hj']. split; [|done].
    cbn. rewrite !insert_ctl_ne; [done|done|]. intros [= ->]. simplify_eq.
    apply is_ready_true in Hr. apply is_blocked_true in Hb. congruence.
  - apply (exact_others m); [|intros j tj Htj Hb|done].
    + pose proof (frames_trampoline (R := settles) c v (m_world P m)) as H. by rewrite Et in H.
    + assert (Hne : j ≠ c) by (intros ->; by rewrite (running_not_blocked P m c tj Hm Hrun Htj) in Hb).
      split; [cbn; rewrite !insert_ctl_ne by congruence; done|]. cbn.
      by rewrite (proj2 (exit_only c v _ _ Et)).
Qed.

Lemma exact_run os fuel n : ∀ m,
  Z.of_nat n < 2 ^ 64 - 2 → run P n (boot P os fuel) = Next P m →
  (∀ k m', (k < n)%nat → run P k (boot P os fuel) = Next P m' → ¬ about_to_abandon P m') → exact_in m.
Proof using HP.
  induction n as [|n IH]; intros m Hn E Hab.
  - injection E as <-. constructor.
    + intros [x|x|x]; apply NoDup_nil_2.
    + by intros [x|x|x] z Hz%not_elem_of_nil.
    + intros o i. split; [by destruct o; intros Hz%not_elem_of_nil|]. intros [_ H]. unfold waits_for in H.
      by destruct (rt_threads (w_rt (m_world P (boot P os fuel))) !! i).
  - apply run_snoc in E as (m1 & E1 & E2). eapply (exact_step m1); [| | | | |exact E2].
    + eapply reachable_ok; [done| |exact E1]. lia.
    + eapply reachable_room; [done| |exact E1]. lia.
    + eapply reachable_joining; [done| |exact E1]. lia.
    + apply (Hab n); [lia|done].
    + apply IH; [lia|done|]. intros k m' Hk. apply Hab. lia.
Qed.
End machine.

(** The slots that wait for an object, first come first. *)
Definition waiters (w : world) (o : obj) : list Z :=
  match o with
  | OMutex m => wq_elems (mx_wq (mutex_at w m))
  | OSem s => wq_elems (sm_wq (sem_at w s))
  | OCond c => wq_elems (cv_wq (cond_at w c))
  end.

Lemma queue_alpha w o : queue (alpha w) o = waiters w o.
Proof. by destruct o. Qed.

(** C10. Wait queues are exact.  In every reachable state of a program that does
    not cancel a blocked thread, shut down while threads are blocked or
    initialise an object that has waiters, the queue of every mutex, semaphore
    and condition variable lists, each once, the threads that are BLOCKED in a
    call on that object, and no others.  So an unlock, post or signal wakes a
    thread that waits for just that, a thread waits for one object at a time,
    and nobody who waits is forgotten. *)
Theorem queues_list_the_waiters P os fuel n m :
  disciplined P → Z.of_nat n < 2 ^ 64 - 2 → run P n (boot P os fuel) = Next P m →
  (∀ k m', (k < n)%nat → run P k (boot P os fuel) = Next P m' → ¬ about_to_abandon P m') →
  ∀ o, NoDup (waiters (m_world P m) o) ∧
    ∀ i, Z.of_nat i ∈ waiters (m_world P m) o ↔
      (∃ t, rt_threads (w_rt (m_world P m)) !! i = Some t ∧ th_state t = GTH_THREAD_BLOCKED) ∧ waits_for P m i = Some o.
Proof.
  intros HP Hn E Hab o. destruct (exact_run P HP os fuel n m Hn E Hab) as [H1 _ H3]. rewrite <- queue_alpha.
  split; [apply H1|]. intros i. rewrite H3, blocked_in_alpha. by setoid_rewrite is_blocked_true.
Qed.

(** ** Witness: thread 2 of [handoff] waits for the mutex *)

Definition harmless (w : world) (a : api) : bool :=
  match a with
  | ACancel _ | AShutdown => false
  | AMutexInit m => bool_decide (waiters w (OMutex m) = [])
  | ASemInit s _ => bool_decide (waiters w (OSem s) = [])
  | ACondInit c => bool_decide (waiters w (OCond c) = [])
  | _ => true
  end.

Lemma harmless_ok w a : harmless w a = true → ¬ abandons w a.
Proof. destruct a; cbn; try done; try (by intros _ []); intros H%bool_decide_eq_true Hn; by apply Hn. Qed.

(** The next call abandons nobody. *)
Definition calm {P} (r : step_result P) : bool :=
  match r with
  | Next _ m => match next_call r with Some (_, a) => harmless (m_world P m) a | None => true end
  | _ => true
  end.

Lemma calm_ok P m : calm (Next P m) = true → ¬ about_to_abandon P m.
Proof.
  intros H (tid & u & a & E1 & E2 & Hab). unfold calm in H. rewrite (next_call_eq P m tid u a E1 E2) in H.
  by apply (harmless_ok _ _ H).
Qed.

Lemma calm_run P os fuel n :
  forallb (λ k, calm (run P k (boot P os fuel))) (seq 0 n) = true →
  ∀ k m', (k < n)%nat → run P k (boot P os fuel) = Next P m' → ¬ about_to_abandon P m'.
Proof.
  intros H k m' Hk E. apply calm_ok. rewrite <- E. apply (proj1 (forallb_forall _ _) H). apply in_seq. lia.
Qed.

Lemma queues_list_the_waiters_witness : ∃ m,
  run handoff 10 (boot handoff sunny_os 0) = Next handoff m ∧ waits_for handoff m 1 = Some (OMutex 5).
Proof.
  destruct (is_next_true (run handoff 10 (boot handoff sunny_os 0))) as [m Hm]; [by vm_compute|]. exists m. split; [exact Hm|].
  apply (queues_list_the_waiters handoff sunny_os 0 10 m handoff_disciplined ltac:(cbn; lia) Hm
    (calm_run handoff sunny_os 0 10 ltac:(by vm_compute)) (OMutex 5)).
  assert (E : waiters_after (run handoff 10 (boot handoff sunny_os 0)) 5 = [1]) by (by vm_compute).
  rewrite Hm in E. change (Z.of_nat 1 ∈ waiters_after (Next handoff m) 5). rewrite E. by left.
Defined.
