(* ===== verification/Counting.v ===== *)
(** * Semaphores count

    Every unit of a semaphore is accounted for in every execution: what has
    been posted is in the count, or a thread has got it from its wait, or it is
    on its way to a thread that was woken and has not run yet.  Nothing is
    lost, and no wait succeeds without a post. *)

From S2P Require Import Prelude WaitQueue TraceFormat State Stack TraceBuffer Trace Runtime Replay.
From S2P Require Import Fuzz Sched Thread Mutex Sem Cond Lifecycle Machine Scripts Invariant Ops Switching Safety.
From S2P Require Import SyncSpec Frame Exclusion Waiting ThreadSpec Slots Steps Queues.
Import Sync.

(** ** Counting *)

Lemma countb_ext {A} (p q : A → bool) l : (∀ x, x ∈ l → p x = q x) → countb p l = countb q l.
Proof.
  induction l as [|x l IH]; intros H; [done|]. rewrite !countb_cons, H by (by left). f_equal. apply IH. intros y Hy.
  apply H. by right.
Qed.

Lemma countb_app {A} (p : A → bool) l l' : countb p (l ++ l') = countb p l + countb p l'.
Proof. induction l as [|x l IH]; [done|]. cbn [app]. rewrite !countb_cons, IH. lia. Qed.

(** Two predicates that differ at most at [i]. *)
Lemma countb_except {A} (p q : A → bool) l i :
  NoDup l → i ∈ l → (∀ x, x ≠ i → p x = q x) → countb q l = countb p l - b2z (p i) + b2z (q i).
Proof.
  intros Hnd Hi H. induction Hnd as [|x l Hx Hnd IH]; [by apply not_elem_of_nil in Hi|]. rewrite !countb_cons.
  apply elem_of_cons in Hi as [->|Hi].
  - rewrite (countb_ext q p l); [unfold b2z; lia|]. intros y Hy. symmetry. apply H. by intros ->.
  - rewrite IH, (H x) by (done || by intros ->). lia.
Qed.

Lemma countb_split {A} (p q : A → bool) l : countb p l = countb (λ x, p x && q x) l + countb (λ x, p x && negb (q x)) l.
Proof. induction l as [|x l IH]; [done|]. rewrite !countb_cons, IH. destruct (p x), (q x); cbn; lia. Qed.

Lemma countb_length {A} (p : A → bool) l : countb p l = Z.of_nat (length (filter (λ x, p x = true) l)).
Proof.
  induction l as [|x l IH]; [done|]. rewrite countb_cons, IH, filter_cons. destruct (p x); [rewrite decide_True by done|rewrite decide_False by done]; cbn; lia.
Qed.

(** The length of a list of slots. *)
Lemma length_slots (q : list Z) (n : nat) (p : nat → bool) :
  NoDup q → (∀ z, z ∈ q → ∃ i, z = Z.of_nat i ∧ (i < n)%nat) → (∀ i, Z.of_nat i ∈ q ↔ p i = true) →
  Z.of_nat (length q) = countb p (seq 0 n).
Proof.
  intros Hnd Hr Hp. rewrite countb_length. f_equal. rewrite <- (length_fmap Z.of_nat (filter _ _)).
  apply Permutation_length, NoDup_Permutation; [done| |].
  - apply NoDup_fmap_2; [by intros x y ?%Nat2Z.inj|]. apply NoDup_filter, NoDup_seq.
  - intros z. rewrite list_elem_of_fmap. split.
    + intros Hz. destruct (Hr z Hz) as (i & -> & Hi). exists i. split; [done|]. apply list_elem_of_filter. split; [by apply Hp|].
      apply elem_of_seq. lia.
    + intros (i & -> & [Hi _]%list_elem_of_filter). by apply Hp.
Qed.

(** ** Operations *)

(** The states of threads other than the caller: a waiter may be woken. *)
Definition states_ok (cl : caller) (a a' : astate) : Prop := ∀ j, cl_slot cl ≠ Some j →
  a_threads a' !! j = a_threads a !! j ∨ a_threads a !! j = Some GTH_THREAD_BLOCKED ∧ a_threads a' !! j = Some GTH_THREAD_READY.

Lemma states_refl cl a a' : a_threads a' = a_threads a → states_ok cl a a'.
Proof. intros E j _. left. by rewrite E. Qed.

Lemma states_set_thread cl a c st : cl_slot cl = Some c → states_ok cl a (set_thread c st a).
Proof. intros Hc j Hj. left. cbn. rewrite list_lookup_alter_ne; [done|]. congruence. Qed.

Lemma states_wake cl a z : states_ok cl a (wake z a).
Proof.
  intros j _. cbn. destruct (decide (j = Z.to_nat z)) as [->|Hne]; [|left; by rewrite list_lookup_alter_ne].
  rewrite list_lookup_alter_eq. destruct (a_threads a !! Z.to_nat z) as [st|]; [|by left]. destruct st; cbn; auto.
Qed.

Lemma states_trans cl a1 a2 a3 : states_ok cl a1 a2 → states_ok cl a2 a3 → states_ok cl a1 a3.
Proof.
  intros H1 H2 j Hj. destruct (H1 j Hj) as [E1|[E1 E1']], (H2 j Hj) as [E2|[E2 E2']]; rewrite ?E2, ?E2', ?E1 in *; auto; congruence.
Qed.

Lemma states_wakes cl q : ∀ a, states_ok cl a (foldl (λ a slot, wake slot a) a q).
Proof.
  induction q as [|z q IH]; intros a; cbn [foldl]; [by apply states_refl|]. eapply states_trans; [apply states_wake|apply IH].
Qed.

Lemma sem_wakes q : ∀ a, a_sem (foldl (λ a slot, wake slot a) a q) = a_sem a.
Proof. induction q as [|z q IH]; intros a; cbn [foldl]; [done|]. by rewrite IH. Qed.

Lemma unlock_sem cl m a : a_sem (snd (m_unlock cl m a)) = a_sem a.
Proof. unfold m_unlock. by repeat case_match. Qed.

Lemma states_unlock cl m a : states_ok cl a (snd (m_unlock cl m a)).
Proof.
  unfold m_unlock. repeat case_match; try (by apply states_refl). cbn [snd].
  eapply states_trans; [by apply (states_refl cl a (set_m m (mk_amutex true None l) a))|apply states_wake].
Qed.

Lemma states_lock cl m a : states_ok cl a (snd (m_lock cl m a)).
Proof.
  unfold m_lock, m_park. repeat case_match; try (by apply states_refl). cbn [snd].
  eapply states_trans; [|by apply states_set_thread]. by apply states_refl.
Qed.

Lemma states_cond_wait cl c m a : states_ok cl a (snd (c_wait cl c m a)).
Proof.
  unfold c_wait. destruct (_ || _); [by apply states_refl|]. destruct (negb _); [by apply states_refl|].
  destruct (cl_slot cl) as [i|] eqn:Hc; [|by apply states_refl]. destruct (_ <=? _)%nat; [by apply states_refl|]. cbv zeta.
  match goal with |- context [m_unlock cl m ?b] => set (a1 := b) end.
  assert (H1 : states_ok cl a a1) by (eapply states_trans; [by apply (states_set_thread cl a i GTH_THREAD_BLOCKED)|by apply states_refl]).
  assert (Hfail : ∀ y, states_ok cl a (set_c c y (set_thread i GTH_THREAD_RUNNING a))).
  { intros y. eapply states_trans; [by apply (states_set_thread cl a i GTH_THREAD_RUNNING)|by apply states_refl]. }
  pose proof (states_trans _ _ _ _ H1 (states_unlock cl m a1)) as H2.
  destruct (m_unlock cl m a1) as [st a2]. destruct st; try apply Hfail. exact H2.
Qed.

Lemma task_states cl t a spec :
  (∀ m c, t = TResume (KLock m c) → cl_slot cl = Some c) → task_spec cl t a = Some spec → states_ok cl a (snd spec).
Proof.
  intros Hk E. destruct t as [f|k]; cbn in E.
  - destruct f; try done; cbn [sync_spec] in E; injection E as <-.
    + unfold m_init. case_match; by apply states_refl.
    + apply states_lock.
    + unfold m_trylock. repeat case_match; by apply states_refl.
    + pose proof (states_unlock cl m a) as H. unfold answer_of. by destruct (m_unlock cl m a).
    + unfold m_destroy. repeat case_match; by apply states_refl.
    + unfold s_init. case_match; by apply states_refl.
    + unfold s_wait. repeat case_match; try (by apply states_refl). cbn [snd].
      eapply states_trans; [|by apply states_set_thread]. by apply states_refl.
    + unfold s_post. repeat case_match; try (by apply states_refl). cbn [snd].
      eapply states_trans; [|apply states_wake]. by apply states_refl.
    + unfold s_destroy. repeat case_match; by apply states_refl.
    + unfold c_init. case_match; by apply states_refl.
    + apply states_cond_wait.
    + unfold c_signal. repeat case_match; try (by apply states_refl). cbn [snd].
      eapply states_trans; [|apply states_wake]. by apply states_refl.
    + unfold c_broadcast. repeat case_match; try (by apply states_refl). cbn [snd].
      eapply states_trans; [|apply states_wakes]. by apply states_refl.
    + unfold c_destroy. repeat case_match; by apply states_refl.
  - destruct k as [|m c|m| |]; try done; injection E as <-.
    + unfold m_relock, m_park. repeat case_match; try (by apply states_refl). cbn [snd].
      eapply states_trans; [|by apply states_set_thread, (Hk m c)]. by apply states_refl.
    + apply states_lock.
Qed.

(** Units posted, taken and waited for by an operation. *)
Definition post_in (s : Z) (t : task) (v : verdict) : bool :=
  match t, v with TCall (ASemPost s'), Answer GTH_OK => s' =? s | _, _ => false end.
Definition take_in (s : Z) (t : task) (v : verdict) : bool :=
  match t, v with TCall (ASemWait s'), Answer GTH_OK => s' =? s | _, _ => false end.
Definition park_in (s : Z) (t : task) (v : verdict) : bool :=
  match t, v with TCall (ASemWait s'), Park _ => s' =? s | _, _ => false end.

(** The call discards the units of the semaphore. *)
Definition resets (s : Z) (a : api) : bool :=
  match a with ASemInit s' _ | ASemDestroy s' => s' =? s | _ => false end.

Definition balance (a : astate) (s : Z) : Z :=
  as_count (a_sem a s) - Z.of_nat (length (as_waiters (a_sem a s))).

Lemma balance_set_s a s s' y :
  balance (set_s s' y a) s = if decide (s' = s) then as_count y - Z.of_nat (length (as_waiters y)) else balance a s.
Proof.
  unfold balance. cbn. case_decide as E; [subst; by rewrite fn_lookup_insert|by rewrite fn_lookup_insert_ne].
Qed.

Lemma sem_wait_balance cl a s s' : let '(v, a') := s_wait cl s' a in
  balance a' s + b2z (park_in s (TCall (ASemWait s')) v) + b2z (take_in s (TCall (ASemWait s')) v) = balance a s.
Proof.
  unfold s_wait. destruct (s' =? 0); [cbn; lia|]. destruct (negb _); [cbn; lia|]. destruct (_ =? 0).
  - destruct (cl_slot cl) as [c|]; [|cbn; lia]. destruct (_ <=? _)%nat; [cbn; lia|].
    change (balance (set_thread c GTH_THREAD_BLOCKED ?x) s) with (balance x s).
    rewrite balance_set_s. cbn [park_in take_in b2z as_waiters as_count]. destruct (Z.eqb_spec s' s) as [->|Hne].
    + rewrite decide_True by done. rewrite length_app. unfold balance. cbn. lia.
    + rewrite decide_False by done. cbn. lia.
  - rewrite balance_set_s. cbn [park_in take_in b2z as_waiters as_count]. destruct (Z.eqb_spec s' s) as [->|Hne].
    + rewrite decide_True by done. unfold balance. cbn. lia.
    + rewrite decide_False by done. cbn. lia.
Qed.

Lemma sem_post_balance a s s' : let '(v, a') := s_post s' a in
  balance a' s = balance a s + b2z (post_in s (TCall (ASemPost s')) v).
Proof.
  unfold s_post. destruct (s' =? 0); [cbn; lia|]. destruct (negb _); [cbn; lia|].
  destruct (as_waiters (a_sem a s')) as [|slot q] eqn:E.
  - destruct (_ =? _); [cbn; lia|]. rewrite balance_set_s. cbn [post_in b2z as_waiters as_count].
    destruct (Z.eqb_spec s' s) as [->|Hne]; [rewrite decide_True by done; unfold balance; rewrite E; cbn; lia|].
    rewrite decide_False by done. cbn. lia.
  - change (balance (wake slot ?x) s) with (balance x s). rewrite balance_set_s. cbn [post_in b2z as_waiters as_count].
    destruct (Z.eqb_spec s' s) as [->|Hne]; [rewrite decide_True by done; unfold balance; rewrite E; cbn; lia|].
    rewrite decide_False by done. cbn. lia.
Qed.

(** Other operations do not touch semaphores. *)
Lemma other_sems cl t a spec :
  task_spec cl t a = Some spec →
  match t with TCall (ASemInit _ _ | ASemWait _ | ASemPost _ | ASemDestroy _) => True | _ => a_sem (snd spec) = a_sem a end.
Proof.
  intros E. destruct t as [f|k]; cbn in E.
  - destruct f; try done; cbn [sync_spec] in E; injection E as <-.
    + unfold m_init. by case_match.
    + unfold m_lock, m_park. by repeat case_match.
    + unfold m_trylock. by repeat case_match.
    + pose proof (unlock_sem cl m a) as H. unfold answer_of. by destruct (m_unlock cl m a).
    + unfold m_destroy. by repeat case_match.
    + unfold c_init. by case_match.
    + unfold c_wait. repeat case_match; try done. rename select (m_unlock _ _ _ = _) into Eu.
      apply (f_equal (λ x, a_sem (snd x))) in Eu. rewrite unlock_sem in Eu. exact (eq_sym Eu).
    + unfold c_signal. by repeat case_match.
    + unfold c_broadcast. repeat case_match; try done. cbn [snd]. by rewrite sem_wakes.
    + unfold c_destroy. by repeat case_match.
  - destruct k as [|m c|m| |]; try done; injection E as <-.
    + unfold m_relock, m_park. by repeat case_match.
    + unfold m_lock, m_park. by repeat case_match.
Qed.

Lemma task_balance cl t a v a' s :
  task_spec cl t a = Some (v, a') → (∀ f, t = TCall f → resets s f = false) →
  balance a' s + b2z (park_in s t v) + b2z (take_in s t v) = balance a s + b2z (post_in s t v).
Proof.
  intros E Hr. pose proof (other_sems cl t a (v, a') E) as Ho.
  assert (Hother : a_sem a' = a_sem a → park_in s t v = false → take_in s t v = false → post_in s t v = false →
    balance a' s + b2z (park_in s t v) + b2z (take_in s t v) = balance a s + b2z (post_in s t v)).
  { intros Es -> -> ->. unfold balance. rewrite Es. cbn. lia. }
  destruct t as [f|k]; [|by apply Hother]. destruct f; try (by apply Hother); cbn in E.
  - specialize (Hr _ eq_refl). cbn in Hr. apply Z.eqb_neq in Hr. unfold s_init in E.
    destruct (_ =? 0); injection E as <- <-; cbn; [lia|]. rewrite balance_set_s, decide_False by done. lia.
  - pose proof (sem_wait_balance cl a s s0) as H. injection E as E. rewrite E in H. cbn [post_in b2z]. lia.
  - pose proof (sem_post_balance a s s0) as H. injection E as E. rewrite E in H. cbn [park_in take_in b2z]. lia.
  - specialize (Hr _ eq_refl). cbn in Hr. apply Z.eqb_neq in Hr. unfold s_destroy in E.
    repeat case_match; injection E as <- <-; cbn; try lia. rewrite balance_set_s, decide_False by done. lia.
Qed.

(** Only a wait on a semaphore parks its caller for one. *)
Lemma sem_park cl t a k a' :
  task_spec cl t a = Some (Park k, a') →
  match k with
  | KSemWait => ∃ s' c, t = TCall (ASemWait s') ∧ cl_slot cl = Some c ∧ a_threads a' = alter (λ _, GTH_THREAD_BLOCKED) c (a_threads a)
  | _ => ∀ s, park_in s t (Park k) = false
  end.
Proof.
  intros E. destruct t as [f|k']; cbn in E.
  - destruct f; try done; cbn [sync_spec] in E; injection E as E; try by destruct k.
    all: unfold m_init, m_lock, m_park, m_take, m_trylock, m_destroy, s_init, s_wait, s_post, s_destroy in E;
      unfold c_init, c_wait, c_signal, c_broadcast, c_destroy in E; repeat case_match; simplify_eq; eauto.
  - destruct k'; try done; injection E as E.
    + unfold m_relock, m_park, m_take in E. repeat case_match; simplify_eq; done.
    + unfold m_lock, m_park, m_take in E. repeat case_match; simplify_eq; done.
Qed.

(** ** Executions *)

Definition succeeds (o : outcome (result * world)) : bool :=
  match o with Done (Return r, _) => bool_decide (r_status r = GTH_OK) | _ => false end.

Section machine.
Context (P : program) (HP : disciplined P) (s : Z).

Definition calls_wait (u : p_state P) : bool :=
  match p_next P u with ACall (ASemWait s') => s' =? s | _ => false end.

Lemma wait_obj_sem k u :
  bool_decide (wait_obj k (p_next P u) = Some (OSem s)) = match k with KSemWait => calls_wait u | _ => false end.
Proof using Type.
  unfold calls_wait. destruct k; cbn; try (by apply bool_decide_eq_false_2); destruct (p_next P u) as [|[]]; try done.
  by destruct (Z.eqb_spec s0 s) as [->|]; case_bool_decide; simplify_eq.
Qed.

(** The step is a successful post. *)
Definition posts (m : machine P) : bool :=
  match m_ctl P m (m_run P m) with
  | Some (mk_ctl _ _ (User _ u)) =>
      match p_next P u with ACall (ASemPost s') => (s' =? s) && succeeds (api_call (ASemPost s') (m_world P m)) | _ => false end
  | _ => false
  end.

(** The step ends a wait, at once or after a switch. *)
Definition obtains (m : machine P) : bool :=
  match m_ctl P m (m_run P m) with
  | Some (mk_ctl _ _ (User _ u)) =>
      match p_next P u with ACall (ASemWait s') => (s' =? s) && succeeds (api_call (ASemWait s') (m_world P m)) | _ => false end
  | Some (mk_ctl _ _ (Resuming _ KSemWait u)) => calls_wait u
  | _ => false
  end.

(** The thread in slot [i] is in a wait: blocked, woken, or about to return from it. *)
Definition in_wait (m : machine P) (i : nat) : bool :=
  match m_ctl P m (Thr i) with
  | Some (mk_ctl _ _ (Suspended _ _ _ _)) =>
      bool_decide (waits_for P m i = Some (OSem s)) &&
      match rt_threads (w_rt (m_world P m)) !! i with Some t => counted t | None => false end
  | Some (mk_ctl _ _ (Resuming _ KSemWait u)) => bool_decide (m_run P m = Thr i) && calls_wait u
  | _ => false
  end.

Definition waits (m : machine P) : Z := countb (in_wait m) (seq 0 GTH_MAX_THREADS).

Lemma in_wait_other m m' j :
  m_run P m ≠ Thr j → m_run P m' ≠ Thr j → m_ctl P m' (Thr j) = m_ctl P m (Thr j) →
  th_ctx <$> rt_threads (w_rt (m_world P m')) !! j = th_ctx <$> rt_threads (w_rt (m_world P m)) !! j →
  counted <$> rt_threads (w_rt (m_world P m')) !! j = counted <$> rt_threads (w_rt (m_world P m)) !! j →
  in_wait m' j = in_wait m j.
Proof using Type.
  intros H1 H2 Hctl Hctx Hcnt. unfold in_wait. rewrite Hctl, (waits_for_ext P m m' j Hctx Hctl).
  destruct (m_ctl P m (Thr j)) as [[tid [u|k u|n k u]]|]; try done.
  - destruct k; try done. by rewrite !bool_decide_eq_false_2.
  - f_equal. by destruct (rt_threads (w_rt (m_world P m')) !! j), (rt_threads (w_rt (m_world P m)) !! j); simplify_eq/=.
Qed.

(** The slot has no thread that could go on after a switch: none at all, or a new one. *)
Definition fresh (w : world) (j : nat) : Prop := ∀ t, rt_threads (w_rt w) !! j = Some t →
  counted t = false ∨ ∃ top, ctx_resume (th_ctx t) = CtxEntry j top.

Lemma in_wait_fresh m j : m_run P m ≠ Thr j → fresh (m_world P m) j → in_wait m j = false.
Proof using Type.
  intros H1 Hf. unfold in_wait, waits_for. destruct (m_ctl P m (Thr j)) as [[tid [u|k u|n k u]]|]; try done.
  - destruct k; try done. by rewrite bool_decide_eq_false_2.
  - destruct (rt_threads (w_rt (m_world P m)) !! j) as [t|] eqn:Ht; [|by rewrite andb_false_r].
    destruct (Hf t Ht) as [->|[top Htop]]; [by rewrite andb_false_r|]. by rewrite decide_False by congruence.
Qed.

(** The slots of the table are the ones that are counted. *)
Lemma waits_except m m' i :
  (i < GTH_MAX_THREADS)%nat → (∀ j, j ≠ i → in_wait m' j = in_wait m j) →
  waits m' = waits m - b2z (in_wait m i) + b2z (in_wait m' i).
Proof using Type.
  intros Hi H. unfold waits. apply countb_except; [apply NoDup_seq|apply elem_of_seq; lia|]. intros j Hj. by rewrite H.
Qed.

Lemma waits_same m m' : (∀ j, in_wait m' j = in_wait m j) → waits m' = waits m.
Proof using Type. intros H. apply countb_ext. intros j _. apply H. Qed.

Lemma balance_abs w a : abs w a → balance (alpha w) s = balance a s.
Proof using Type. intros [_ _ E _]. unfold balance. by rewrite <- E. Qed.

Lemma balance_objs w w' : objs w' = objs w → balance (alpha w') s = balance (alpha w) s.
Proof using Type. intros [= _ E _]. unfold balance. cbn. unfold sem_at. by rewrite E. Qed.

(** A running thread is in a wait exactly when it is about to return from one. *)
Lemma in_wait_running m tid u t c :
  runs_task P m tid u t → m_run P m = Thr c →
  in_wait m c = match t with TResume KSemWait => calls_wait u | _ => false end.
Proof using Type.
  intros (mode & Hctl & Hmode) Hrun. rewrite Hrun in Hctl. unfold in_wait. rewrite Hctl.
  destruct t as [f|k]; [by destruct Hmode as [-> _]|]. cbn in Hmode. subst mode. destruct k; try done.
  by rewrite bool_decide_eq_true_2.
Qed.

Lemma posts_task m tid u t v a cur r w :
  runs_task P m tid u t → task_spec (caller_of cur (m_world P m)) t (alpha (m_world P m)) = Some (v, a) →
  answers cur v r → code t (m_world P m) = Done (r, w) →
  posts m = post_in s t v ∧ obtains m = take_in s t v.
Proof using Type.
  intros (mode & Hctl & Hmode) Hsp Hans Ec. unfold posts, obtains. rewrite Hctl. destruct t as [f|k].
  - destruct Hmode as [-> ->]. cbn in Ec.
    assert (Hs : succeeds (api_call f (m_world P m)) = match v with Answer st => bool_decide (st = GTH_OK) | Park _ => false end).
    { rewrite Ec. destruct v as [st|k]; [by rewrite Hans|]. by destruct Hans as (c & _ & ->). }
    destruct f; try done; rewrite Hs; cbn [post_in take_in]; split; try done;
      destruct v as [st|]; rewrite ?andb_false_r; try done; destruct st; rewrite ?andb_true_r, ?andb_false_r; done.
  - cbn in Hmode. subst mode. by destruct k.
Qed.

(** Tasks that are not about objects post nothing, and take a unit only when a wait ends. *)
Lemma posts_other m tid u t :
  runs_task P m tid u t → (∀ cl a, task_spec cl t a = None) →
  posts m = false ∧ obtains m = match t with TResume KSemWait => calls_wait u | _ => false end.
Proof using Type.
  intros (mode & Hctl & Hmode) Hn. unfold posts, obtains. rewrite Hctl. specialize (Hn (mk_caller 0 None) (alpha (m_world P m))).
  destruct t as [f|k]; [destruct Hmode as [-> ->]; by destruct f|]. cbn in Hmode. subst mode. by destruct k.
Qed.

(** ** One step *)

(** The call loses units: it discards the semaphore, or a thread that is in a wait. *)
Definition discards (m : machine P) (a : api) : Prop :=
  match a with
  | ACancel tid => ∃ i t, rt_threads (w_rt (m_world P m)) !! i = Some t ∧ th_tid t = tid ∧ in_wait m i = true
  | AShutdown => ∃ i, in_wait m i = true
  | _ => resets s a = true
  end.

Definition about_to_discard (m : machine P) : Prop := ∃ tid u a,
  m_ctl P m (m_run P m) = Some (mk_ctl P tid (User P u)) ∧ p_next P u = ACall a ∧ discards m a.

Lemma not_discarding m tid u t f : ¬ about_to_discard m → runs_task P m tid u t → what_of t = Some f → ¬ discards m f.
Proof using Type.
  intros Hn (mode & Hctl & Hmode) E Hd. destruct t as [a|k]; [|done]. destruct Hmode as [-> Hnext]. injection E as ->.
  apply Hn. by exists tid, u, f.
Qed.

(** The slot [j] is the same for the waits. *)
Definition steady (w w' : world) (j : nat) : Prop :=
  th_ctx <$> rt_threads (w_rt w') !! j = th_ctx <$> rt_threads (w_rt w) !! j ∧
  counted <$> rt_threads (w_rt w') !! j = counted <$> rt_threads (w_rt w) !! j.

Lemma steady_same w w' j : rt_threads (w_rt w') !! j = rt_threads (w_rt w) !! j → steady w w' j.
Proof using Type. intros E. unfold steady. by rewrite E. Qed.

Lemma steady_sync m tid u t v a w j :
  mach_ok P m → runs_task P m tid u t →
  task_spec (caller_of (cur_of (m_run P m)) (m_world P m)) t (alpha (m_world P m)) = Some (v, a) →
  abs w a → same_briefs (m_world P m) w → m_run P m ≠ Thr j → steady (m_world P m) w j.
Proof using HP.
  intros Hm Ht Hsp Habs Hss Hj. split; [by apply slots_ctx, briefs_slots|].
  assert (Hk : ∀ x c, t = TResume (KLock x c) → cl_slot (caller_of (cur_of (m_run P m)) (m_world P m)) = Some c).
  { intros x c ->. destruct Ht as (mode & Hctl & ->). pose proof Hm as [_ Hex _]. unfold executing in Hex. cbn.
    destruct (m_run P m) as [|c'].
    - destruct Hex as (mode & E & Hx). rewrite Hctl in E. injection E as -> <-. by destruct Hx.
    - destruct Hex as (_ & _ & _ & mode & E & Hx). rewrite Hctl in E. injection E as -> <-. cbn in Hx. by destruct Hx as [-> _]. }
  pose proof (task_states _ t _ _ Hk Hsp j) as Hst. cbn [snd] in Hst. rewrite <- (abs_threads _ _ Habs) in Hst.
  cbn in Hst. rewrite !list_lookup_fmap in Hst. unfold counted, is_ready, is_blocked.
  destruct (rt_threads (w_rt w) !! j) as [t1|], (rt_threads (w_rt (m_world P m)) !! j) as [t2|]; cbn in *;
    (destruct Hst as [E|[E1 E2]]; [by destruct (m_run P m); [|intros [= ->]]|..]); try done; simplify_eq.
  - by rewrite E.
  - by rewrite E1, E2.
Qed.

Lemma other_slots m tid u t r w j :
  mach_ok P m → tid_room (m_world P m) → runs_task P m tid u t → ¬ about_to_discard m →
  code t (m_world P m) = Done (r, w) → slot_change (cur_of (m_run P m)) (what_of t) (m_world P m) w r →
  m_run P m ≠ Thr j → (∀ k, r ≠ Swap SchedCtx (ThreadCtx j) k) →
  steady (m_world P m) w j ∨ (in_wait m j = false ∧ fresh w j).
Proof using HP.
  intros Hm Hroom Ht Hd Ec Hsc Hj Hr.
  assert (Hun : ∀ ti, rt_threads (w_rt (m_world P m)) !! j = Some ti → counted ti = false → in_wait m j = false).
  { intros ti Hti Hc. apply in_wait_fresh; [done|]. intros t' Ht'. left. congruence. }
  assert (Hins : ∀ i ti t', rt_threads (w_rt (m_world P m)) !! i = Some ti → rt_threads (w_rt w) = <[i := t']> (rt_threads (w_rt (m_world P m))) →
    (j = i → counted t' = false ∧ in_wait m j = false) → steady (m_world P m) w j ∨ (in_wait m j = false ∧ fresh w j)).
  { intros i ti t' Hti Ets H. destruct (decide (j = i)) as [->|Hne].
    - right. destruct (H eq_refl) as [H1 H2]. split; [done|]. intros t0 Ht0. left. rewrite Ets in Ht0.
      rewrite list_lookup_insert_eq in Ht0 by (by eapply lookup_lt_Some). congruence.
    - left. apply steady_same. by rewrite Ets, list_lookup_insert_ne. }
  destruct Hsc as [r Hg Ets|c tc Hcur Hg Htc He Ets|i ti k Hcur Hg Hti Hr' Ets|i ti r Hwh Hg Hti He Ets|i ti r Hti He Ho|i ti r Hcur Hg Hti Hte Ets|r Hcur Hcl Ets].
  - left. apply steady_same. by rewrite Ets.
  - eapply Hins; [done..|]. intros ->. by destruct (m_run P m) as [|c']; [|injection Hcur as ->].
  - eapply Hins; [done..|]. intros ->. by destruct (Hr (KRunNext 0 k)).
  - eapply Hins; [done..|]. intros ->. split; [done|]. apply not_true_is_false. intros Hin.
    apply (not_discarding m tid u t _ Hd Ht Hwh). by exists i, ti.
  - destruct (decide (j = i)) as [->|Hne]; [|left; apply steady_same; by apply Ho]. right.
    assert (Hc : counted ti = false) by (apply is_empty_true in He; unfold counted, is_ready, is_blocked; by rewrite He).
    split; [by apply (Hun ti)|]. intros t' Ht'. destruct (counted t') eqn:Hc'; [right|by left].
    destruct (task_ok P HP m tid u t Hm Hroom Ht) as [_ Hok]. rewrite Ec in Hok. cbn in Hok.
    destruct (ev_other _ _ _ (qu_evolves _ _ _ Hok) i t' Ht' Hc') as [(t0 & Ht0 & Hc0 & _)|?]; [|..|done].
    + by destruct (m_run P m); [|intros [= ->]].
    + assert (rt_threads (w_rt (m_world P m)) !! i = Some t0) by (by destruct t, (m_run P m)). congruence.
  - eapply Hins; [done..|]. intros ->. split; [done|]. apply (Hun ti Hti). unfold counted, is_ready, is_blocked.
    by destruct (th_state ti).
  - right. split.
    + destruct Hcl as [Hwh|Hcl].
      * apply not_true_is_false. intros Hin. apply (not_discarding m tid u t _ Hd Ht Hwh). by exists j.
      * apply in_wait_fresh; [done|]. intros t' Ht'. left. apply Hcl, is_empty_true in Ht'.
        unfold counted, is_ready, is_blocked. by rewrite Ht'.
    + intros t' Ht'. left. rewrite Ets in Ht'. by apply lookup_replicate in Ht' as [-> _].
Qed.

(** ** The ledger *)

Definition ending (t : task) (u : p_state P) : bool := match t with TResume KSemWait => calls_wait u | _ => false end.
Definition parking (r : result) (u : p_state P) : bool := match r with Swap _ _ KSemWait => calls_wait u | _ => false end.

Lemma task_ledger m tid u t r w :
  mach_ok P m → joining P m → runs_task P m tid u t → ¬ about_to_discard m → code t (m_world P m) = Done (r, w) →
  balance (alpha w) s + b2z (parking r u) + b2z (obtains m) = balance (alpha (m_world P m)) s + b2z (ending t u) + b2z (posts m).
Proof using HP.
  intros Hm Hj Ht Hd Ec. pose proof (task_effect_ok P HP m tid u t r w Hm Hj Ht Ec) as [v a Hsp Hans Habs Hss|Hn Hse Hsc _].
  - destruct (posts_task m tid u t v a _ r w Ht Hsp Hans Ec) as [-> ->]. rewrite (balance_abs w a Habs).
    assert (He : ending t u = false) by (by destruct t as [|[]]). rewrite He.
    assert (Hp : parking r u = park_in s t v).
    { destruct v as [st|k]; cbn in Hans; [subst r; by destruct t as [[]|]|]. destruct Hans as (c & _ & ->).
      pose proof (sem_park _ _ _ _ _ Hsp) as H. destruct k; try (cbn; by rewrite H). destruct H as (s' & c' & -> & _).
      destruct Ht as (mode & _ & _ & Hu). cbn. unfold calls_wait. by rewrite Hu. }
    rewrite Hp. cbn. rewrite (task_balance _ _ _ _ _ s Hsp); [lia|]. intros f ->. apply not_true_is_false. intros Hres.
    apply (not_discarding m tid u (TCall f) f Hd Ht eq_refl). by destruct f.
  - destruct (posts_other m tid u t Ht Hn) as [-> ->]. rewrite (balance_objs (m_world P m) w) by apply Hse.
    assert (Hp : parking r u = false) by (by destruct Hsc). rewrite Hp. fold (ending t u). cbn. lia.
Qed.

(** The threads other than the one that runs and the one that is entered. *)
Lemma task_others m tid u t r w m' j :
  mach_ok P m → tid_room (m_world P m) → joining P m → runs_task P m tid u t → ¬ about_to_discard m →
  code t (m_world P m) = Done (r, w) →
  m_run P m ≠ Thr j → m_run P m' ≠ Thr j → (∀ k, r ≠ Swap SchedCtx (ThreadCtx j) k) →
  m_ctl P m' (Thr j) = m_ctl P m (Thr j) → rt_threads (w_rt (m_world P m')) !! j = rt_threads (w_rt w) !! j →
  in_wait m' j = in_wait m j.
Proof using HP.
  intros Hm Hroom Hj Ht Hd Ec H1 H2 Hr Hctl Hw.
  assert (Hs : steady (m_world P m) w j ∨ (in_wait m j = false ∧ fresh w j)).
  { pose proof (task_effect_ok P HP m tid u t r w Hm Hj Ht Ec) as [v a Hsp _ Habs Hss|_ _ Hsc _].
    - left. by apply (steady_sync m tid u t v a).
    - by apply (other_slots m tid u t r). }
  destruct Hs as [[E1 E2]|[-> Hf]].
  - apply in_wait_other; try done; by rewrite Hw.
  - apply in_wait_fresh; [done|]. intros t' Ht'. apply Hf. by rewrite <- Hw.
Qed.

Lemma balance_save r p w : balance (alpha (upd_rt (save_ctx r p) w)) s = balance (alpha w) s.
Proof using Type. by rewrite alpha_save. Qed.

Definition ledger (m : machine P) : Z := balance (alpha (m_world P m)) s + waits m.

Lemma running_slot m c : mach_ok P m → m_run P m = Thr c → (c < GTH_MAX_THREADS)%nat.
Proof using Type.
  intros [Hw Hex _] Hrun. unfold executing in Hex. rewrite Hrun in Hex. destruct Hex as [[(t & Ht & _) _] _].
  apply lookup_lt_Some in Ht. by rewrite <- (tb_len _ _ _ _ _ _ (wo_table _ Hw)).
Qed.

Lemma ledger_return m tid u t r w m' :
  mach_ok P m → tid_room (m_world P m) → joining P m → runs_task P m tid u t → ¬ about_to_discard m →
  code t (m_world P m) = Done (Return r, w) → m_world P m' = w → m_run P m' = m_run P m →
  (∀ i, m_run P m ≠ Thr i → m_ctl P m' (Thr i) = m_ctl P m (Thr i)) →
  (∀ c, m_run P m = Thr c → ∃ x, m_ctl P m' (Thr c) = Some (mk_ctl P tid (User P x))) →
  ledger m' + b2z (obtains m) = ledger m + b2z (posts m).
Proof using HP.
  intros Hm Hroom Hj Ht Hd Ec Ew Er Hctl Hctl'. unfold ledger. rewrite Ew.
  pose proof (task_ledger m tid u t _ w Hm Hj Ht Hd Ec) as Hl. cbn [parking b2z] in Hl.
  assert (Hoth : ∀ j, m_run P m ≠ Thr j → in_wait m' j = in_wait m j).
  { intros j Hne. eapply (task_others m tid u t _ w m'); try done; [by rewrite Er|by apply Hctl|by rewrite Ew]. }
  destruct (m_run P m) as [|c] eqn:Hrun.
  - rewrite (waits_same m m') by (intros j; by apply Hoth).
    assert (He : ending t u = false); [|rewrite He in Hl; cbn in Hl; lia].
    destruct Ht as (mode & Hm1 & Hm2). pose proof Hm as [_ Hex _]. unfold executing in Hex. rewrite Hrun in *.
    destruct Hex as (mode' & E & Hx). rewrite Hm1 in E. injection E as _ <-. destruct t as [|k]; [done|]. cbn in Hm2. subst mode.
    destruct Hx as [Hk _]. by destruct k.
  - rewrite (waits_except m m' c); [|by eapply running_slot|intros j Hne; apply Hoth; congruence].
    rewrite (in_wait_running m tid u t c Ht Hrun). fold (ending t u). destruct (Hctl' c eq_refl) as [x Ex].
    unfold in_wait. rewrite Ex. cbn [b2z]. lia.
Qed.

(** The thread that has parked in a wait is blocked. *)
Lemma parked_blocked m c tid u t w t1 :
  mach_ok P m → joining P m → m_run P m = Thr c → runs_task P m tid u t →
  code t (m_world P m) = Done (Swap (ThreadCtx c) SchedCtx KSemWait, w) → rt_threads (w_rt w) !! c = Some t1 →
  th_state t1 = GTH_THREAD_BLOCKED.
Proof using HP.
  intros Hm Hj Hrun Ht Ec Ht1. pose proof (task_effect_ok P HP m tid u t _ w Hm Hj Ht Ec) as [v a Hsp Hans Habs _|_ _ Hsc _].
  - destruct v as [|k']; [done|]. destruct Hans as (c' & Hc' & E'). injection E' as <- <-.
    pose proof (sem_park _ _ _ _ _ Hsp) as (s' & c' & -> & Hc & Ets). cbn in Hc. rewrite Hrun in Hc. injection Hc as <-.
    rewrite <- (abs_threads _ _ Habs) in Ets. apply (f_equal (.!! c)) in Ets. cbn in Ets.
    rewrite list_lookup_alter_eq, !list_lookup_fmap, Ht1 in Ets.
    destruct (rt_threads (w_rt (m_world P m)) !! c); [|done]. by injection Ets.
  - inversion Hsc.
Qed.

Lemma ledger_park m c tid u t k w m' :
  mach_ok P m → tid_room (m_world P m) → joining P m → m_run P m = Thr c → runs_task P m tid u t → ¬ about_to_discard m →
  code t (m_world P m) = Done (Swap (ThreadCtx c) SchedCtx k, w) → m_run P m' = Main →
  m_world P m' = upd_rt (save_ctx (ThreadCtx c) (CtxSaved (Thr c) (m_serial P m))) w →
  (∀ i, i ≠ c → m_ctl P m' (Thr i) = m_ctl P m (Thr i)) →
  m_ctl P m' (Thr c) = Some (mk_ctl P tid (Suspended P (m_serial P m) k u)) →
  ledger m' + b2z (obtains m) = ledger m + b2z (posts m).
Proof using HP.
  intros Hm Hroom Hj Hrun Ht Hd Ec Er Ew Hctl Hctl'. unfold ledger. rewrite Ew, balance_save.
  pose proof (task_ledger m tid u t _ w Hm Hj Ht Hd Ec) as Hl. cbn [parking] in Hl.
  rewrite (waits_except m m' c); [|by eapply running_slot|].
  2:{ intros j Hne. apply (task_others m tid u t (Swap (ThreadCtx c) SchedCtx k) w m'); try done; [congruence|by rewrite Er|by apply Hctl|].
      rewrite Ew. cbn [upd_rt w_rt]. apply save_ctx_ne. congruence. }
  rewrite (in_wait_running m tid u t c Ht Hrun). fold (ending t u).
  assert (Hin : in_wait m' c = match k with KSemWait => calls_wait u | _ => false end).
  { assert (is_Some (rt_threads (w_rt w) !! c)) as [t1 Ht1].
    { apply lookup_lt_is_Some. pose proof (running_slot m c Hm Hrun).
      pose proof (task_world_ok P HP m tid u t _ w Hm Hroom Ht Ec) as Hw. by rewrite (tb_len _ _ _ _ _ _ (wo_table _ Hw)). }
    unfold in_wait, waits_for. rewrite Hctl', Ew. cbn. rewrite list_lookup_alter_eq, Ht1. cbn.
    rewrite decide_True, wait_obj_sem by done. destruct k; try done. unfold counted, is_ready, is_blocked. cbn.
    rewrite (parked_blocked m c tid u t w t1) by done. apply andb_true_r. }
  rewrite Hin. lia.
Qed.

Lemma ledger_dispatch m i ti u t k w mem mode m' :
  mach_ok P m → tid_room (m_world P m) → joining P m → m_run P m = Main → runs_task P m 0 u t → ¬ about_to_discard m →
  code t (m_world P m) = Done (Swap SchedCtx (ThreadCtx i) k, w) →
  rt_threads (w_rt (m_world P m)) !! i = Some ti → is_ready ti = true → entered P m i ti mem mode → m_run P m' = Thr i →
  m_world P m' = upd_rt (save_ctx SchedCtx (CtxSaved Main (m_serial P m))) w →
  (∀ j, j ≠ i → m_ctl P m' (Thr j) = m_ctl P m (Thr j)) → m_ctl P m' (Thr i) = Some (mk_ctl P (th_tid ti) mode) →
  ledger m' + b2z (obtains m) = ledger m + b2z (posts m).
Proof using HP.
  intros Hm Hroom Hj Hrun Ht Hd Ec Hti Hr He Er Ew Hctl Hctl'. unfold ledger. rewrite Ew, balance_save.
  pose proof (task_ledger m 0 u t _ w Hm Hj Ht Hd Ec) as Hl.
  assert (He0 : ending t u = false).
  { destruct Ht as (mode' & Hm1 & Hm2). pose proof Hm as [_ Hex _]. unfold executing in Hex. rewrite Hrun in *.
    destruct Hex as (mode'' & E & Hx). rewrite Hm1 in E. injection E as <-. destruct t as [|k']; [done|]. cbn in Hm2. subst mode'.
    destruct Hx as [Hk _]. by destruct k'. }
  assert (Hp0 : parking (Swap SchedCtx (ThreadCtx i) k) u = false).
  { pose proof (task_effect_ok P HP m 0 u t _ w Hm Hj Ht Ec) as [v a _ Hans _ _|_ _ Hsc _]; [|by inversion Hsc].
    destruct v as [|k']; [done|]. by destruct Hans as (c & _ & [=]). }
  rewrite He0, Hp0 in Hl. cbn [b2z] in Hl. rewrite (waits_same m m'); [lia|]. intros j. destruct (decide (j = i)) as [->|Hne].
  - unfold in_wait at 1. rewrite Hctl'. unfold in_wait, waits_for, counted. rewrite Hti, Hr.
    destruct He as [top Htop|n k' u' Hres Hc _].
    + destruct (m_ctl P m (Thr i)) as [[tid [?|k' ?|n k' ?]]|]; try done.
      * by destruct k'; rewrite ?Hrun.
      * by rewrite decide_False by congruence.
    + rewrite Hc, decide_True, wait_obj_sem by done. cbn [orb]. rewrite andb_true_r.
      destruct k'; try done. by rewrite bool_decide_eq_true_2.
  - apply (task_others m 0 u t (Swap SchedCtx (ThreadCtx i) k) w m'); try done; [by rewrite Hrun|congruence|congruence|by apply Hctl|].
    by rewrite Ew.
Qed.

Lemma ledger_step m m' :
  mach_ok P m → tid_room (m_world P m) → joining P m → ¬ about_to_discard m → step P m = Next P m' →
  ledger m' + b2z (obtains m) = ledger m + b2z (posts m).
Proof using HP.
  intros Hm Hroom Hj Hd E.
  apply step_stepped in E as [tid u t r w Ht Ec|c tid u t k w n k0 u0 Hrun Ht Ec Hk Hwait|i ti u t k w mem mode Hrun Ht Ec Hk Hti Hr He|c tid u v w n k0 u0 Hrun Hctl Hn Et Hwait]; try done.
  - eapply (ledger_return m tid u t r w); try done; cbn.
    + intros i Hi. by apply insert_ctl_ne.
    + intros c ->. eexists. apply insert_ctl_eq.
  - eapply (ledger_park m c tid u t k w); try done; cbn.
    + intros i Hi. by rewrite !insert_ctl_ne by congruence.
    + by rewrite insert_ctl_ne, insert_ctl_eq by done.
  - eapply (ledger_dispatch m i ti u t k w mem mode); try done; cbn.
    + intros j Hne. by rewrite !insert_ctl_ne by congruence.
    + by rewrite insert_ctl_eq.
  - assert (Hpo : posts m = false ∧ obtains m = false) by (unfold posts, obtains; by rewrite Hrun, Hctl, Hn).
    destruct Hpo as [-> ->]. unfold ledger. cbn [m_world].
    pose proof (frames_trampoline (R := settles) c v (m_world P m)) as Hse. rewrite Et in Hse.
    rewrite (balance_objs (m_world P m) w) by apply Hse. rewrite waits_same with (m := m); [done|]. intros j.
    destruct (decide (j = c)) as [->|Hne].
    + unfold in_wait. cbn. by rewrite insert_ctl_ne, insert_ctl_eq, Hctl by done.
    + apply in_wait_other; cbn; [congruence|done|by rewrite !insert_ctl_ne by congruence|..];
        by rewrite (proj2 (exit_only c v _ _ Et)).
Qed.

(** ** Units on their way *)

Definition blockedb (w : world) (i : nat) : bool :=
  match rt_threads (w_rt w) !! i with Some t => is_blocked t | None => false end.

(** Threads that a post has woken and that have not returned from their wait yet. *)
Definition in_flight (m : machine P) : Z :=
  countb (λ i, in_wait m i && negb (blockedb (m_world P m) i)) (seq 0 GTH_MAX_THREADS).

Lemma queued_in_wait m i :
  mach_ok P m → exact_in P m →
  Z.of_nat i ∈ queue (alpha (m_world P m)) (OSem s) ↔ in_wait m i && blockedb (m_world P m) i = true.
Proof using Type.
  intros Hm [_ _ Hx]. rewrite Hx, blocked_in_alpha. unfold blockedb, in_wait. split.
  - intros [(t & Ht & Hb) Hw]. rewrite Ht, Hb, andb_true_r, Hw. unfold waits_for in Hw. rewrite Ht in Hw.
    destruct (m_ctl P m (Thr i)) as [[tid [?|k ?|n k ?]]|]; try done. rewrite bool_decide_eq_true_2 by done.
    unfold counted. by rewrite Hb, orb_true_r.
  - destruct (rt_threads (w_rt (m_world P m)) !! i) as [t|] eqn:Ht; [|by rewrite andb_false_r].
    intros [H1 H2]%andb_true_iff. split; [by exists t|].
    destruct (m_ctl P m (Thr i)) as [[tid [?|k ?|n k ?]]|]; try done.
    + destruct k; try done. apply andb_true_iff in H1 as [Hrun%bool_decide_eq_true _].
      by rewrite (running_not_blocked P m i t Hm Hrun Ht) in H2.
    + apply andb_true_iff in H1 as [H1 _]. by apply bool_decide_eq_true in H1.
Qed.

Lemma ledger_units m :
  mach_ok P m → exact_in P m → ledger m = sm_count (sem_at (m_world P m) s) + in_flight m.
Proof using Type.
  intros Hm Hx. assert (Hq : Z.of_nat (length (queue (alpha (m_world P m)) (OSem s))) =
    countb (λ i, in_wait m i && blockedb (m_world P m) i) (seq 0 GTH_MAX_THREADS)).
  { apply length_slots; [apply Hx| |intros i; by apply queued_in_wait].
    intros z Hz. exists (Z.to_nat z). pose proof (ex_slot _ _ Hx _ _ Hz). split; [lia|].
    rewrite <- (Z2Nat.id z) in Hz by done. apply (ex_iff _ _ Hx) in Hz as [(t & Ht & _)%blocked_in_alpha _].
    apply lookup_lt_Some in Ht. pose proof Hm as [Hw _ _]. by rewrite (tb_len _ _ _ _ _ _ (wo_table _ Hw)) in Ht. }
  unfold ledger, balance, waits, in_flight. rewrite (countb_split _ (blockedb (m_world P m))), <- Hq. cbn. lia.
Qed.

(** ** Executions *)

(** How many of the steps [n], ..., [n + d - 1] do [f]. *)
Definition tally (f : machine P → bool) (os : OS) (fuel n d : nat) : Z :=
  countb (λ k, match run P k (boot P os fuel) with Next _ m => f m | _ => false end) (seq n d).

Lemma tally_S f os fuel n d m :
  run P (n + d) (boot P os fuel) = Next P m → tally f os fuel n (S d) = tally f os fuel n d + b2z (f m).
Proof using Type. intros E. unfold tally. rewrite seq_S, countb_app, countb_cons, E. change (countb _ []) with 0. unfold b2z. lia. Qed.

Lemma ledger_run os fuel n m d : ∀ m',
  Z.of_nat (n + d) < 2 ^ 64 - 2 → run P n (boot P os fuel) = Next P m → run P (n + d) (boot P os fuel) = Next P m' →
  (∀ k m1, (n ≤ k < n + d)%nat → run P k (boot P os fuel) = Next P m1 → ¬ about_to_discard m1) →
  ledger m' + tally obtains os fuel n d = ledger m + tally posts os fuel n d.
Proof using HP.
  induction d as [|d IH]; intros m' Hn E E' Hd.
  - rewrite Nat.add_0_r, E in E'. injection E' as <-. done.
  - rewrite Nat.add_succ_r in E'. apply run_snoc in E' as (m1 & E1 & E2).
    rewrite !(tally_S _ _ _ _ _ m1 E1).
    pose proof (IH m1 ltac:(lia) E E1 (λ k m0 Hk, Hd k m0 ltac:(lia))) as Hl.
    assert (Hst : ledger m' + b2z (obtains m1) = ledger m1 + b2z (posts m1)); [|lia].
    apply ledger_step; [| | |apply (Hd (n + d)%nat); [lia|done]|done].
    + eapply reachable_ok; [done| |exact E1]. lia.
    + eapply reachable_room; [done| |exact E1]. lia.
    + eapply reachable_joining; [done| |exact E1]. lia.
Qed.
End machine.

(** C5. A semaphore conserves its units.  Between any two points of an execution
    in which no step abandons a waiter, discards the semaphore [s] or cancels a
    thread that is in a wait on it, the count, the units that woken threads have
    not collected yet and the waits that have succeeded add up: the waits that
    succeed between the two points are paid for by posts between them, and by
    what was in the count or on its way before; no unit is lost or used twice. *)
Theorem sem_conservation P s os fuel n d m m' :
  disciplined P → Z.of_nat (n + d) < 2 ^ 64 - 2 →
  run P n (boot P os fuel) = Next P m → run P (n + d) (boot P os fuel) = Next P m' →
  (∀ k m1, (k < n + d)%nat → run P k (boot P os fuel) = Next P m1 → ¬ about_to_abandon P m1) →
  (∀ k m1, (n ≤ k < n + d)%nat → run P k (boot P os fuel) = Next P m1 → ¬ about_to_discard P s m1) →
  sm_count (sem_at (m_world P m') s) + in_flight P s m' + tally P (obtains P s) os fuel n d =
  sm_count (sem_at (m_world P m) s) + in_flight P s m + tally P (posts P s) os fuel n d.
Proof.
  intros HP Hn E E' Hab Hd. pose proof (ledger_run P HP s os fuel n m d m' Hn E E' Hd) as Hl.
  rewrite (ledger_units P s m), (ledger_units P s m') in Hl; [done|..].
  - eapply reachable_ok; [done| |exact E']. lia.
  - eapply exact_run; [done| |exact E'|]; [lia|]. intros k m1 Hk. apply Hab. lia.
  - eapply reachable_ok; [done| |exact E]. lia.
  - eapply exact_run; [done| |exact E|]; [lia|]. intros k m1 Hk. apply Hab. lia.
Qed.

(** ** Witness: two posts, one for a thread that waits *)

Definition relay : program := script_program
  [AInit (Some demo_config); ASemInit 5 0; ACreate true None 1 0; AYield; ASemPost 5; ASemPost 5; AJoin 1]
  (λ _, [ASemWait 5]).

Lemma relay_disciplined : disciplined relay.
Proof. by apply script_disciplined. Qed.

Definition frugal {P} (s : Z) (r : step_result P) : bool :=
  match next_call r with Some (_, (ACancel _ | AShutdown)) => false | Some (_, a) => negb (resets s a) | None => true end.

Lemma frugal_run P s os fuel n d :
  forallb (λ k, frugal s (run P k (boot P os fuel))) (seq n d) = true →
  ∀ k m, (n ≤ k < n + d)%nat → run P k (boot P os fuel) = Next P m → ¬ about_to_discard P s m.
Proof.
  intros H k m Hk E (tid & u & a & E1 & E2 & Hd). pose proof (proj1 (forallb_forall _ _) H k ltac:(apply in_seq; lia)) as Hf.
  unfold frugal in Hf. rewrite E, (next_call_eq P m tid u a E1 E2) in Hf. destruct a; try done; cbn in Hd, Hf; by rewrite Hd in Hf.
Qed.

Lemma sem_conservation_witness : ∃ m m',
  run relay 2 (boot relay sunny_os 0) = Next relay m ∧ run relay 12 (boot relay sunny_os 0) = Next relay m' ∧
  sm_count (sem_at (m_world relay m') 5) + in_flight relay 5 m' + 1 = sm_count (sem_at (m_world relay m) 5) + in_flight relay 5 m + 2.
Proof.
  destruct (is_next_true (run relay 2 (boot relay sunny_os 0))) as [m Hm]; [by vm_compute|].
  destruct (is_next_true (run relay 12 (boot relay sunny_os 0))) as [m' Hm']; [by vm_compute|].
  exists m, m'. split_and!; [done|done|].
  assert (Ep : tally relay (posts relay 5) sunny_os 0 2 10 = 2) by (by vm_compute).
  assert (Eo : tally relay (obtains relay 5) sunny_os 0 2 10 = 1) by (by vm_compute).
  pose proof (sem_conservation relay 5 sunny_os 0 2 10 m m' relay_disciplined ltac:(cbn; lia) Hm Hm'
    (calm_run relay sunny_os 0 12 ltac:(by vm_compute)) (frugal_run relay 5 sunny_os 0 2 10 ltac:(by vm_compute))) as H.
  rewrite Ep, Eo in H. exact H.
Defined.
