(* ===== verification/Stacks.v ===== *)
(** * No stack is leaked

    The mapped pages are exactly those of the stacks of the threads in the
    table, each page of one stack, in every reachable state: creation maps one stack, joining a thread
    unmaps its stack, shutdown unmaps them all, and nothing else touches
    them. *)

From S2P Require Import Prelude WaitQueue TraceFormat State Stack TraceBuffer Trace Runtime Replay.
From S2P Require Import Fuzz Sched Thread Mutex Sem Cond Lifecycle Machine Scripts Invariant Ops Switching Safety.
From S2P Require Import SyncSpec Frame Exclusion ThreadSpec Slots.

Definition stacks (w : world) : list gth_stack_allocation_t := th_stack <$> rt_threads (w_rt w).

Definition same_stacks (w w' : world) : Prop := w_mapped w' = w_mapped w ∧ page_of w' = page_of w ∧ stacks w' = stacks w.

Lemma same_slots_stacks w w' : same_slots w w' → same_stacks w w'.
Proof.
  intros [[= E1 E2 _] E3]. split_and!; [done..|].
  assert (H : ∀ w, stacks w = (λ x : Z * gth_stack_allocation_t * gth_ctx_t * Z * Z, snd (fst (fst (fst x)))) <$> slots w).
  { intros v. unfold stacks, slots. by rewrite <- list_fmap_compose. }
  by rewrite !H, E3.
Qed.

Lemma stacks_save r p w : same_stacks w (upd_rt (save_ctx r p) w).
Proof.
  destruct r as [|i]; (split_and!; [done|done|]); [done|]. unfold stacks. cbn. apply list_eq. intros j. rewrite !list_lookup_fmap.
  destruct (decide (j = i)) as [->|Hne]; [|by rewrite list_lookup_alter_ne]. rewrite list_lookup_alter_eq.
  by destruct (rt_threads (w_rt w) !! i).
Qed.

(** ** The invariant *)

Definition laid_out (page : Z) (stk : gth_stack_allocation_t) : Prop :=
  0 < page ∧ ∃ size, 0 ≤ size ∧ stack_layout size page stk.

Record stacks_ok (w : world) : Prop := {
  sk_laid_out : ∀ i stk, stacks w !! i = Some stk → stk_memory stk ≠ 0 → laid_out (page_of w) stk;
  sk_owned : ∀ i stk p x, stacks w !! i = Some stk → stack_page (page_of w) stk p = Some x → w_mapped w !! p = Some x;
  sk_unique : ∀ i j stk stk' p, stacks w !! i = Some stk → stacks w !! j = Some stk' →
    is_Some (stack_page (page_of w) stk p) → is_Some (stack_page (page_of w) stk' p) → i = j;
  sk_all : ∀ p x, w_mapped w !! p = Some x → ∃ i stk, stacks w !! i = Some stk ∧ stack_page (page_of w) stk p = Some x
}.

Lemma stack_page_memory page stk p : is_Some (stack_page page stk p) → stk_memory stk ≠ 0.
Proof. unfold stack_page. destruct (Z.eqb_spec (stk_memory stk) 0); [by intros []|done]. Qed.

Lemma stacks_ok_same w w' : same_stacks w w' → stacks_ok w → stacks_ok w'.
Proof. intros (E1 & E2 & E3) []. constructor; rewrite ?E1, ?E2, ?E3; done. Qed.

Lemma stacks_insert i t (ts : list gth_thread_record_t) :
  th_stack <$> <[i := t]> ts = <[i := th_stack t]> (th_stack <$> ts).
Proof. apply list_fmap_insert. Qed.

(** A new stack in a slot that had none. *)
Lemma stacks_ok_create w w' i stk :
  stacks_ok w → stacks w !! i = Some stack_zero → laid_out (page_of w) stk →
  maps_stack (page_of w) stk (w_mapped w) (w_mapped w') → page_of w' = page_of w →
  stacks w' = <[i := stk]> (stacks w) → stacks_ok w'.
Proof.
  intros [Hl Ho Hu Ha] Hi Hnew Hm Epg E. assert (Hlen : (i < length (stacks w))%nat) by (by eapply lookup_lt_Some).
  assert (Hother : ∀ j s p, stacks w !! j = Some s → is_Some (stack_page (page_of w) s p) → stack_page (page_of w) stk p = None).
  { intros j s p Hj [x Hx]. specialize (Hm p). destruct (stack_page (page_of w) stk p); [|done].
    destruct Hm as [Hm _]. by rewrite (Ho j s p x Hj Hx) in Hm. }
  constructor; rewrite ?Epg, ?E.
  - intros j s [(-> & -> & _)|[Hne Hj]]%list_lookup_insert_Some Hnz; [done|by eapply Hl].
  - intros j s p x [(-> & -> & _)|[Hne Hj]]%list_lookup_insert_Some Hx; specialize (Hm p).
    + rewrite Hx in Hm. apply Hm.
    + rewrite (Hother j s p Hj) in Hm by eauto. rewrite Hm. by eapply Ho.
  - intros j k s s' p [(-> & -> & _)|[Hne Hj]]%list_lookup_insert_Some
      [(-> & -> & _)|[Hne' Hk]]%list_lookup_insert_Some Hx Hx'; try done.
    + rewrite (Hother k s' p Hk Hx') in Hx. by destruct Hx.
    + rewrite (Hother j s p Hj Hx) in Hx'. by destruct Hx'.
    + by eapply Hu.
  - intros p x Hp. specialize (Hm p). destruct (stack_page (page_of w) stk p) as [y|] eqn:Ey.
    + destruct Hm as [_ Hm]. exists i, stk. rewrite list_lookup_insert_eq by done. split; [done|congruence].
    + rewrite Hm in Hp. destruct (Ha p x Hp) as (j & s & Hj & Hs). exists j, s. split; [|done].
      rewrite list_lookup_insert_ne; [done|]. intros ->. rewrite Hi in Hj. injection Hj as <-. done.
Qed.

(** The stack of a slot is freed. *)
Lemma free_lookup w stk p :
  (stk_memory stk ≠ 0 → laid_out (page_of w) stk) →
  w_mapped (gth_stack_free stk w) !! p = match stack_page (page_of w) stk p with Some _ => None | None => w_mapped w !! p end.
Proof.
  intros Hl. destruct (decide (stk_memory stk = 0)) as [Hz|Hnz].
  - unfold gth_stack_free, stack_page. by rewrite Hz.
  - destruct (Hl Hnz) as (Hpg & size & Hsz & Hlay). rewrite (free_mapped size) by done. by apply (unmap_stack size).
Qed.

Lemma stacks_ok_release w w' i stk :
  stacks_ok w → stacks w !! i = Some stk → w_mapped w' = w_mapped (gth_stack_free stk w) → page_of w' = page_of w →
  stacks w' = <[i := stack_zero]> (stacks w) → stacks_ok w'.
Proof.
  intros [Hl Ho Hu Ha] Hi E1 Epg E2. assert (Hfree := λ p, free_lookup w stk p (Hl i stk Hi)).
  constructor; rewrite ?Epg, ?E2.
  - intros j s [(-> & <- & _)|[Hne Hj]]%list_lookup_insert_Some Hnz; [done|by eapply Hl].
  - intros j s p x [(-> & <- & _)|[Hne Hj]]%list_lookup_insert_Some Hx; [done|]. rewrite E1, Hfree.
    destruct (stack_page (page_of w) stk p) as [y|] eqn:Ey; [|by eapply Ho].
    destruct Hne. eapply (Hu i j stk s p); eauto.
  - intros j k s s' p [(-> & <- & _)|[Hne Hj]]%list_lookup_insert_Some
      [(-> & <- & _)|[Hne' Hk]]%list_lookup_insert_Some Hx Hx'; try (by apply stack_page_memory in Hx);
      try (by apply stack_page_memory in Hx'). by eapply Hu.
  - intros p x Hp. rewrite E1, Hfree in Hp. destruct (stack_page (page_of w) stk p) as [y|] eqn:Ey; [done|].
    destruct (Ha p x Hp) as (j & s & Hj & Hs). exists j, s. split; [|done].
    rewrite list_lookup_insert_ne; [done|]. intros ->. congruence.
Qed.

(** Every page belongs to a stack, so freeing all stacks unmaps everything. *)
Lemma free_all w ts : stacks_ok w → th_stack <$> ts = stacks w → w_mapped (free_stacks 0 ts w) = ∅.
Proof.
  intros [Hl Ho Hu Ha] Ets. apply map_eq. intros p. rewrite lookup_empty.
  destruct (w_mapped (free_stacks 0 ts w) !! p) as [x|] eqn:E; [|done]. exfalso.
  apply free_stacks_mapped in E as [E Hno]. destruct (Ha p x E) as (i & stk & Hi & Hx).
  apply Hno. pose proof (stack_page_memory _ _ _ (mk_is_Some _ _ Hx)) as Hnz. destruct (Hl i stk Hi Hnz) as (Hpg & size & Hsz & Hlay).
  rewrite <- Ets in Hi. apply list_lookup_fmap_Some in Hi as (t & -> & Ht).
  exists t. split_and!; [by eapply list_elem_of_lookup_2|done|destruct Hlay; lia|].
  apply (elem_of_stack_pages size (page_of w)); eauto.
Qed.

(** ** Operations *)

Definition stk_keeps {A} (m : M A) : Prop := ∀ w, stacks_ok w →
  match m w with Done (_, w') => stacks_ok w' | _ => True end.

Lemma stk_keeps_frames {A} (m : M A) : frames same_slots m → stk_keeps m.
Proof.
  intros H w Hw. specialize (H w). destruct (m w) as [[a w']| |]; [|done..].
  eapply stacks_ok_same; [by apply same_slots_stacks|done].
Qed.

Lemma stk_keeps_bind {A B} (m : M A) (k : A → M B) :
  stk_keeps m → (∀ a, stk_keeps (k a)) → stk_keeps (bind m k).
Proof.
  intros Hm Hk w Hw. specialize (Hm w Hw). unfold bind. destruct (m w) as [[a w1]| |]; [|done..].
  by apply Hk.
Qed.

Lemma release_keeps i : stk_keeps (gth_thread_release_slot i).
Proof.
  intros w Hw. unfold gth_thread_release_slot, bind, thread_at, deref, modify.
  destruct (rt_threads (w_rt w) !! i) as [t|] eqn:Ht; [|done]. rewrite overwrite_after_free.
  apply (stacks_ok_release w _ i (th_stack t)); [done| | | |].
  - unfold stacks. by rewrite list_lookup_fmap, Ht.
  - cbn. apply mapped_stack_free; by repeat case_match.
  - etrans; [apply page_of_unmap|]. by repeat case_match.
  - unfold stacks. cbn -[gth_stack_free]. rewrite stack_free_rt, alter_insert, stacks_insert. cbn.
    by repeat case_match.
Qed.

Lemma join_finish_keeps i : stk_keeps (join_finish i).
Proof.
  apply stk_keeps_bind; [apply stk_keeps_frames, frames_thread_at|]. intros t.
  apply stk_keeps_bind; [apply release_keeps|]. intros _. apply stk_keeps_frames, frames_ret.
Qed.

Lemma join_after_keeps tid r : stk_keeps (join_after_run_until tid r).
Proof.
  intros w Hw. unfold join_after_run_until. destruct r as [st|sw]; [|done]. destruct st; try done.
  destruct (gth_runtime_find_thread _ _) as [i|]; [|done]. by apply join_finish_keeps.
Qed.

Lemma join_keeps tid : stk_keeps (gth_thread_join tid).
Proof.
  intros w Hw. unfold gth_thread_join. destruct (negb _); [done|]. destruct (tid =? 0); [done|].
  destruct (tid =? _); [done|]. destruct (gth_runtime_find_thread _ _) as [i|]; [|done].
  revert w Hw. apply stk_keeps_bind; [apply stk_keeps_frames, frames_thread_at|]. intros t.
  destruct (negb _); [|apply join_finish_keeps].
  apply stk_keeps_bind; [apply stk_keeps_frames, frames_run_until|apply join_after_keeps].
Qed.

Lemma resume_main_keeps prev k : stk_keeps (resume_frame (KRunNext prev k)).
Proof.
  destruct k as [|tid target]; cbn [resume_frame].
  - apply stk_keeps_frames. frames_tac.
  - apply stk_keeps_bind; [apply stk_keeps_frames; frames_tac|]. intros _.
    apply stk_keeps_bind; [apply stk_keeps_frames, frames_run_until_loop|apply join_after_keeps].
Qed.

(** What the operating system promises while the program runs: pages are a
    power of two and a new mapping is at an address that is free. *)
Definition os_sound (w : world) : Prop :=
  mmap_sound w ∧ ∃ k, 0 ≤ k ≤ 30 ∧ page_of w = 2 ^ k.

Lemma create_keeps out attr fn arg w :
  world_ok w → tid_room w → os_sound w → stacks_ok w →
  match gth_thread_create out attr fn arg w with Done (_, w') => stacks_ok w' | _ => True end.
Proof.
  intros Hw Hroom (Hmm & k & Hk & Hp) Hok. pose proof (create_spec out attr fn arg w k Hw Hroom Hp Hk Hmm) as H.
  unfold returns in H. destruct (gth_thread_create out attr fn arg w) as [[r w']| |]; [|done..].
  destruct (negb _); [by destruct H as [_ ->]|]. destruct (_ || _); [by destruct H as [_ ->]|].
  destruct (gth_runtime_alloc_thread_slot (w_rt w)) as [i|] eqn:Ha; [|by destruct H as [_ ->]].
  apply alloc_slot_Some in Ha as (t & Ht & Hst). apply is_empty_true in Hst.
  assert (t = thread_zero) as -> by (by eapply (tb_empty _ _ _ _ _ _ (wo_table _ Hw))).
  assert (Hsame : rt_threads (w_rt w') = rt_threads (w_rt w) ∧ w_mapped w' = w_mapped w ∧ page_of w' = page_of w → stacks_ok w').
  { intros (E1 & E2 & E3). eapply stacks_ok_same; [|exact Hok]. split_and!; [done..|]. unfold stacks. by rewrite E1. }
  unfold create_outcome in H. destruct H as (_ & Epg & H).
  destruct (r_status r); try done; try (apply Hsame; tauto).
  destruct H as (_ & Hsize & stk & Hl & Hts & _ & Hm). pose proof (Z.pow_pos_nonneg 2 k).
  unfold GTH_MIN_STACK_SIZE in *. rewrite <- Hp in Hl, Hm. apply (stacks_ok_create w w' i stk); auto.
  - unfold stacks. by rewrite list_lookup_fmap, Ht.
  - split; [lia|]. eexists. split; [|exact Hl]. lia.
  - unfold stacks. by rewrite Hts, stacks_insert.
Qed.

Lemma zero_stacks ts : (∀ i t, ts !! i = Some t → t = thread_zero) → length ts = GTH_MAX_THREADS →
  th_stack <$> ts = replicate GTH_MAX_THREADS stack_zero.
Proof.
  intros Hz Hlen. apply list_eq. intros i. rewrite list_lookup_fmap. destruct (ts !! i) as [t|] eqn:E.
  - rewrite (Hz i t E). change (th_stack <$> Some thread_zero) with (Some stack_zero). symmetry. apply lookup_replicate. split; [done|]. rewrite <- Hlen. by eapply lookup_lt_Some.
  - change (th_stack <$> None) with (@None gth_stack_allocation_t). symmetry. apply lookup_ge_None. rewrite length_replicate, <- Hlen. by apply lookup_ge_None.
Qed.

(** The table of an uninitialised runtime is empty already. *)
Lemma init_keeps config w :
  world_ok w → stacks_ok w → match gth_runtime_init config w with Done (_, w') => stacks_ok w' | _ => True end.
Proof.
  intros Hw Hok. unfold gth_runtime_init. destruct config as [c|]; [|done]. destruct (negb _); [done|].
  destruct (rt_initialized (w_rt w)) eqn:Hini; [done|]. eapply stacks_ok_same; [|exact Hok]. split_and!; [done..|].
  unfold stacks. rewrite (zero_stacks (rt_threads (w_rt w))).
  - apply zero_stacks; [by intros i t [-> _]%lookup_replicate_1|done].
  - intros i t Ht. pose proof (wo_table _ Hw) as Htb. eapply (tb_empty _ _ _ _ _ _ Htb); [done|].
    by eapply (tb_uninit _ _ _ _ _ _ Htb).
  - apply (tb_len _ _ _ _ _ _ (wo_table _ Hw)).
Qed.

Lemma shutdown_frees w :
  stacks_ok w → match gth_runtime_shutdown w with
    | Done (st, w') => (st = GTH_ESTATE ∧ w' = w) ∨ (st = GTH_OK ∧ w_rt w' = rt_zero ∧ w_mapped w' = ∅)
    | _ => False
    end.
Proof.
  intros Hok. unfold gth_runtime_shutdown. destruct (negb _); [by left|]. right.
  set (w1 := match rt_trace (w_rt w) with Some _ => gth_trace_cleanup w | None => w end).
  assert (E1 : same_slots w w1) by (unfold w1; destruct (rt_trace (w_rt w)); [apply frame_cleanup|framed]).
  clearbody w1. set (w2 := match rt_replay (w_rt w1) with Some _ => gth_replay_cleanup w1 | None => w1 end).
  set (w3 := match rt_fuzz (w_rt w2) with Some _ => gth_fuzz_cleanup w2 | None => w2 end).
  assert (E3 : same_slots w1 w3) by (unfold w3, w2; repeat case_match; framed).
  clearbody w3. split_and!; [done|done|]. cbn. apply free_all; [|done].
  eapply stacks_ok_same; [apply same_slots_stacks; etrans; [exact E1|exact E3]|done].
Qed.

Lemma stacks_ok_none w : w_mapped w = ∅ → stacks w = replicate GTH_MAX_THREADS stack_zero → stacks_ok w.
Proof.
  intros E1 E2. assert (Hz : ∀ i stk, stacks w !! i = Some stk → stk = stack_zero)
    by (rewrite E2; by intros i stk [-> _]%lookup_replicate_1).
  assert (Hnone : ∀ i stk p x, stacks w !! i = Some stk → stack_page (page_of w) stk p = Some x → False)
    by (by intros i stk p x Hi%Hz; subst).
  constructor.
  - intros i stk Hi%Hz. by subst.
  - intros i stk p x Hi Hx. destruct (Hnone i stk p x Hi Hx).
  - intros i j stk stk' p Hi _ [x Hx]. destruct (Hnone i stk p x Hi Hx).
  - intros p x. by rewrite E1, lookup_empty.
Qed.

Lemma api_keeps_stacks a w :
  world_ok w → tid_room w → os_sound w → stacks_ok w →
  match api_call a w with Done (_, w') => stacks_ok w' | _ => True end.
Proof.
  intros Hw Hroom Hos Hok. destruct (moves_slots a) eqn:Hm; last first.
  { pose proof (slots_api a w (wo_trace _ Hw) Hm) as H. destruct (api_call a w) as [[r w']| |]; [|done..].
    eapply stacks_ok_same; [by apply same_slots_stacks|done]. }
  destruct a; try done; cbn [api_call]; unfold returning, bind.
  - pose proof (init_keeps config w Hw Hok) as H. by destruct (gth_runtime_init config w) as [[st w']| |].
  - pose proof (shutdown_frees w Hok) as H. destruct (gth_runtime_shutdown w) as [[st w']| |]; try done.
    destruct H as [[_ ->]|(_ & E1 & E2)]; [done|]. cbn. apply stacks_ok_none; [done|].
    unfold stacks. rewrite E1. apply zero_stacks; [by intros i t [-> _]%lookup_replicate_1|done].
  - pose proof (create_keeps out_nonnull attr fn arg w Hw Hroom Hos Hok) as H.
    by destruct (gth_thread_create _ _ _ _ w) as [[st w']| |].
  - by apply join_keeps.
Qed.

Lemma resume_keeps k : stk_keeps (resume_frame k).
Proof.
  destruct k as [|m my_slot|m| |prev kr]; [..|apply resume_main_keeps]; apply stk_keeps_frames; intros w.
  all: match goal with |- context [resume_frame ?k] => pose proof (briefs_resume k I w) as H end.
  all: by destruct (resume_frame _ w) as [[r w']| |]; [apply briefs_slots|..].
Qed.

(** ** Executions *)

Section machine.
Context (P : program).

Lemma after_call_stacks m o tid u r m' :
  after_call P m o tid u r = Next P m' → ∃ a w', r = Done (a, w') ∧ same_stacks w' (m_world P m').
Proof using Type.
  intros (a & w' & -> & [->|(from & p & ->)])%after_call_world; exists a, w'; (split; [done|]); [done|apply stacks_save].
Qed.

Lemma step_keeps_stacks m m' :
  mach_ok P m → tid_room (m_world P m) → os_sound (m_world P m) → stacks_ok (m_world P m) →
  step P m = Next P m' → stacks_ok (m_world P m').
Proof using Type.
  intros [Hw _ _] Hroom Hos Hok E. unfold step in E.
  destruct (m_ctl P m (m_run P m)) as [[tid mode]|]; [|done]. destruct (negb _); [done|].
  destruct mode as [u|k u|]; [|..|done].
  - destruct (p_next P u) as [v|a].
    + destruct (m_run P m) as [|c]; [done|].
      pose proof (frames_trampoline (R := same_slots) c v (m_world P m)) as Hfr.
      destruct (trampoline_exit c v (m_world P m)) as [[[] w']| |]; try done.
      apply jump_world in E. rewrite E. eapply stacks_ok_same; [by apply same_slots_stacks|done].
    + apply after_call_stacks in E as (r & w' & E & Es). eapply stacks_ok_same; [exact Es|].
      pose proof (api_keeps_stacks a (m_world P m) Hw Hroom Hos Hok) as H. by rewrite E in H.
  - apply after_call_stacks in E as (r & w' & E & Es). eapply stacks_ok_same; [exact Es|].
    pose proof (resume_keeps k (m_world P m) Hok) as H. by rewrite E in H.
Qed.

Lemma run_keeps_stacks os fuel n : ∀ m,
  disciplined P → Z.of_nat n < 2 ^ 64 - 2 → run P n (boot P os fuel) = Next P m →
  (∀ k m', (k < n)%nat → run P k (boot P os fuel) = Next P m' → os_sound (m_world P m')) →
  stacks_ok (m_world P m).
Proof using Type.
  induction n as [|n IH]; intros m HP Hn E Hos.
  - injection E as <-. apply stacks_ok_none; [done|].
    apply zero_stacks; [by intros i t [-> _]%lookup_replicate_1|done].
  - apply run_snoc in E as (m1 & E1 & E2). eapply (step_keeps_stacks m1); [..|exact E2].
    + eapply reachable_ok; [done| |exact E1]. lia.
    + eapply reachable_room; [done| |exact E1]. lia.
    + apply (Hos n); [lia|done].
    + apply IH; [done|lia|done|]. intros k m' Hk. apply Hos. lia.
Qed.
End machine.

(** C13. No stack is leaked or shared.  In every reachable state the mapped
    pages are exactly those of the stacks of the threads in the table, with
    the guard page of each inaccessible and its other pages readable and
    writable, and no page belongs to two threads.  So a joined thread's memory
    is returned, and a shutdown at any point leaves nothing mapped.  (As
    documented for [mmap], a new region is where nothing is mapped.) *)
Theorem no_stack_leak P os fuel n m :
  disciplined P → Z.of_nat n < 2 ^ 64 - 2 → run P n (boot P os fuel) = Next P m →
  (∀ k m', (k < n)%nat → run P k (boot P os fuel) = Next P m' → os_sound (m_world P m')) →
  let ts := rt_threads (w_rt (m_world P m)) in
  let page := page_of (m_world P m) in
  (∀ p x, w_mapped (m_world P m) !! p = Some x ↔
     ∃ i t, ts !! i = Some t ∧ is_empty t = false ∧ stack_page page (th_stack t) p = Some x) ∧
  (∀ i t, ts !! i = Some t → stk_memory (th_stack t) ≠ 0 → laid_out page (th_stack t)) ∧
  (∀ i j t u p, ts !! i = Some t → ts !! j = Some u →
     is_Some (stack_page page (th_stack t) p) → is_Some (stack_page page (th_stack u) p) → i = j) ∧
  (rt_initialized (w_rt (m_world P m)) = true →
   returns gth_runtime_shutdown (m_world P m) (λ st w', st = GTH_OK ∧ w_mapped w' = ∅)).
Proof.
  intros HP Hn E Hos ts page. pose proof (reachable_ok P os fuel n m HP Hn E) as [Hw _ _].
  pose proof (run_keeps_stacks P os fuel n m HP Hn E Hos) as Hok.
  pose proof (shutdown_frees (m_world P m) Hok) as Hshut. destruct Hok as [Hl Ho Hu Ha].
  assert (Hstk : ∀ i t, ts !! i = Some t → stacks (m_world P m) !! i = Some (th_stack t)).
  { intros i t Ht. unfold stacks, ts in *. by rewrite list_lookup_fmap, Ht. }
  split_and!.
  - intros p x. split.
    + intros H. destruct (Ha p x H) as (i & stk & Hi & Hx). unfold stacks in Hi.
      apply list_lookup_fmap_Some in Hi as (t & -> & Ht). exists i, t. split_and!; [done| |done].
      destruct (is_empty t) eqn:He; [|done]. pose proof (stack_page_memory _ _ _ (mk_is_Some _ _ Hx)) as Hnz.
      by rewrite (tb_empty _ _ _ _ _ _ (wo_table _ Hw) i t Ht He) in Hnz.
    + intros (i & t & Ht & _ & Hx). by apply (Ho i (th_stack t) p x (Hstk i t Ht)).
  - intros i t Ht. by apply (Hl i), Hstk.
  - intros i j t u p Ht Hu'. by apply Hu; apply Hstk.
  - intros Hini. unfold returns. unfold gth_runtime_shutdown in *. rewrite Hini in *. cbn [negb] in *.
    destruct Hshut as [[? _]|(_ & _ & ?)]; [done|]. split; [done|done].
Qed.

(** ** Witness: [handoff] after both threads have been created *)

Definition world_after {P} (r : step_result P) : option world :=
  match r with Next _ m => Some (m_world P m) | _ => None end.

(** The next [mmap] succeeds at an address that is free, whatever the size. *)
Definition next_mmap (w : world) : Z → option Z := os_mmap (w_os w) (w_tick w).

Definition next_free (w : world) : bool :=
  match next_mmap w 0 with
  | Some a => (0 <? a) && (a <? 2 ^ 60) && (a mod 4096 =? 0) && (page_of w =? 4096) &&
              forallb (λ px, fst px <? a / 4096) (map_to_list (w_mapped w))
  | None => false
  end.

Lemma next_free_sound w :
  (∀ size, next_mmap w size = next_mmap w 0) →
  next_free w = true → os_sound w.
Proof.
  intros Hmm. unfold next_free. destruct (next_mmap w 0) as [a|] eqn:Ea; [|done]. rewrite !andb_true_iff.
  intros [[[[Hpos%Z.ltb_lt Hlt%Z.ltb_lt] Hmod%Z.eqb_eq] Hp%Z.eqb_eq] Hf].
  split; [|by exists 12]. intros size b Hsize Hb. change (next_mmap w size = Some b) in Hb. rewrite Hmm in Hb.
  injection Hb as <-. rewrite Hp.
  split_and!; [lia|lia|apply Z.mod_divide; [lia|done]|]. intros p [Hpa _]%elem_of_pages.
  destruct (w_mapped w !! p) as [x|] eqn:Ex; [|done]. rewrite forallb_forall in Hf. specialize (Hf (p, x)). cbn in Hf.
  rewrite Z.ltb_lt in Hf. rewrite <- elem_of_map_to_list, list_elem_of_In in Ex. specialize (Hf Ex). lia.
Qed.

Lemma no_stack_leak_witness : ∃ m,
  run handoff 6 (boot handoff sunny_os 0) = Next handoff m ∧
  returns gth_runtime_shutdown (m_world handoff m) (λ st w', st = GTH_OK ∧ w_mapped w' = ∅).
Proof.
  destruct (is_next_true (run handoff 6 (boot handoff sunny_os 0))) as [m Hm]; [by vm_compute|].
  exists m. split; [exact Hm|].
  apply (no_stack_leak handoff sunny_os 0 6 m).
  - apply handoff_disciplined.
  - cbn. lia.
  - exact Hm.
  - intros k m1 Hk E.
    assert (Ew : world_after (run handoff k (boot handoff sunny_os 0)) = Some (m_world handoff m1)) by (by rewrite E).
    assert (Hmm : ∀ size, (λ w, next_mmap w size) <$> world_after (run handoff k (boot handoff sunny_os 0)) =
      (λ w, next_mmap w 0) <$> world_after (run handoff k (boot handoff sunny_os 0))).
    { clear - Hk. intros size. do 6 (destruct k as [|k]; [by vm_compute|]). lia. }
    assert (Hfree : next_free <$> world_after (run handoff k (boot handoff sunny_os 0)) = Some true).
    { clear - Hk. do 6 (destruct k as [|k]; [by vm_compute|]). lia. }
    rewrite Ew in Hmm, Hfree. apply next_free_sound; [|by injection Hfree].
    intros size. specialize (Hmm size). by injection Hmm.
  - assert (H : match run handoff 6 (boot handoff sunny_os 0) with
                | Next _ m => rt_initialized (w_rt (m_world handoff m)) | _ => false end = true) by (by vm_compute).
    by rewrite Hm in H.
Defined.
