(* ===== verification/ApiSpec.v ===== *)
(** * What every public function promises

    The contract of the whole interface of gthreads.h: the well-formedness
    invariant each call preserves, the outcome of initialisation, and what
    calls do while there is no runtime. *)

From S2P Require Import Prelude WaitQueue TraceFormat State Stack TraceBuffer Trace Runtime Replay.
From S2P Require Import Fuzz Sched Thread Mutex Sem Cond Lifecycle Machine Scripts Invariant Ops Switching Safety.
From S2P Require Import SyncSpec Frame ThreadSpec.
Import Sync.

(** ** Preservation *)

(** What the caller finds when the call is over, or what it leaves behind when
    it switches stacks. *)
Definition call_result (cur : option nat) (r : result) (s : gth_runtime_state_t) : Prop :=
  match r, cur with
  | Return _, _ => cur_ok cur s ∧ cur_free cur s
  | Swap from to _, Some c => from = ThreadCtx c ∧ to = SchedCtx ∧
      ∀ t, rt_threads s !! c = Some t → th_state t ≠ GTH_THREAD_RUNNING
  | Swap from to _, None => from = SchedCtx ∧
      ∃ i t, to = ThreadCtx i ∧ rt_threads s !! i = Some t ∧ th_state t = GTH_THREAD_RUNNING ∧
        rt_current_tid s = th_tid t
  end.

(** C12. Every public function preserves the invariant of the runtime's data.
    Called by main or by a thread that neither joins nor shuts down, in a
    consistent state, it ends with the table, the counters, all wait queues
    and the trace buffer consistent again; when it returns the caller is the
    running thread as before; when it switches stacks, a thread has given up
    RUNNING and goes to the scheduler, and main has made exactly the thread it
    goes to the running one. *)
Theorem calls_preserve_invariant cur a w :
  world_ok w → cur_ok cur (w_rt w) → cur_free cur (w_rt w) → tid_room w →
  (cur ≠ None → thread_safe a = true) →
  safe (fuzz_stuck w) (api_call a) w (λ r w', world_ok w' ∧ call_result cur r (w_rt w')).
Proof.
  intros Hw Hc Hf Hroom Hsafe. eapply safe_mono; [by apply (api_ok cur)|].
  intros r w' H. destruct r as [x|from to k]; cbn [call_post call_result] in *.
  - destruct H as [Hw' Hev Hfree _]. split_and!; [done|by eapply cur_ok_evolves|by apply Hfree].
  - destruct cur as [c|].
    + destruct H as (-> & -> & _ & [Hw' _ _ Hst]). done.
    + destruct H as (i & -> & -> & _ & [Hw' (t & Ht & _ & Etid) Ets _]). split_and!; [done|done|].
      exists i, (set_state GTH_THREAD_RUNNING t). split_and!; try done.
      rewrite Ets. by rewrite list_lookup_alter_eq, Ht.
Qed.

(** ** Initialisation *)

(** The runtime state after initialisation: a function of the configuration alone. *)
Definition initial_rt (c : gth_runtime_config_t) : gth_runtime_state_t :=
  {| rt_zero with rt_initialized := true; rt_config := c; rt_next_tid := 1;
     rt_last_rr_slot := (GTH_MAX_THREADS - 1)%nat |}.

Lemma init_spec config w :
  returns (gth_runtime_init config) w (λ st w',
    match config with
    | Some c =>
        if decide (16384 ≤ cfg_stack_size_bytes c ∧ cfg_quantum_us c ≠ 0 ∧
                   (cfg_policy c = GTH_SCHED_RR ∨ cfg_policy c = GTH_SCHED_PRIORITY)) then
          if rt_initialized (w_rt w) then st = GTH_ESTATE ∧ w' = w
          else st = GTH_OK ∧ w' = {| w with w_rt := initial_rt c |} ∧ (sync_ok w → world_ok w')
        else st = GTH_EINVAL ∧ w' = w
    | None => st = GTH_EINVAL ∧ w' = w
    end).
Proof.
  unfold gth_runtime_init, returns. destruct config as [c|]; [|done]. unfold gth_config_is_valid.
  destruct (Z.ltb_spec (cfg_stack_size_bytes c) (16 * 1024)); cbn [negb]; [rewrite decide_False by lia; done|].
  destruct (Z.eqb_spec (cfg_quantum_us c) 0); cbn [negb]; [rewrite decide_False by tauto; done|].
  destruct (Z.eqb_spec (cfg_policy c) GTH_SCHED_RR), (Z.eqb_spec (cfg_policy c) GTH_SCHED_PRIORITY);
    cbn [negb andb]; try (rewrite decide_False by tauto; done);
    (destruct (rt_initialized (w_rt w)); rewrite decide_True by (split_and!; auto; lia); [done|]);
    (split; [done|]; split; [done|]; intros Hs; constructor; [|by destruct Hs|done];
     apply fresh_table; [cbn; lia|cbn; lia|unfold GTH_MAX_THREADS; cbn; lia]).
Qed.

(** C32. Initialisation is refused with EINVAL exactly when the configuration is
    NULL, asks for stacks below 16 KiB, for a zero quantum or for an unknown
    policy (the header promises defaults for NULL and for zero fields), and with
    ESTATE when the runtime is running; nothing changes then.  Otherwise the runtime state is the initial one for that configuration,
    whatever it was before, so that a runtime that was shut down starts afresh;
    nothing outside the runtime state changes; and the invariant holds if it
    did for the synchronisation objects. *)
Theorem init_outcome config w :
  returns (gth_runtime_init config) w (λ st w',
    match config with
    | Some c =>
        if decide (16384 ≤ cfg_stack_size_bytes c ∧ cfg_quantum_us c ≠ 0 ∧
                   (cfg_policy c = GTH_SCHED_RR ∨ cfg_policy c = GTH_SCHED_PRIORITY)) then
          if rt_initialized (w_rt w) then st = GTH_ESTATE ∧ w' = w
          else st = GTH_OK ∧ w' = {| w with w_rt := initial_rt c |} ∧ (sync_ok w → world_ok w')
        else st = GTH_EINVAL ∧ w' = w
    | None => st = GTH_EINVAL ∧ w' = w
    end).
Proof. apply init_spec. Qed.

(** ** Without a runtime *)

(** The functions that need a runtime and the status they answer without one;
    [None] for those that do not need one. *)
Definition refusal (a : api) : option gth_status_t :=
  match a with
  | AGetStats b | AReplayStats b | AFuzzStats b => Some (if b then GTH_ESTATE else GTH_EINVAL)
  | AShutdown | ACreate _ _ _ _ | AYield | AJoin _ | ACancel _ | ATraceStart _ | ATraceStop
  | AReplayFrom _ | AFuzzSetRate _ | ASetMode _ => Some GTH_ESTATE
  | _ => None
  end.

(** C34. Before initialisation and after shutdown every call returns to its
    caller, without switching stacks or faulting.  The functions that need the
    runtime answer ESTATE (EINVAL for a NULL out-parameter of a statistics
    function, which is looked at first) and change nothing; [gth_thread_self]
    is 0; the functions on synchronisation objects do not look at the runtime
    and do what the abstract objects do for a caller that is not a thread. *)
Theorem calls_without_runtime a w :
  world_ok w → w_rt w = rt_zero → (∀ c, a ≠ AInit c) →
  match refusal a with
  | Some st => api_call a w = Done (Return (status st), w)
  | None =>
      match sync_spec (mk_caller 0 None) a (alpha w) with
      | Some (v, a') => returns (api_call a) w (λ r w', ∃ st,
          v = Answer st ∧ r = Return (status st) ∧ abs w' a')
      | None => api_call a w = Done (Return (mk_resp GTH_OK [0]), w)
      end
  end.
Proof.
  intros Hw Hz Hni. assert (Hini : rt_initialized (w_rt w) = false) by (by rewrite Hz).
  assert (Hc : cur_ok None (w_rt w)).
  { split; [by rewrite Hz|]. rewrite Hz. by intros i t [-> _]%lookup_replicate_1. }
  destruct (refusal a) as [st|] eqn:Hr.
  - destruct a; try done; cbn [refusal] in Hr; injection Hr as <-; cbn [api_call];
      unfold returning, bind, gets, ret, ret_status, gth_runtime_shutdown, gth_runtime_get_stats, gth_thread_create,
        gth_thread_yield, gth_thread_join, gth_thread_cancel, gth_trace_start, gth_trace_stop,
        gth_replay_from, gth_replay_get_stats, gth_fuzz_get_stats, gth_fuzz_set_rate, gth_scheduler_set_mode;
      rewrite ?Hini; cbn [negb]; try done; by destruct out_nonnull.
  - assert (Ecl : mk_caller 0 None = caller_of None w) by (unfold caller_of, gth_thread_self; by rewrite Hini).
    rewrite Ecl. destruct (sync_spec (caller_of None w) a (alpha w)) as [[v a']|] eqn:Hs.
    + eapply returns_mono; [by eapply (api_refines None); [..|exact Hs]|].
      intros r w' [Hans Habs]. destruct v as [st|k]; [by exists st|]. by destruct Hans as (c & [=] & _).
    + destruct a; try done; [by destruct (Hni config)|]. cbn [api_call]. unfold bind, gets, ret, gth_thread_self.
      by rewrite Hini.
Qed.

(** ** Witnesses *)

Definition idle_world : world := mk_world rt_zero ∅ ∅ ∅ ∅ ∅ 0 sunny_os 0 0.

Lemma idle_world_ok : world_ok idle_world.
Proof.
  constructor; [apply fresh_table; [cbn; lia|done|unfold GTH_MAX_THREADS; cbn; lia]|constructor|done];
    intros x; unfold mutex_at, sem_at, cond_at; cbn; by rewrite lookup_empty.
Qed.

Lemma calls_without_runtime_witness :
  api_call AYield idle_world = Done (Return (status GTH_ESTATE), idle_world).
Proof. apply (calls_without_runtime AYield idle_world); [apply idle_world_ok|reflexivity|discriminate]. Defined.

Lemma calls_preserve_invariant_witness :
  safe (fuzz_stuck ready_world_0) (api_call (ACreate true None 7 9)) ready_world_0
    (λ r w', world_ok w' ∧ call_result None r (w_rt w')).
Proof.
  apply (calls_preserve_invariant None (ACreate true None 7 9) ready_world_0).
  - apply ready_world_0_ok.
  - split; [reflexivity|]. cbn [ready_world_0 w_rt rt_threads]. intros i t [-> _]%lookup_replicate_1. discriminate.
  - intros c t [=].
  - unfold tid_room. cbn. lia.
  - done.
Defined.
