(* ===== verification/Agree.v ===== *)
(** * What the library's decisions depend on

    Two worlds are twins when they agree on all that the program can see: the
    thread table up to the addresses of stacks, the counters, the
    synchronisation objects.  They may differ in the recorder and its file, in
    replay and fuzzing state, in the clock and in where memory was mapped.
    [agree] relates two computations that take twins to twins with related
    results; every public function that is not about tracing, replay or modes
    agrees with itself.  On the way the functions leave the recorder alone but
    for recording events ([moves]). *)

From S2P Require Import Prelude WaitQueue TraceFormat State Stack TraceBuffer Trace Runtime Replay.
From S2P Require Import Fuzz Sched Thread Mutex Sem Cond Lifecycle Machine.

(** ** Twins *)

Definition erase_ctx (c : gth_ctx_t) : gth_ctx_t :=
  match ctx_resume c with
  | CtxEntry slot _ => {| c with ctx_resume := CtxEntry slot 0 |}
  | _ => c
  end.

(** A thread record without the address of its stack. *)
Definition erase (t : gth_thread_record_t) : gth_thread_record_t :=
  {| t with th_ctx := erase_ctx (th_ctx t); th_stack := stack_zero |}.

Definition rt_view (s : gth_runtime_state_t) : gth_runtime_state_t :=
  {| s with rt_trace_enabled := false; rt_threads := erase <$> rt_threads s; rt_last_rr_slot := O;
            rt_mode := GTH_MODE_NORMAL; rt_trace := None; rt_replay := None; rt_fuzz := None |}.

(** What a world looks like to the program. *)
Definition view (w : world) : world :=
  mk_world (rt_view (w_rt w)) (w_mutexes w) (w_sems w) (w_conds w) ∅ ∅ (page_of w) sunny_os 0 0.

(** The operating system never refuses memory for a stack. *)
Record grants (w : world) : Prop := {
  gr_page : 0 < page_of w;
  gr_mmap : ∀ n size, is_Some (os_mmap (w_os w) n size);
  gr_mprotect : ∀ n, os_mprotect (w_os w) n = true
}.

Record twin (w w' : world) : Prop := {
  tw_view : view w = view w';
  tw_left : grants w;
  tw_right : grants w'
}.

Lemma twin_refl w : grants w → twin w w.
Proof. done. Qed.
Lemma twin_sym w w' : twin w w' → twin w' w.
Proof. by intros []. Qed.

(** The fields of the view. *)
Section fields.
Context (w w' : world) (E : view w = view w').
Lemma vw_rt : rt_view (w_rt w) = rt_view (w_rt w').
Proof using E. exact (f_equal w_rt E). Qed.
Lemma vw_threads : erase <$> rt_threads (w_rt w) = erase <$> rt_threads (w_rt w').
Proof using E. exact (f_equal (λ w, rt_threads (w_rt w)) E). Qed.
Lemma vw_initialized : rt_initialized (w_rt w) = rt_initialized (w_rt w').
Proof using E. exact (f_equal (λ w, rt_initialized (w_rt w)) E). Qed.
Lemma vw_config : rt_config (w_rt w) = rt_config (w_rt w').
Proof using E. exact (f_equal (λ w, rt_config (w_rt w)) E). Qed.
Lemma vw_next_tid : rt_next_tid (w_rt w) = rt_next_tid (w_rt w').
Proof using E. exact (f_equal (λ w, rt_next_tid (w_rt w)) E). Qed.
Lemma vw_current_tid : rt_current_tid (w_rt w) = rt_current_tid (w_rt w').
Proof using E. exact (f_equal (λ w, rt_current_tid (w_rt w)) E). Qed.
Lemma vw_context_switches : rt_context_switches (w_rt w) = rt_context_switches (w_rt w').
Proof using E. exact (f_equal (λ w, rt_context_switches (w_rt w)) E). Qed.
Lemma vw_scheduler_ctx : rt_scheduler_ctx (w_rt w) = rt_scheduler_ctx (w_rt w').
Proof using E. exact (f_equal (λ w, rt_scheduler_ctx (w_rt w)) E). Qed.
Lemma vw_mutexes : w_mutexes w = w_mutexes w'.
Proof using E. exact (f_equal w_mutexes E). Qed.
Lemma vw_sems : w_sems w = w_sems w'.
Proof using E. exact (f_equal w_sems E). Qed.
Lemma vw_conds : w_conds w = w_conds w'.
Proof using E. exact (f_equal w_conds E). Qed.
Lemma vw_page : page_of w = page_of w'.
Proof using E. exact (f_equal w_page_size E). Qed.
End fields.

Lemma view_untrace w w' : untrace w = untrace w' → view w = view w'.
Proof. intros E. exact (f_equal view E). Qed.

(** ** Records up to erasure *)

Section erased.
Context (t t' : gth_thread_record_t) (E : erase t = erase t').
Lemma er_tid : th_tid t = th_tid t'.
Proof using E. exact (f_equal th_tid E). Qed.
Lemma er_fn : th_fn t = th_fn t'.
Proof using E. exact (f_equal th_fn E). Qed.
Lemma er_arg : th_arg t = th_arg t'.
Proof using E. exact (f_equal th_arg E). Qed.
Lemma er_retval : th_retval t = th_retval t'.
Proof using E. exact (f_equal th_retval E). Qed.
Lemma er_priority : th_priority t = th_priority t'.
Proof using E. exact (f_equal th_priority E). Qed.
Lemma er_state : th_state t = th_state t'.
Proof using E. exact (f_equal th_state E). Qed.
Lemma er_ctx : erase_ctx (th_ctx t) = erase_ctx (th_ctx t').
Proof using E. exact (f_equal th_ctx E). Qed.
Lemma er_slot_index : th_slot_index t = th_slot_index t'.
Proof using E. exact (f_equal th_slot_index E). Qed.
End erased.

Lemma erased_lookup (ts ts' : list gth_thread_record_t) (i : nat) :
  erase <$> ts = erase <$> ts' →
  match ts !! i, ts' !! i with
  | Some t, Some t' => erase t = erase t'
  | None, None => True
  | _, _ => False
  end.
Proof.
  intros E. apply (f_equal (lookup i)) in E. rewrite !list_lookup_fmap in E.
  destruct (ts !! i), (ts' !! i); cbn [fmap option_fmap option_map] in E; try done. by apply (inj Some).
Qed.

Lemma erased_length (ts ts' : list gth_thread_record_t) : erase <$> ts = erase <$> ts' → length ts = length ts'.
Proof. intros E. apply (f_equal length) in E. by rewrite !length_fmap in E. Qed.

(** Scans with a test that ignores stacks. *)
Lemma find_index_erased p (ts : list gth_thread_record_t) :
  (∀ t, p (erase t) = p t) → find_index p (erase <$> ts) = find_index p ts.
Proof. intros Hp. induction ts as [|t ts IH]; [done|]. cbn. by rewrite Hp, IH. Qed.

Lemma find_thread_twin w w' tid :
  view w = view w' → gth_runtime_find_thread (w_rt w) tid = gth_runtime_find_thread (w_rt w') tid.
Proof.
  intros E. unfold gth_runtime_find_thread.
  rewrite <- (find_index_erased _ (rt_threads (w_rt w))), <- (find_index_erased _ (rt_threads (w_rt w'))) by done.
  by rewrite (vw_threads _ _ E).
Qed.

Lemma alloc_slot_twin w w' :
  view w = view w' → gth_runtime_alloc_thread_slot (w_rt w) = gth_runtime_alloc_thread_slot (w_rt w').
Proof.
  intros E. unfold gth_runtime_alloc_thread_slot.
  rewrite <- (find_index_erased _ (rt_threads (w_rt w))), <- (find_index_erased _ (rt_threads (w_rt w'))) by done.
  by rewrite (vw_threads _ _ E).
Qed.

(** ** What happens to the recorder *)

(** What scheduling decisions are taken from, besides the table. *)
Record sched := mk_sched {
  sc_mode : gth_scheduler_mode_t;
  sc_replay : option gth_replay_state_t;
  sc_fuzz : option gth_fuzz_state_t;
  sc_rr : nat;
  sc_fuel : nat
}.

Definition sched_of (w : world) : sched :=
  mk_sched (rt_mode (w_rt w)) (rt_replay (w_rt w)) (rt_fuzz (w_rt w)) (rt_last_rr_slot (w_rt w)) (w_fuel w).

(** The recorder, and what its behaviour depends on. *)
Definition books (w : world) :=
  (rt_initialized (w_rt w), rt_mode (w_rt w), rt_trace (w_rt w), w_files w, w_os w, page_of w).

(** The condition under which [gth_scheduler_run_next] records its choice. *)
Definition switch_traced (w : world) : bool :=
  bool_decide (rt_mode (w_rt w) = GTH_MODE_RECORD) || gth_trace_is_active w.

(** From [w] to [w'] events were recorded, among them the switches to the
    threads [E] in this order; the recorder was not touched otherwise. *)
Inductive moves : list Z → world → world → Prop :=
| mv_same w w' : books w' = books w → moves [] w w'
| mv_record type tid d1 d2 w : fits 8 type → type ≠ GTH_EVT_CONTEXT_SWITCH →
    moves [] w (gth_trace_record type tid d1 d2 w)
| mv_switch from tid w :
    moves [tid] w (if switch_traced w then gth_trace_context_switch from tid w else w)
| mv_trans E1 E2 w1 w2 w3 : moves E1 w1 w2 → moves E2 w2 w3 → moves (E1 ++ E2) w1 w3.

Lemma moves_refl w : moves [] w w.
Proof. by apply mv_same. Qed.

Lemma moves_nil_l E w1 w2 w3 : moves [] w1 w2 → moves E w2 w3 → moves E w1 w3.
Proof. apply (mv_trans []). Qed.
Lemma moves_nil_r E w1 w2 w3 : moves E w1 w2 → moves [] w2 w3 → moves E w1 w3.
Proof. intros H1 H2. rewrite <- (app_nil_r E). by eapply mv_trans. Qed.

Lemma grants_same w w' : w_os w' = w_os w → page_of w' = page_of w → grants w → grants w'.
Proof. intros E1 E2 []. by constructor; rewrite ?E1, ?E2. Qed.

Lemma untrace_page w w' : untrace w = untrace w' → page_of w = page_of w'.
Proof. intros E. exact (f_equal page_of E). Qed.

Lemma grants_untrace w w' : untrace w' = untrace w → grants w → grants w'.
Proof. intros E. apply grants_same; [exact (ut_os _ _ E)|exact (untrace_page _ _ E)]. Qed.

Lemma moves_grants E w w' : moves E w w' → grants w → grants w'.
Proof.
  induction 1 as [w w' Eb|type tid d1 d2 w ? ?|from tid w|]; [|..|auto].
  - injection Eb as ? ? ? ? ? ?. by apply grants_same.
  - apply grants_untrace, untrace_record.
  - destruct (switch_traced w); [|done]. unfold gth_trace_context_switch. apply grants_untrace, untrace_record.
Qed.

(** Nothing to do with scheduling happened. *)
Definition stays (w w' : world) : Prop := moves [] w w' ∧ sched_of w' = sched_of w.

#[export] Instance stays_preorder : PreOrder stays.
Proof.
  split; [by intros w; split; [apply moves_refl|]|].
  intros w1 w2 w3 [H1 E1] [H2 E2]. split; [by eapply moves_nil_l|congruence].
Qed.

Lemma stays_same w w' : books w' = books w → sched_of w' = sched_of w → stays w w'.
Proof. intros E1 E2. split; [by apply mv_same|done]. Qed.

Lemma sched_untrace w w' : untrace w' = untrace w → sched_of w' = sched_of w.
Proof. intros E. exact (f_equal sched_of E). Qed.

Lemma stays_record type tid d1 d2 w :
  fits 8 type → type ≠ GTH_EVT_CONTEXT_SWITCH → stays w (gth_trace_record type tid d1 d2 w).
Proof. intros H1 H2. split; [by apply mv_record|]. apply sched_untrace, untrace_record. Qed.

(** ** Agreement *)

Create HintDb agree.

Definition agree {A} (RA : A → A → Prop) (m m' : M A) : Prop := ∀ w w', twin w w' →
  match m w, m' w' with
  | Done (a, w1), Done (a', w1') => RA a a' ∧ view w1 = view w1' ∧ stays w w1 ∧ stays w' w1'
  | Undef, Undef | NoFuel, NoFuel => True
  | _, _ => False
  end.

(** A computation that agrees with itself. *)
Abbreviation agrees m := (agree eq m m).

Lemma twin_next w w' w1 w1' :
  twin w w' → view w1 = view w1' → stays w w1 → stays w' w1' → twin w1 w1'.
Proof. intros [_ H1 H2] E [M1 _] [M2 _]. constructor; [done|by eapply moves_grants..]. Qed.

Section rules.
Context {A : Type} (RA : A → A → Prop).

Lemma agree_ret a a' : RA a a' → agree RA (ret a) (ret a').
Proof using Type. intros H w w' []. by split_and!. Qed.

Lemma agree_gets (f f' : world → A) : (∀ w w', view w = view w' → RA (f w) (f' w')) → agree RA (gets f) (gets f').
Proof using Type. intros H w w' []. split_and!; auto; reflexivity. Qed.

Lemma agree_if (b b' : bool) (m1 m1' m2 m2' : M A) :
  b = b' → agree RA m1 m1' → agree RA m2 m2' → agree RA (if b then m1 else m2) (if b' then m1' else m2').
Proof using Type. intros <-. by destruct b. Qed.

Lemma agree_undef : agree RA (λ _, Undef) (λ _, Undef).
Proof using Type. done. Qed.
Lemma agree_nofuel : agree RA (λ _, NoFuel) (λ _, NoFuel).
Proof using Type. done. Qed.

Lemma agree_mono (RB : A → A → Prop) m m' : (∀ a a', RA a a' → RB a a') → agree RA m m' → agree RB m m'.
Proof using Type.
  intros H Hm w w' T. specialize (Hm w w' T).
  destruct (m w) as [[]| |], (m' w') as [[]| |]; try done. destruct Hm as (? & ? & ? & ?). split_and!; auto.
Qed.

(** A computation that starts by inspecting the world. *)
Lemma agree_at (m m' : M A) : agree RA m m' → ∀ w w', twin w w' →
  match m w, m' w' with
  | Done (a, w1), Done (a', w1') => RA a a' ∧ view w1 = view w1' ∧ stays w w1 ∧ stays w' w1'
  | Undef, Undef | NoFuel, NoFuel => True
  | _, _ => False
  end.
Proof using Type. intros H. exact H. Qed.

Lemma agree_done a a' w w' : twin w w' → RA a a' → RA a a' ∧ view w = view w' ∧ stays w w ∧ stays w' w'.
Proof using Type. intros [] ?. by split_and!. Qed.
End rules.

Lemma agree_bind {A B} (RA : A → A → Prop) (RB : B → B → Prop) m m' k k' :
  agree RA m m' → (∀ a a', RA a a' → agree RB (k a) (k' a')) → agree RB (bind m k) (bind m' k').
Proof.
  intros Hm Hk w w' T. specialize (Hm w w' T). unfold bind.
  destruct (m w) as [[a w1]| |], (m' w') as [[a' w1']| |]; try done.
  destruct Hm as (Ha & E & S1 & S1'). pose proof (twin_next _ _ _ _ T E S1 S1') as T1.
  specialize (Hk a a' Ha w1 w1' T1).
  destruct (k a w1) as [[b w2]| |], (k' a' w1') as [[b' w2']| |]; try done.
  destruct Hk as (Hb & E2 & S2 & S2'). split_and!; auto; by etrans.
Qed.

(** The common case: the same value on both sides. *)
Lemma agree_let {A B} (RB : B → B → Prop) (m m' : M A) k k' :
  agree eq m m' → (∀ a, agree RB (k a) (k' a)) → agree RB (bind m k) (bind m' k').
Proof. intros Hm Hk. eapply agree_bind; [exact Hm|]. by intros a ? <-. Qed.

Lemma agree_modify f f' :
  (∀ w w', view w = view w' → view (f w) = view (f' w')) → (∀ w, stays w (f w)) → (∀ w, stays w (f' w)) →
  agree eq (modify f) (modify f').
Proof. intros H1 H2 H3 w w' []. split_and!; auto. Qed.

Lemma agree_deref {A} (o : option A) : agree eq (deref o) (deref o).
Proof. intros w w' []. unfold deref. by destruct o; [split_and!|]. Qed.

(** ** Changes *)

Lemma view_record type tid d1 d2 w : view (gth_trace_record type tid d1 d2 w) = view w.
Proof. apply view_untrace, untrace_record. Qed.

Lemma agree_record type tid d1 d2 tid' d1' d2' :
  fits 8 type → type ≠ GTH_EVT_CONTEXT_SWITCH →
  agree eq (modify (gth_trace_record type tid d1 d2)) (modify (gth_trace_record type tid' d1' d2')).
Proof.
  intros H1 H2. apply agree_modify.
  - intros w w' E. by rewrite !view_record.
  - intros w. by apply stays_record.
  - intros w. by apply stays_record.
Qed.

(** A change of the runtime state that looks the same from the view. *)
Lemma agree_upd_rt f :
  (∀ s, rt_view (f s) = f (rt_view s)) →
  (∀ w, books (upd_rt f w) = books w) → (∀ w, sched_of (upd_rt f w) = sched_of w) →
  agrees (modify (upd_rt f)).
Proof.
  intros Hf Hb Hs. apply agree_modify; [|intros w; by apply stays_same..].
  intros w w' E. change (view (upd_rt f w)) with {| (view w) with w_rt := rt_view (f (w_rt w)) |}.
  rewrite Hf, (vw_rt _ _ E), E, <- Hf. done.
Qed.

Lemma erase_alter f f' (i : nat) (ts ts' : list gth_thread_record_t) :
  (∀ t t', erase t = erase t' → erase (f t) = erase (f' t')) →
  erase <$> ts = erase <$> ts' → erase <$> alter f i ts = erase <$> alter f' i ts'.
Proof.
  intros Hf E. apply list_eq. intros j. rewrite !list_lookup_fmap.
  pose proof (erased_lookup ts ts' j E) as H.
  destruct (decide (j = i)) as [->|Hne].
  - rewrite !list_lookup_alter_eq.
    destruct (ts !! i), (ts' !! i); try done. cbn [fmap option_fmap option_map]. f_equal. auto.
  - rewrite !list_lookup_alter_ne by done.
    destruct (ts !! j), (ts' !! j); try done. cbn [fmap option_fmap option_map]. by f_equal.
Qed.

Lemma view_upd_thread i f f' w w' :
  (∀ t t', erase t = erase t' → erase (f t) = erase (f' t')) → view w = view w' →
  view (upd_rt (upd_thread i f) w) = view (upd_rt (upd_thread i f') w').
Proof.
  intros Hf E. pose proof (erase_alter f f' i _ _ Hf (vw_threads _ _ E)) as Ets.
  change (view (upd_rt (upd_thread i f) w)) with
    {| (view w) with w_rt := {| (w_rt (view w)) with rt_threads := erase <$> alter f i (rt_threads (w_rt w)) |} |}.
  by rewrite Ets, E.
Qed.

Lemma agree_upd_thread i f f' :
  (∀ t t', erase t = erase t' → erase (f t) = erase (f' t')) →
  agree eq (modify (upd_rt (upd_thread i f))) (modify (upd_rt (upd_thread i f'))).
Proof. intros Hf. apply agree_modify; [|intros w; by apply stays_same..]. intros w w'. by apply view_upd_thread. Qed.

Lemma agree_set_mutex m x : agrees (modify (set_mutex m x)).
Proof.
  apply agree_modify; [|intros w; by apply stays_same..]. intros w w' E.
  change (view (set_mutex m x w)) with {| (view w) with w_mutexes := <[m := x]> (w_mutexes (view w)) |}. by rewrite E.
Qed.
Lemma agree_set_sem s x : agrees (modify (set_sem s x)).
Proof.
  apply agree_modify; [|intros w; by apply stays_same..]. intros w w' E.
  change (view (set_sem s x w)) with {| (view w) with w_sems := <[s := x]> (w_sems (view w)) |}. by rewrite E.
Qed.
Lemma agree_set_cond c x : agrees (modify (set_cond c x)).
Proof.
  apply agree_modify; [|intros w; by apply stays_same..]. intros w w' E.
  change (view (set_cond c x w)) with {| (view w) with w_conds := <[c := x]> (w_conds (view w)) |}. by rewrite E.
Qed.

(** ** Reads *)

Lemma mutex_at_twin w w' m : view w = view w' → mutex_at w m = mutex_at w' m.
Proof. intros E. unfold mutex_at. by rewrite (vw_mutexes _ _ E). Qed.
Lemma sem_at_twin w w' s : view w = view w' → sem_at w s = sem_at w' s.
Proof. intros E. unfold sem_at. by rewrite (vw_sems _ _ E). Qed.
Lemma cond_at_twin w w' c : view w = view w' → cond_at w c = cond_at w' c.
Proof. intros E. unfold cond_at. by rewrite (vw_conds _ _ E). Qed.
Lemma self_twin w w' : view w = view w' → gth_thread_self w = gth_thread_self w'.
Proof. intros E. unfold gth_thread_self. by rewrite (vw_initialized _ _ E), (vw_current_tid _ _ E). Qed.
#[export] Hint Resolve mutex_at_twin sem_at_twin cond_at_twin self_twin : agree.
#[export] Hint Resolve vw_next_tid vw_current_tid : agree.

Definition same_erased (t t' : gth_thread_record_t) : Prop := erase t = erase t'.

Lemma agree_thread_at i : agree same_erased (thread_at i) (thread_at i).
Proof.
  intros w w' T. pose proof (erased_lookup _ _ i (vw_threads _ _ (tw_view _ _ T))) as H.
  unfold thread_at, deref. destruct (rt_threads (w_rt w) !! i), (rt_threads (w_rt w') !! i); try done.
  by apply agree_done.
Qed.

(** Reads the record of slot [i]: the sides see the same fields. *)
Lemma agree_thread {B} (RB : B → B → Prop) i k k' :
  (∀ t t', erase t = erase t' → agree RB (k t) (k' t')) →
  agree RB (bind (thread_at i) k) (bind (thread_at i) k').
Proof. apply agree_bind, agree_thread_at. Qed.

Ltac erased E :=
  rewrite ?(er_state _ _ E), ?(er_tid _ _ E), ?(er_retval _ _ E), ?(er_slot_index _ _ E).

(** Closes [erase (f t) = erase (f t')] for an [f] that sets fields. *)
Ltac erase_tac :=
  match goal with E : erase ?t = erase ?t' |- _ => destruct t, t'; unfold erase in *; cbn in *; congruence end.

#[export] Hint Unfold gth_trace_thread_create gth_trace_thread_exit gth_trace_thread_cancel gth_trace_thread_block
  gth_trace_thread_unblock gth_trace_thread_yield gth_trace_mutex_lock gth_trace_mutex_unlock
  gth_trace_mutex_wait gth_trace_mutex_wake gth_trace_sem_wait gth_trace_sem_post gth_trace_sem_wake
  gth_trace_cond_wait gth_trace_cond_signal gth_trace_cond_broadcast : agree.

Ltac agree_step :=
  lazymatch goal with
  | |- agree _ (ret _) (ret _) => apply agree_ret
  | |- agree _ (ret_status _) (ret_status _) => apply agree_ret
  | |- agree _ (gets _) (gets _) => apply agree_gets; intros ? ? ?; cbv beta; auto with agree
  | |- agree _ (deref _) (deref _) => apply agree_deref
  | |- agree _ (modify (upd_rt (upd_thread _ _))) _ => apply agree_upd_thread; intros ? ? ?; try erase_tac
  | |- agree _ (modify (upd_rt _)) _ => apply agree_upd_rt; intros
  | |- agree _ (modify (set_mutex _ _)) _ => apply agree_set_mutex
  | |- agree _ (modify (set_sem _ _)) _ => apply agree_set_sem
  | |- agree _ (modify (set_cond _ _)) _ => apply agree_set_cond
  | |- agree _ (bind (thread_at _) _) _ =>
      apply agree_thread; let t := fresh "t" in let t' := fresh "t'" in let E := fresh "E" in intros t t' E
  | |- agree _ (bind _ _) _ => apply agree_let; [|intros ?]
  | |- agree _ (if _ then _ else _) _ => apply agree_if
  | |- agree _ (λ _, NoFuel) _ => apply agree_nofuel
  | |- agree _ (modify (gth_trace_record _ _ _ _)) _ => apply agree_record; by vm_compute
  | |- agree _ (match ?x with _ => _ end) _ => destruct x
  end.
Ltac agree_tac := autounfold with agree; repeat agree_step; try done.

(** ** Threads *)

Lemma account_view from to s :
  rt_view (gth_runtime_account_state_change from to s) = gth_runtime_account_state_change from to (rt_view s).
Proof.
  unfold gth_runtime_account_state_change. case_bool_decide; [done|].
  destruct from, to; cbn; try done; by repeat case_match.
Qed.

Lemma agree_account from to :
  agrees (modify (upd_rt (gth_runtime_account_state_change from to))).
Proof.
  apply agree_upd_rt; [apply account_view|..]; intros w; unfold gth_runtime_account_state_change, upd_rt;
    case_bool_decide; try (by destruct w); by repeat case_match.
Qed.

Lemma agree_set_thread_state i st : agrees (gth_runtime_set_thread_state i st).
Proof.
  unfold gth_runtime_set_thread_state. agree_step. erased E. agree_step; [done|by agree_tac|].
  agree_step; [apply agree_account|]. agree_tac.
Qed.

Lemma agree_unblock i : agrees (gth_thread_unblock_slot i).
Proof.
  intros w w' T. unfold gth_thread_unblock_slot. rewrite (vw_initialized _ _ (tw_view _ _ T)).
  destruct (negb _); [by apply agree_done|]. destruct (_ <=? _)%nat; [by apply agree_done|].
  apply agree_at; [|done]. agree_step. unfold is_blocked. erased E. agree_tac.
Qed.

Lemma agree_cancel tid : agrees (gth_thread_cancel tid).
Proof.
  intros w w' T. unfold gth_thread_cancel.
  rewrite (vw_initialized _ _ (tw_view _ _ T)), (find_thread_twin _ _ tid (tw_view _ _ T)).
  destruct (negb _); [by apply agree_done|]. destruct (_ =? _); [by apply agree_done|].
  destruct (gth_runtime_find_thread _ _) as [i|]; [|by apply agree_done].
  apply agree_at; [|done]. agree_step. unfold is_blocked. erased E.
  agree_tac; [apply agree_unblock|apply agree_set_thread_state].
Qed.

Lemma agree_slot_index : agrees gth_thread_current_slot_index.
Proof.
  intros w w' T. unfold gth_thread_current_slot_index. rewrite (vw_current_tid _ _ (tw_view _ _ T)).
  destruct (_ =? _); [by apply agree_done|]. rewrite (find_thread_twin _ _ _ (tw_view _ _ T)).
  destruct (gth_runtime_find_thread _ _) as [i|]; [|by apply agree_done].
  apply agree_at; [|done]. agree_step. erased E. agree_tac.
Qed.

Lemma agree_block : agrees gth_thread_block.
Proof.
  intros w w' T. unfold gth_thread_block.
  rewrite (vw_initialized _ _ (tw_view _ _ T)), (vw_current_tid _ _ (tw_view _ _ T)),
    (find_thread_twin _ _ _ (tw_view _ _ T)).
  destruct (negb _); [by apply agree_done|]. destruct (_ =? _); [by apply agree_done|].
  destruct (gth_runtime_find_thread _ _) as [i|]; [|by apply agree_done].
  assert (H : agrees
    (modify (gth_trace_thread_block (rt_current_tid (w_rt w')) GTH_BLOCK_REASON_NONE);;
     modify (upd_rt (upd_thread i (set_state GTH_THREAD_BLOCKED)));;
     modify (upd_rt (λ s, {| s with rt_blocked_threads := u64 (rt_blocked_threads s + 1) |}));;
     ret (@inr gth_status_t nat i))) by agree_tac.
  exact (H w w' T).
Qed.

(** ** Synchronisation objects *)

#[export] Hint Resolve agree_unblock agree_slot_index agree_block : agree.

(** Applies what is known of the functions a function calls. *)
Ltac agree_auto := agree_tac; auto with agree.

Lemma agree_take_mutex m : agrees (modify (take_mutex m)).
Proof.
  apply agree_modify; [|intros w; by apply stays_same..]. intros w w' E. unfold take_mutex.
  rewrite (mutex_at_twin _ _ m E), (self_twin _ _ E). set (x := {| (mutex_at w' m) with mx_locked := _; mx_owner := _ |}).
  change (view (set_mutex m x w)) with {| (view w) with w_mutexes := <[m := x]> (w_mutexes (view w)) |}. by rewrite E.
Qed.
#[export] Hint Resolve agree_take_mutex : agree.

Lemma agree_lock_acquire m : agrees (lock_acquire m).
Proof. unfold lock_acquire. agree_auto. Qed.
Lemma agree_mutex_enqueue m i : agrees (mutex_enqueue m i).
Proof. unfold mutex_enqueue. agree_auto. Qed.
#[export] Hint Resolve agree_lock_acquire agree_mutex_enqueue : agree.

Lemma agree_lock_wait n m i : agrees (lock_wait n m i).
Proof.
  induction n as [|n IH]; cbn [lock_wait]; [done|]. agree_auto.
Qed.
#[export] Hint Resolve agree_lock_wait : agree.

Lemma agree_mutex_init m : agrees (gth_mutex_init m).
Proof. unfold gth_mutex_init. agree_auto. Qed.
Lemma agree_lock m : agrees (gth_mutex_lock m).
Proof. unfold gth_mutex_lock. agree_auto. Qed.
Lemma agree_trylock m : agrees (gth_mutex_trylock m).
Proof. unfold gth_mutex_trylock. agree_auto. Qed.
Lemma agree_unlock m : agrees (gth_mutex_unlock m).
Proof. unfold gth_mutex_unlock. agree_auto. Qed.
Lemma agree_mutex_destroy m : agrees (gth_mutex_destroy m).
Proof. unfold gth_mutex_destroy. agree_auto. Qed.

Lemma agree_mark_blocked i : agrees (mark_blocked i).
Proof. unfold mark_blocked. agree_auto. Qed.
#[export] Hint Resolve agree_mutex_init agree_lock agree_trylock agree_unlock agree_mutex_destroy agree_mark_blocked : agree.

Lemma agree_sem_init s n : agrees (gth_sem_init s n).
Proof. unfold gth_sem_init. agree_auto. Qed.
Lemma agree_sem_wait s : agrees (gth_sem_wait s).
Proof. unfold gth_sem_wait. agree_auto. Qed.
Lemma agree_sem_post s : agrees (gth_sem_post s).
Proof. unfold gth_sem_post. agree_auto. Qed.
Lemma agree_sem_destroy s : agrees (gth_sem_destroy s).
Proof. unfold gth_sem_destroy. agree_auto. Qed.

Lemma agree_cond_init c : agrees (gth_cond_init c).
Proof. unfold gth_cond_init. agree_auto. Qed.
Lemma agree_cond_undo c i : agrees (cond_wait_undo c i).
Proof. unfold cond_wait_undo. agree_auto. Qed.
#[export] Hint Resolve agree_cond_undo : agree.
Lemma agree_cond_wait c m : agrees (gth_cond_wait c m).
Proof. unfold gth_cond_wait. agree_auto. Qed.
Lemma agree_cond_signal c : agrees (gth_cond_signal c).
Proof. unfold gth_cond_signal. agree_auto. Qed.
Lemma agree_broadcast_loop n c : ∀ k, agrees (broadcast_loop n c k).
Proof. induction n as [|n IH]; intros k; cbn [broadcast_loop]; agree_auto. Qed.
#[export] Hint Resolve agree_broadcast_loop : agree.
Lemma agree_cond_broadcast c : agrees (gth_cond_broadcast c).
Proof. unfold gth_cond_broadcast. agree_auto. Qed.
Lemma agree_cond_destroy c : agrees (gth_cond_destroy c).
Proof. unfold gth_cond_destroy. agree_auto. Qed.
#[export] Hint Resolve agree_sem_init agree_sem_wait agree_sem_post agree_sem_destroy agree_cond_init
  agree_cond_wait agree_cond_signal agree_cond_broadcast agree_cond_destroy agree_cancel : agree.

(** ** Creation and the end of a thread *)

Lemma agree_page_size : agrees gth_page_size.
Proof.
  intros w w' T. pose proof (gr_page _ (tw_left _ _ T)) as H. pose proof (gr_page _ (tw_right _ _ T)) as H'.
  rewrite !gth_page_size_spec by done. pose proof (page_of_cached w) as E. pose proof (page_of_cached w') as E'.
  split_and!; [by apply vw_page, T| |by apply stays_same; [unfold books; rewrite ?E, ?E'|]..].
  unfold view. rewrite E, E'. apply T.
Qed.

(** Both sides are given memory. *)
Lemma agree_mmap size prot : agree (λ o o', is_Some o ∧ is_Some o') (mmap size prot) (mmap size prot).
Proof.
  intros w w' T. unfold mmap, next_tick. destruct (gr_mmap _ (tw_left _ _ T) (w_tick w) size) as [a Ha].
  destruct (gr_mmap _ (tw_right _ _ T) (w_tick w') size) as [a' Ha']. cbn. rewrite Ha, Ha'.
  split_and!; eauto; [|by apply stays_same..]. apply T.
Qed.

Lemma agree_mprotect a a' len len' prot : agree (λ b b', b = true ∧ b' = true) (mprotect a len prot) (mprotect a' len' prot).
Proof.
  intros w w' T. unfold mprotect, next_tick. cbn. rewrite !gr_mprotect by apply T.
  split_and!; try done; [|by apply stays_same..]. apply T.
Qed.

(** The same answer; only the address of the stack may differ. *)
Lemma agree_stack_allocate size : agree (λ r r', fst r = fst r') (gth_stack_allocate size) (gth_stack_allocate size).
Proof.
  unfold gth_stack_allocate. apply agree_let; [apply agree_page_size|]. intros p. cbv zeta.
  repeat (apply agree_if; [done|by apply agree_ret|]).
  eapply agree_bind; [apply agree_mmap|]. intros [a|] [a'|] [[? ?] [? ?]]; try done.
  eapply agree_bind; [apply agree_mprotect|]. intros b b' [-> ->]. by apply agree_ret.
Qed.

Lemma agree_create out attr fn arg : agrees (gth_thread_create out attr fn arg).
Proof.
  intros w w' T. unfold gth_thread_create. rewrite (vw_initialized _ _ (tw_view _ _ T)).
  destruct (negb _); [by apply agree_done|]. destruct (_ || _); [by apply agree_done|].
  apply agree_at; [|done]. clear w w' T. apply agree_let.
  - intros w w' T. unfold gth_thread_acquire_slot. rewrite (alloc_slot_twin _ _ (tw_view _ _ T)).
    destruct (gth_runtime_alloc_thread_slot _) as [i|]; [|by apply agree_done].
    split_and!; [done| |by apply stays_same..]. apply view_upd_thread; [|apply T]. intros t t' E. erase_tac.
  - intros [i|]; [|by apply agree_ret]. autounfold with agree.
    do 3 (apply agree_let; [by agree_auto|intros ?]). apply agree_let; [|intros size].
    { apply agree_gets. intros w w' E. by rewrite (vw_config _ _ E). }
    eapply agree_bind; [apply agree_stack_allocate|]. intros [st stk] [st' stk'] H. cbn in H. subst st'.
    destruct st; agree_tac.
Qed.

(** Memory of stacks is not in the view. *)
Lemma view_stack_free stk w : view (gth_stack_free stk w) = view w.
Proof. unfold gth_stack_free, munmap. by destruct (_ && _). Qed.

Lemma agree_stack_free stk stk' : agree eq (modify (gth_stack_free stk)) (modify (gth_stack_free stk')).
Proof.
  apply agree_modify; [intros w w' E; by rewrite !view_stack_free|..]; intros w; unfold gth_stack_free, munmap;
    by destruct (_ && _); apply stays_same.
Qed.

Lemma agree_destroy_context i : agrees (modify (destroy_context i)).
Proof.
  apply agree_upd_thread. intros t t' E. pose proof (er_ctx _ _ E) as Ec.
  assert (E' : erase_ctx (gth_context_destroy (th_ctx t)) = erase_ctx (gth_context_destroy (th_ctx t'))).
  { destruct (th_ctx t) as [[] ?], (th_ctx t') as [[] ?]; cbn in *; congruence. }
  destruct t, t'. unfold erase in *. cbn in *. congruence.
Qed.

Lemma agree_release i : agrees (gth_thread_release_slot i).
Proof.
  unfold gth_thread_release_slot. agree_step. unfold is_ready, is_blocked. erased E.
  agree_step; [|agree_step; [apply agree_destroy_context|agree_step; [apply agree_stack_free|agree_tac]]].
  - apply agree_upd_rt; intros x; [|unfold books, sched_of; cbn..];
      destruct (is_ready_st _), (is_blocked_st _); cbn; by repeat case_match.
Qed.

Lemma agree_join_finish i : agrees (join_finish i).
Proof. unfold join_finish. agree_step. erased E. agree_tac. apply agree_release. Qed.

Lemma agree_trampoline i v : agrees (trampoline_exit i v).
Proof.
  unfold trampoline_exit. agree_step. erased E. agree_step; [destruct (th_state _); agree_tac|]. agree_tac.
Qed.
