(* ===== verification/Lockstep.v ===== *)
(** * Two machines in lockstep

    When do two runs of the same program go the same way?  [Follows D S] is the
    interface: [S L b b'] relates the state [b] of a scheduler to the state [b']
    of another, where [L] are the threads the first is going to choose and [D]
    says which states of the first are considered; the laws say that the second
    makes the same choices.  Given that, every step of the first machine is a
    step of the second ([step_tracks]), because nothing else that a program can
    observe depends on what the two machines may differ in (Agree.v).

    The instance here is two schedulers in the same state: a run is determined
    by what the program sees and by that state, and recording does not change
    it.  Replay is another instance (Determinism.v). *)

From S2P Require Import Prelude WaitQueue TraceFormat State Stack TraceBuffer Trace Runtime Replay.
From S2P Require Import Fuzz Sched Thread Mutex Sem Cond Lifecycle Machine Scripts Invariant Ops Switching Safety.
From S2P Require Import Exclusion Agree.

(** ** Choices by policy *)

(** The choice is neither read from a trace nor perturbed. *)
Definition policy_driven (b : sched) : Prop :=
  (sc_mode b = GTH_MODE_REPLAY → sc_replay b = None) ∧ sc_mode b ≠ GTH_MODE_FUZZ.

Lemma rr_scan_erased ts start n : ∀ i, rr_scan (erase <$> ts) start i n = rr_scan ts start i n.
Proof.
  induction n as [|n IH]; intros i; [done|]. unfold rr_scan; fold rr_scan. rewrite list_lookup_fmap.
  destruct (ts !! _) as [t|]; cbn [fmap option_fmap option_map]; [|done].
  change (is_ready (erase t)) with (is_ready t). by rewrite IH.
Qed.

Lemma prio_scan_erased ts : ∀ i best,
  prio_scan (erase <$> ts) i ((λ p, (fst p, erase (snd p))) <$> best) = prio_scan ts i best.
Proof.
  induction ts as [|t ts IH]; intros i best; cbn [fmap list_fmap prio_scan]; [by destruct best as [[]|]|].
  change (is_ready (erase t)) with (is_ready t).
  destruct (negb (is_ready t)); [apply IH|]. destruct best as [[j b]|]; cbn [fmap option_fmap option_map fst snd].
  - change (prio_better (erase t) (erase b)) with (prio_better t b).
    destruct (prio_better t b); [apply (IH (S i) (Some (i, t)))|apply (IH (S i) (Some (j, b)))].
  - apply (IH (S i) (Some (i, t))).
Qed.

(** The slot the policy chooses, as a function of what the view shows and of
    the slot served last. *)
Definition policy_choice (s : gth_runtime_state_t) (rr : nat) : option nat :=
  if cfg_policy (rt_config s) =? GTH_SCHED_RR
  then rr_scan (rt_threads s) ((rr + 1) mod GTH_MAX_THREADS) 0 GTH_MAX_THREADS
  else prio_scan (rt_threads s) 0 None.

Definition rr_after (s : gth_runtime_state_t) (rr : nat) : nat :=
  if cfg_policy (rt_config s) =? GTH_SCHED_RR then default rr (policy_choice s rr) else rr.

Lemma pick_ready_eq s :
  gth_scheduler_pick_ready_thread s =
    (policy_choice s (rt_last_rr_slot s), {| s with rt_last_rr_slot := rr_after s (rt_last_rr_slot s) |}).
Proof.
  unfold gth_scheduler_pick_ready_thread, rr_after, policy_choice. destruct (_ =? _); [|by destruct s].
  destruct (rr_scan _ _ _ _); [done|]. by destruct s.
Qed.

Lemma policy_choice_view s rr : policy_choice (rt_view s) rr = policy_choice s rr.
Proof.
  unfold policy_choice. cbn [rt_config rt_view rt_threads]. rewrite rr_scan_erased.
  by rewrite <- (prio_scan_erased (rt_threads s) 0 None).
Qed.

Lemma policy_choice_twin w w' rr : view w = view w' → policy_choice (w_rt w) rr = policy_choice (w_rt w') rr.
Proof. intros E. by rewrite <- policy_choice_view, (vw_rt _ _ E), policy_choice_view. Qed.

Lemma rr_after_twin w w' rr : view w = view w' → rr_after (w_rt w) rr = rr_after (w_rt w') rr.
Proof. intros E. unfold rr_after. by rewrite (vw_config _ _ E), (policy_choice_twin _ _ _ E). Qed.

Lemma policy_choice_spec w :
  world_ok w →
  match policy_choice (w_rt w) (rt_last_rr_slot (w_rt w)) with
  | Some i => ∃ t, rt_threads (w_rt w) !! i = Some t ∧ is_ready t = true
  | None => ∀ i t, rt_threads (w_rt w) !! i = Some t → is_ready t = false
  end.
Proof.
  intros Hw. destruct (wo_table _ Hw).
  by destruct (pick_ready_spec _ _ _ tb_len tb_rr (pick_ready_eq (w_rt w))) as [_ H].
Qed.

Definition set_rr (rr : nat) : world → world := upd_rt (λ s, {| s with rt_last_rr_slot := rr |}).

Lemma pick_policy w :
  policy_driven (sched_of w) →
  gth_scheduler_pick_ready_thread_mode w =
    Done (policy_choice (w_rt w) (rt_last_rr_slot (w_rt w)),
          set_rr (rr_after (w_rt w) (rt_last_rr_slot (w_rt w))) w).
Proof.
  intros [Hr Hf]. cbn in Hr, Hf. unfold gth_scheduler_pick_ready_thread_mode, pick_normal_or_fuzzed.
  rewrite pick_ready_eq. unfold set_rr, upd_rt. cbn.
  destruct (rt_mode (w_rt w)); try done. by rewrite Hr.
Qed.

(** The threads named by a choice. *)
Definition chosen (w : world) (o : option nat) : list Z :=
  match o with
  | Some i => match rt_threads (w_rt w) !! i with Some t => [th_tid t] | None => [] end
  | None => []
  end.

(** ** Choices and views *)

Lemma replay_find_twin w w' tid :
  view w = view w' → gth_replay_find_thread (w_rt w) tid = gth_replay_find_thread (w_rt w') tid.
Proof.
  intros E. unfold gth_replay_find_thread. rewrite (find_thread_twin _ _ _ E). destruct (tid =? 0); [done|].
  destruct (gth_runtime_find_thread (w_rt w') tid) as [i|]; [|done]. cbn.
  pose proof (erased_lookup _ _ i (vw_threads _ _ E)) as H.
  destruct (rt_threads (w_rt w) !! i), (rt_threads (w_rt w') !! i); try done. cbn. by rewrite (er_state _ _ H).
Qed.

Lemma replay_next_twin w w' r :
  view w = view w' → gth_replay_next_thread (w_rt w) r = gth_replay_next_thread (w_rt w') r.
Proof.
  intros E. unfold gth_replay_next_thread. destruct (gth_replay_peek_event _); [|done]. destruct (negb _); [done|].
  by rewrite (replay_find_twin _ _ _ E).
Qed.

Lemma pick_nth_erased ts : ∀ i exclude current target,
  pick_nth_ready (erase <$> ts) i exclude current target = pick_nth_ready ts i exclude current target.
Proof.
  induction ts as [|t ts IH]; intros i exclude current target; [done|]. cbn [fmap list_fmap pick_nth_ready].
  change (is_ready (erase t)) with (is_ready t). by rewrite !IH.
Qed.

Lemma countb_erased ts : countb is_ready (erase <$> ts) = countb is_ready ts.
Proof.
  induction ts as [|t ts IH]; [done|]. cbn [fmap list_fmap]. by rewrite !countb_cons, IH.
Qed.

(** Fuzzing looks at the table only. *)
Lemma fuzz_pick_erased fuel s s' f c :
  erase <$> rt_threads s = erase <$> rt_threads s' → gth_fuzz_pick_thread fuel s f c = gth_fuzz_pick_thread fuel s' f c.
Proof.
  intros E. unfold gth_fuzz_pick_thread, gth_fuzz_pick_alternative, gth_fuzz_count_ready_threads.
  rewrite <- (countb_erased (rt_threads s)), E, countb_erased. destruct c as [c|]; [|done].
  destruct (gth_fuzz_should_perturb f) as [p f1]. destruct (negb p); [done|]. destruct (_ <=? 1); [done|].
  destruct (gth_fuzz_random_range _ _ _) as [[k f2]| |]; [|done..].
  by rewrite <- (pick_nth_erased (rt_threads s)), E, pick_nth_erased.
Qed.

Lemma pick_fuzzed_eq w :
  pick_normal_or_fuzzed w =
    let rr := rt_last_rr_slot (w_rt w) in
    let w1 := set_rr (rr_after (w_rt w) rr) w in
    match sc_mode (sched_of w), sc_fuzz (sched_of w) with
    | GTH_MODE_FUZZ, Some f =>
        match gth_fuzz_pick_thread (sc_fuel (sched_of w)) (w_rt w) f (policy_choice (w_rt w) rr) with
        | Done (o, f1) => Done (o, set_fuzz (Some f1) w1)
        | Undef => Undef
        | NoFuel => NoFuel
        end
    | _, _ => Done (policy_choice (w_rt w) rr, w1)
    end.
Proof.
  unfold pick_normal_or_fuzzed. rewrite pick_ready_eq. destruct w as [s]. destruct s. unfold sched_of, set_rr, upd_rt. cbn.
  by destruct rt_mode.
Qed.

Lemma sched_set_rr w w' rr : sched_of w = sched_of w' → sched_of (set_rr rr w) = sched_of (set_rr rr w').
Proof. intros [= ? ? ? ? ?]. unfold sched_of. cbn. congruence. Qed.

Lemma sched_set_fuzz w w' f : sched_of w = sched_of w' → sched_of (set_fuzz f w) = sched_of (set_fuzz f w').
Proof. intros [= ? ? ? ? ?]. unfold sched_of. cbn. congruence. Qed.

Lemma sched_set_replay w w' r : sched_of w = sched_of w' → sched_of (set_replay r w) = sched_of (set_replay r w').
Proof. intros [= ? ? ? ? ?]. unfold sched_of. cbn. congruence. Qed.

(** The same choice, leaving the scheduler in the same state. *)
Definition same_choice (r r' : outcome (option nat * world)) : Prop :=
  match r, r' with
  | Done (o, w1), Done (o', w1') => o = o' ∧ sched_of w1 = sched_of w1'
  | Undef, Undef | NoFuel, NoFuel => True
  | _, _ => False
  end.

Lemma pick_fuzzed_twin w w' :
  view w = view w' → sched_of w = sched_of w' → same_choice (pick_normal_or_fuzzed w) (pick_normal_or_fuzzed w').
Proof.
  intros E Es. rewrite !pick_fuzzed_eq. cbn zeta. pose proof (f_equal sc_rr Es) as Err. cbn in Err.
  rewrite <- Es, <- Err, <- (policy_choice_twin _ _ _ E), <- (rr_after_twin _ _ _ E).
  pose proof (sched_set_rr _ _ (rr_after (w_rt w) (rt_last_rr_slot (w_rt w))) Es) as Hn.
  destruct (sc_mode (sched_of w)); [exact (conj eq_refl Hn)..|].
  destruct (sc_fuzz (sched_of w)) as [f|]; [|exact (conj eq_refl Hn)].
  rewrite (fuzz_pick_erased _ _ (w_rt w') _ _ (vw_threads _ _ E)).
  destruct (gth_fuzz_pick_thread _ _ _ _) as [[o f1]| |]; [|done..]. split; [done|]. by apply sched_set_fuzz.
Qed.

(** A choice is a function of what the program sees and of the state of the scheduler. *)
Lemma pick_twin w w' :
  view w = view w' → sched_of w = sched_of w' →
  same_choice (gth_scheduler_pick_ready_thread_mode w) (gth_scheduler_pick_ready_thread_mode w').
Proof.
  intros E Es. pose proof (pick_fuzzed_twin w w' E Es) as H. unfold gth_scheduler_pick_ready_thread_mode.
  pose proof (f_equal sc_mode Es) as Em. pose proof (f_equal sc_replay Es) as Er. cbn in Em, Er. rewrite <- Em, <- Er.
  destruct (rt_mode (w_rt w)); try exact H. destruct (rt_replay (w_rt w)) as [r|]; [|exact H].
  rewrite (replay_next_twin _ _ _ E). destruct (gth_replay_next_thread (w_rt w') r) as [o r']. split; [done|].
  by apply sched_set_replay.
Qed.

(** A choice changes the state of the scheduler only. *)
Lemma pick_frame w o w1 :
  gth_scheduler_pick_ready_thread_mode w = Done (o, w1) → view w1 = view w ∧ books w1 = books w.
Proof.
  assert (H : pick_normal_or_fuzzed w = Done (o, w1) → view w1 = view w ∧ books w1 = books w).
  { rewrite pick_fuzzed_eq. cbn zeta.
    destruct (sc_mode (sched_of w)); [by intros [= <- <-]..|]. destruct (sc_fuzz (sched_of w)); [|by intros [= <- <-]].
    destruct (gth_fuzz_pick_thread _ _ _ _) as [[? ?]| |]; [|done..]. by intros [= <- <-]. }
  unfold gth_scheduler_pick_ready_thread_mode. destruct (rt_mode (w_rt w)); try exact H.
  destruct (rt_replay (w_rt w)) as [r|]; [|exact H]. destruct (gth_replay_next_thread _ _) as [o' r'].
  by intros [= <- <-].
Qed.

Lemma pick_ready w o w1 :
  world_ok w → none_running (w_rt w) → gth_scheduler_pick_ready_thread_mode w = Done (o, w1) →
  match o with Some i => ∃ t, rt_threads (w_rt w) !! i = Some t ∧ is_ready t = true | None => True end ∧
  rt_threads (w_rt w1) = rt_threads (w_rt w).
Proof.
  intros Hw Hn E. pose proof (pick_mode_safe w Hw Hn) as H. unfold safe in H. rewrite E in H.
  by destruct H as (_ & ? & ?).
Qed.

(** ** The interface *)

(** The scheduler of the second world makes the choices of the first, and [L]
    are those that are still to come; the first is in a state [D] allows. *)
Class Follows (D : sched → Prop) (S : list Z → sched → sched → Prop) : Prop := {
  fo_keep w o w1 :
    D (sched_of w) → gth_scheduler_pick_ready_thread_mode w = Done (o, w1) → D (sched_of w1);
  fo_pick w w' L o w1 :
    twin w w' → world_ok w → none_running (w_rt w) → D (sched_of w) →
    gth_scheduler_pick_ready_thread_mode w = Done (o, w1) →
    S (chosen w o ++ L) (sched_of w) (sched_of w') →
    ∃ w1', gth_scheduler_pick_ready_thread_mode w' = Done (o, w1') ∧ S L (sched_of w1) (sched_of w1');
  fo_hang w w' L :
    twin w w' → D (sched_of w) → gth_scheduler_pick_ready_thread_mode w = NoFuel →
    S L (sched_of w) (sched_of w') → gth_scheduler_pick_ready_thread_mode w' = NoFuel
}.

(** The two schedulers are in the same state. *)
Definition any_sched (_ : sched) : Prop := True.
Definition same_sched (_ : list Z) (b b' : sched) : Prop := b = b'.

#[export] Instance same_sched_follows : Follows any_sched same_sched.
Proof.
  split; [done|..].
  - intros w w' L o w1 T _ _ _ E Es. pose proof (pick_twin w w' (tw_view _ _ T) Es) as H. rewrite E in H.
    destruct (gth_scheduler_pick_ready_thread_mode w') as [[o' w1']| |]; [|done..]. destruct H as [<- H]. by exists w1'.
  - intros w w' L T _ E Es. pose proof (pick_twin w w' (tw_view _ _ T) Es) as H. rewrite E in H.
    by destruct (gth_scheduler_pick_ready_thread_mode w').
Qed.

(** ** Calls *)

Section tracks.
Context {D : sched → Prop} {S : list Z → sched → sched → Prop} `{!Follows D S} (bnd : Z).

(** What [m] does in [w] is what it does in a twin that follows: [E] are the
    choices it makes, all with ids below [bnd]. *)
Definition tracks {A} (m : M A) (w : world) : Prop :=
  match m w with
  | Done (a, w1) => ∃ E, moves E w w1 ∧ Forall (λ tid, 1 ≤ tid < bnd) E ∧
      (D (sched_of w) → D (sched_of w1)) ∧
      ∀ w' L, twin w w' → S (E ++ L) (sched_of w) (sched_of w') →
      ∃ w1', m w' = Done (a, w1') ∧ twin w1 w1' ∧ S L (sched_of w1) (sched_of w1')
  | NoFuel => ∃ E, ∀ w' L, twin w w' → S (E ++ L) (sched_of w) (sched_of w') → m w' = NoFuel
  | Undef => True
  end.

Lemma tracks_agree {A} (m : M A) w : agrees m → grants w → tracks m w.
Proof using Type.
  intros Hm Hg. unfold tracks. pose proof (Hm w w (twin_refl w Hg)) as H.
  destruct (m w) as [[a w1]| |] eqn:E1; [|done|].
  2: { exists []. intros w' L T _. specialize (Hm w w' T). rewrite E1 in Hm. by destruct (m w'). }
  destruct H as (_ & _ & [Hmv Hsc] & _).
  exists []. split_and!; [done|done|by rewrite Hsc|]. intros w' L T HS. specialize (Hm w w' T). rewrite E1 in Hm.
  destruct (m w') as [[a' w1']| |]; [|done..]. destruct Hm as (<- & Ev & St & St').
  exists w1'. split_and!; [done|by eapply twin_next|]. by rewrite Hsc, (proj2 St').
Qed.

Lemma tracks_bind {A B} (m : M A) (k : A → M B) w :
  tracks m w → (∀ a w1, m w = Done (a, w1) → tracks (k a) w1) → tracks (bind m k) w.
Proof using Type.
  intros Hm Hk. unfold tracks, bind in *. destruct (m w) as [[a w1]| |]; [|done|].
  2: { destruct Hm as (E1 & H1). exists E1. intros w' L T HS. by rewrite (H1 w' L T HS). }
  specialize (Hk a w1 eq_refl). destruct Hm as (E1 & M1 & B1 & P1 & H1).
  destruct (k a w1) as [[b w2]| |]; [|done|].
  2: { destruct Hk as (E2 & H2). exists (E1 ++ E2). intros w' L T HS. rewrite <- app_assoc in HS.
       destruct (H1 w' _ T HS) as (w1' & -> & T1 & HS1). exact (H2 w1' L T1 HS1). }
  destruct Hk as (E2 & M2 & B2 & P2 & H2).
  exists (E1 ++ E2). split_and!; [by eapply mv_trans|by apply Forall_app|by auto|]. intros w' L T HS. rewrite <- app_assoc in HS.
  destruct (H1 w' _ T HS) as (w1' & -> & T1 & HS1). exact (H2 w1' L T1 HS1).
Qed.

(** The same code on both sides when it first inspects the world. *)
Lemma tracks_eq {A} (m m' : M A) w :
  (∀ w', view w = view w' → m w' = m' w') → tracks m' w → tracks m w.
Proof using Type.
  intros E H. unfold tracks in *. rewrite E by done. destruct (m' w) as [[a w1]| |]; [|done|].
  2: { destruct H as (C & H). exists C. intros w' L T HS. rewrite E by apply T. by eapply H. }
  destruct H as (C & M1 & B1 & P1 & H). exists C. split_and!; [done..|]. intros w' L T HS.
  destruct (H w' L T HS) as (w1' & E' & H'). exists w1'. split; [|done]. by rewrite E by apply T.
Qed.

Lemma tracks_ret {A} (a : A) w : tracks (ret a) w.
Proof using Type. exists []. split_and!; [apply moves_refl|done|done|]. eauto. Qed.

(** The end of [gth_scheduler_run_next] before the switch. *)
Definition dispatch (i : nat) (tid : Z) (w : world) : world :=
  upd_rt (λ s, {| s with rt_current_tid := tid; rt_context_switches := u64 (rt_context_switches s + 1);
                         rt_runnable_threads := dec_pos (rt_runnable_threads s) |})
    (upd_rt (upd_thread i (set_state GTH_THREAD_RUNNING)) w).

Lemma agree_dispatch i tid : agrees (modify (dispatch i tid)).
Proof using Type.
  assert (H : agrees (modify (upd_rt (upd_thread i (set_state GTH_THREAD_RUNNING)));;
    modify (upd_rt (λ s, {| s with rt_current_tid := tid; rt_context_switches := u64 (rt_context_switches s + 1);
                                   rt_runnable_threads := dec_pos (rt_runnable_threads s) |})))) by agree_tac.
  exact H.
Qed.

(** Recording the choice, if it is recorded. *)
Definition trace_switch (from tid : Z) (w : world) : world :=
  if switch_traced w then gth_trace_context_switch from tid w else w.

Lemma untrace_switch from tid w : untrace (trace_switch from tid w) = untrace w.
Proof using Type.
  unfold trace_switch, gth_trace_context_switch. destruct (switch_traced w); [apply untrace_record|done].
Qed.

Lemma dispatch_twin i tid from w w' L :
  twin w w' → S L (sched_of w) (sched_of w') →
  twin (dispatch i tid (trace_switch from tid w)) (dispatch i tid (trace_switch from tid w')) ∧
  S L (sched_of (dispatch i tid (trace_switch from tid w))) (sched_of (dispatch i tid (trace_switch from tid w'))).
Proof using Type.
  intros [Ev G G'] HS. pose proof (untrace_switch from tid w) as E. pose proof (untrace_switch from tid w') as E'.
  assert (T : twin (trace_switch from tid w) (trace_switch from tid w')).
  { constructor; [by rewrite (view_untrace _ _ E), (view_untrace _ _ E')|by eapply grants_untrace..]. }
  destruct (agree_dispatch i tid _ _ T) as (_ & Ed & St & St'). split; [by eapply twin_next|].
  by rewrite (proj2 St), (proj2 St'), (sched_untrace _ _ E), (sched_untrace _ _ E').
Qed.

Lemma run_next_eq k w :
  gth_scheduler_run_next k w =
    if negb (rt_initialized (w_rt w)) then Done (inl GTH_ESTATE, w)
    else match gth_scheduler_pick_ready_thread_mode w with
    | Done (None, w1) => Done (inl GTH_ENOTFOUND, w1)
    | Done (Some i, w1) =>
        match rt_threads (w_rt w1) !! i with
        | Some t => Done (inr (Swap SchedCtx (ThreadCtx i) (KRunNext (rt_current_tid (w_rt w1)) k)),
            dispatch i (th_tid t) (trace_switch (rt_current_tid (w_rt w1)) (th_tid t) w1))
        | None => Undef
        end
    | Undef => Undef
    | NoFuel => NoFuel
    end.
Proof using Type.
  unfold gth_scheduler_run_next, bind. destruct (negb _); [done|].
  destruct (gth_scheduler_pick_ready_thread_mode w) as [[[i|] w1]| |]; [|done..].
  unfold thread_at, deref. by destruct (rt_threads (w_rt w1) !! i).
Qed.

(** A choice, on both sides. *)
Lemma follow_pick w w' L o w1 :
  twin w w' → world_ok w → none_running (w_rt w) → D (sched_of w) →
  gth_scheduler_pick_ready_thread_mode w = Done (o, w1) → S (chosen w o ++ L) (sched_of w) (sched_of w') →
  ∃ w1', gth_scheduler_pick_ready_thread_mode w' = Done (o, w1') ∧ twin w1 w1' ∧
    rt_initialized (w_rt w') = rt_initialized (w_rt w) ∧ S L (sched_of w1) (sched_of w1').
Proof using All.
  intros T Hw Hnr HD E HS. destruct (fo_pick w w' L o w1 T Hw Hnr HD E HS) as (w1' & E' & HS1).
  destruct (pick_frame _ _ _ E) as [V B]. destruct (pick_frame _ _ _ E') as [V' B']. exists w1'.
  split_and!; [done| |symmetry; apply vw_initialized, T|done].
  constructor; [by rewrite V, V'; apply T|by apply (moves_grants [] w); [apply mv_same|apply T]
    |by apply (moves_grants [] w'); [apply mv_same|apply T]].
Qed.

Lemma tracks_run_next k w :
  grants w → D (sched_of w) → world_ok w → none_running (w_rt w) → rt_next_tid (w_rt w) ≤ bnd →
  tracks (gth_scheduler_run_next k) w.
Proof using All.
  intros Hg HD Hw Hnr HB. unfold tracks. rewrite run_next_eq.
  destruct (negb (rt_initialized (w_rt w))) eqn:Hini.
  { exists []. split_and!; [apply moves_refl|done|done|]. intros w' L T HS. exists w'.
    rewrite run_next_eq, <- (vw_initialized _ _ (tw_view _ _ T)), Hini. by split_and!. }
  destruct (gth_scheduler_pick_ready_thread_mode w) as [[o w1]| |] eqn:Epick; [|done|].
  2: { exists []. intros w' L T HS. rewrite run_next_eq, <- (vw_initialized _ _ (tw_view _ _ T)), Hini.
       by rewrite (fo_hang w w' L T HD Epick HS). }
  destruct (pick_frame _ _ _ Epick) as [_ Hbooks]. destruct (pick_ready _ _ _ Hw Hnr Epick) as [Ho Hts].
  pose proof (λ w' L T, follow_pick w w' L o w1 T Hw Hnr HD Epick) as Hright. pose proof (fo_keep _ _ _ HD Epick) as HD1.
  destruct o as [i|]; last first.
  - exists []. split_and!; [by apply mv_same|done|done|]. intros w' L T HS.
    destruct (Hright w' L T HS) as (w1' & E1 & T1 & Ei & HS1). exists w1'.
    by rewrite run_next_eq, E1, Ei, Hini.
  - destruct Ho as (t & Ht & Hr). cbn [chosen] in Hright. rewrite Hts, Ht. rewrite Ht in Hright.
    set (from := rt_current_tid (w_rt w1)). exists [th_tid t]. split_and!.
    + apply (moves_nil_l _ _ w1); [by apply mv_same|]. eapply moves_nil_r; [apply (mv_switch from)|by apply mv_same].
    + assert (He : is_empty t = false) by (unfold is_empty; apply is_ready_true in Hr; by rewrite Hr).
      pose proof (tb_tid _ _ _ _ _ _ (wo_table _ Hw) i t Ht He). constructor; [lia|constructor].
    + change (sched_of (dispatch _ _ _)) with (sched_of (trace_switch from (th_tid t) w1)).
      by rewrite (sched_untrace _ _ (untrace_switch from (th_tid t) w1)).
    + intros w' L T HS. destruct (Hright w' L T HS) as (w1' & E1 & T1 & Ei & HS1).
      pose proof (erased_lookup _ _ i (vw_threads _ _ (tw_view _ _ T1))) as Hl. rewrite Hts, Ht in Hl.
      destruct (rt_threads (w_rt w1') !! i) as [t'|] eqn:Ht'; [|done].
      eexists. rewrite run_next_eq, E1, Ei, Hini, Ht'. unfold from.
      rewrite (vw_current_tid _ _ (tw_view _ _ T1)), (er_tid _ _ Hl). split; [done|].
      by apply dispatch_twin.
Qed.

Lemma tracks_yield w :
  grants w → rt_next_tid (w_rt w) ≤ bnd →
  (rt_current_tid (w_rt w) = 0 → D (sched_of w) ∧ world_ok w ∧ none_running (w_rt w)) →
  tracks gth_thread_yield w.
Proof using All.
  intros Hg HB Hmain. destruct (rt_initialized (w_rt w)) eqn:Hini; last first.
  { apply (tracks_eq _ (ret_status GTH_ESTATE)); [|apply tracks_ret]. intros w' E.
    unfold gth_thread_yield. by rewrite <- (vw_initialized _ _ E), Hini. }
  destruct (Z.eqb_spec (rt_current_tid (w_rt w)) 0) as [E0|E0].
  - destruct (Hmain E0) as (Hp & Hw & Hnr).
    apply (tracks_eq _ (r <- gth_scheduler_run_next InYield;;
      match r with inl st => ret_status st | inr sw => ret sw end)).
    + intros w' E. unfold gth_thread_yield. by rewrite <- (vw_initialized _ _ E), <- (vw_current_tid _ _ E), Hini, E0.
    + apply tracks_bind; [by apply tracks_run_next|]. intros [st|sw] w1 _; apply tracks_ret.
  - set (f := gth_runtime_find_thread (w_rt w) (rt_current_tid (w_rt w))).
    apply (tracks_eq _ match f with
      | None => ret_status GTH_ESTATE
      | Some i =>
          modify (gth_trace_thread_yield (rt_current_tid (w_rt w)));;
          modify (upd_rt (upd_thread i (set_state GTH_THREAD_READY)));;
          modify (upd_rt (λ s, {| s with rt_runnable_threads := u64 (rt_runnable_threads s + 1) |}));;
          ret (Swap (ThreadCtx i) SchedCtx KYield)
      end).
    + intros w' E. unfold gth_thread_yield.
      rewrite <- (vw_initialized _ _ E), <- (vw_current_tid _ _ E), <- (find_thread_twin _ _ _ E), Hini. cbn [negb].
      destruct (Z.eqb_spec (rt_current_tid (w_rt w)) 0); [done|]. fold f. by destruct f.
    + apply tracks_agree; [|done]. destruct f; agree_tac.
Qed.

(** The state of slot [i]. *)
Definition slot_state (w : world) (i : nat) : option gth_thread_state_t := th_state <$> rt_threads (w_rt w) !! i.

Lemma slot_state_twin w w' i : view w = view w' → slot_state w i = slot_state w' i.
Proof using Type.
  intros E. unfold slot_state. pose proof (erased_lookup _ _ i (vw_threads _ _ E)) as H.
  destruct (rt_threads (w_rt w) !! i), (rt_threads (w_rt w') !! i); try done. cbn. by rewrite (er_state _ _ H).
Qed.

Lemma thread_at_state {A} (k : gth_thread_state_t → M A) i w :
  (t <- thread_at i;; k (th_state t)) w = match slot_state w i with Some st => k st w | None => Undef end.
Proof using Type. unfold bind, thread_at, deref, slot_state. by destruct (rt_threads (w_rt w) !! i). Qed.

(** Computations that start with the state of a slot. *)
Lemma tracks_slot {A} (k : gth_thread_state_t → M A) i w :
  (∀ st, slot_state w i = Some st → tracks (k st) w) → tracks (t <- thread_at i;; k (th_state t)) w.
Proof using Type.
  intros Hk. apply (tracks_eq _ match slot_state w i with Some st => k st | None => λ _, Undef end).
  - intros w' E. rewrite thread_at_state, <- (slot_state_twin _ _ _ E). by destruct (slot_state w i).
  - destruct (slot_state w i) as [st|]; [by apply Hk|done].
Qed.

Lemma tracks_run_until_loop tid target w :
  grants w → D (sched_of w) → world_ok w → none_running (w_rt w) → rt_next_tid (w_rt w) ≤ bnd →
  tracks (run_until_loop tid target) w.
Proof using All.
  intros Hg Hp Hw Hnr HB. apply (tracks_slot (λ st,
    if gth_thread_is_terminal st then ret (inl GTH_OK)
    else r <- gth_scheduler_run_next (InJoin tid target);;
      match r with inl GTH_ENOTFOUND => ret (inl GTH_EBUSY) | inl st => ret (inl st) | inr sw => ret (inr sw) end)).
  intros st _. destruct (gth_thread_is_terminal st); [apply tracks_ret|].
  apply tracks_bind; [by apply tracks_run_next|]. intros [[]|sw] w1 _; apply tracks_ret.
Qed.

Lemma agree_join_after tid r : agrees (join_after_run_until tid r).
Proof using Type.
  intros w w' T. unfold join_after_run_until. rewrite (find_thread_twin _ _ tid (tw_view _ _ T)).
  destruct r as [[]|sw]; try (by apply agree_done).
  destruct (gth_runtime_find_thread _ _) as [i|]; [|by apply agree_done]. by apply agree_at; [apply agree_join_finish|].
Qed.

Lemma tracks_grants {A} (m : M A) w a w1 : tracks m w → m w = Done (a, w1) → grants w → grants w1.
Proof using Type.
  unfold tracks. intros H E. rewrite E in H. destruct H as (C & M1 & _). by eapply moves_grants.
Qed.

Lemma tracks_join_loop tid target w :
  grants w → D (sched_of w) → world_ok w → none_running (w_rt w) → rt_next_tid (w_rt w) ≤ bnd →
  tracks (r <- run_until_loop tid target;; join_after_run_until tid r) w.
Proof using All.
  intros Hg Hp Hw Hnr HB. pose proof (tracks_run_until_loop tid target w Hg Hp Hw Hnr HB) as H.
  apply tracks_bind; [done|]. intros r w1 E. apply tracks_agree; [apply agree_join_after|].
  by eapply tracks_grants.
Qed.

Lemma tracks_join tid w :
  grants w → D (sched_of w) → world_ok w → none_running (w_rt w) → rt_next_tid (w_rt w) ≤ bnd →
  tracks (gth_thread_join tid) w.
Proof using All.
  intros Hg Hp Hw Hnr HB. set (f := gth_runtime_find_thread (w_rt w) tid).
  apply (tracks_eq _ (if negb (rt_initialized (w_rt w)) then ret_status GTH_ESTATE
    else if tid =? 0 then ret_status GTH_EINVAL
    else if tid =? rt_current_tid (w_rt w) then ret_status GTH_ESTATE
    else match f with
    | None => ret_status GTH_ENOTFOUND
    | Some i => t <- thread_at i;;
        if negb (gth_thread_is_terminal (th_state t))
        then r <- run_until_loop tid i;; join_after_run_until tid r
        else join_finish i
    end)).
  - intros w' E. unfold gth_thread_join, f.
    rewrite <- (vw_initialized _ _ E), <- (vw_current_tid _ _ E), <- (find_thread_twin _ _ _ E).
    destruct (negb _) eqn:Hini; [done|]. destruct (tid =? 0) eqn:H0; [done|].
    destruct (tid =? rt_current_tid (w_rt w)) eqn:Hc; [done|].
    destruct (gth_runtime_find_thread (w_rt w) tid) as [i|] eqn:Hf; [|done].
    unfold bind, thread_at, deref. destruct (rt_threads (w_rt w') !! i); [|done].
    destruct (negb (gth_thread_is_terminal _)); [|done]. unfold gth_scheduler_run_until.
    by rewrite <- (vw_initialized _ _ E), <- (vw_current_tid _ _ E), <- (find_thread_twin _ _ _ E), Hini, Hc, Hf.
  - repeat (destruct (negb _) || destruct (_ =? _); [apply tracks_ret|]). destruct f as [i|]; [|apply tracks_ret].
    apply (tracks_slot (λ st, if negb (gth_thread_is_terminal st)
      then r <- run_until_loop tid i;; join_after_run_until tid r else join_finish i)).
    intros st _. destruct (negb _); [by apply tracks_join_loop|]. by apply tracks_agree; [apply agree_join_finish|].
Qed.

(** ** The public functions *)

(** The calls that leave modes, tracing, replay and the life of the runtime alone. *)
Definition plain (a : api) : bool :=
  match a with
  | AInit _ | AShutdown | ATraceStart _ | ATraceStop | AReplayFrom _ | AReplayStats _ | AFuzzStats _
  | AFuzzSetRate _ | ASetMode _ => false
  | _ => true
  end.

Lemma agree_returning m : agrees m → agrees (returning m).
Proof using Type. intros H. unfold returning. agree_auto. Qed.

Lemma snapshot_erased (ts : list gth_thread_record_t) : ∀ acc,
  foldl snapshot_step acc (erase <$> ts) = foldl snapshot_step acc ts.
Proof using Type. induction ts as [|t ts IH]; intros acc; [done|]. cbn [fmap list_fmap foldl]. apply IH. Qed.

Lemma get_stats_twin b w w' : view w = view w' → gth_runtime_get_stats b w = gth_runtime_get_stats b w'.
Proof using Type.
  intros E. unfold gth_runtime_get_stats, gth_runtime_snapshot_stats.
  rewrite (vw_initialized _ _ E), (vw_context_switches _ _ E), <- (snapshot_erased (rt_threads (w_rt w))).
  by rewrite (vw_threads _ _ E), snapshot_erased.
Qed.

Lemma agree_api a : plain a = true → a ≠ AYield → (∀ tid, a ≠ AJoin tid) → agrees (api_call a).
Proof using Type.
  intros Hp Hy Hj. destruct a; try done; try (by apply agree_returning; auto with agree); cbn [api_call].
  - apply agree_let; [|intros; by apply agree_ret]. apply agree_gets. intros. by apply get_stats_twin.
  - apply agree_let; [apply agree_create|intros; by apply agree_ret].
  - by destruct (Hj tid).
  - agree_auto.
  - apply agree_lock.
  - apply agree_sem_wait.
  - apply agree_cond_wait.
Qed.

Lemma tracks_api cur a w :
  plain a = true → (cur ≠ None → thread_safe a = true) → grants w → D (sched_of w) →
  world_ok w → cur_ok cur (w_rt w) → rt_next_tid (w_rt w) ≤ bnd → tracks (api_call a) w.
Proof using All.
  intros Hpl Hsafe Hg Hp Hw Hc HB.
  assert (Ha : a = AYield ∨ (∃ tid, a = AJoin tid) ∨ (a ≠ AYield ∧ ∀ tid, a ≠ AJoin tid)) by (destruct a; naive_solver).
  destruct Ha as [->|[[tid ->]|[Hy Hj]]].
  - apply tracks_yield; [done..|]. intros E0. split_and!; [done..|]. destruct cur as [c|]; [|by apply none_running_main].
    destruct (find_current w Hw c Hc) as (_ & Hnz & _). done.
  - destruct cur as [c|]; [by specialize (Hsafe ltac:(done))|].
    apply tracks_join; try done. by apply none_running_main.
  - apply tracks_agree; [|done]. by apply agree_api.
Qed.

(** The code after a switch point. *)
Lemma tracks_resume_thread c k w : thread_frame c k → grants w → tracks (resume_frame k) w.
Proof using All.
  intros Hk Hg. apply tracks_agree; [|done]. destruct k as [|m i|m| |]; cbn in Hk; try done; cbn [resume_frame].
  - by agree_tac.
  - apply agree_lock_wait.
  - apply agree_lock.
  - by agree_tac.
Qed.

Lemma agree_run_next_resume previous_tid : agrees (modify (gth_scheduler_run_next_resume previous_tid)).
Proof using Type. by apply agree_upd_rt. Qed.

Lemma tracks_resume_main k w :
  main_frame k → grants w → D (sched_of w) → world_ok w → none_running (w_rt w) →
  rt_next_tid (w_rt w) ≤ bnd → tracks (resume_frame k) w.
Proof using All.
  intros Hk Hg Hp Hw Hnr HB. destruct k as [| | | |previous_tid [|tid target]]; cbn in Hk; try done; cbn [resume_frame].
  - apply tracks_agree; [|done]. apply agree_let; [apply agree_run_next_resume|]. intros []. by agree_tac.
  - apply tracks_bind; [by apply tracks_agree; [apply agree_run_next_resume|]|].
    intros [] w1 [= <-]. apply tracks_join_loop; [by apply (grants_same w)|done| |done|done].
    apply world_ok_rt; [done|apply Hw|apply Hw].
Qed.
End tracks.
Arguments tracks D S bnd {A} m w.

(** ** Machines *)

Section machines.
Context {D : sched → Prop} {S : list Z → sched → sched → Prop} `{!Follows D S} (P : program) (HP : disciplined P) (bnd : Z).

(** The same to the program, down to what every stack is doing. *)
Record same_machine (m m' : machine P) : Prop := {
  sm_world : twin (m_world P m) (m_world P m');
  sm_mem : m_mem P m = m_mem P m';
  sm_run : m_run P m = m_run P m';
  sm_ctl o : m_ctl P m o = m_ctl P m' o;
  sm_serial : m_serial P m = m_serial P m'
}.

Definition lockstep (L : list Z) (m m' : machine P) : Prop :=
  same_machine m m' ∧ S L (sched_of (m_world P m)) (sched_of (m_world P m')).

(** The call a stack is about to make, if any, is a plain one. *)
Definition plain_now (m : machine P) : Prop :=
  match next_call (Next P m) with Some (_, a) => plain a = true | None => True end.

Lemma insert_ctl (c c' : owner → option (ctl P)) o x :
  (∀ o, c o = c' o) → ∀ o', <[o := x]> c o' = <[o := x]> c' o'.
Proof using Type.
  intros H o'. destruct (decide (o = o')) as [->|Hne]; [by rewrite !fn_lookup_insert|].
  by rewrite !fn_lookup_insert_ne.
Qed.

Lemma ctx_at_twin w w' r :
  view w = view w' → erase_ctx <$> ctx_at (w_rt w) r = erase_ctx <$> ctx_at (w_rt w') r.
Proof using Type.
  intros E. destruct r as [|i]; cbn [ctx_at]; [by rewrite (vw_scheduler_ctx _ _ E)|].
  pose proof (erased_lookup _ _ i (vw_threads _ _ E)) as H.
  destruct (rt_threads (w_rt w) !! i), (rt_threads (w_rt w') !! i); try done. cbn [fmap option_fmap option_map].
  by rewrite (er_ctx _ _ H).
Qed.

Lemma jump_lockstep L r m m' m1 :
  lockstep L m m' → jump_to P r m = Next P m1 → ∃ m1', jump_to P r m' = Next P m1' ∧ lockstep L m1 m1'.
Proof using Type.
  intros [[T Em Er Ec Es] HS]. unfold jump_to. pose proof (ctx_at_twin _ _ r (tw_view _ _ T)) as Ectx.
  destruct (ctx_at (w_rt (m_world P m)) r) as [c|], (ctx_at (w_rt (m_world P m')) r) as [c'|]; try done.
  apply (inj Some) in Ectx.
  destruct c as [[|slot top|o n] fx], c' as [[|slot' top'|o' n'] fx']; cbn in Ectx; try done.
  - injection Ectx as <- <-. cbn [ctx_resume].
    pose proof (erased_lookup _ _ slot (vw_threads _ _ (tw_view _ _ T))) as H.
    destruct (rt_threads (w_rt (m_world P m)) !! slot) as [t|], (rt_threads (w_rt (m_world P m')) !! slot) as [t'|]; try done.
    intros [= <-]. eexists. split; [done|].
    rewrite <- Em, <- (er_fn _ _ H), <- (er_arg _ _ H), <- (er_tid _ _ H). split; [|done].
    constructor; cbn; try done. by apply insert_ctl.
  - injection Ectx as <- <- <-. cbn [ctx_resume]. rewrite <- Ec.
    destruct (m_ctl P m o) as [[tid [u|k u|n0 k u]]|]; try done. destruct (decide (n0 = n)); [|done].
    intros [= <-]. eexists. split; [done|]. split; [|done].
    constructor; cbn; try done. by apply insert_ctl.
Qed.
Lemma agree_save r o n : agrees (modify (upd_rt (save_ctx r (CtxSaved o n)))).
Proof using Type.
  destruct r as [|i]; [by apply agree_upd_rt|]. apply agree_upd_thread. intros t t' E.
  pose proof (f_equal ctx_fxsave_area (er_ctx _ _ E)) as Ef.
  assert (Ef' : ctx_fxsave_area (th_ctx t) = ctx_fxsave_area (th_ctx t')).
  { destruct (th_ctx t) as [[] ?], (th_ctx t') as [[] ?]; done. }
  destruct t, t'. unfold erase in *. cbn in *. congruence.
Qed.

(** Two machines whose worlds change the same way stay in lockstep. *)
Lemma lockstep_agree (f : world → world) L m m' :
  agrees (modify f) → lockstep L m m' → lockstep L {| m with m_world := f (m_world P m) |} {| m' with m_world := f (m_world P m') |}.
Proof using Type.
  intros Hf [[T ? ? ? ?] HS]. destruct (Hf _ _ T) as (_ & Ev & St & St').
  split; [constructor; cbn; [by eapply twin_next|done..]|]. cbn. by rewrite (proj2 St), (proj2 St').
Qed.

(** What a step of [m] to [m1] means for machines in lockstep with [m]. *)
Definition step_tracked (go : machine P → step_result P) (m m1 : machine P) : Prop :=
  ∃ E, moves E (m_world P m) (m_world P m1) ∧ Forall (λ tid, 1 ≤ tid < bnd) E ∧
    (D (sched_of (m_world P m)) → D (sched_of (m_world P m1))) ∧
    ∀ m' L, lockstep (E ++ L) m m' → ∃ m1', go m' = Next P m1' ∧ lockstep L m1 m1'.

Lemma after_call_tracked c o tid u m m1 :
  tracks D S bnd c (m_world P m) → after_call P m o tid u (c (m_world P m)) = Next P m1 →
  step_tracked (λ m, after_call P m o tid u (c (m_world P m))) m m1.
Proof using Type.
  unfold tracks. destruct (c (m_world P m)) as [[r w1]| |] eqn:Ec; [|done..].
  intros (E & M1 & B1 & P1 & H). destruct r as [r|from to k]; cbn [after_call].
  - intros [= <-]. exists E. split_and!; [done..|]. intros m' L [[T Em Er Ectl Es] HS].
    destruct (H _ L T HS) as (w1' & -> & T1 & HS1). eexists. split; [done|]. rewrite <- Em.
    split; [|done]. constructor; cbn; try done. by apply insert_ctl.
  - intros Hj. set (f := upd_rt (save_ctx from (CtxSaved o (m_serial P m)))) in *.
    set (m0 := {| m with m_world := w1; m_ctl := <[o:=Some (mk_ctl P tid (Suspended P (m_serial P m) k u))]> (m_ctl P m);
                         m_serial := Datatypes.S (m_serial P m) |}) in *.
    assert (Hright : ∀ m' L, lockstep (E ++ L) m m' → ∃ w1', c (m_world P m') = Done (Swap from to k, w1') ∧
      lockstep L {| m0 with m_world := f w1 |}
        {| m' with m_world := f w1'; m_ctl := <[o:=Some (mk_ctl P tid (Suspended P (m_serial P m') k u))]> (m_ctl P m');
                   m_serial := Datatypes.S (m_serial P m') |}).
    { intros m' L [[T Em Er Ectl Es] HS]. destruct (H _ L T HS) as (w1' & -> & T1 & HS1). exists w1'. split; [done|].
      apply (lockstep_agree f L m0 {| m' with m_world := w1'; m_ctl := _; m_serial := _ |}); [apply agree_save|].
      split; [|done]. constructor; cbn; try done; [|by rewrite Es]. rewrite <- Es. by apply insert_ctl. }
    exists E. rewrite (jump_world P _ _ _ Hj). split_and!.
    + eapply moves_nil_r; [exact M1|]. apply mv_same. by destruct from.
    + done.
    + intros Hp. specialize (P1 Hp). by destruct from.
    + intros m' L Hl. destruct (Hright m' L Hl) as (w1' & -> & Hl1). cbn [after_call].
      rewrite <- (sm_serial _ _ (proj1 Hl)) in Hl1 |- *. exact (jump_lockstep L to _ _ m1 Hl1 Hj).
Qed.

Lemma step_tracked_intro (go : machine P → step_result P) m m1 :
  step_tracked go m m1 → (∀ m', same_machine m m' → step P m' = go m') → step_tracked (step P) m m1.
Proof using Type.
  intros (E & M1 & B1 & P1 & H) Hgo. exists E. split_and!; [done..|]. intros m' L Hl.
  destruct (H m' L Hl) as (m1' & E1 & Hl1). exists m1'. by rewrite (Hgo m' (proj1 Hl)).
Qed.

Lemma stack_alive_twin w w' o tid : view w = view w' → stack_alive w o tid = stack_alive w' o tid.
Proof using Type.
  intros E. destruct o as [|i]; [done|]. cbn. pose proof (erased_lookup _ _ i (vw_threads _ _ E)) as H.
  destruct (rt_threads (w_rt w) !! i), (rt_threads (w_rt w') !! i); try done.
  unfold is_empty. by rewrite (er_state _ _ H), (er_tid _ _ H).
Qed.

(** The code a stack executes next. *)
Lemma step_call m tid mode c :
  m_ctl P m (m_run P m) = Some (mk_ctl P tid mode) → stack_alive (m_world P m) (m_run P m) tid = true →
  ∀ u, match mode with
       | User _ u' => u = u' ∧ ∃ a, p_next P u' = ACall a ∧ c = api_call a
       | Resuming _ k u' => u = u' ∧ c = resume_frame k
       | Suspended _ _ _ _ => False
       end →
  ∀ m', same_machine m m' → step P m' = after_call P m' (m_run P m) tid u (c (m_world P m')).
Proof using Type.
  intros Ec Ha u Hmode m' [T Em Er Ectl Es]. unfold step. rewrite <- Er, <- Ectl, Ec.
  rewrite <- (stack_alive_twin _ _ _ _ (tw_view _ _ T)), Ha. cbn [negb].
  destruct mode as [u'|k u'|]; [|by destruct Hmode as [-> ->]|done].
  by destruct Hmode as (-> & a & -> & ->).
Qed.

Lemma same_machine_refl m : grants (m_world P m) → same_machine m m.
Proof using Type. by constructor; [apply twin_refl|..]. Qed.

(** The end of a thread. *)
Definition thread_end (i : nat) (v : Z) (m : machine P) : step_result P :=
  match trampoline_exit i v (m_world P m) with
  | Done (_, w) => jump_to P SchedCtx {| m with m_world := w; m_ctl := <[Thr i := None]> (m_ctl P m) |}
  | Undef => Fault P
  | NoFuel => Hang P
  end.

(** What the executing stack does next, on this machine and on those that look the same. *)
Inductive doing (m : machine P) : Prop :=
| does_call o tid u c :
    tracks D S bnd c (m_world P m) →
    (∀ m', same_machine m m' → step P m' = after_call P m' o tid u (c (m_world P m'))) → doing m
| does_end i v : (∀ m', same_machine m m' → step P m' = thread_end i v m') → doing m
| does_exit v : (∀ m', same_machine m m' → step P m' = Exit P v) → doing m.

Lemma step_doing m :
  mach_ok P m → grants (m_world P m) → D (sched_of (m_world P m)) → plain_now m →
  rt_next_tid (w_rt (m_world P m)) ≤ bnd → doing m.
Proof using All.
  intros [Hw Hex _] Hg Hp Hpl HB. unfold executing in Hex. unfold plain_now in Hpl. cbn in Hpl.
  destruct (m_run P m) as [|c] eqn:Hrun.
  - destruct Hex as (mode & Ec & Hmode). rewrite Ec in Hpl. destruct mode as [u|k u|]; [|destruct Hmode as [Hk Hnr]|done].
    + destruct (p_next P u) as [v|a] eqn:Hn.
      * apply (does_exit m v). intros m' [T Em Er Ectl Es]. unfold step. by rewrite <- Er, Hrun, <- Ectl, Ec; cbn; rewrite Hn.
      * apply (does_call m Main 0 u (api_call a)); [by apply (tracks_api bnd None)|].
        rewrite <- Hrun. eapply (step_call m 0 (User P u)); rewrite ?Hrun; eauto.
    + apply (does_call m Main 0 u (resume_frame k)); [by apply tracks_resume_main|].
      rewrite <- Hrun. eapply (step_call m 0 (Resuming P k u)); rewrite ?Hrun; eauto.
  - destruct Hex as (Hc & _ & _ & mode & Ec & Hmode). rewrite Ec in Hpl.
    assert (Ha : stack_alive (m_world P m) (Thr c) (rt_current_tid (w_rt (m_world P m))) = true).
    { destruct (co_current _ _ Hc) as (t & Ht & He & E). cbn. rewrite Ht, He, E. cbn. apply Z.eqb_refl. }
    destruct mode as [u|k u|]; [|destruct Hmode as [Hk Hu]|done].
    + destruct (p_next P u) as [v|a] eqn:Hn.
      * apply (does_end m c v). intros m' [T Em Er Ectl Es]. unfold step.
        by rewrite <- Er, Hrun, <- Ectl, Ec, <- (stack_alive_twin _ _ _ _ (tw_view _ _ T)), Ha, Hn.
      * eapply (does_call m (Thr c) _ u (api_call a)); [apply (tracks_api bnd (Some c)); eauto|].
        rewrite <- Hrun. eapply (step_call m _ (User P u)); rewrite ?Hrun; eauto.
    + eapply (does_call m (Thr c) _ u (resume_frame k)); [by eapply tracks_resume_thread|].
      rewrite <- Hrun. eapply (step_call m _ (Resuming P k u)); rewrite ?Hrun; eauto.
Qed.

Lemma end_tracked i v m m1 :
  grants (m_world P m) → thread_end i v m = Next P m1 → step_tracked (thread_end i v) m m1.
Proof using Type.
  intros Hg Hj. unfold thread_end in Hj.
  pose proof (tracks_agree (D:=D) (S:=S) bnd _ _ (agree_trampoline i v) Hg) as H. unfold tracks in H.
  destruct (trampoline_exit i v (m_world P m)) as [[[] w1]| |] eqn:Ec; [|done..].
  destruct H as (E & M1 & B1 & P1 & H). exists E. rewrite (jump_world P _ _ _ Hj). split_and!; [done..|].
  intros m' L [[T Em Er Ectl Es] HS]. unfold thread_end. destruct (H _ L T HS) as (w1' & -> & T1 & HS1).
  eapply jump_lockstep; [|exact Hj]. split; [|done]. constructor; cbn; try done. by apply insert_ctl.
Qed.

Lemma step_tracks m m1 :
  doing m → grants (m_world P m) → step P m = Next P m1 → step_tracked (step P) m m1.
Proof using Type.
  intros Hd Hg Hs. pose proof (same_machine_refl m Hg) as Hr. destruct Hd as [o tid u c Ht Hgo|i v Hgo|v Hgo].
  - rewrite (Hgo m Hr) in Hs. by eapply step_tracked_intro; [apply after_call_tracked|].
  - rewrite (Hgo m Hr) in Hs. by eapply step_tracked_intro; [apply end_tracked|].
  - by rewrite (Hgo m Hr) in Hs.
Qed.

(** A step that does not end does not end on either machine. *)
Lemma step_hangs m :
  doing m → grants (m_world P m) → step P m = Hang P → ∃ E, ∀ m' L, lockstep (E ++ L) m m' → step P m' = Hang P.
Proof using Type.
  intros Hd Hg Hs. pose proof (same_machine_refl m Hg) as Hr.
  assert (Hjump : ∀ r x, jump_to P r x ≠ Hang P) by (intros r x E; unfold jump_to in E; repeat case_match; done).
  destruct Hd as [o tid u c Ht Hgo|i v Hgo|v Hgo]; rewrite (Hgo m Hr) in Hs; [| |done].
  - unfold tracks in Ht. destruct (c (m_world P m)) as [[[] ?]| |]; cbn in Hs; try done; [by apply Hjump in Hs|].
    destruct Ht as (E & H). exists E. intros m' L [Hsm HS]. rewrite (Hgo m' Hsm), (H _ L (sm_world _ _ Hsm) HS). done.
  - unfold thread_end in Hs. pose proof (agree_trampoline i v) as H.
    destruct (trampoline_exit i v (m_world P m)) as [[[] ?]| |] eqn:Ec; try done; [by apply Hjump in Hs|].
    exists []. intros m' L [Hsm _]. rewrite (Hgo m' Hsm). unfold thread_end.
    specialize (H _ _ (sm_world _ _ Hsm)). rewrite Ec in H. by destruct (trampoline_exit i v (m_world P m')).
Qed.

(** ** Runs *)

(** The first [n] steps make plain calls only. *)
Definition plain_run (n : nat) (m : machine P) : Prop :=
  ∀ k mk, (k < n)%nat → run P k m = Next P mk → plain_now mk.

Lemma plain_run_step n m m1 :
  plain_run (Datatypes.S n) m → step P m = Next P m1 → plain_now m ∧ plain_run n m1.
Proof using Type.
  intros H E. split; [by apply (H O m); [lia|]|]. intros k mk Hk Ek. apply (H (Datatypes.S k) mk); [lia|].
  cbn [run]. by rewrite E.
Qed.

Lemma run_tracks n : ∀ m m1 b,
  mach_ok P m → rt_next_tid (w_rt (m_world P m)) ≤ b → 0 < b → b + Z.of_nat n < 2 ^ 64 - 1 → b + Z.of_nat n ≤ bnd →
  grants (m_world P m) → D (sched_of (m_world P m)) → plain_run n m →
  run P n m = Next P m1 → step_tracked (run P n) m m1.
Proof using All.
  induction n as [|n IH]; intros m m1 b Hm Hb Hpos Hlt HB Hg Hp Hpl E.
  { injection E as <-. exists []. split_and!; [apply moves_refl|done|done|]. intros m' L Hl. by exists m'. }
  cbn [run] in E. pose proof (step_preserves P HP m Hm) as Hpres. unfold tid_room in Hpres.
  specialize (Hpres ltac:(lia)). destruct (step P m) as [m0| | |] eqn:Es; try done. destruct Hpres as [Hm0 Hb0].
  destruct (plain_run_step n m m0 Hpl Es) as [Hnow Hpl0].
  destruct (step_tracks m m0 (step_doing m Hm Hg Hp Hnow ltac:(lia)) Hg Es) as (E1 & M1 & B1 & P1 & H1).
  destruct (IH m0 m1 (b + 1)) as (E2 & M2 & B2 & P2 & H2); auto; try lia; [by eapply moves_grants|].
  exists (E1 ++ E2). split_and!; [by eapply mv_trans|by apply Forall_app|by auto|]. intros m' L Hl. rewrite <- app_assoc in Hl.
  destruct (H1 m' _ Hl) as (m0' & Es' & Hl0). destruct (H2 m0' L Hl0) as (m1' & Er & Hl1).
  exists m1'. cbn [run]. by rewrite Es'.
Qed.

Lemma step_exit m m' v : same_machine m m' → step P m = Exit P v → step P m' = Exit P v.
Proof using Type.
  intros [T Em Er Ectl Es]. unfold step. rewrite <- Er, <- Ectl.
  destruct (m_ctl P m (m_run P m)) as [[tid mode]|]; [|done].
  rewrite <- (stack_alive_twin _ _ _ _ (tw_view _ _ T)). destruct (negb _); [done|].
  assert (Hjump : ∀ r x, jump_to P r x ≠ Exit P v) by (intros r x E; unfold jump_to in E; repeat case_match; done).
  assert (Hcall : ∀ m o t u r, after_call P m o t u r ≠ Exit P v).
  { intros m0 o t u [[[] ?]| |]; try done. cbn. apply Hjump. }
  destruct mode as [u|k u|]; [|intros E; by apply Hcall in E|done].
  destruct (p_next P u); [|intros E; by apply Hcall in E]. destruct (m_run P m); [done|].
  destruct (trampoline_exit _ _ _) as [[[] ?]| |]; try done. intros E. by apply Hjump in E.
Qed.

(** A run that ends has a last step. *)
Lemma run_stops n : ∀ m r, run P n m = r → is_next r = false →
  ∃ k mk, (k < n)%nat ∧ run P k m = Next P mk ∧ step P mk = r.
Proof using Type.
  induction n as [|n IH]; intros m r E Hr; [by subst|]. cbn [run] in E. destruct (step P m) as [m0|v| |] eqn:Es.
  - destruct (IH m0 r E Hr) as (k & mk & Hk & Ek & Ex). exists (Datatypes.S k), mk. cbn [run]. rewrite Es.
    split_and!; [lia|done|done].
  - exists O, m. subst. split_and!; [lia|done|done].
  - exists O, m. subst. split_and!; [lia|done|done].
  - exists O, m. subst. split_and!; [lia|done|done].
Qed.

Lemma run_stopped n k m mk r :
  (k < n)%nat → run P k m = Next P mk → step P mk = r → is_next r = false → run P n m = r.
Proof using Type.
  revert n m. induction k as [|k IH]; intros [|n] m Hk Ek Ex Hr; try lia; cbn [run] in *.
  - injection Ek as ->. rewrite Ex. by destruct r.
  - destruct (step P m) as [m0| | |]; try done. apply IH; [lia|done..].
Qed.

(** The second result is the same to the program as the first, which is not a fault. *)
Definition same_outcome (r r' : step_result P) : Prop :=
  match r with
  | Next _ m1 => ∃ m1', r' = Next P m1' ∧ same_machine m1 m1'
  | Exit _ v => r' = Exit P v
  | Hang _ => r' = Hang P
  | Fault _ => False
  end.

(** Followed to the end of the choices it makes. *)
Lemma run_followed n m b :
  mach_ok P m → rt_next_tid (w_rt (m_world P m)) ≤ b → 0 < b → b + Z.of_nat n < 2 ^ 64 - 1 → b + Z.of_nat n ≤ bnd →
  grants (m_world P m) → D (sched_of (m_world P m)) → plain_run n m →
  ∃ E, ∀ m' L, lockstep (E ++ L) m m' → same_outcome (run P n m) (run P n m').
Proof using All.
  intros Hm Hb Hpos Hlt HB Hg Hp Hpl. pose proof (run_preserves P HP n m b Hm Hb Hpos Hlt) as Hpres.
  assert (Hlast : is_next (run P n m) = false → ∃ k mk C, (k < n)%nat ∧ step P mk = run P n m ∧ doing mk ∧ grants (m_world P mk) ∧
    ∀ m' L, lockstep (C ++ L) m m' → ∃ mk', run P k m' = Next P mk' ∧ lockstep L mk mk').
  { intros Hr. destruct (run_stops n m _ eq_refl Hr) as (k & mk & Hk & Ek & Ex).
    assert (Hpl' : plain_run k m) by (intros j mj Hj; apply Hpl; lia).
    destruct (run_tracks k m mk b Hm Hb Hpos ltac:(lia) ltac:(lia) Hg Hp Hpl' Ek) as (C & M1 & _ & P1 & H).
    pose proof (run_preserves P HP k m b Hm Hb Hpos ltac:(lia)) as Hk1. rewrite Ek in Hk1. destruct Hk1 as [Hmk Hbk].
    assert (Hgk : grants (m_world P mk)) by (by eapply moves_grants).
    exists k, mk, C. split_and!; [done..| |done|done]. apply step_doing; auto; [by eapply Hpl|lia]. }
  destruct (run P n m) as [m1|v| |] eqn:E; [|destruct (Hlast eq_refl) as (k & mk & C & Hk & Ex & Hd & Hgk & H)|done|
    destruct (Hlast eq_refl) as (k & mk & C & Hk & Ex & Hd & Hgk & H)].
  - destruct (run_tracks n m m1 b Hm Hb Hpos Hlt HB Hg Hp Hpl E) as (C & _ & _ & _ & H). exists C. intros m' L Hl.
    destruct (H m' L Hl) as (m1' & E' & Hs & _). by exists m1'.
  - exists C. intros m' L Hl. destruct (H m' L Hl) as (mk' & E' & Hs & _). cbn.
    eapply run_stopped; [exact Hk|exact E'| |done]. by eapply step_exit.
  - destruct (step_hangs mk Hd Hgk Ex) as (C2 & H2). exists (C ++ C2). intros m' L Hl. rewrite <- app_assoc in Hl.
    destruct (H m' _ Hl) as (mk' & E' & Hs). cbn. eapply run_stopped; [exact Hk|exact E'|by eapply H2|done].
Qed.
End machines.

(** ** Runs are determined *)

(** [m] with another world. *)
Definition in_world (P : program) (m : machine P) (w : world) : machine P := {| m with m_world := w |}.

Lemma run_twin P n m b w' :
  disciplined P → mach_ok P m → rt_next_tid (w_rt (m_world P m)) ≤ b → 0 < b → b + Z.of_nat n < 2 ^ 64 - 1 →
  plain_run P n m → twin (m_world P m) w' → sched_of w' = sched_of (m_world P m) →
  same_outcome P (run P n m) (run P n (in_world P m w')).
Proof.
  intros HP Hm Hb Hpos Hlt Hpl T Es.
  destruct (run_followed (S:=same_sched) P HP (2 ^ 64) n m b Hm Hb Hpos Hlt ltac:(lia) (tw_left _ _ T) I Hpl) as [E H].
  apply (H _ []). split; [by constructor|]. by unfold same_sched.
Qed.

(** C17. What a program does is determined by what it can see and by the state
    of the scheduler (its mode, the slot served last, the position in a
    replayed trace, the generator of fuzzing).  From any reachable state of any
    program whose green threads neither join nor shut down, the next [n] steps
    are the same in every other world that agrees in these: whatever the clock
    says, wherever stacks are mapped, whatever is recorded and whatever files
    there are, in all four modes.  The steps make no calls about tracing,
    replay, modes or the life of the runtime, and memory for stacks is
    available.  (Whole executions, with such calls: Reproducible.v.) *)
Theorem run_determined P os fuel k m n w' :
  disciplined P → Z.of_nat k + Z.of_nat n < 2 ^ 64 - 2 → run P k (boot P os fuel) = Next P m → plain_run P n m →
  twin (m_world P m) w' → sched_of w' = sched_of (m_world P m) →
  same_outcome P (run P n m) (run P n (in_world P m w')).
Proof.
  intros HP Hlt Ek Hpl T Es. pose proof (run_preserves P HP k (boot P os fuel) 1 (boot_ok P os fuel)) as H.
  rewrite Ek in H. destruct H as [Hm Hb]; [cbn; lia..|]. apply (run_twin P n m (1 + Z.of_nat k)); try done; lia.
Qed.

(** C15. Recording does not change what a program does.  Take any reachable
    state of any program whose green threads neither join nor shut down, and
    start the recorder there: whatever becomes of the recorder (no memory, a file that cannot be written, ...), the next [n]
    steps go exactly as they would have without it, as long as they make no
    calls about tracing, replay, modes or the life of the runtime and memory
    for stacks is available: the same memory, the same stacks at the same
    points with the same local state, the same threads and synchronisation
    objects, or the same exit value. *)
Theorem recording_is_transparent P os fuel k m path n :
  disciplined P → Z.of_nat k + Z.of_nat n < 2 ^ 64 - 2 → run P k (boot P os fuel) = Next P m →
  grants (m_world P m) → plain_run P n m →
  returns (gth_trace_start path) (m_world P m) (λ _ w,
    same_outcome P (run P n m) (run P n (in_world P m w))).
Proof.
  intros HP Hlt Ek Hg Hpl. pose proof (run_preserves P HP k (boot P os fuel) 1 (boot_ok P os fuel)) as H.
  rewrite Ek in H. destruct H as [Hm Hb]; [cbn; lia..|].
  eapply returns_mono; [apply trace_start_frame, Hm|]. intros st w [Eu _].
  apply (run_twin P n m (1 + Z.of_nat k)); try done; [lia..| |by apply sched_untrace].
  constructor; [symmetry; by apply view_untrace|done|by eapply grants_untrace].
Qed.

(** ** Witnesses *)

(** The machine after a run that goes on. *)
Definition machine_after {P} (n : nat) (m : machine P) : machine P :=
  match run P n m with Next _ m1 => m1 | _ => m end.

Lemma machine_after_eq {P} n (m : machine P) : is_next (run P n m) = true → run P n m = Next P (machine_after n m).
Proof. unfold machine_after. by destruct (run P n m). Qed.

(** A decision procedure for [plain_run]. *)
Fixpoint plain_check {P} (n : nat) (m : machine P) : bool :=
  match n with
  | O => true
  | S n' => match next_call (Next P m) with Some (_, a) => plain a | None => true end &&
            match step P m with Next _ m1 => plain_check n' m1 | _ => true end
  end.

Lemma plain_check_run {P} n : ∀ m : machine P, plain_check n m = true → plain_run P n m.
Proof.
  induction n as [|n IH]; intros m H k mk Hk E; [lia|]. cbn [plain_check] in H. apply andb_true_iff in H as [H1 H2].
  destruct k as [|k]; cbn [run] in E.
  - injection E as <-. unfold plain_now. by destruct (next_call _) as [[]|].
  - destruct (step P m) as [m1| | |]; try done. apply (IH m1 H2 k); [lia|done].
Qed.

(** [handoff] when its threads have been created. *)
Definition handoff_4 : machine handoff := machine_after 4 (boot handoff sunny_os 0).

Lemma handoff_4_grants : grants (m_world handoff handoff_4).
Proof.
  assert (Eos : w_os (m_world handoff handoff_4) = sunny_os) by reflexivity.
  assert (Hp : (0 <? page_of (m_world handoff handoff_4)) = true) by (by vm_compute).
  constructor; rewrite ?Eos; [by apply Z.ltb_lt|by eexists|done].
Qed.

Lemma recording_is_transparent_witness :
  returns (gth_trace_start (Some "t"%string)) (m_world handoff handoff_4) (λ _ w,
    same_outcome handoff (run handoff 12 handoff_4) (run handoff 12 (in_world handoff handoff_4 w))).
Proof.
  apply (recording_is_transparent handoff sunny_os 0 4 handoff_4 (Some "t"%string) 12).
  - apply handoff_disciplined.
  - cbn. lia.
  - apply machine_after_eq. vm_compute. reflexivity.
  - apply handoff_4_grants.
  - apply plain_check_run. vm_compute. reflexivity.
Defined.

(** Three threads under fuzzing. *)
Definition fuzzed : program := script_program
  [AInit (Some demo_config); ASetMode GTH_MODE_FUZZ; ACreate true None 1 0; ACreate true None 1 0; ACreate true None 1 0;
   AYield; AYield; AYield; AYield; AYield; AYield; AYield; AYield; AYield]
  (λ _, [AYield; AYield; AYield]).

Lemma fuzzed_disciplined : disciplined fuzzed.
Proof. by apply script_disciplined. Qed.

Definition fuzzed_5 : machine fuzzed := machine_after 5 (boot fuzzed sunny_os 1000).

(** The same at another time and among other files. *)
Definition elsewhere (w : world) : world := {| w with w_files := {[ "x"%string := [1; 2; 3] ]}; w_tick := 77%nat |}.

Lemma elsewhere_twin w : grants w → twin w (elsewhere w).
Proof. intros [H1 H2 H3]. by constructor. Qed.

Lemma elsewhere_sched w : sched_of (elsewhere w) = sched_of w.
Proof. done. Qed.

Lemma fuzzed_5_grants : grants (m_world fuzzed fuzzed_5).
Proof.
  assert (Eos : w_os (m_world fuzzed fuzzed_5) = sunny_os) by reflexivity.
  assert (Hp : (0 <? page_of (m_world fuzzed fuzzed_5)) = true) by (by vm_compute).
  constructor; rewrite ?Eos; [by apply Z.ltb_lt|by eexists|done].
Qed.

Lemma run_determined_witness :
  is_next (run fuzzed 20 fuzzed_5) = true ∧ rt_mode (w_rt (m_world fuzzed fuzzed_5)) = GTH_MODE_FUZZ ∧
  same_outcome fuzzed (run fuzzed 20 fuzzed_5)
    (run fuzzed 20 (in_world fuzzed fuzzed_5 (elsewhere (m_world fuzzed fuzzed_5)))).
Proof.
  split; [vm_compute; reflexivity|]. split; [vm_compute; reflexivity|].
  apply (run_determined fuzzed sunny_os 1000 5 fuzzed_5 20).
  - apply fuzzed_disciplined.
  - cbn. lia.
  - apply machine_after_eq. vm_compute. reflexivity.
  - apply plain_check_run. vm_compute. reflexivity.
  - apply elsewhere_twin, fuzzed_5_grants.
  - apply elsewhere_sched.
Defined.
