(* ===== verification/Reproducible.v ===== *)
(** * Whole executions on two systems

    [Lockstep] follows two machines through calls that leave the life of the
    runtime and the scheduler's mode alone.  Here the remaining calls are added,
    all but those that work on trace files, so that the two machines can be
    followed from their start: a program does the same on every operating
    system that grants memory, fuzzed schedules included. *)

From S2P Require Import Prelude WaitQueue TraceFormat State Stack TraceBuffer Trace Runtime Replay.
From S2P Require Import Fuzz Sched Thread Mutex Sem Cond Lifecycle Machine Scripts Invariant Ops Switching Safety.
From S2P Require Import Exclusion Agree Lockstep.

(** The operating system never refuses memory. *)
Record generous (os : OS) : Prop := {
  ge_mmap n size : is_Some (os_mmap os n size);
  ge_mprotect n : os_mprotect os n = true;
  ge_malloc n : os_malloc os n = true
}.

(** The calls that do not work on a trace file; those without a path are refused. *)
Definition steady (a : api) : bool :=
  match a with
  | ATraceStart p | AReplayFrom p => match p with None | Some EmptyString => true | _ => false end
  | ATraceStop => false
  | _ => true
  end.

(** ** What such a call does to the scheduler's state *)

(** The effect on the scheduler's state of a successful [gth_runtime_init] and of [gth_runtime_shutdown]. *)
Definition fresh_sched (rr : nat) (b : sched) : sched := mk_sched GTH_MODE_NORMAL None None rr (sc_fuel b).

Definition leave_sched (b : sched) : sched :=
  let b := match sc_mode b with GTH_MODE_REPLAY => {| b with sc_replay := None |} | _ => b end in
  match sc_mode b with GTH_MODE_FUZZ => {| b with sc_fuzz := None |} | _ => b end.

Definition fuzz_seed (c : gth_runtime_config_t) : Z :=
  if cfg_replay_seed c =? 0 then 123456789 else cfg_replay_seed c.

(** The answer of [gth_scheduler_set_mode] and the state it leaves. *)
Definition mode_sched (mode : gth_scheduler_mode_t) (c : gth_runtime_config_t) (b : sched) : gth_status_t * sched :=
  let b := {| (leave_sched b) with sc_mode := mode |} in
  match mode, sc_fuzz b with
  | GTH_MODE_FUZZ, Some _ => (GTH_ESTATE, {| b with sc_mode := GTH_MODE_NORMAL |})
  | GTH_MODE_FUZZ, None => (GTH_OK, {| b with sc_fuzz := Some (gth_fuzz_seed
      (mk_fuzz 0 0 (fuzz_seed c) 0 GTH_FUZZ_DEFAULT_PERTURBATION_RATE) (fuzz_seed c)) |})
  | _, _ => (GTH_OK, b)
  end.

(** [w'] looks like [w] to the program, and its scheduler is in the state [b]. *)
Definition changed (b : sched) (w w' : world) : Prop := view w' = view w ∧ sched_of w' = b.

Lemma leave_mode_changed w : changed (leave_sched (sched_of w)) w (leave_mode w).
Proof.
  unfold leave_mode.
  set (w1 := match rt_mode (w_rt w), rt_trace (w_rt w) with GTH_MODE_RECORD, Some _ => _ | _, _ => w end).
  assert (E : untrace w1 = untrace w) by (unfold w1; repeat case_match; try done; apply untrace_cleanup).
  unfold changed. rewrite <- (sched_untrace _ _ E), <- (view_untrace _ _ E). clearbody w1.
  unfold leave_sched, sched_of. cbn [sc_mode sc_fuzz sc_replay].
  destruct (rt_mode (w_rt w1)) eqn:Em, (rt_replay (w_rt w1)) eqn:Er, (rt_fuzz (w_rt w1)) eqn:Ef; cbn;
    rewrite ?Em, ?Er, ?Ef; cbn; rewrite ?Em, ?Er, ?Ef; done.
Qed.

Lemma set_mode_changed mode w :
  (∀ n, os_malloc (w_os w) n = true) → rt_initialized (w_rt w) = true →
  returns (gth_scheduler_set_mode mode) w (λ st w', st = fst (mode_sched mode (rt_config (w_rt w)) (sched_of w)) ∧
    changed (snd (mode_sched mode (rt_config (w_rt w)) (sched_of w))) w w').
Proof.
  intros Hm Hini. pose proof (leave_mode_changed w) as [Ev Es]. pose proof (env_leave_mode w) as Eo.
  unfold gth_scheduler_set_mode, returns. rewrite Hini. cbn [negb]. set (w1 := leave_mode w) in *.
  assert (Hini1 : rt_initialized (w_rt w1) = true) by (by rewrite (vw_initialized _ _ Ev)).
  assert (Hm1 : ∀ n, os_malloc (w_os w1) n = true) by (by injection Eo as -> _).
  unfold mode_sched. rewrite <- Es, <- (vw_config _ _ Ev). unfold changed. rewrite <- Ev. clearbody w1.
  assert (Hn : negb (rt_initialized (w_rt (set_mode mode w1))) = false) by (cbn; by rewrite Hini1).
  destruct mode; cbn [sc_mode sc_fuzz]; try (split; [done|]; by split).
  - unfold bind, gth_trace_init. rewrite Hn.
    destruct (rt_trace _); [by repeat split|]. unfold malloc, next_tick, bind, ret, modify.
    change (os_malloc _ _) with (os_malloc (w_os w1) (w_tick w1)). rewrite Hm1. by repeat split.
  - unfold bind, gth_fuzz_init. rewrite Hn.
    assert (Esc : sc_fuzz (sched_of w1) = rt_fuzz (w_rt w1)) by done. rewrite Esc.
    change (rt_fuzz (w_rt (set_mode GTH_MODE_FUZZ w1))) with (rt_fuzz (w_rt w1)).
    destruct (rt_fuzz (w_rt w1)) eqn:Ef; [by repeat split; unfold sched_of; cbn; rewrite ?Ef|].
    unfold malloc, next_tick, bind, ret, modify.
    change (os_malloc _ _) with (os_malloc (w_os w1) (w_tick w1)). rewrite Hm1. by repeat split.
Qed.

(** ** The same call in two worlds *)

(** The two worlds look the same, and their schedulers are in the same state. *)
Definition matched (w w' : world) : Prop := view w = view w' ∧ sched_of w = sched_of w'.

(** Both return the same answer, and nothing tells the worlds apart afterwards. *)
Definition returns_alike (m : M result) (w w' : world) : Prop :=
  ∃ r w1 w1', m w = Done (Return r, w1) ∧ m w' = Done (Return r, w1') ∧ matched w1 w1' ∧
    page_of w1 = page_of w ∧ page_of w1' = page_of w'.

Definition outside (w : world) : gmap Z gth_mutex_impl_t * gmap Z gth_sem_impl_t * gmap Z gth_cond_impl_t * Z * nat :=
  (w_mutexes w, w_sems w, w_conds w, page_of w, w_fuel w).

Lemma outside_untrace w w' : untrace w' = untrace w → outside w' = outside w.
Proof. intros E. exact (f_equal outside E). Qed.

(** Shutdown clears the runtime and keeps the rest. *)
Lemma shutdown_outside w : rt_initialized (w_rt w) = true →
  returns gth_runtime_shutdown w (λ st w', st = GTH_OK ∧ w_rt w' = rt_zero ∧ outside w' = outside w).
Proof.
  intros Hini. unfold gth_runtime_shutdown, returns. rewrite Hini. cbn [negb].
  set (w1 := match rt_trace (w_rt w) with Some _ => gth_trace_cleanup w | None => w end).
  assert (E1 : outside w1 = outside w) by (unfold w1; case_match; [apply outside_untrace, untrace_cleanup|done]).
  clearbody w1. cbv zeta.
  match goal with |- context [free_stacks ?i ?ts ?x] => destruct (free_stacks_frame ts i x) as (y & s & ->) end.
  split_and!; [done|done|]. rewrite <- E1. by repeat case_match.
Qed.

Section alike.
Context (w w' : world) (HM : matched w w') (Hw : generous (w_os w)) (Hw' : generous (w_os w')).

(** The call changes nothing. *)
Lemma unchanged_alike (m : M result) r : m w = Done (Return r, w) → m w' = Done (Return r, w') → returns_alike m w w'.
Proof using HM. intros E E'. by exists r, w, w'. Qed.

(** The runtime is replaced. *)
Lemma fresh_alike (m : M result) r v v' :
  m w = Done (Return r, v) → m w' = Done (Return r, v') → w_rt v = w_rt v' →
  outside v = outside w → outside v' = outside w' → returns_alike m w w'.
Proof using HM.
  destruct HM as [Ev Es]. intros E E' Er [= E1 E2 E3 E4 E5] [= E1' E2' E3' E4' E5'].
  assert (Hf : w_fuel w = w_fuel w') by exact (f_equal sc_fuel Es).
  exists r, v, v'. split_and!; [done..| |done|done]. split; [unfold view|unfold sched_of]; rewrite Er; [|congruence].
  by rewrite E1, E2, E3, E4, E1', E2', E3', E4', (vw_mutexes _ _ Ev), (vw_sems _ _ Ev), (vw_conds _ _ Ev), (vw_page _ _ Ev).
Qed.

(** Only the scheduler's state changes. *)
Lemma changed_alike (m : M result) r b v v' :
  m w = Done (Return r, v) → m w' = Done (Return r, v') → changed b w v → changed b w' v' → returns_alike m w w'.
Proof using HM.
  destruct HM as [Ev Es]. intros E E' [E1 E2] [E1' E2']. exists r, v, v'.
  split_and!; [done..| |by apply vw_page|by apply vw_page]. split; congruence.
Qed.

Lemma init_alike c : returns_alike (api_call (AInit c)) w w'.
Proof using HM.
  pose proof (vw_initialized _ _ (proj1 HM)) as Ei. cbn [api_call].
  destruct c as [c|]; [|by eapply unchanged_alike].
  destruct (gth_config_is_valid (Some c)) eqn:Hv.
  - destruct (rt_initialized (w_rt w)) eqn:Hi.
    + eapply unchanged_alike; unfold returning, bind, gth_runtime_init; rewrite Hv; cbn [negb]; rewrite <- ?Ei, ?Hi; done.
    + eapply fresh_alike; [unfold returning, bind, gth_runtime_init; rewrite Hv; cbn [negb]; rewrite <- ?Ei, ?Hi; reflexivity..| | |]; done.
  - eapply unchanged_alike; unfold returning, bind, gth_runtime_init; rewrite Hv; done.
Qed.

Lemma shutdown_alike : returns_alike (api_call AShutdown) w w'.
Proof using HM.
  pose proof (vw_initialized _ _ (proj1 HM)) as Ei. cbn [api_call]. destruct (rt_initialized (w_rt w)) eqn:Hi.
  - pose proof (shutdown_outside w Hi) as H. pose proof (shutdown_outside w' (eq_sym Ei)) as H'. unfold returns in H, H'.
    destruct (gth_runtime_shutdown w) as [[st v]| |] eqn:E; [|done..]. destruct H as (-> & Hz & Ho).
    destruct (gth_runtime_shutdown w') as [[st' v']| |] eqn:E'; [|done..]. destruct H' as (-> & Hz' & Ho').
    eapply fresh_alike; [unfold returning, bind; rewrite ?E, ?E'; reflexivity..|congruence|done|done].
  - eapply unchanged_alike; unfold returning, bind, gth_runtime_shutdown; rewrite <- ?Ei, ?Hi; done.
Qed.

Lemma mode_alike mode : returns_alike (api_call (ASetMode mode)) w w'.
Proof using All.
  pose proof (vw_initialized _ _ (proj1 HM)) as Ei. cbn [api_call]. destruct (rt_initialized (w_rt w)) eqn:Hi.
  - pose proof (set_mode_changed mode w (ge_malloc _ Hw) Hi) as H.
    pose proof (set_mode_changed mode w' (ge_malloc _ Hw') (eq_sym Ei)) as H'. unfold returns in H, H'.
    rewrite <- (vw_config _ _ (proj1 HM)), <- (proj2 HM) in H'.
    destruct (gth_scheduler_set_mode mode w) as [[st v]| |] eqn:E; [|done..]. destruct H as [-> H].
    destruct (gth_scheduler_set_mode mode w') as [[st' v']| |] eqn:E'; [|done..]. destruct H' as [-> H'].
    eapply changed_alike; [unfold returning, bind; rewrite ?E, ?E'; reflexivity..|done|done].
  - eapply unchanged_alike; unfold returning, bind, gth_scheduler_set_mode; rewrite <- ?Ei, ?Hi; done.
Qed.

Lemma rate_alike rate : returns_alike (api_call (AFuzzSetRate rate)) w w'.
Proof using HM.
  pose proof (vw_initialized _ _ (proj1 HM)) as Ei. assert (Ef : rt_fuzz (w_rt w) = rt_fuzz (w_rt w')) by exact (f_equal sc_fuzz (proj2 HM)).
  cbn [api_call]. destruct (rt_initialized (w_rt w)) eqn:Hi.
  2: { eapply unchanged_alike; unfold returning, bind, gth_fuzz_set_rate; rewrite <- ?Ei, ?Hi; done. }
  destruct (rt_fuzz (w_rt w)) as [f|] eqn:Hf.
  2: { eapply unchanged_alike; unfold returning, bind, gth_fuzz_set_rate; rewrite <- ?Ei, ?Hi, <- ?Ef, ?Hf; done. }
  destruct (100 <? rate) eqn:Hr.
  { eapply unchanged_alike; unfold returning, bind, gth_fuzz_set_rate; rewrite <- ?Ei, ?Hi, <- ?Ef, ?Hf, ?Hr; done. }
  eapply (changed_alike _ _ {| (sched_of w) with sc_fuzz := Some {| f with fz_perturbation_rate := rate |} |});
    [unfold returning, bind, gth_fuzz_set_rate; rewrite <- ?Ei, ?Hi, <- ?Ef, ?Hf, ?Hr; reflexivity..|done|].
  rewrite (proj2 HM). done.
Qed.

Lemma steady_alike a : plain a = false → steady a = true → returns_alike (api_call a) w w'.
Proof using All.
  pose proof (vw_initialized _ _ (proj1 HM)) as Ei. pose proof (proj2 HM) as Es. intros Hp Hs. destruct a; try done.
  - apply init_alike.
  - apply shutdown_alike.
  - destruct (rt_initialized (w_rt w)) eqn:Hi, path as [[|]|]; try done; eapply unchanged_alike;
      unfold api_call, returning, bind, gth_trace_start; rewrite <- ?Ei, ?Hi; done.
  - destruct (rt_initialized (w_rt w)) eqn:Hi, path as [[|]|]; try done; eapply unchanged_alike;
      unfold api_call, returning, bind, gth_replay_from; rewrite <- ?Ei, ?Hi; done.
  - eapply unchanged_alike; [done|]. cbn. unfold gth_replay_get_stats. rewrite <- ?Ei. 
    by rewrite <- (f_equal sc_replay Es : rt_replay (w_rt w) = rt_replay (w_rt w')).
  - eapply unchanged_alike; [done|]. cbn. unfold gth_fuzz_get_stats. rewrite <- ?Ei.
    by rewrite <- (f_equal sc_fuzz Es : rt_fuzz (w_rt w) = rt_fuzz (w_rt w')).
  - apply rate_alike.
  - apply mode_alike.
Qed.
End alike.

(** ** Steps and runs *)

Section runs.
Context (P : program) (HP : disciplined P).

(** The call a stack is about to make, if any, is a steady one. *)
Definition steady_now (m : machine P) : bool :=
  match next_call (Next P m) with Some (_, a) => steady a | None => true end.

(** The first [n] steps make such calls only. *)
Fixpoint steady_run (n : nat) (m : machine P) : bool :=
  match n with
  | O => true
  | S n' => steady_now m && match step P m with Next _ m1 => steady_run n' m1 | _ => true end
  end.

(** Two machines that do the same. *)
Record alike (m m' : machine P) : Prop := {
  al_same : same_machine P m m';
  al_sched : sched_of (m_world P m) = sched_of (m_world P m');
  al_left : generous (w_os (m_world P m));
  al_right : generous (w_os (m_world P m'))
}.

Definition outcome_alike (r r' : step_result P) : Prop :=
  match r with
  | Next _ m1 => ∃ m1', r' = Next P m1' ∧ alike m1 m1'
  | Exit _ v => r' = Exit P v
  | Hang _ => r' = Hang P
  | Fault _ => False
  end.

(** The environment stays, so what remains to be shown of a step is what [Lockstep] shows. *)
Lemma alike_next m m' m1 m1' :
  alike m m' → step P m = Next P m1 → step P m' = Next P m1' → same_machine P m1 m1' →
  sched_of (m_world P m1) = sched_of (m_world P m1') → alike m1 m1'.
Proof using Type.
  intros [_ _ Hl Hr] E E' Hs Hsc. pose proof (step_env _ _ _ E) as [= Eo _]. pose proof (step_env _ _ _ E') as [= Eo' _].
  constructor; [done|done|by rewrite Eo|by rewrite Eo'].
Qed.

Lemma plain_step m m' :
  mach_ok P m → tid_room (m_world P m) → plain_now P m → alike m m' → outcome_alike (step P m) (step P m').
Proof using HP.
  intros Hm Hroom Hp HA. pose proof HA as [Hs Hsc _ _]. pose proof (tw_left _ _ (sm_world _ _ _ Hs)) as Hg.
  assert (Hd : doing (D:=any_sched) (S:=same_sched) P (2 ^ 64) m) by (apply step_doing; [done..|unfold tid_room in Hroom; lia]).
  pose proof (step_preserves P HP m Hm Hroom) as Hok. unfold outcome_alike.
  destruct (step P m) as [m1|v| |] eqn:E; [| |done|].
  - destruct (step_tracks P _ m m1 Hd Hg E) as (L & _ & _ & _ & H).
    destruct (H m' []) as (m1' & E' & Hs1 & Hsc1); [by split|]. exists m1'. split; [done|]. by eapply alike_next.
  - by eapply step_exit.
  - destruct (step_hangs P _ m Hd Hg E) as (L & H). by apply (H m' []).
Qed.

Lemma steady_step m m' :
  mach_ok P m → tid_room (m_world P m) → steady_now m = true → alike m m' → outcome_alike (step P m) (step P m').
Proof using HP.
  intros Hm Hroom Hst HA. pose proof HA as [Hs Hsc Hl Hr].
  destruct (next_call (Next P m)) as [[tid a]|] eqn:En.
  2: { apply plain_step; try done. unfold plain_now. by rewrite En. }
  destruct (plain a) eqn:Hp; [apply plain_step; try done; unfold plain_now; by rewrite En|].
  unfold steady_now in Hst. rewrite En in Hst. cbn in En.
  destruct (m_ctl P m (m_run P m)) as [[tid' [u| |]]|] eqn:Ec; try done. destruct (p_next P u) as [|a'] eqn:Hu; [done|].
  injection En as -> ->.
  assert (Ha : stack_alive (m_world P m) (m_run P m) tid = true).
  { pose proof (step_preserves P HP m Hm Hroom) as Hok. unfold step in Hok. rewrite Ec in Hok. by destruct (stack_alive _ _ _). }
  assert (Hgo : ∀ m', same_machine P m m' → step P m' = after_call P m' (m_run P m) tid u (api_call a (m_world P m')))
    by (apply (step_call P m tid (User P u) (api_call a) Ec Ha u); by eauto).
  destruct (steady_alike (m_world P m) (m_world P m') (conj (tw_view _ _ (sm_world _ _ _ Hs)) Hsc) Hl Hr a Hp Hst)
    as (r & w1 & w1' & E & E' & [Ev1 Es1] & Ep & Ep').
  pose proof (Hgo m (same_machine_refl P m (tw_left _ _ (sm_world _ _ _ Hs)))) as Em. rewrite E in Em. cbn in Em.
  pose proof (Hgo m' Hs) as Em'. rewrite E' in Em'. cbn in Em'.
  pose proof (step_env _ _ _ Em) as [= Eo _]. pose proof (step_env _ _ _ Em') as [= Eo' _]. rewrite Em, Em'.
  eexists. split; [done|]. eapply alike_next; [done|exact Em|exact Em'| |done].
  destruct Hs as [T Emem Er Ectl Eser]. constructor; cbn; try done; try congruence.
  - constructor; [done|by eapply grants_same; [exact Eo|exact Ep|apply T]|by eapply grants_same; [exact Eo'|exact Ep'|apply T]].
  - intros o. rewrite Emem. by apply insert_ctl.
Qed.

Lemma run_alike n : ∀ m m' b,
  mach_ok P m → rt_next_tid (w_rt (m_world P m)) ≤ b → 0 < b → b + Z.of_nat n < 2 ^ 64 - 1 →
  steady_run n m = true → alike m m' → outcome_alike (run P n m) (run P n m').
Proof using HP.
  induction n as [|n IH]; intros m m' b Hm Hb Hpos Hlt Hst HA; [by exists m'|].
  cbn [run steady_run] in *. apply andb_true_iff in Hst as [Hnow Hst].
  assert (Hroom : tid_room (m_world P m)) by (unfold tid_room; lia).
  pose proof (steady_step m m' Hm Hroom Hnow HA) as H. pose proof (step_preserves P HP m Hm Hroom) as Hok.
  destruct (step P m) as [m1|v| |]; cbn in H; [|by rewrite H|done|by rewrite H].
  destruct H as (m1' & -> & HA1). destruct Hok as [Hm1 Hb1]. apply (IH m1 m1' (b + 1)); try done; lia.
Qed.
End runs.

Lemma boot_alike P os os' fuel :
  generous os → generous os' → os_page_size os = os_page_size os' → 0 < os_page_size os →
  alike P (boot P os fuel) (boot P os' fuel).
Proof.
  intros Hg Hg' Ep Hpos. assert (Hpg : ∀ o, page_of (m_world P (boot P o fuel)) = os_page_size o) by done.
  constructor; [|done|done|done]. constructor; try done. constructor.
  - unfold view. by rewrite !Hpg, Ep.
  - constructor; [by rewrite Hpg|apply Hg|apply Hg].
  - constructor; [by rewrite Hpg, <- Ep|apply Hg'|apply Hg'].
Qed.

Lemma runs_alike P os os' fuel n :
  disciplined P → generous os → generous os' → os_page_size os = os_page_size os' → 0 < os_page_size os →
  Z.of_nat n < 2 ^ 64 - 2 → steady_run P n (boot P os fuel) = true →
  outcome_alike P (run P n (boot P os fuel)) (run P n (boot P os' fuel)).
Proof.
  intros HP Hg Hg' Ep Hpos Hn Hst. apply (run_alike P HP n _ _ 1); [apply boot_ok|cbn; lia|lia|lia|done|by apply boot_alike].
Qed.

(** C16. A whole execution is reproducible: run from its start on two operating
    systems that never refuse memory and have the same page size, a program
    whose green threads neither join nor shut down, and which uses no trace
    file, does the same step for step: the same memory, the same stacks at the
    same points with the same local state, the same threads and
    synchronisation objects, the same exit value.  The runtime may be
    initialised and shut down any number of times and used in any mode; a fuzzed
    schedule depends on nothing but the seed in the configuration, not on where
    memory was mapped, on the clock or on the files there are. *)
Theorem whole_run_determined P os os' fuel n :
  disciplined P → generous os → generous os' → os_page_size os = os_page_size os' → 0 < os_page_size os →
  Z.of_nat n < 2 ^ 64 - 2 → steady_run P n (boot P os fuel) = true →
  same_outcome P (run P n (boot P os fuel)) (run P n (boot P os' fuel)).
Proof.
  intros HP Hg Hg' Ep Hpos Hn Hst. pose proof (runs_alike P os os' fuel n HP Hg Hg' Ep Hpos Hn Hst) as H.
  destruct (run P n (boot P os fuel)); try done. destruct H as (m1' & E & H). exists m1'. split; [done|apply H].
Qed.

(** ** What a run on one system shows of the others *)

(** The machine in which main returns, and what it returns. *)
Fixpoint finish {P} (n : nat) (m : machine P) : option (machine P * Z) :=
  match n with
  | O => None
  | S n' => match step P m with Next _ m' => finish n' m' | Exit _ v => Some (m, v) | _ => None end
  end.

Lemma finish_run P n : ∀ (m m' : machine P) v, finish n m = Some (m', v) → steady_run P n m = true →
  ∃ k, (k < n)%nat ∧ run P k m = Next P m' ∧ step P m' = Exit P v ∧ steady_run P k m = true.
Proof.
  induction n as [|n IH]; intros m m' v E Hst; [done|]. cbn [finish steady_run] in E, Hst.
  apply andb_true_iff in Hst as [Hnow Hst]. destruct (step P m) as [m1|v'| |] eqn:Es; try done.
  - destruct (IH m1 m' v E Hst) as (k & Hk & Er & Ex & Hs). exists (S k). cbn [run steady_run]. rewrite Es, Hnow.
    split_and!; [lia|done..].
  - injection E as <- <-. exists O. split_and!; [lia|done..].
Qed.

(** The program ends within [n] steps on [sunny_os], without touching a trace
    file, with a memory and an exit value that [good] accepts. *)
Definition ends_well (P : program) (fuel n : nat) (good : p_mem P → Z → bool) : bool :=
  steady_run P n (boot P sunny_os fuel) &&
  match finish n (boot P sunny_os fuel) with Some (m, v) => good (m_mem P m) v | None => false end.

(** It then does so on every system that never refuses memory and has the same pages. *)
Lemma ends_everywhere P os fuel n good :
  disciplined P → generous os → os_page_size os = 4096 → Z.of_nat n < 2 ^ 64 - 2 → ends_well P fuel n good = true →
  ∃ k m v, run P k (boot P os fuel) = Next P m ∧ step P m = Exit P v ∧ good (m_mem P m) v = true.
Proof.
  intros HP Hg Ep Hn [Hst Hend]%andb_true_iff.
  assert (Hs : generous sunny_os) by (constructor; intros; try done; by eexists).
  destruct (finish n (boot P sunny_os fuel)) as [[m v]|] eqn:E; [|done].
  destruct (finish_run P n _ _ _ E Hst) as (k & Hk & Er & Ex & Hsk).
  pose proof (runs_alike P sunny_os os fuel k HP Hs Hg (eq_sym Ep) eq_refl ltac:(lia) Hsk) as H. rewrite Er in H.
  destruct H as (m' & E' & [Hsm _ _ _]). exists k, m', v. split_and!; [done|by eapply step_exit|].
  by rewrite <- (sm_mem _ _ _ Hsm).
Qed.

(** ** Witness *)

(** Another clock, other addresses, no files. *)
Definition other_os : OS :=
  mk_os 4096 (λ _, true) (λ n _, Some (0x7f0000000000 + Z.of_nat n * 0x1000000)) (λ _, true)
        (λ n, 7 * Z.of_nat n) (λ _, None) (λ _, false) (λ _ _, O) (λ _, false).

Lemma whole_run_determined_witness :
  same_outcome fuzzed (run fuzzed 40 (boot fuzzed sunny_os 64)) (run fuzzed 40 (boot fuzzed other_os 64)).
Proof.
  apply whole_run_determined.
  - by apply script_disciplined.
  - constructor; intros; [by eexists|reflexivity|reflexivity].
  - constructor; intros; [by eexists|reflexivity|reflexivity].
  - reflexivity.
  - reflexivity.
  - cbn. lia.
  - vm_compute. reflexivity.
Defined.
