(* ===== verification/Determinism.v ===== *)
(** * Deterministic replay

    The promise of the trace: a recorded run can be repeated.  A recorder is
    started at any moment of a run, the program goes on for [n] steps and the
    recorder is stopped.  Started again from that moment in replay mode, with
    the file the recorder left, the program does the same [n] steps: every
    scheduling decision is read from the file.

    The parts: the switches that are still ahead in a loaded trace ([upcoming]);
    replay as an instance of the interface [Follows] of Lockstep.v; and the
    recorder's log, in which the switches of a run stand in order
    ([moves_recorded]). *)

From S2P Require Import Prelude WaitQueue TraceFormat State Stack TraceBuffer Trace Runtime Replay.
From S2P Require Import Fuzz Sched Thread Mutex Sem Cond Lifecycle Recorder Machine Scripts Invariant Ops Switching.
From S2P Require Import Safety Exclusion Agree Lockstep.

(** ** Switches ahead *)

(** The thread that record [i] switches to, if it is a context switch. *)
Definition switch_of (data : list Z) (i : nat) : option Z :=
  if is_switch data i then Some (switch_target data i) else None.

Definition upcoming (r : gth_replay_state_t) : list Z :=
  omap (switch_of (rp_events r)) (seq (rp_current_idx r) (rp_event_count r - rp_current_idx r)).

Definition cursor_ok (r : gth_replay_state_t) : Prop := (rp_current_idx r ≤ rp_event_count r)%nat.

(** Records without switches do not count. *)
Lemma upcoming_skip data a n k :
  (k ≤ n)%nat → (∀ j, (a ≤ j < a + k)%nat → is_switch data j = false) →
  omap (switch_of data) (seq a n) = omap (switch_of data) (seq (a + k) (n - k)).
Proof.
  intros Hk Hno. replace n with (k + (n - k))%nat at 1 by lia. rewrite seq_app, omap_app.
  assert (E : omap (switch_of data) (seq a k) = []); [|by rewrite E].
  clear Hk. revert a Hno. induction k as [|k IH]; intros a Hno; [done|]. cbn.
  unfold switch_of at 1. rewrite Hno by lia. apply IH. intros j Hj. apply Hno. lia.
Qed.

Lemma upcoming_at r k ts :
  (rp_current_idx r ≤ k ≤ rp_event_count r)%nat →
  (∀ j, (rp_current_idx r ≤ j < k)%nat → is_switch (rp_events r) j = false) →
  upcoming (move_cursor r k ts) = upcoming r.
Proof.
  intros Hk Hno. unfold upcoming. cbn. symmetry.
  rewrite (upcoming_skip _ _ _ (k - rp_current_idx r)); [|lia|intros j Hj; apply Hno; lia].
  do 2 f_equal; lia.
Qed.

(** The next choice of replay: the first switch ahead. *)
Lemma replay_next_upcoming s r :
  cursor_ok r →
  let '(o, r') := gth_replay_next_thread s r in
  cursor_ok r' ∧
  match upcoming r with
  | [] => o = None ∧ upcoming r' = []
  | tid :: rest =>
      match gth_replay_find_thread s tid with
      | Some i => o = Some i ∧ upcoming r' = rest
      | None => o = None ∧ upcoming r' = tid :: rest
      end
  end.
Proof.
  intros Hc. destruct (replay_next_thread_cases s r Hc) as (k & ts & Hk & Hno & Hyes & ->).
  pose proof (upcoming_at r k ts Hk Hno) as Eu. unfold cursor_ok.
  destruct (Nat.ltb_spec k (rp_event_count r)) as [Hlt|Hge].
  - specialize (Hyes Hlt).
    assert (Er : upcoming r = switch_target (rp_events r) k ::
      upcoming (move_cursor r (S k) (rec_timestamp (record_at (rp_events r) k)))).
    { rewrite <- Eu. unfold upcoming. cbn. replace (rp_event_count r - k)%nat with (S (rp_event_count r - S k)) by lia.
      cbn. unfold switch_of at 1. by rewrite Hyes. }
    rewrite Er. destruct (gth_replay_find_thread s _); (split; [cbn; lia|split; [done|]]); [done|].
    etrans; [exact Eu|exact Er].
  - assert (Er : upcoming r = []).
    { rewrite <- Eu. unfold upcoming. cbn. by replace (rp_event_count r - k)%nat with O by lia. }
    rewrite Er. split; [cbn; lia|]. split; [done|]. by rewrite Eu.
Qed.

(** ** Replay follows a run by policy *)

(** The second machine replays a trace in which the choices ahead are [L]. *)
Definition replaying (L : list Z) (b b' : sched) : Prop :=
  policy_driven b ∧ sc_mode b' = GTH_MODE_REPLAY ∧
  ∃ r, sc_replay b' = Some r ∧ cursor_ok r ∧ upcoming r = L.

(** A ready thread is found by its id. *)
Lemma replay_find_ready w i t :
  world_ok w → rt_threads (w_rt w) !! i = Some t → is_ready t = true →
  gth_replay_find_thread (w_rt w) (th_tid t) = Some i.
Proof.
  intros Hw Ht Hr. apply is_ready_true in Hr. unfold gth_replay_find_thread.
  assert (He : is_empty t = false) by (unfold is_empty; by rewrite Hr).
  pose proof (tb_tid _ _ _ _ _ _ (wo_table _ Hw) i t Ht He).
  destruct (Z.eqb_spec (th_tid t) 0); [lia|]. rewrite (find_thread_unique w Hw i t) by done. cbn.
  by rewrite Ht; cbn; rewrite Hr.
Qed.

(** Nothing is found when no thread is ready and none is running. *)
Lemma replay_find_none s tid :
  (∀ i t, rt_threads s !! i = Some t → is_ready t = false) → none_running s → gth_replay_find_thread s tid = None.
Proof.
  intros Hr Hn. destruct (gth_replay_find_thread s tid) as [i|] eqn:E; [|done].
  apply replay_find_thread_Some in E as (t & Ht & _ & [H|H]); [|by apply Hn in Ht].
  specialize (Hr i t Ht). apply is_ready_true in H. congruence.
Qed.

(** The run by policy makes its choice, and replay makes the same. *)
Lemma replaying_pick w w' L o w1 :
  twin w w' → world_ok w → none_running (w_rt w) → gth_scheduler_pick_ready_thread_mode w = Done (o, w1) →
  replaying (chosen w o ++ L) (sched_of w) (sched_of w') →
  ∃ w1', gth_scheduler_pick_ready_thread_mode w' = Done (o, w1') ∧ replaying L (sched_of w1) (sched_of w1').
Proof.
  intros T Hw Hnr E (Hp & Hm & r & Er & Hc & Eu). cbn in Hm, Er. rewrite (pick_policy w Hp) in E. injection E as Eo <-.
  unfold gth_scheduler_pick_ready_thread_mode. rewrite Hm, Er.
  pose proof (replay_next_upcoming (w_rt w') r Hc) as Hnext. rewrite Eu in Hnext.
  pose proof (policy_choice_spec w Hw) as Hch. rewrite Eo in Hch.
  destruct (gth_replay_next_thread (w_rt w') r) as [o' r']. destruct Hnext as [Hc' Hnext].
  assert (Ho : o' = o ∧ upcoming r' = L).
  { destruct o as [i|].
    - destruct Hch as (t & Ht & Hr). cbn [chosen] in Hnext. rewrite Ht in Hnext. cbn [app] in Hnext.
      by rewrite <- (replay_find_twin _ _ _ (tw_view _ _ T)), (replay_find_ready w i t) in Hnext.
    - cbn [chosen app] in Hnext. destruct L as [|tid L]; [done|].
      by rewrite <- (replay_find_twin _ _ _ (tw_view _ _ T)), replay_find_none in Hnext. }
  destruct Ho as [-> Eu']. eexists. split; [done|]. split; [done|]. split; [done|]. by exists r'.
Qed.

#[export] Instance replaying_follows : Follows policy_driven replaying.
Proof.
  split.
  - intros w o w1 Hp. rewrite (pick_policy w Hp). by intros [= <- <-].
  - intros w w' L o w1 T Hw Hnr _. by apply replaying_pick.
  - intros w w' L _ Hp E. by rewrite (pick_policy w Hp) in E.
Qed.

(** ** Records as they are read back *)

Definition reread (r : gth_trace_record_t) : gth_trace_record_t := record_of_bytes (record_bytes r).

(** The thread that a record read from a file switches to. *)
Definition record_switch (r : gth_trace_record_t) : option Z :=
  if rec_type r =? GTH_EVT_CONTEXT_SWITCH then Some (Z.land (rec_data_raw r) 0xFFFFFFFF) else None.

(** A record whose bytes the loader accepts. *)
Definition stored (r : gth_trace_record_t) : Prop := gth_trace_validate_record (reread r) = true.

Lemma reread_bytes r : record_bytes (reread r) = record_bytes r.
Proof. apply record_bytes_of_bytes; [apply record_bytes_are_bytes|apply length_record_bytes]. Qed.

Lemma reread_checksum r : gth_trace_calc_checksum (reread r) = gth_trace_calc_checksum r.
Proof. unfold gth_trace_calc_checksum. by rewrite reread_bytes. Qed.

Lemma good_stored r : good_record r → reread r = r ∧ stored r.
Proof.
  intros [Hf Hv]. assert (E : reread r = r) by (by apply record_of_bytes_bytes). split; [done|].
  unfold stored. by rewrite E.
Qed.

(** Whatever is recorded has the checksum of its bytes. *)
Lemma event_stored ts e : stored (event_record ts e).
Proof.
  unfold stored, gth_trace_validate_record. apply Z.eqb_eq.
  assert (E : rec_checksum (reread (event_record ts e)) = rec_checksum (event_record ts e)).
  { apply (le_val_le_bytes 4). apply checksum_fits. }
  rewrite E, reread_checksum. unfold event_record, make_record. symmetry. apply checksum_ignores_checksum.
Qed.

Lemma reread_type r : fits 8 (rec_type r) → rec_type (reread r) = rec_type r.
Proof. apply (le_val_le_bytes 1). Qed.
Lemma reread_data r : fits 64 (rec_data_raw r) → rec_data_raw (reread r) = rec_data_raw r.
Proof. apply (le_val_le_bytes 8). Qed.

(** The low half of a packed pair. *)
Lemma packed_low a b :
  fits 32 b → Z.land (Z.lor (u64 (Z.shiftl a 32)) (Z.land b 0xFFFFFFFF)) 0xFFFFFFFF = b.
Proof.
  intros Hb. apply Z.bits_inj'. intros i Hi. change 0xFFFFFFFF with (Z.ones 32). unfold wrap.
  rewrite !Z.land_spec, Z.lor_spec, Z.land_spec. destruct (decide (i < 32)) as [Hlt|Hge].
  - rewrite Z.ones_spec_low, Z.mod_pow2_bits_low, Z.shiftl_spec_low by lia. cbn. by rewrite !andb_true_r.
  - rewrite Z.ones_spec_high, !andb_false_r by lia. symmetry. apply (fits_bits 32); [lia|done|lia].
Qed.

Lemma switch_record_view ts from tid :
  fits 32 tid → record_switch (reread (event_record ts (mk_event GTH_EVT_CONTEXT_SWITCH from from tid))) = Some tid.
Proof.
  intros Ht. set (e := mk_event _ _ _ _). unfold record_switch.
  rewrite reread_type by (by vm_compute). rewrite reread_data.
  - cbn. f_equal. by apply packed_low.
  - cbn. unfold pack_data. rewrite bool_decide_eq_true_2 by done. apply lor_fits; [lia|by apply wrap_fits|].
    assert (H : fits 32 (Z.land tid 0xFFFFFFFF)) by (apply land_fits; [lia|done]). unfold fits in *. lia.
Qed.

Lemma other_record_view ts type tid d1 d2 :
  fits 8 type → type ≠ GTH_EVT_CONTEXT_SWITCH →
  record_switch (reread (event_record ts (mk_event type tid d1 d2))) = None.
Proof.
  intros Hf Hne. unfold record_switch. rewrite reread_type by done. cbn [event_record make_record rec_type ev_type].
  by destruct (Z.eqb_spec type GTH_EVT_CONTEXT_SWITCH).
Qed.

(** ** The log of a run *)

(** The records [rs] were appended; their switches are [E]. *)
Definition logged (path : string) (log : list Z) (E : list Z) (w : world) : Prop := ∃ rs,
  recording path (log ++ concat (record_bytes <$> rs)) w ∧ Forall stored rs ∧
  omap (λ r, record_switch (reread r)) rs = E.

Lemma logged_refl path log w : recording path log w → logged path log [] w.
Proof. intros H. exists []. cbn. by rewrite app_nil_r. Qed.

Lemma logged_event path log e w :
  recording path log w →
  logged path log (option_list (record_switch (reread (now_record e w)))) (record_event e w).
Proof.
  intros H. exists [now_record e w]. cbn [fmap list_fmap concat]. rewrite app_nil_r.
  split_and!; [by apply recording_record|by constructor; [apply event_stored|]|].
  cbn. by destruct (record_switch _).
Qed.

Lemma recording_same path log w w' : books w' = books w → recording path log w → recording path log w'.
Proof. intros E []. injection E as E1 E2 E3 E4 E5 _. constructor; by rewrite ?E1, ?E2, ?E3, ?E4, ?E5. Qed.

Lemma recording_traced path log w : recording path log w → switch_traced w = true.
Proof.
  intros [_ _ _ (tr & fp & b & Et & Ha & _)]. unfold switch_traced, gth_trace_is_active. rewrite Et, Ha.
  apply orb_true_r.
Qed.

Lemma moves_recorded path E w w' :
  moves E w w' → Forall (fits 32) E → ∀ log, recording path log w → logged path log E w'.
Proof.
  induction 1 as [w w' Eb|type tid d1 d2 w Hf Hne|from tid w|E1 E2 w1 w2 w3 H1 IH1 H2 IH2]; intros HE log Hr.
  - apply logged_refl. by eapply recording_same.
  - pose proof (logged_event path log (mk_event type tid d1 d2) w Hr) as H.
    unfold now_record in H. by rewrite other_record_view in H.
  - rewrite (recording_traced _ _ _ Hr). inversion_clear HE as [|? ? Ht _].
    pose proof (logged_event path log (mk_event GTH_EVT_CONTEXT_SWITCH from from tid) w Hr) as H.
    unfold now_record in H. by rewrite switch_record_view in H.
  - apply Forall_app in HE as [HE1 HE2]. destruct (IH1 HE1 log Hr) as (rs1 & Hr1 & Hs1 & Ho1).
    destruct (IH2 HE2 _ Hr1) as (rs2 & Hr2 & Hs2 & Ho2). exists (rs1 ++ rs2).
    rewrite fmap_app, concat_app, app_assoc, omap_app, Ho1, Ho2. split_and!; [done|by apply Forall_app|done].
Qed.

(** ** The file *)

Lemma record_at_reread h rs i r : rs !! i = Some r → record_at (trace_file h rs) i = reread r.
Proof. intros Hi. unfold record_at. by rewrite (record_bytes_at h rs i r Hi). Qed.

Lemma count_records_stored h rs :
  good_header h → Forall stored rs → gth_replay_count_records (trace_file h rs) = length rs.
Proof.
  intros Hh Hrs. unfold gth_replay_count_records.
  destruct (Nat.ltb_spec (length (trace_file h rs)) GTH_TRACE_HEADER_SIZE) as [Hlt|_].
  { rewrite length_trace_file in Hlt. lia. }
  rewrite header_of_file, validate_good_header, record_count_file by (done || apply Hh). cbn [negb].
  destruct (forallb _ _) eqn:E; [done|]. exfalso. apply not_true_iff_false in E. apply E, forallb_seq.
  intros i Hi. destruct (rs !! i) as [r|] eqn:Hr; [|apply lookup_ge_None in Hr; lia].
  rewrite (record_at_reread h rs i r Hr). exact (Forall_lookup_1 _ _ _ _ Hrs Hr).
Qed.

Lemma omap_seq {A B} (g : nat → option B) (f : A → option B) (l : list A) : ∀ a,
  (∀ i x, l !! i = Some x → g (a + i)%nat = f x) → omap g (seq a (length l)) = omap f l.
Proof.
  induction l as [|x l IH]; intros a H; [done|]. cbn [length seq omap list_omap].
  assert (E : g a = f x) by (rewrite <- (H O x) by done; f_equal; lia). rewrite E.
  rewrite (IH (S a)); [done|]. intros i y Hi. rewrite <- (H (S i) y Hi). f_equal. lia.
Qed.

(** A freshly loaded trace has all its switches ahead. *)
Lemma upcoming_file h rs :
  upcoming (mk_replay (trace_file h rs) (length rs) 0 false 0) = omap (λ r, record_switch (reread r)) rs.
Proof.
  unfold upcoming. cbn [rp_events rp_current_idx rp_event_count]. rewrite Nat.sub_0_r. apply omap_seq. intros i r Hi.
  cbn. unfold switch_of, is_switch, switch_target, record_switch. by rewrite (record_at_reread h rs i r Hi).
Qed.

Lemma replay_from_returns path h rs w :
  rt_initialized (w_rt w) = true → rt_replay (w_rt w) = None → os_reads (w_os w) → path ≠ EmptyString →
  good_header h → Forall stored rs → rs ≠ [] →
  w_files w !! path = Some (trace_file h rs) → Z.of_nat (length (trace_file h rs)) ≤ GTH_REPLAY_MAX_FILE_SIZE →
  returns (gth_replay_from (Some path)) w (λ st w', st = GTH_OK ∧ view w' = view w ∧ w_os w' = w_os w ∧
    page_of w' = page_of w ∧ rt_mode (w_rt w') = GTH_MODE_REPLAY ∧
    rt_replay (w_rt w') = Some (mk_replay (trace_file h rs) (length rs) 0 false 0)).
Proof.
  intros Hini Hrep Hrd Hpath Hh Hrs Hne Hf Hmax. unfold returns.
  rewrite (replay_from_loads path (trace_file h rs) (length rs) w); try done.
  - rewrite length_trace_file. lia.
  - by apply count_records_stored.
  - by destruct rs.
Qed.

(** ** The theorem *)

(** A machine whose world changed only for the recorder. *)
Lemma mach_ok_untrace P m w : mach_ok P m → trace_only (m_world P m) w → mach_ok P (in_world P m w).
Proof.
  intros [Hw Hex Hs] Ht. pose proof (proj1 Ht) as E.
  assert (Hw' : world_ok w) by (by apply (trace_only_ok None _ _ Hw Ht)).
  assert (Hcur : ∀ c, cur_ok c (w_rt (m_world P m)) → cur_ok c (w_rt w)).
  { intros c [H1 H2]. constructor; rewrite ?(ut_threads _ _ E), ?(ut_current_tid _ _ E); done. }
  assert (Hsave : ∀ j t, slot_saved P m j t → slot_saved P (in_world P m w) j t) by done.
  constructor; [done| |].
  - unfold executing in *. cbn [in_world m_run m_world m_ctl]. destruct (m_run P m) as [|c].
    + destruct Hex as (mode & Ec & Hmode). exists mode. split; [done|]. destruct mode; [by apply Hcur| |done].
      destruct Hmode as [Hk Hn]. split; [done|]. intros i t. rewrite (ut_threads _ _ E). apply Hn.
    + destruct Hex as (Hc & Hf & Hmain & Hmode). split_and!; [by apply Hcur| | |by rewrite (ut_current_tid _ _ E)].
      * intros i t. rewrite (ut_threads _ _ E). apply Hf.
      * unfold main_saved in *. cbn [in_world m_world m_ctl]. by rewrite (ut_scheduler_ctx _ _ E).
  - cbn [in_world m_world m_run]. rewrite (ut_threads _ _ E). intros j t Ht' Hc Hne. by apply Hsave, Hs.
Qed.

(** The log that [gth_trace_start] begins is a header and one record without
    switches. *)
Lemma recording_file path h r0 rs r1 w :
  w_files w !! path = Some ((header_bytes h ++ record_bytes r0) ++ concat (record_bytes <$> rs) ++ record_bytes r1) →
  w_files w !! path = Some (trace_file h (r0 :: rs ++ [r1])).
Proof.
  intros ->. unfold trace_file. f_equal. cbn [fmap list_fmap concat]. rewrite fmap_app, concat_app. cbn.
  by rewrite app_nil_r, <- !app_assoc.
Qed.

Lemma switch_free r e :
  good_record r → record_view r = event_view e → ev_type e ≠ GTH_EVT_CONTEXT_SWITCH → record_switch (reread r) = None.
Proof.
  intros Hg Ev Hne. rewrite (proj1 (good_stored r Hg)). injection Ev as Et _ _. unfold record_switch. rewrite Et.
  by destruct (Z.eqb_spec (ev_type e) GTH_EVT_CONTEXT_SWITCH).
Qed.

Section replay.
Context (P : program) (HP : disciplined P) (path : string).
Context (m : machine P) (b : Z) (Hm : mach_ok P m) (Hb : rt_next_tid (w_rt (m_world P m)) ≤ b) (Hpos : 0 < b).
Context (Hg : grants (m_world P m)).

(** The run with the recorder on, and the file it leaves. *)
Lemma recorded_run wr n m1 h r0 :
  b + Z.of_nat n < 2 ^ 32 → trace_only (m_world P m) wr → policy_driven (sched_of (m_world P m)) →
  good_header h → good_record r0 → record_view r0 = event_view init_event →
  recording path (header_bytes h ++ record_bytes r0) wr →
  plain_run P n (in_world P m wr) → run P n (in_world P m wr) = Next P m1 →
  returns gth_trace_stop (m_world P m1) (λ st ws, st = GTH_OK ∧ ∃ rs E,
    w_files ws !! path = Some (trace_file h rs) ∧ Forall stored rs ∧ rs ≠ [] ∧
    omap (λ r, record_switch (reread r)) rs = E ∧
    ∀ m', lockstep (S:=replaying) P E (in_world P m wr) m' →
      ∃ m1', run P n m' = Next P m1' ∧ lockstep (S:=replaying) P [] m1 m1').
Proof using All.
  intros Hlt Ht Hp Hh Hr0 Hv0 Hrec Hpl Hrun. pose proof (proj1 Ht) as Eu.
  pose proof (mach_ok_untrace P m wr Hm Ht) as Hmr.
  destruct (run_tracks (S:=replaying) P HP (2 ^ 32) n (in_world P m wr) m1 b) as (E & M1 & B1 & _ & H);
    [done|cbn; by rewrite (ut_next_tid _ _ Eu)|done|lia|lia|by eapply grants_untrace| |done|done|].
  { cbn [in_world m_world]. by rewrite (sched_untrace _ _ Eu). }
  assert (HE : Forall (fits 32) E) by (eapply Forall_impl; [exact B1|]; unfold fits; cbn; intros; lia).
  destruct (moves_recorded path E _ _ M1 HE _ Hrec) as (rs & Hrec1 & Hst & Ho).
  eapply returns_mono; [by apply trace_stop_returns|]. intros st ws (-> & _ & r1 & Hr1 & Hv1 & Hf). split; [done|].
  exists (r0 :: rs ++ [r1]), E. rewrite <- app_assoc in Hf. apply recording_file in Hf. split_and!; [done| |done| |].
  - constructor; [by apply good_stored|]. apply Forall_app. split; [done|]. constructor; [by apply good_stored|done].
  - cbn [omap list_omap]. rewrite (switch_free r0 init_event) by done. rewrite omap_app, Ho.
    cbn. rewrite (switch_free r1 shutdown_event) by done. apply app_nil_r.
  - intros m' Hl. apply H. by rewrite app_nil_r.
Qed.
End replay.

(** C3. A recorded run can be repeated.  At any moment of any program whose
    green threads neither join nor shut down, start the recorder, let the
    program make [n] steps (without calls about tracing, replay, modes or the
    life of the runtime) and stop it: both succeed.  Go back to that moment, in
    any world that looks the same to the program and holds the file the
    recorder left, and start replay: it succeeds, and the program's next [n]
    steps are the recorded ones: every stack ends at the same point with the
    same local state, and memory, threads and synchronisation objects are the
    same.  All recorded switches have then been used.  The file must not exceed
    the 256 MiB that the loader accepts, thread ids must fit the 32 bits a
    record has for them, and the operating system must not fail. *)
Theorem deterministic_replay P os fuel k m path :
  disciplined P → run P k (boot P os fuel) = Next P m → Z.of_nat k < 2 ^ 32 → path ≠ EmptyString →
  rt_initialized (w_rt (m_world P m)) = true → rt_trace (w_rt (m_world P m)) = None →
  rt_mode (w_rt (m_world P m)) = GTH_MODE_NORMAL →
  os_works (w_os (m_world P m)) → grants (m_world P m) →
  returns (gth_trace_start (Some path)) (m_world P m) (λ st wr, st = GTH_OK ∧
    ∀ n m1, Z.of_nat k + Z.of_nat n < 2 ^ 32 - 1 → plain_run P n (in_world P m wr) →
      run P n (in_world P m wr) = Next P m1 →
    returns gth_trace_stop (m_world P m1) (λ st ws, st = GTH_OK ∧ ∃ data, w_files ws !! path = Some data ∧
      ∀ w', twin (m_world P m) w' → rt_replay (w_rt w') = None → os_reads (w_os w') →
        w_files w' !! path = Some data → Z.of_nat (length data) ≤ GTH_REPLAY_MAX_FILE_SIZE →
      returns (gth_replay_from (Some path)) w' (λ st wp, st = GTH_OK ∧
        ∃ m1', run P n (in_world P m wp) = Next P m1' ∧ same_machine P m1 m1' ∧
          ∃ r, rt_replay (w_rt (m_world P m1')) = Some r ∧ upcoming r = []))).
Proof.
  intros HP Ek Hk Hpath Hini Htr Hmode Hos Hg.
  pose proof (run_preserves P HP k (boot P os fuel) 1 (boot_ok P os fuel)) as Hm.
  rewrite Ek in Hm. destruct Hm as [Hm Hb]; [cbn; lia..|].
  assert (Hp : policy_driven (sched_of (m_world P m))) by (split; cbn; by rewrite Hmode).
  eapply returns_mono; [apply returns_and|].
  { apply (trace_start_returns path); try done. by rewrite Hmode. }
  { apply trace_start_frame, Hm. }
  intros st wr [(-> & h & r0 & Hh & Hr0 & Hv0 & Hrec) Ht]. pose proof (proj1 Ht) as Eu. split; [done|].
  intros n m1 Hlt Hpl Hrun. eapply returns_mono.
  { apply (recorded_run P HP path m (1 + Z.of_nat k) Hm Hb ltac:(lia) Hg wr n m1 h r0); try done. lia. }
  intros st ws (-> & rs & E & Hf & Hst & Hne & Ho & H). split; [done|]. exists (trace_file h rs). split; [done|].
  intros w' T Hrep Hrd Hf' Hsz. eapply returns_mono.
  { apply (replay_from_returns path h rs w'); try done. by rewrite <- (vw_initialized _ _ (tw_view _ _ T)). }
  intros st wp (-> & Ev & Eos & Epg & Emode & Erep). split; [done|].
  destruct (H (in_world P m wp)) as (m1' & Erun & Hs & _ & _ & r & Er & _ & Er0); [|by exists m1'; eauto].
  split.
  - constructor; try done. cbn [in_world m_world]. constructor.
    + rewrite (view_untrace _ _ Eu), Ev. apply T.
    + by eapply grants_untrace.
    + apply (grants_same w'); [done|done|apply T].
  - cbn [in_world m_world]. split; [by rewrite (sched_untrace _ _ Eu)|]. split; [done|].
    eexists. split; [exact Erep|]. split; [unfold cursor_ok; cbn; lia|]. by rewrite upcoming_file.
Qed.

(** ** Witness *)

(** The world in which a computation ends. *)
Definition world_after {A} (c : M A) (w : world) : world := match c w with Done (_, w1) => w1 | _ => w end.

Lemma returns_after {A} (c : M A) w Q : returns c w Q → ∃ a, c w = Done (a, world_after c w) ∧ Q a (world_after c w).
Proof. unfold returns, world_after. destruct (c w) as [[a w1]| |]; [eauto|done..]. Qed.

(** [handoff] is recorded for twelve steps ... *)
Definition recorded_start : machine handoff :=
  in_world handoff handoff_4 (world_after (gth_trace_start (Some "t"%string)) (m_world handoff handoff_4)).
Definition recorded_end : machine handoff := machine_after 12 recorded_start.
Definition recorded_file : list Z :=
  default [] (w_files (world_after gth_trace_stop (m_world handoff recorded_end)) !! "t"%string).

(** ... and the file is there when replay starts. *)
Definition replay_world : world :=
  {| (m_world handoff handoff_4) with w_files := {[ "t"%string := recorded_file ]} |}.

Lemma twin_files w fs : grants w → twin w {| w with w_files := fs |}.
Proof. intros [H1 H2 H3]. by constructor. Qed.

Lemma files_os w fs : w_os {| w with w_files := fs |} = w_os w.
Proof. done. Qed.

Lemma handoff_4_os : w_os (m_world handoff handoff_4) = sunny_os.
Proof. reflexivity. Qed.

Lemma replay_world_twin : twin (m_world handoff handoff_4) replay_world.
Proof. apply twin_files, handoff_4_grants. Qed.

Lemma replay_world_idle : rt_replay (w_rt replay_world) = None.
Proof. vm_compute. reflexivity. Qed.

Lemma replay_world_reads : os_reads (w_os replay_world).
Proof. unfold replay_world. rewrite files_os, handoff_4_os. split; reflexivity. Qed.

Lemma replay_world_file : w_files replay_world !! "t"%string = Some recorded_file.
Proof. apply lookup_singleton_eq. Qed.

Lemma recorded_file_small : Z.of_nat (length recorded_file) ≤ GTH_REPLAY_MAX_FILE_SIZE.
Proof. apply Z.leb_le. vm_compute. reflexivity. Qed.

Lemma deterministic_replay_witness : ∃ m1,
  run handoff 12 (in_world handoff handoff_4 (world_after (gth_replay_from (Some "t"%string)) replay_world)) =
    Next handoff m1 ∧ same_machine handoff recorded_end m1.
Proof.
  pose proof (deterministic_replay handoff sunny_os 0 4 handoff_4 "t"%string handoff_disciplined) as H.
  apply returns_after in H as (st & _ & _ & H).
  2: { apply machine_after_eq. vm_compute. reflexivity. }
  2: { cbn. lia. }
  2: { discriminate. }
  2: { vm_compute. reflexivity. }
  2: { vm_compute. reflexivity. }
  2: { vm_compute. reflexivity. }
  2: { rewrite handoff_4_os. split; [intros n k; cbn; lia|]. split; reflexivity. }
  2: { apply handoff_4_grants. }
  specialize (H 12%nat recorded_end). apply returns_after in H as (st1 & _ & _ & data & Ed & H).
  2: { cbn. lia. }
  2: { apply plain_check_run. vm_compute. reflexivity. }
  2: { apply machine_after_eq. vm_compute. reflexivity. }
  assert (Edata : recorded_file = data) by (unfold recorded_file; rewrite Ed; reflexivity).
  specialize (H replay_world). apply returns_after in H as (st2 & _ & _ & m1 & Hrun & Hs & _).
  - exists m1. split; [exact Hrun|exact Hs].
  - apply replay_world_twin.
  - apply replay_world_idle.
  - apply replay_world_reads.
  - rewrite <- Edata. apply replay_world_file.
  - rewrite <- Edata. apply recorded_file_small.
Defined.
