(* ===== verification/Setup.v ===== *)
(** * The books of the runtime

    The configuration, the scheduler's mode and the counters of the runtime
    change in few places: [setup] in initialisation, shutdown and the mode
    functions, the number of context switches in [gth_scheduler_run_next], the
    next thread id in creation.  Everything else keeps them, which [Books]
    says of any relation that only looks at them. *)

From S2P Require Import Prelude WaitQueue TraceFormat State Stack TraceBuffer Trace Runtime Replay.
From S2P Require Import Fuzz Sched Thread Mutex Sem Cond Lifecycle Machine Scripts Invariant Ops Switching Safety.
From S2P Require Import SyncSpec Frame Exclusion Waiting ThreadSpec Slots Agree.

Definition setup (w : world) : OS * Z * bool * gth_runtime_config_t * gth_scheduler_mode_t :=
  (w_os w, page_of w, rt_initialized (w_rt w), rt_config (w_rt w), rt_mode (w_rt w)).

Definition counts (w : world) : Z * Z := (rt_context_switches (w_rt w), rt_next_tid (w_rt w)).

Class Books (R : world → world → Prop) : Prop := {
  bk_preorder :: PreOrder R;
  bk_same w w' : setup w' = setup w → counts w' = counts w → R w w'
}.

Definition same_books (w w' : world) : Prop := setup w' = setup w ∧ counts w' = counts w.
(** Creation counts ids, the scheduler switches. *)
Definition same_switches (w w' : world) : Prop := setup w' = setup w ∧ rt_context_switches (w_rt w') = rt_context_switches (w_rt w).
Definition same_setup (w w' : world) : Prop := setup w' = setup w.

#[export] Instance same_books_books : Books same_books.
Proof. split; [split|by split]; [by intros w|]. intros w1 w2 w3 [] []. split; congruence. Qed.
#[export] Instance same_switches_books : Books same_switches.
Proof. split; [split|intros w w' E1 [= E2 _]; by split]; [by intros w|]. intros w1 w2 w3 [] []. split; congruence. Qed.
#[export] Instance same_setup_books : Books same_setup.
Proof. split; [split|by intros w w' E1 _]; [by intros w|]. intros w1 w2 w3 E1 E2. unfold same_setup in *. congruence. Qed.

Ltac booked := first [done | reflexivity | by apply bk_same].

Section books.
Context {R : world → world → Prop} `{!Books R}.

Lemma book_untrace w w' : untrace w' = untrace w → R w w'.
Proof using All.
  intros E. apply bk_same.
  - unfold setup. by rewrite (ut_os _ _ E), (untrace_page _ _ E), (ut_initialized _ _ E), (ut_config _ _ E), (ut_mode _ _ E).
  - unfold counts. by rewrite (ut_context_switches _ _ E), (ut_next_tid _ _ E).
Qed.

Lemma book_record type tid d1 d2 w : R w (gth_trace_record type tid d1 d2 w).
Proof using All. apply book_untrace, untrace_record. Qed.

Lemma books_record type tid d1 d2 : frames R (modify (gth_trace_record type tid d1 d2)).
Proof using All. apply frames_modify, book_record. Qed.

Lemma books_upd_thread i f : frames R (modify (upd_rt (upd_thread i f))).
Proof using All. apply frames_modify. intros w. booked. Qed.

Lemma books_upd_rt f :
  (∀ s, (rt_initialized (f s), rt_config (f s), rt_mode (f s), rt_context_switches (f s), rt_next_tid (f s)) =
        (rt_initialized s, rt_config s, rt_mode s, rt_context_switches s, rt_next_tid s)) → frames R (modify (upd_rt f)).
Proof using All.
  intros H. apply frames_modify. intros w. specialize (H (w_rt w)). injection H as E1 E2 E3 E4 E5.
  apply bk_same; [unfold setup, page_of|unfold counts]; cbn; congruence.
Qed.

Lemma books_block : frames R gth_thread_block.
Proof using All.
  intros w. unfold gth_thread_block. destruct (negb _); [booked|]. destruct (_ =? _); [booked|].
  destruct (gth_runtime_find_thread _ _) as [i|]; [|booked]. cbn beta zeta.
  etrans; [apply (book_record GTH_EVT_THREAD_BLOCK (rt_current_tid (w_rt w)) GTH_BLOCK_REASON_NONE 0 w)|]. booked.
Qed.
End books.

Ltac books_step :=
  lazymatch goal with
  | |- frames _ (ret _) => apply frames_ret
  | |- frames _ (ret_status _) => apply frames_ret
  | |- frames _ (gets _) => apply frames_gets
  | |- frames _ (modify (upd_rt (upd_thread _ _))) => apply books_upd_thread
  | |- frames _ (modify (upd_rt _)) => apply books_upd_rt; intros;
      unfold gth_runtime_account_state_change; repeat case_match; done
  | |- frames _ (modify (gth_trace_record _ _ _ _)) => apply books_record
  | |- frames _ (modify _) => apply frames_modify; intros; booked
  | |- frames _ (thread_at _) => apply frames_thread_at
  | |- frames _ (deref _) => apply frames_deref
  | |- frames _ gth_thread_current_slot_index => apply frames_slot_index
  | |- frames _ gth_thread_block => apply books_block
  | |- frames _ (bind _ _) => apply frames_bind; [|intros ?]
  | |- frames _ (if _ then _ else _) => apply frames_if
  | |- frames _ (match ?x with _ => _ end) => destruct x
  end.
Ltac books_tac := autounfold with keeps; cbv zeta; repeat books_step.

Section operations.
Context {R : world → world → Prop} `{!Books R}.

Lemma books_unblock i : frames R (gth_thread_unblock_slot i).
Proof using All.
  intros w. unfold gth_thread_unblock_slot. destruct (negb _); [booked|]. destruct (_ <=? _)%nat; [booked|].
  apply frames_done. books_tac.
Qed.

Lemma books_lock_acquire m : frames R (lock_acquire m).
Proof using All. unfold lock_acquire. books_tac. Qed.

Lemma books_lock_wait fuel m my_slot : frames R (lock_wait fuel m my_slot).
Proof using All.
  induction fuel as [|fuel IH]; [by intros w|]. cbn [lock_wait]. unfold mutex_enqueue.
  books_tac; [apply books_lock_acquire|apply IH].
Qed.

Lemma books_lock m : frames R (gth_mutex_lock m).
Proof using All. unfold gth_mutex_lock, mutex_enqueue. books_tac; [apply books_lock_wait|apply books_lock_acquire]. Qed.

Lemma books_unlock m : frames R (gth_mutex_unlock m).
Proof using All. unfold gth_mutex_unlock. books_tac. apply books_unblock. Qed.

Lemma books_broadcast_loop n : ∀ c k, frames R (broadcast_loop n c k).
Proof using All.
  induction n as [|n IH]; intros c k; cbn [broadcast_loop]; books_tac; try apply IH; try apply books_unblock. by intros w.
Qed.

Lemma books_cancel tid : frames R (gth_thread_cancel tid).
Proof using All.
  intros w. unfold gth_thread_cancel. destruct (negb _); [booked|]. destruct (_ =? _); [booked|].
  destruct (gth_runtime_find_thread _ _) as [i|]; [|booked]. apply frames_done. books_tac; [apply books_unblock|].
  all: unfold gth_runtime_set_thread_state; books_tac.
Qed.

Lemma books_api a : about_objects a = true → frames R (api_call a).
Proof using All.
  intros Ha. destruct a; try done; cbn [api_call]; try apply frames_returning.
  - unfold gth_mutex_init. books_tac.
  - apply books_lock.
  - unfold gth_mutex_trylock. books_tac.
  - apply books_unlock.
  - unfold gth_mutex_destroy. books_tac.
  - unfold gth_sem_init. books_tac.
  - unfold gth_sem_wait, mark_blocked. books_tac.
  - unfold gth_sem_post. books_tac. apply books_unblock.
  - unfold gth_sem_destroy. books_tac.
  - unfold gth_cond_init. books_tac.
  - unfold gth_cond_wait, cond_wait_undo, mark_blocked. books_tac. apply books_unlock.
  - unfold gth_cond_signal. books_tac. apply books_unblock.
  - unfold gth_cond_broadcast. books_tac. apply books_broadcast_loop.
  - unfold gth_cond_destroy. books_tac.
Qed.

Lemma books_resume k : match k with KRunNext _ _ => False | _ => True end → frames R (resume_frame k).
Proof using All.
  destruct k as [|m my_slot|m| |prev kr]; intros H; cbn [resume_frame]; try done; try apply frames_ret.
  - apply books_lock_wait.
  - apply books_lock.
Qed.

Lemma books_trampoline c v : frames R (trampoline_exit c v).
Proof using All. unfold trampoline_exit. books_tac. Qed.

Lemma books_stack_free stk w : R w (gth_stack_free stk w).
Proof using All. unfold gth_stack_free, munmap. destruct (_ && _); booked. Qed.

Lemma books_join_finish i : frames R (join_finish i).
Proof using All.
  unfold join_finish, gth_thread_release_slot, destroy_context. books_tac. apply frames_modify, books_stack_free.
Qed.

Lemma books_join_after tid st : frames R (join_after_run_until tid (inl st)).
Proof using All.
  intros w. unfold join_after_run_until. destruct st; try (cbn; reflexivity).
  destruct (gth_runtime_find_thread _ _) as [i|]; [|cbn; reflexivity]. apply (books_join_finish i w).
Qed.
End operations.

(** ** The scheduler *)

Lemma pick_books {R} `{!Books R} : frames R gth_scheduler_pick_ready_thread_mode.
Proof.
  assert (Hp : ∀ w o s', gth_scheduler_pick_ready_thread (w_rt w) = (o, s') →
    setup {| w with w_rt := s' |} = setup w ∧ counts {| w with w_rt := s' |} = counts w).
  { intros w o s' E. unfold gth_scheduler_pick_ready_thread in E. destruct (_ =? _).
    - by destruct (rr_scan _ _ _ _) as [i|]; injection E as <- <-.
    - by injection E as <- <-. }
  assert (H : frames R pick_normal_or_fuzzed).
  { intros w. unfold pick_normal_or_fuzzed. destruct (gth_scheduler_pick_ready_thread _) as [o s'] eqn:E.
    destruct (Hp w o s' E) as [E1 E2]. 
    assert (Hw : ∀ f, R w (set_fuzz f {| w with w_rt := s' |}) ∧ R w {| w with w_rt := s' |}).
    { intros f. split; apply bk_same; first [exact E1|exact E2]. }
    destruct (rt_mode s'); try apply (Hw None). destruct (rt_fuzz s') as [f|]; [|apply (Hw None)].
    destruct (gth_fuzz_pick_thread _ _ _ _) as [[i f2]| |]; [apply Hw|done|done]. }
  intros w. unfold gth_scheduler_pick_ready_thread_mode. specialize (H w).
  destruct (rt_mode (w_rt w)) eqn:Em; try exact H. destruct (rt_replay (w_rt w)) as [r|]; [|exact H].
  destruct (gth_replay_next_thread _ _). booked.
Qed.

(** The counter of context switches after a call that ended in [r]. *)
Definition switched (r : result) (n : Z) : Z := match r with Swap SchedCtx _ _ => u64 (n + 1) | _ => n end.

Definition tallied (w : world) (r : result) (w' : world) : Prop :=
  setup w' = setup w ∧ counts w' = (switched r (rt_context_switches (w_rt w)), rt_next_tid (w_rt w)).

Lemma tallied_books w x w' : same_books w w' → tallied w (Return x) w'.
Proof. by intros [E1 E2]. Qed.

Lemma run_next_tally k w :
  match gth_scheduler_run_next k w with
  | Done (inl _, w') => same_books w w'
  | Done (inr sw, w') => tallied w sw w'
  | _ => True
  end.
Proof.
  unfold gth_scheduler_run_next. destruct (negb _); [by split|]. unfold bind at 1.
  pose proof (pick_books (R := same_books) w) as Hp. destruct (gth_scheduler_pick_ready_thread_mode w) as [[[i|] w1]| |]; try done.
  unfold bind, thread_at, deref. destruct (rt_threads (w_rt w1) !! i) as [t|]; [|done]. cbn beta zeta iota.
  set (w2 := if _ : bool then _ else w1).
  assert (E2 : same_books w1 w2) by (unfold w2, gth_trace_context_switch; destruct (_ || _); [apply book_record|by split]).
  clearbody w2. destruct Hp as [P1 P2], E2 as [Q1 Q2]. unfold tallied. rewrite <- P1, <- Q1.
  injection P2 as S1 N1. injection Q2 as S2 N2. split; [done|]. unfold counts. cbn. by rewrite S2, S1, N2, N1.
Qed.

Lemma join_after_tally tid st w r w' :
  join_after_run_until tid (inl st) w = Done (r, w') → same_books w w' ∧ ∃ x, r = Return x.
Proof.
  intros E. pose proof (books_join_after (R := same_books) tid st w) as H. rewrite E in H. split; [done|].
  unfold join_after_run_until in E. destruct st; try (injection E as <- <-; by eexists).
  destruct (gth_runtime_find_thread (w_rt w) tid) as [j|]; [|injection E as <- <-; by eexists].
  unfold join_finish, bind at 1 in E. destruct (thread_at j w) as [[t1 w1]| |]; [|done..].
  unfold bind in E. destruct (gth_thread_release_slot j w1) as [[[] w2]| |]; [|done..]. injection E as <- _. by eexists.
Qed.

Lemma join_loop_tally tid i w r w' :
  (x <- run_until_loop tid i;; join_after_run_until tid x) w = Done (r, w') → tallied w r w'.
Proof.
  unfold run_until_loop, bind at 1 2, thread_at, deref. destruct (rt_threads (w_rt w) !! i) as [t|]; [|done].
  destruct (gth_thread_is_terminal (th_state t)).
  - unfold ret. intros [H [x ->]]%join_after_tally. by apply tallied_books.
  - unfold bind. pose proof (run_next_tally (InJoin tid i) w) as H.
    destruct (gth_scheduler_run_next (InJoin tid i) w) as [[[st|sw] w1]| |]; try done.
    + intros E. assert (Hr : ∃ st', join_after_run_until tid (inl st') w1 = Done (r, w')) by (destruct st; eexists; exact E).
      destruct Hr as [st' [H1 [x ->]]%join_after_tally]. apply tallied_books. by etrans.
    + intros [= <- <-]. exact H.
Qed.

Lemma join_tally tid w r w' : gth_thread_join tid w = Done (r, w') → tallied w r w'.
Proof.
  unfold gth_thread_join. intros E. assert (Hw : ∀ st, ret_status st w = Done (r, w') → tallied w r w').
  { intros st [= <- <-]. by apply tallied_books. }
  destruct (negb (rt_initialized _)) eqn:Hini; [by eapply Hw|]. destruct (tid =? 0) eqn:Hz; [by eapply Hw|].
  destruct (tid =? rt_current_tid _) eqn:Hc; [by eapply Hw|].
  destruct (gth_runtime_find_thread (w_rt w) tid) as [i|] eqn:Hf; [|by eapply Hw].
  unfold bind at 1, thread_at, deref in E. destruct (rt_threads (w_rt w) !! i) as [t|] eqn:Ht; [|done].
  destruct (gth_thread_is_terminal (th_state t)); cbn [negb] in E.
  - assert (E' : join_after_run_until tid (inl GTH_OK) w = Done (r, w')) by (unfold join_after_run_until; by rewrite Hf).
    apply join_after_tally in E' as [H [x ->]]. by apply tallied_books.
  - apply (join_loop_tally tid i). revert E. unfold bind at 1, gth_scheduler_run_until. rewrite Hini, Hf.
    by rewrite Hc.
Qed.

Lemma yield_tally w r w' : gth_thread_yield w = Done (r, w') → tallied w r w'.
Proof.
  unfold gth_thread_yield. intros E. assert (Hw : ∀ st, ret_status st w = Done (r, w') → tallied w r w').
  { intros st [= <- <-]. by apply tallied_books. }
  destruct (negb _); [by eapply Hw|]. destruct (_ =? _).
  - unfold bind in E. pose proof (run_next_tally InYield w) as H.
    destruct (gth_scheduler_run_next InYield w) as [[[st|sw] w1]| |]; [|..|done|done]; injection E as <- <-.
    + by apply tallied_books.
    + exact H.
  - destruct (gth_runtime_find_thread _ _) as [i|]; [|by eapply Hw]. injection E as <- <-. unfold gth_trace_thread_yield.
    pose proof (book_record (R := same_books) GTH_EVT_THREAD_YIELD (rt_current_tid (w_rt w)) 0 0 w) as [H1 H2].
    split; [exact H1|exact H2].
Qed.

Lemma resume_main_tally prev k w r w' : resume_frame (KRunNext prev k) w = Done (r, w') → tallied w r w'.
Proof.
  destruct k as [|tid i]; cbn [resume_frame]; unfold bind at 1, modify.
  - intros [= <- <-]. by split.
  - intros E%join_loop_tally. exact E.
Qed.

(** ** Creation *)

Lemma books_page_size {R} `{!Books R} : frames R gth_page_size.
Proof.
  intros w. unfold gth_page_size. destruct (w_page_size w =? 0) eqn:E; [|booked]. cbv zeta.
  destruct (0 <? _); [|booked].
  apply bk_same; [|done]. unfold setup, page_of. cbn. rewrite E. by destruct (Z.eqb_spec (os_page_size (w_os w)) 0).
Qed.

Lemma books_stack_allocate {R} `{!Books R} size : frames R (gth_stack_allocate size).
Proof.
  unfold gth_stack_allocate. apply frames_bind; [apply books_page_size|]. intros p. books_tac.
  - intros w. unfold mmap, next_tick. destruct (os_mmap _ _ _); booked.
  - intros w. unfold mprotect, next_tick. cbn. destruct (os_mprotect _ _); booked.
Qed.

Lemma create_switches out attr fn arg : frames same_switches (gth_thread_create out attr fn arg).
Proof.
  intros w. unfold gth_thread_create. destruct (negb _); [by split|]. destruct (_ || _); [by split|].
  apply frames_done. apply frames_bind.
  - intros w1. unfold gth_thread_acquire_slot. destruct (gth_runtime_alloc_thread_slot _) as [i|]; [|by split]. booked.
  - intros [i|]; [|apply frames_ret]. apply frames_bind; [apply frames_gets|]. intros tid.
    apply frames_bind; [apply frames_modify; intros; by split|]. intros _. apply frames_bind; [books_tac|]. intros _.
    apply frames_bind; [apply frames_gets|]. intros size. apply frames_bind.
    + apply books_stack_allocate.
    + intros [st stk]. destruct st; books_tac.
Qed.

(** With memory to be had, a stack can be allocated. *)
Lemma allocate_granted w size k :
  page_of w = 2 ^ k → 0 ≤ k ≤ 30 → grants w → GTH_MIN_STACK_SIZE ≤ size ≤ GTH_MAX_STACK_SIZE →
  returns (gth_stack_allocate size) w (λ '(st, _) w', st = GTH_OK ∧ same_but_maps w w').
Proof.
  intros Hp Hk [_ Hmm Hmp] Hsz. unfold GTH_MIN_STACK_SIZE, GTH_MAX_STACK_SIZE in *.
  assert (Hpow : 0 < 2 ^ k ≤ 2 ^ 30) by (split; [apply Z.pow_pos_nonneg|apply Z.pow_le_mono_r]; lia).
  assert (Hpow2 : gth_is_power_of_two (2 ^ k) = true)
    by (apply power_of_two_spec; [unfold fits; lia|exists k; split; [lia|done]]).
  destruct (align_up_bounds size k) as [Hal _]; [lia..|].
  unfold gth_stack_allocate, GTH_MIN_STACK_SIZE, GTH_MAX_STACK_SIZE. apply returns_bind. unfold returns at 1.
  rewrite gth_page_size_spec by lia. rewrite Hp, Hpow2, orb_false_r. destruct (Z.eqb_spec (2 ^ k) 0); [lia|].
  destruct (Z.ltb_spec size (16 * 1024)); [lia|]. destruct (Z.ltb_spec (64 * 1024 * 1024) size); [lia|]. cbn [orb].
  destruct (Z.ltb_spec (gth_align_up size (2 ^ k)) size); [lia|]. cbv zeta.
  rewrite (wrap_small 64 (gth_align_up size (2 ^ k) + 2 ^ k)) by (unfold fits; lia).
  destruct (Z.ltb_spec (gth_align_up size (2 ^ k) + 2 ^ k) (gth_align_up size (2 ^ k))); [lia|].
  apply returns_bind. unfold returns at 1, mmap, next_tick. cbn. destruct (Hmm (w_tick w) (gth_align_up size (2 ^ k) + 2 ^ k)) as [a ->].
  apply returns_bind. unfold returns at 1, mprotect, next_tick. cbn. by rewrite Hmp.
Qed.

Lemma create_granted attr fn arg w i k :
  world_ok w → tid_room w → rt_initialized (w_rt w) = true → fn ≠ 0 → gth_runtime_alloc_thread_slot (w_rt w) = Some i →
  page_of w = 2 ^ k → 0 ≤ k ≤ 30 → grants w →
  GTH_MIN_STACK_SIZE ≤ cfg_stack_size_bytes (rt_config (w_rt w)) ≤ GTH_MAX_STACK_SIZE →
  returns (gth_thread_create true attr fn arg) w (λ r w',
    r = mk_resp GTH_OK [rt_next_tid (w_rt w)] ∧ rt_next_tid (w_rt w') = rt_next_tid (w_rt w) + 1 ∧
    ∃ stk, rt_threads (w_rt w') = <[i := created_thread i (rt_next_tid (w_rt w)) attr fn arg stk]> (rt_threads (w_rt w))).
Proof.
  intros Hw Hroom Hini Hfn Ha Hp Hk Hg Hsz. unfold gth_thread_create, returns. rewrite Hini. cbn [negb orb].
  destruct (Z.eqb_spec fn 0); [done|]. apply returns_fold, returns_bind. unfold returns at 1, gth_thread_acquire_slot. rewrite Ha.
  apply alloc_slot_Some in Ha as (t & Ht & Hst). apply is_empty_true in Hst.
  assert (t = thread_zero) as -> by (by eapply (tb_empty _ _ _ _ _ _ (wo_table _ Hw))).
  apply returns_bind, returns_gets, returns_bind, returns_modify, returns_bind, returns_modify.
  apply returns_bind, returns_gets, returns_bind.
  match goal with |- returns (gth_stack_allocate ?sz) ?x _ =>
    assert (E : x = creating i (new_thread i (rt_next_tid (w_rt w)) attr fn arg) w) end.
  { unfold creating, upd_rt, upd_thread. cbn. rewrite alter_alter. rewrite (wrap_small 64); [done|]. unfold fits, tid_room in *.
    pose proof (tb_next _ _ _ _ _ _ (wo_table _ Hw)). lia. }
  rewrite E. clear E. eapply returns_mono.
  { apply (allocate_granted _ _ k); [exact Hp|done|by apply (grants_same w)|exact Hsz]. }
  intros [st stk] w2 [-> H2]. pose proof (same_but_maps_rt _ _ H2) as Ert.
  apply returns_bind, returns_modify, returns_bind, returns_modify, returns_bind, returns_modify, returns_ret.
  unfold gth_trace_thread_create.
  match goal with |- context [gth_trace_record ?e ?t ?a ?b ?x] => pose proof (untrace_record e t a b x) as Eut; set (w4 := x) in * end.
  rewrite (ut_next_tid _ _ Eut), (ut_threads _ _ Eut). unfold w4. cbn. rewrite Ert. cbn.
  split_and!; [done|done|]. exists stk. by rewrite alter_alter, alter_insert.
Qed.
