(* ===== verification/Coop.v ===== *)
(** * Cooperative threads, without the library

    What a client of the library needs to know of it: an abstract machine on
    which threads run one at a time and hand over at calls that wait, with the
    synchronisation objects of the abstract model and with thread states, ids
    and results, but without stacks, contexts, counters, traces or the table.
    The order in which ready threads are chosen is left open, so what is
    proved of its executions holds for every scheduling policy.

    [machine_refines_coop]: every execution of the machine is an execution of
    this one, for programs that use the thread and synchronisation functions. *)

From S2P Require Import Prelude WaitQueue TraceFormat State Stack TraceBuffer Trace Runtime Replay.
From S2P Require Import Fuzz Sched Thread Mutex Sem Cond Lifecycle Machine Scripts Invariant Ops Switching Safety.
From S2P Require Import SyncSpec Frame Exclusion Waiting ThreadSpec Slots Steps Queues Counting ApiSpec Agree Setup.
Import Sync.

(** ** The abstract machine *)

Section coop.
Context (P : program).

(** Where a stack is: a thread that has not run yet, in user code, about to
    continue a call, or suspended in one. *)
Inductive pc :=
| PStart
| PUser (u : p_state P)
| PResume (k : frame) (u : p_state P)
| PStop (k : frame) (u : p_state P).

Record thr := mk_thr { t_tid : Z; t_fn : Z; t_arg : Z; t_val : Z }.

Record cstate := mk_cstate {
  c_mem : p_mem P;
  c_abs : astate;              (* the states of the threads, by slot, and the objects *)
  c_thr : nat → thr;           (* of the slots that are not empty *)
  c_pc : owner → pc;
  c_run : owner;
  c_next : Z;                  (* the next id *)
  c_switches : Z;              (* times a thread was given control *)
  c_live : bool                (* the runtime is initialised *)
}.

Definition state_of (c : cstate) (i : nat) : option gth_thread_state_t := a_threads (c_abs c) !! i.
Definition with_abs (a : astate) (c : cstate) : cstate := {| c with c_abs := a |}.
Definition set_state_of (i : nat) (st : gth_thread_state_t) (c : cstate) : cstate := with_abs (set_thread i st (c_abs c)) c.

Definition self (c : cstate) : Z := match c_run c with Main => 0 | Thr i => t_tid (c_thr c i) end.
Definition ccaller (c : cstate) : caller := mk_caller (self c) (cur_of (c_run c)).

(** The executing stack runs [t]. *)
Definition runs (c : cstate) (t : task) (u : p_state P) : Prop :=
  match t with
  | TCall a => c_pc c (c_run c) = PUser u ∧ p_next P u = ACall a
  | TResume k => c_pc c (c_run c) = PResume k u
  end.

(** Its call returns. *)
Definition give (u : p_state P) (r : resp) (c : cstate) : cstate :=
  {| c with c_mem := fst (p_feed P (c_mem c) u r); c_pc := <[c_run c := PUser (snd (p_feed P (c_mem c) u r))]> (c_pc c) |}.

Definition resumed (p : pc) : pc := match p with PStop k u => PResume k u | _ => p end.

(** Thread [i] hands over to main and is left at [p]. *)
Definition leave (i : nat) (p : pc) (c : cstate) : cstate :=
  {| c with c_run := Main; c_pc := <[Main := resumed (c_pc c Main)]> (<[Thr i := p]> (c_pc c)) |}.

(** Main hands over to thread [i]. *)
Definition enter (i : nat) (k : frame) (u : p_state P) (c : cstate) : cstate :=
  let s := p_start P (c_mem c) (t_fn (c_thr c i)) (t_arg (c_thr c i)) in
  let '(mem, p) := match c_pc c (Thr i) with PStart => (fst s, PUser (snd s)) | q => (c_mem c, resumed q) end in
  set_state_of i GTH_THREAD_RUNNING {| c with c_run := Thr i; c_mem := mem; c_switches := u64 (c_switches c + 1);
    c_pc := <[Thr i := p]> (<[Main := PStop k u]> (c_pc c)) |}.

Definition free (c : cstate) (i : nat) : Prop :=
  state_of c i = Some GTH_THREAD_EMPTY ∧ ∀ j, (j < i)%nat → state_of c j ≠ Some GTH_THREAD_EMPTY.

Definition none_ready (c : cstate) : Prop := ∀ j, state_of c j ≠ Some GTH_THREAD_READY.

Definition config_ok (cfg : gth_runtime_config_t) : Prop :=
  16384 ≤ cfg_stack_size_bytes cfg ∧ cfg_quantum_us cfg ≠ 0 ∧ (cfg_policy cfg = GTH_SCHED_RR ∨ cfg_policy cfg = GTH_SCHED_PRIORITY).

Definition is_thread (c : cstate) (tid : Z) (i : nat) : Prop :=
  (∃ st, state_of c i = Some st ∧ st ≠ GTH_THREAD_EMPTY) ∧ t_tid (c_thr c i) = tid.

(** Main joins thread [tid], which is in slot [i]. *)
Definition joins_thread (c : cstate) (t : task) (tid : Z) (i : nat) : Prop :=
  c_run c = Main ∧ is_thread c tid i ∧
  (t = TCall (AJoin tid) ∧ c_live c = true ∧ tid ≠ 0 ∨ t = TResume (KRunNext 0 (InJoin tid i))).

(** Answers that change nothing. *)
Definition told (c : cstate) (a : api) (r : resp) : Prop :=
  match a with
  | AGetStats out => r = if negb out then status GTH_EINVAL else if negb (c_live c) then status GTH_ESTATE else
      mk_resp GTH_OK [c_switches c; countb is_ready_st (a_threads (c_abs c)); countb is_blocked_st (a_threads (c_abs c))]
  | ASelf => r = mk_resp GTH_OK [self c]
  | AInit None => r = status GTH_EINVAL
  | AInit (Some cfg) => ¬ config_ok cfg ∧ r = status GTH_EINVAL ∨ config_ok cfg ∧ c_live c = true ∧ r = status GTH_ESTATE
  | AShutdown => c_live c = false ∧ r = status GTH_ESTATE
  | ACreate out _ fn _ =>
      c_live c = false ∧ r = status GTH_ESTATE ∨
      c_live c = true ∧ (out = false ∨ fn = 0) ∧ r = status GTH_EINVAL ∨
      c_live c = true ∧ out = true ∧ fn ≠ 0 ∧ (∀ i, state_of c i ≠ Some GTH_THREAD_EMPTY) ∧ r = status GTH_ENOMEM
  | AJoin tid => c_run c = Main ∧
      (c_live c = false ∧ r = status GTH_ESTATE ∨
       c_live c = true ∧ tid = 0 ∧ r = status GTH_EINVAL ∨
       c_live c = true ∧ tid ≠ 0 ∧ (∀ i, ¬ is_thread c tid i) ∧ r = status GTH_ENOTFOUND)
  | ACancel tid =>
      c_live c = false ∧ r = status GTH_ESTATE ∨
      c_live c = true ∧ tid = 0 ∧ r = status GTH_EINVAL ∨
      c_live c = true ∧ tid ≠ 0 ∧ (∀ i, ¬ is_thread c tid i) ∧ r = status GTH_ENOTFOUND ∨
      c_live c = true ∧ tid ≠ 0 ∧ (∃ i st, is_thread c tid i ∧ state_of c i = Some st ∧ gth_thread_is_terminal st = true) ∧ r = status GTH_ESTATE
  | AYield => c_run c = Main ∧
      (c_live c = false ∧ r = status GTH_ESTATE ∨ c_live c = true ∧ none_ready c ∧ r = status GTH_ENOTFOUND)
  | _ => False
  end.

(** A thread that was cancelled while it ran stays cancelled. *)
Definition ended (st : gth_thread_state_t) (v : Z) : gth_thread_state_t * Z :=
  match st with GTH_THREAD_CANCELED => (st, 0) | _ => (GTH_THREAD_DONE, v) end.

Definition empty_slots (a : astate) : astate := {| a with a_threads := replicate GTH_MAX_THREADS GTH_THREAD_EMPTY |}.

Inductive cstep (c : cstate) : cstate → Prop :=
| cs_answer t u st a :
    runs c t u → task_spec (ccaller c) t (c_abs c) = Some (Answer st, a) → cstep c (give u (mk_resp st []) (with_abs a c))
| cs_park t u i k a :
    c_run c = Thr i → runs c t u → task_spec (ccaller c) t (c_abs c) = Some (Park k, a) →
    cstep c (leave i (PStop k u) (with_abs a c))
| cs_go_on t u :
    t = TResume KYield ∨ t = TResume KSemWait ∨ t = TResume (KRunNext 0 InYield) → runs c t u → cstep c (give u (status GTH_OK) c)
| cs_yield i u :
    c_run c = Thr i → runs c (TCall AYield) u → cstep c (leave i (PStop KYield u) (set_state_of i GTH_THREAD_READY c))
| cs_exit i u v st :
    c_run c = Thr i → c_pc c (Thr i) = PUser u → p_next P u = AReturn v → state_of c i = Some st →
    cstep c (leave i PStart (set_state_of i (fst (ended st v))
      {| c with c_thr := <[i := {| (c_thr c i) with t_val := snd (ended st v) |}]> (c_thr c) |}))
| cs_join_reap t u tid i st :
    joins_thread c t tid i → runs c t u → state_of c i = Some st → gth_thread_is_terminal st = true →
    cstep c (give u (mk_resp GTH_OK [t_val (c_thr c i)]) (set_state_of i GTH_THREAD_EMPTY c))
| cs_join_enter t u tid i st j :
    joins_thread c t tid i → runs c t u → state_of c i = Some st → gth_thread_is_terminal st = false →
    state_of c j = Some GTH_THREAD_READY → cstep c (enter j (KRunNext 0 (InJoin tid i)) u c)
| cs_join_stuck t u tid i st :
    joins_thread c t tid i → runs c t u → state_of c i = Some st → gth_thread_is_terminal st = false →
    none_ready c → cstep c (give u (status GTH_EBUSY) c)
| cs_yield_enter u j :
    c_run c = Main → runs c (TCall AYield) u → c_live c = true → state_of c j = Some GTH_THREAD_READY →
    cstep c (enter j (KRunNext 0 InYield) u c)
| cs_create u attr fn arg i :
    runs c (TCall (ACreate true attr fn arg)) u → c_live c = true → fn ≠ 0 → free c i →
    cstep c (give u (mk_resp GTH_OK [c_next c]) (set_state_of i GTH_THREAD_READY
      {| c with c_thr := <[i := mk_thr (c_next c) fn arg 0]> (c_thr c); c_pc := <[Thr i := PStart]> (c_pc c); c_next := c_next c + 1 |}))
| cs_init u cfg :
    runs c (TCall (AInit (Some cfg))) u → config_ok cfg → c_live c = false →
    cstep c (give u (status GTH_OK) {| c with c_abs := empty_slots (c_abs c); c_next := 1; c_switches := 0; c_live := true |})
| cs_shutdown u :
    runs c (TCall AShutdown) u → c_live c = true →
    cstep c (give u (status GTH_OK) {| c with c_abs := empty_slots (c_abs c); c_next := 0; c_switches := 0; c_live := false |})
| cs_cancel u tid i st :
    runs c (TCall (ACancel tid)) u → c_live c = true → tid ≠ 0 → is_thread c tid i → state_of c i = Some st →
    gth_thread_is_terminal st = false →
    cstep c (give u (status GTH_OK) (set_state_of i GTH_THREAD_CANCELED
      {| c with c_thr := <[i := {| (c_thr c i) with t_val := 0 |}]> (c_thr c) |}))
| cs_told a u r :
    runs c (TCall a) u → told c a r → cstep c (give u r c).

Definition cboot : cstate := {|
  c_mem := fst (p_boot P); c_abs := mk_astate (replicate GTH_MAX_THREADS GTH_THREAD_EMPTY) (λ _, mk_amutex false None []) (λ _, mk_asem false 0 []) (λ _, mk_acond false []);
  c_thr := λ _, mk_thr 0 0 0 0; c_pc := <[Main := PUser (snd (p_boot P))]> (λ _, PStart);
  c_run := Main; c_next := 0; c_switches := 0; c_live := false |}.

(** The functions that the abstract machine has. *)
Definition basic (a : api) : bool :=
  about_objects a ||
  match a with
  | AInit (Some cfg) => cfg_stack_size_bytes cfg <=? GTH_MAX_STACK_SIZE
  | AInit None | AShutdown | AGetStats _ | ACreate _ _ _ _ | AYield | AJoin _ | ACancel _ | ASelf => true
  | _ => false
  end.
End coop.
Arguments c_mem {P}. Arguments c_abs {P}. Arguments c_thr {P}. Arguments c_pc {P}. Arguments c_run {P}.
Arguments c_next {P}. Arguments c_switches {P}. Arguments c_live {P}.

(** ** The machine implements it *)

Definition thr_of (t : gth_thread_record_t) : thr := mk_thr (th_tid t) (th_fn t) (th_arg t) (th_retval t).

Lemma abs_objs w w' a l :
  objs w' = objs w → abs w a → th_state <$> rt_threads (w_rt w') = l → abs w' {| a with a_threads := l |}.
Proof.
  intros [= E1 E2 E3] [_ H1 H2 H3] El. constructor; cbn; [done|..]; intros x.
  - rewrite <- H1. unfold mutex_at. by rewrite E1.
  - rewrite <- H2. unfold sem_at. by rewrite E2.
  - rewrite <- H3. unfold cond_at. by rewrite E3.
Qed.

Section refinement.
Context (P : program) (HP : disciplined P).
Context (page_bits : Z) (Hbits : 0 ≤ page_bits ≤ 30).

(** The thread with record [t] that does not execute is at [p]. *)
Definition slot_pc (ctls : owner → option (ctl P)) (i : nat) (t : gth_thread_record_t) (p : pc P) : Prop :=
  match p with
  | PStart _ => ∃ top, ctx_resume (th_ctx t) = CtxEntry i top
  | PStop _ k u => ∃ n, ctx_resume (th_ctx t) = CtxSaved (Thr i) n ∧ ctls (Thr i) = Some (mk_ctl P (th_tid t) (Suspended P n k u))
  | _ => False
  end.

Definition mode_pc (mode : cmode P) : pc P :=
  match mode with User _ u => PUser P u | Resuming _ k u => PResume P k u | Suspended _ _ k u => PStop P k u end.

(** The world as the client sees it. *)
Record sees (w : world) (ctls : owner → option (ctl P)) (run : owner) (c : cstate P) : Prop := {
  se_abs : abs w (c_abs c);
  se_thr : ∀ i t, rt_threads (w_rt w) !! i = Some t → is_empty t = false → c_thr c i = thr_of t;
  se_slot : ∀ i t, rt_threads (w_rt w) !! i = Some t → counted t = true → run ≠ Thr i → slot_pc ctls i t (c_pc c (Thr i));
  se_counts : counts w = (c_switches c, c_next c);
  se_live : rt_initialized (w_rt w) = c_live c;
  se_size : c_live c = true → GTH_MIN_STACK_SIZE ≤ cfg_stack_size_bytes (rt_config (w_rt w)) ≤ GTH_MAX_STACK_SIZE;
  se_mode : rt_mode (w_rt w) = GTH_MODE_NORMAL;
  se_page : page_of w = 2 ^ page_bits;
  se_grants : grants w
}.

Record views (m : machine P) (c : cstate P) : Prop := {
  vi_sees : sees (m_world P m) (m_ctl P m) (m_run P m) c;
  vi_mem : c_mem c = m_mem P m;
  vi_run : c_run c = m_run P m;
  vi_cur : ∃ tid mode, m_ctl P m (m_run P m) = Some (mk_ctl P tid mode) ∧ c_pc c (m_run P m) = mode_pc mode;
  vi_main : ∃ tid mode, m_ctl P m Main = Some (mk_ctl P tid mode) ∧ c_pc c Main = mode_pc mode
}.

(** The call that the executing stack is about to make is one the abstract machine has. *)
Definition basic_next (m : machine P) : Prop := ∀ tid u a,
  m_ctl P m (m_run P m) = Some (mk_ctl P tid (User P u)) → p_next P u = ACall a → basic a = true.

Lemma views_runs m c tid u t : views m c → runs_task P m tid u t → runs P c t u.
Proof using Type.
  intros Hv (mode & Hctl & Hmode). destruct (vi_cur _ _ Hv) as (tid' & mode' & Hctl' & Hpc).
  rewrite Hctl in Hctl'. injection Hctl' as <- <-. unfold runs. rewrite (vi_run _ _ Hv), Hpc.
  destruct t as [a|k]; [by destruct Hmode as [-> ->]|by rewrite Hmode].
Qed.

Lemma sees_state w ctls run c i : sees w ctls run c → state_of P c i = th_state <$> rt_threads (w_rt w) !! i.
Proof using Type. intros Hs. unfold state_of. by rewrite <- (abs_threads _ _ (se_abs _ _ _ _ Hs)), list_lookup_fmap. Qed.

(** ** Steps, given what the library code has done *)

(** [c1] is the state after the code, before control moves. *)
Lemma views_give m c1 tid u r w m' :
  sees w (m_ctl P m) (m_run P m) c1 → c_mem c1 = m_mem P m → c_run c1 = m_run P m →
  (∃ tid mode, m_ctl P m Main = Some (mk_ctl P tid mode) ∧ c_pc c1 Main = mode_pc mode) →
  m' = {| m with m_world := w; m_mem := fst (p_feed P (m_mem P m) u r);
      m_ctl := <[m_run P m := Some (mk_ctl P tid (User P (snd (p_feed P (m_mem P m) u r))))]> (m_ctl P m) |} →
  views m' (give P u r c1).
Proof using Type.
  intros [] Hmem Hrun Hmain ->. unfold give. rewrite Hmem, Hrun. constructor; cbn.
  - constructor; cbn; try done. intros i t Ht Hc Hne. specialize (se_slot0 i t Ht Hc Hne).
    rewrite fn_lookup_insert_ne by done. unfold slot_pc in *. destruct (c_pc c1 (Thr i)); try done.
    by rewrite insert_ctl_ne.
  - done.
  - done.
  - eexists _, _. by rewrite !fn_lookup_insert.
  - destruct (decide (m_run P m = Main)) as [->|Hne]; [eexists _, _; by rewrite !fn_lookup_insert|].
    by rewrite !fn_lookup_insert_ne.
Qed.

Lemma main_waits_pc m c n k u : views m c → main_waits P m n k u → c_pc c Main = PStop P k u.
Proof using Type.
  intros Hv [Hctl _]. destruct (vi_main _ _ Hv) as (tid & mode & E & Hpc). rewrite Hctl in E. injection E as _ <-. exact Hpc.
Qed.

Lemma views_leave m i tid u k w n k0 u0 c1 m' :
  m_run P m = Thr i → sees w (m_ctl P m) (Thr i) c1 → c_mem c1 = m_mem P m → main_waits P m n k0 u0 →
  c_pc c1 Main = PStop P k0 u0 →
  (∀ t, rt_threads (w_rt w) !! i = Some t → th_tid t = tid) →
  m' = mk_machine P (upd_rt (save_ctx (ThreadCtx i) (CtxSaved (Thr i) (m_serial P m))) w) (m_mem P m) Main
      (<[Main := Some (mk_ctl P 0 (Resuming P k0 u0))]>
        (<[Thr i := Some (mk_ctl P tid (Suspended P (m_serial P m) k u))]> (m_ctl P m))) (S (m_serial P m)) →
  views m' (leave P i (PStop P k u) c1).
Proof using Type.
  intros Hrun [] Hmem Hwait Hpc Htid ->. unfold leave. rewrite Hpc.
  assert (Hlk : ∀ j t, rt_threads (w_rt (upd_rt (save_ctx (ThreadCtx i) (CtxSaved (Thr i) (m_serial P m))) w)) !! j = Some t →
    ∃ t0, rt_threads (w_rt w) !! j = Some t0 ∧ th_state t = th_state t0 ∧ thr_of t = thr_of t0 ∧ th_tid t = th_tid t0 ∧
      (j ≠ i → t = t0) ∧ (j = i → ctx_resume (th_ctx t) = CtxSaved (Thr i) (m_serial P m))).
  { intros j t Ht. cbn in Ht. apply lookup_alter_cases in Ht as [(-> & t0 & Ht0 & ->)|[Hne Ht]]; eexists; split_and!; done || by intros ->. }
  constructor; cbn [m_world m_ctl m_run m_mem c_mem c_run c_pc]; [|done|done|by eexists _, _; rewrite !fn_lookup_insert|by eexists _, _; rewrite !fn_lookup_insert].
  constructor; cbn [c_abs c_thr c_pc c_switches c_next c_live]; try done.
  - constructor; try apply se_abs0. rewrite <- (abs_threads _ _ se_abs0). apply list_eq. intros j. rewrite !list_lookup_fmap. cbn.
    destruct (decide (j = i)) as [->|Hne]; [rewrite list_lookup_alter_eq; by destruct (rt_threads (w_rt w) !! i)|by rewrite list_lookup_alter_ne].
  - intros j t Ht He. destruct (Hlk j t Ht) as (t0 & Ht0 & Est & -> & _). apply (se_thr0 j t0 Ht0).
    unfold is_empty in *. by rewrite <- Est.
  - intros j t Ht Hc _. destruct (Hlk j t Ht) as (t0 & Ht0 & Est & _ & Etid & Hne & Heq).
    rewrite fn_lookup_insert_ne by done. destruct (decide (j = i)) as [->|Hji].
    + rewrite fn_lookup_insert. exists (m_serial P m). rewrite insert_ctl_ne, fn_lookup_insert by done. split; [by apply Heq|].
      by rewrite Etid, (Htid t0).
    + rewrite fn_lookup_insert_ne by congruence. rewrite (Hne Hji) in *.
      specialize (se_slot0 j t0 Ht0 Hc ltac:(congruence)). unfold slot_pc in *. destruct (c_pc c1 (Thr j)); try done.
      by rewrite !insert_ctl_ne by congruence.
  - by apply (grants_same w).
Qed.

Lemma views_enter m c i ti k u w m' mem mode :
  m_run P m = Main → views m c → rt_threads (w_rt (m_world P m)) !! i = Some ti → is_ready ti = true →
  rt_threads (w_rt w) = <[i := set_state GTH_THREAD_RUNNING ti]> (rt_threads (w_rt (m_world P m))) →
  objs w = objs (m_world P m) → tallied (m_world P m) (Swap SchedCtx (ThreadCtx i) k) w → entered P m i ti mem mode →
  m' = mk_machine P (upd_rt (save_ctx SchedCtx (CtxSaved Main (m_serial P m))) w) mem (Thr i)
      (<[Thr i := Some (mk_ctl P (th_tid ti) mode)]>
        (<[Main := Some (mk_ctl P 0 (Suspended P (m_serial P m) k u))]> (m_ctl P m))) (S (m_serial P m)) →
  views m' (enter P i k u c).
Proof using Type.
  intros Hrun Hv Hti Hr Ets Eo [Eset Ecnt] Hent ->. destruct (vi_sees _ _ Hv) as [Ha Hthr Hslot Hcnt Hlive Hsize Hmode Hpage Hg].
  injection Eset as Eos Epg Ein Ecf Emo. injection Ecnt as Esw Enx. injection Hcnt as Hsw Hnx.
  assert (Hct : counted ti = true) by (unfold counted; by rewrite Hr).
  assert (Hne : is_empty ti = false) by (apply is_ready_true in Hr; unfold is_empty; by rewrite Hr).
  pose proof (Hslot i ti Hti Hct ltac:(congruence)) as Hpci. pose proof (Hthr i ti Hti Hne) as Hthi.
  assert (He : enter P i k u c = set_state_of P i GTH_THREAD_RUNNING {| c with c_run := Thr i; c_mem := mem; c_switches := u64 (c_switches c + 1);
    c_pc := <[Thr i := mode_pc mode]> (<[Main := PStop P k u]> (c_pc c)) |}).
  { unfold enter. rewrite Hthi, (vi_mem _ _ Hv). destruct Hent as [top Htop|n k' u' Hres Hctl _].
    - destruct (c_pc c (Thr i)); try done. destruct Hpci as (n & Hx & _). congruence.
    - destruct (c_pc c (Thr i)); try done; [destruct Hpci as [top Hx]; congruence|].
      destruct Hpci as (n' & Hx & Hy). rewrite Hctl in Hy. by injection Hy as _ <- <-. }
  rewrite He. constructor; cbn [m_world m_ctl m_run m_mem]; [|done|done|eexists _, _; cbn; by rewrite !fn_lookup_insert|].
  2:{ eexists _, _. cbn. rewrite !fn_lookup_insert_ne by done. by rewrite !fn_lookup_insert. }
  constructor; cbn; try done.
  - apply (abs_objs (m_world P m)); [exact Eo|done|]. cbn.
    rewrite Ets, <- (abs_threads _ _ Ha). by rewrite alter_insert, list_fmap_insert.
  - intros j t. rewrite Ets. intros [(<- & <- & _)|[Hji Ht]]%list_lookup_insert_Some He'; [by rewrite Hthi|by apply Hthr].
  - intros j t. rewrite Ets. intros [(<- & <- & _)|[Hji Ht]]%list_lookup_insert_Some Hc Hji'; [by destruct Hji'|].
    pose proof (Hslot j t Ht Hc ltac:(congruence)) as Hpcj. rewrite !fn_lookup_insert_ne by congruence.
    unfold slot_pc in *. destruct (c_pc c (Thr j)); try done. by rewrite !insert_ctl_ne by congruence.
  - unfold counts. cbn. by rewrite Esw, Enx, Hsw, Hnx.
  - by rewrite Ein.
  - by rewrite Ecf.
  - by rewrite Emo.
  - exact (eq_trans Epg Hpage).
  - by apply (grants_same (m_world P m)).
Qed.

(** The library code has changed the objects and the states of threads. *)
Lemma sees_states w w' ctls run c a :
  sees w ctls run c → same_books w w' → same_briefs w w' → abs w' a →
  (∀ j t t', rt_threads (w_rt w) !! j = Some t → rt_threads (w_rt w') !! j = Some t' → is_empty t' = is_empty t ∧
    (run ≠ Thr j → counted t' = counted t)) →
  sees w' ctls run (with_abs P a c).
Proof using Type.
  intros [Ha Hthr Hslot Hcnt Hlive Hsize Hmode Hpage Hg] [Eset Ecnt] [_ Hb] Ha' Hst.
  injection Eset as Eos Epg Ein Ecf Emo.
  assert (Hlk : ∀ j t', rt_threads (w_rt w') !! j = Some t' → ∃ t, rt_threads (w_rt w) !! j = Some t ∧ brief t' = brief t).
  { intros j t' Ht'. apply (f_equal (.!! j)) in Hb. unfold briefs in Hb. rewrite !list_lookup_fmap, Ht' in Hb.
    destruct (rt_threads (w_rt w) !! j) as [t|]; [|done]. exists t. by apply (inj Some) in Hb. }
  constructor; cbn; try done; try congruence.
  - intros j t' Ht' He. destruct (Hlk j t' Ht') as (t & Ht & Eb). destruct (Hst j t t' Ht Ht') as [E1 _].
    rewrite (Hthr j t Ht) by congruence. unfold thr_of. apply (f_equal thr_of) in Eb. exact (eq_sym Eb).
  - intros j t' Ht' Hc Hne. destruct (Hlk j t' Ht') as (t & Ht & Eb). destruct (Hst j t t' Ht Ht') as [_ E2].
    specialize (Hslot j t Ht ltac:(rewrite <- E2; done) Hne). unfold slot_pc in *.
    pose proof (f_equal th_ctx Eb) as E3. pose proof (f_equal th_tid Eb) as E4. cbn in E3, E4. by rewrite E3, E4.
  - intros Hl. rewrite Ecf. by apply Hsize.
  - by apply (grants_same w).
Qed.

(** ** Tasks on synchronisation objects *)

Lemma slots_tid w w' i : same_slots w w' → th_tid <$> rt_threads (w_rt w') !! i = th_tid <$> rt_threads (w_rt w) !! i.
Proof using Type.
  intros [_ E]. apply (f_equal (.!! i)) in E. unfold slots in E. rewrite !list_lookup_fmap in E.
  destruct (rt_threads (w_rt w') !! i), (rt_threads (w_rt w) !! i); try done. injection E as E _ _ _ _. cbn. by rewrite E.
Qed.

(** The caller, as the client and as the library see it. *)
Lemma self_eq m c tid u t :
  mach_ok P m → views m c → runs_task P m tid u t → (∀ k, t = TResume k → m_run P m ≠ Main) →
  self P c = gth_thread_self (m_world P m).
Proof using Type.
  intros [Hw Hex _] Hv (mode & Hctl & Hmode) Ht. unfold self, gth_thread_self. rewrite (vi_run _ _ Hv).
  unfold executing in Hex. destruct (m_run P m) as [|i].
  - destruct Hex as (mode' & E & Hx). rewrite Hctl in E. injection E as -> <-.
    destruct t as [f|k]; [|by destruct (Ht k)]. destruct Hmode as [-> _]. rewrite (co_current _ _ Hx). by destruct (negb _).
  - destruct Hex as (Hc & _). destruct (co_current _ _ Hc) as (ti & Hti & He & Etid).
    rewrite (se_thr _ _ _ _ (vi_sees _ _ Hv) i ti Hti He). cbn.
    destruct (rt_initialized (w_rt (m_world P m))) eqn:Hi; [by rewrite Etid|].
    by rewrite (tb_uninit _ _ _ _ _ _ (wo_table _ Hw) Hi i ti Hti) in He.
Qed.

Lemma ccaller_eq m c tid u t spec :
  mach_ok P m → views m c → runs_task P m tid u t → task_spec (ccaller P c) t (c_abs c) = Some spec →
  ccaller P c = caller_of (cur_of (m_run P m)) (m_world P m).
Proof using Type.
  intros Hm Hv Ht Hsp. unfold ccaller, caller_of. rewrite (self_eq m c tid u t Hm Hv Ht), (vi_run _ _ Hv); [done|].
  intros k -> Hrun. destruct Ht as (mode & Hctl & ->). destruct Hm as [_ Hex _]. unfold executing in Hex. rewrite Hrun in *.
  destruct Hex as (mode' & E & Hx). rewrite Hctl in E. injection E as -> <-. destruct Hx as [Hk _]. by destruct k.
Qed.

Lemma task_refines cur t w a spec :
  world_ok w → cur_ok cur (w_rt w) → cur_free cur (w_rt w) → abs w a →
  (∀ k, t = TResume k → ∃ c, cur = Some c ∧ thread_frame c k) →
  task_spec (caller_of cur w) t a = Some spec → refines cur (code t) w spec.
Proof using Type.
  intros Hw Hc Hf Ha Hk E. destruct t as [f|k]; [by eapply api_refines_at|]. destruct (Hk k eq_refl) as (c & -> & Hkc).
  destruct k as [|x my_slot|x| |]; try done; cbn in E, Hkc; injection E as <-.
  - subst my_slot. by apply relock_refines.
  - by apply (lock_refines (Some c)).
Qed.

(** Such a task, seen by the client. *)
Lemma sync_task m c tid u t r w v a :
  mach_ok P m → tid_room (m_world P m) → views m c → runs_task P m tid u t → code t (m_world P m) = Done (r, w) →
  task_spec (ccaller P c) t (c_abs c) = Some (v, a) →
  answers (cur_of (m_run P m)) v r ∧ sees w (m_ctl P m) (m_run P m) (with_abs P a c).
Proof using HP.
  intros Hm Hroom Hv Ht Ec Hsp. pose proof (ccaller_eq m c tid u t _ Hm Hv Ht Hsp) as Ecl. rewrite Ecl in Hsp.
  pose proof Hm as [Hw Hex _]. pose proof (vi_sees _ _ Hv) as Hs. pose proof (se_abs _ _ _ _ Hs) as Ha.
  assert (Hcur : cur_ok (cur_of (m_run P m)) (w_rt (m_world P m)) ∧ ∀ k, t = TResume k → ∃ c, cur_of (m_run P m) = Some c ∧ thread_frame c k).
  { unfold executing in Hex. destruct Ht as (mode & Hctl & Hmode). destruct (m_run P m) as [|i].
    - destruct Hex as (mode' & E & Hx). rewrite Hctl in E. injection E as -> <-. destruct t as [f|k]; cbn in Hmode.
      + by destruct Hmode as [-> _].
      + subst mode. destruct Hx as [Hk _]. by destruct k.
    - destruct Hex as (Hc & _ & _ & mode' & E & Hx). rewrite Hctl in E. injection E as -> <-. split; [done|].
      intros k ->. cbn in Hmode. subst mode. exists i. by split; [|apply Hx]. }
  destruct Hcur as [Hc Hk].
  pose proof (task_refines _ t (m_world P m) (c_abs c) (v, a) Hw Hc (running_free P m Hm) Ha Hk Hsp) as Hr.
  unfold refines, returns in Hr. rewrite Ec in Hr. destruct Hr as [Hans Habs]. split; [exact Hans|]. cbn [snd] in Habs.
  assert (Hbk : same_books (m_world P m) w ∧ same_briefs (m_world P m) w).
  { destruct t as [f|k]; cbn in Ec, Hsp.
    - assert (Hab : about_objects f = true) by (by destruct f).
      pose proof (books_api (R := same_books) f Hab (m_world P m)) as H1. pose proof (briefs_api f Hab (m_world P m)) as H2.
      by rewrite Ec in H1, H2.
    - assert (Hkf : match k with KRunNext _ _ => False | _ => True end) by (by destruct k).
      pose proof (books_resume (R := same_books) k Hkf (m_world P m)) as H1. pose proof (briefs_resume k Hkf (m_world P m)) as H2.
      by rewrite Ec in H1, H2. }
  destruct Hbk as [H1 H2]. apply (sees_states (m_world P m)); try done.
  intros j t1 t2 Ht1 Ht2. assert (Hkl : ∀ x i, t = TResume (KLock x i) → cl_slot (caller_of (cur_of (m_run P m)) (m_world P m)) = Some i).
  { intros x i E. destruct (Hk _ E) as (i' & E' & Hki). cbn. rewrite E'. cbn in Hki. by subst i'. }
  pose proof (task_states _ t _ _ Hkl Hsp j) as Hst. cbn [snd] in Hst.
  rewrite <- (abs_threads _ _ Habs), <- (abs_threads _ _ Ha), !list_lookup_fmap, Ht1, Ht2 in Hst. cbn in Hst.
  destruct (decide (m_run P m = Thr j)) as [Hrun|Hne].
  - split; [|done]. pose proof (task_world_ok P HP m tid u t r w Hm Hroom Ht Ec) as Hw'. rewrite Hrun in Hc.
    destruct (co_current _ _ Hc) as (t0 & Ht0 & He & _). rewrite Ht1 in Ht0. injection Ht0 as <-. rewrite He.
    destruct (is_empty t2) eqn:He2; [|done]. exfalso. pose proof (tb_empty _ _ _ _ _ _ (wo_table _ Hw') j t2 Ht2 He2) as ->.
    pose proof (slots_tid _ _ j (briefs_slots _ _ H2)) as Et. rewrite Ht1, Ht2 in Et. cbn in Et. injection Et as Et.
    pose proof (tb_tid _ _ _ _ _ _ (wo_table _ Hw) j t1 Ht1 He). lia.
  - assert (Hcs : cur_of (m_run P m) ≠ Some j) by (destruct (m_run P m); cbn; congruence).
    unfold is_empty, counted, is_ready, is_blocked. destruct (Hst Hcs) as [[= ->]|[[= ->] [= ->]]]; done.
Qed.

(** ** Other tasks *)

Lemma task_spec_None cl t a : task_spec cl t a = None → ∀ cl' a', task_spec cl' t a' = None.
Proof using Type.
  destruct t as [f|k]; cbn; [apply sync_spec_None|]. by destruct k.
Qed.

Lemma sees_same w w' ctls run c :
  sees w ctls run c → objs w' = objs w → rt_threads (w_rt w') = rt_threads (w_rt w) → same_books w w' → sees w' ctls run c.
Proof using Type.
  intros [Ha Hthr Hslot Hcnt Hlive Hsize Hmode Hpage Hg] Eo Et [[= Eos Epg Ein Ecf Emo] Ec].
  constructor; rewrite ?Et; try done; try congruence.
  - pose proof (abs_objs w w' (c_abs c) (a_threads (c_abs c)) Eo Ha) as H. destruct (c_abs c). apply H.
    rewrite Et. apply (abs_threads _ _ Ha).
  - rewrite Ecf. exact Hsize.
  - by apply (grants_same w).
Qed.

(** A call that changes nothing the client sees. *)
Lemma views_told m c tid u r w m' :
  views m c → objs w = objs (m_world P m) → rt_threads (w_rt w) = rt_threads (w_rt (m_world P m)) → same_books (m_world P m) w →
  m' = {| m with m_world := w; m_mem := fst (p_feed P (m_mem P m) u r);
      m_ctl := <[m_run P m := Some (mk_ctl P tid (User P (snd (p_feed P (m_mem P m) u r))))]> (m_ctl P m) |} →
  views m' (give P u r c).
Proof using Type.
  intros Hv Eo Et Eb ->. eapply views_give; [|apply Hv|apply Hv|apply Hv|done]. by apply (sees_same (m_world P m)); [apply Hv|..].
Qed.

(** Threads and slots, as the client sees them. *)
Lemma sees_is_thread w ctls run c tid i t :
  sees w ctls run c → rt_threads (w_rt w) !! i = Some t → th_state t ≠ GTH_THREAD_EMPTY → th_tid t = tid → is_thread P c tid i.
Proof using Type.
  intros Hs Ht He Etid. split; [exists (th_state t); by rewrite (sees_state _ _ _ _ _ Hs), Ht|].
  rewrite (se_thr _ _ _ _ Hs i t Ht); [done|]. by apply is_empty_false.
Qed.

Lemma sees_find_None w ctls run c tid :
  sees w ctls run c → gth_runtime_find_thread (w_rt w) tid = None → ∀ i, ¬ is_thread P c tid i.
Proof using Type.
  intros Hs Hf i [(st & Hst & Hne) Htid]. rewrite (sees_state _ _ _ _ _ Hs) in Hst.
  destruct (rt_threads (w_rt w) !! i) as [t|] eqn:Ht; [|done]. injection Hst as <-.
  rewrite (se_thr _ _ _ _ Hs i t Ht) in Htid by (by apply is_empty_false).
  by apply (proj1 (find_thread_None _ _) Hf i t Ht Hne).
Qed.

Lemma sees_free w ctls run c i : sees w ctls run c → gth_runtime_alloc_thread_slot (w_rt w) = Some i → free P c i.
Proof using Type.
  intros Hs [(t & Ht & Hp) Hlt]%find_index_Some. split.
  - rewrite (sees_state _ _ _ _ _ Hs), Ht. cbn. f_equal. by apply is_empty_true.
  - intros j Hj. rewrite (sees_state _ _ _ _ _ Hs). destruct (rt_threads (w_rt w) !! j) as [tj|] eqn:Htj; [|done].
    specialize (Hlt j tj Hj Htj). intros [= E]. apply is_empty_true in E. unfold is_empty in E, Hlt. congruence.
Qed.

Lemma sees_full w ctls run c :
  sees w ctls run c → gth_runtime_alloc_thread_slot (w_rt w) = None → ∀ i, state_of P c i ≠ Some GTH_THREAD_EMPTY.
Proof using Type.
  intros Hs Hf i. rewrite (sees_state _ _ _ _ _ Hs). destruct (rt_threads (w_rt w) !! i) as [t|] eqn:Ht; [|done].
  pose proof (proj1 (alloc_slot_None _) Hf i t Ht) as He. intros [= E]. apply is_empty_true in E. congruence.
Qed.

Lemma sees_none_ready w ctls run c : sees w ctls run c → no_ready (w_rt w) → none_ready P c.
Proof using Type.
  intros Hs Hn j. rewrite (sees_state _ _ _ _ _ Hs). destruct (rt_threads (w_rt w) !! j) as [t|] eqn:Ht; [|done].
  pose proof (Hn j t Ht) as Hr. intros [= E]. apply is_ready_true in E. congruence.
Qed.

(** The machine after the call of the executing stack has returned [r] and left [w]. *)
Definition returned (m : machine P) (tid : Z) (u : p_state P) (r : resp) (w : world) : machine P :=
  {| m with m_world := w; m_mem := fst (p_feed P (m_mem P m) u r);
     m_ctl := <[m_run P m := Some (mk_ctl P tid (User P (snd (p_feed P (m_mem P m) u r))))]> (m_ctl P m) |}.

Definition implemented (c : cstate P) (m' : machine P) : Prop := ∃ c', cstep P c c' ∧ views m' c'.

Lemma implemented_told m c tid u a r :
  views m c → runs P c (TCall a) u → told P c a r → implemented c (returned m tid u r (m_world P m)).
Proof using Type.
  intros Hv Hr Ht. exists (give P u r c). split; [by eapply cs_told|]. by eapply (views_told m c tid u r (m_world P m)).
Qed.

(** All slots have been cleared. *)
Lemma sees_cleared w w' ctls run c sw nx live :
  sees w ctls run c → objs w' = objs w → rt_threads (w_rt w') = replicate GTH_MAX_THREADS thread_zero →
  w_os w' = w_os w → page_of w' = page_of w → counts w' = (sw, nx) → rt_initialized (w_rt w') = live →
  (live = true → GTH_MIN_STACK_SIZE ≤ cfg_stack_size_bytes (rt_config (w_rt w')) ≤ GTH_MAX_STACK_SIZE) →
  rt_mode (w_rt w') = GTH_MODE_NORMAL →
  sees w' ctls run {| c with c_abs := empty_slots (c_abs c); c_next := nx; c_switches := sw; c_live := live |}.
Proof using Type.
  intros Hs Eo Et Eos Epg Ec El Hsz Em.
  assert (Hz : ∀ i t, rt_threads (w_rt w') !! i = Some t → t = thread_zero) by (rewrite Et; by intros i t [-> _]%lookup_replicate_1).
  constructor; cbn; try done.
  - apply (abs_objs w); [done|apply Hs|]. rewrite Et. by rewrite fmap_replicate.
  - by intros i t ->%Hz.
  - by intros i t ->%Hz.
  - rewrite Epg. apply Hs.
  - apply (grants_same w); [done..|apply Hs].
Qed.

Lemma refine_init m c tid u config x w :
  views m c → runs P c (TCall (AInit config)) u → basic (AInit config) = true →
  gth_runtime_init config (m_world P m) = Done (x, w) → implemented c (returned m tid u (status x) w).
Proof using Type.
  intros Hv Hr Hb E. pose proof (init_spec config (m_world P m)) as H. unfold returns in H. rewrite E in H.
  pose proof (vi_sees _ _ Hv) as Hs. destruct config as [cfg|]; [|destruct H as [-> ->]; by apply (implemented_told m c tid u _ _ Hv Hr)].
  destruct (decide _) as [Hok|Hno].
  2:{ destruct H as [-> ->]. apply (implemented_told m c tid u _ _ Hv Hr). by left. }
  destruct (rt_initialized (w_rt (m_world P m))) eqn:Hini.
  { destruct H as [-> ->]. apply (implemented_told m c tid u _ _ Hv Hr). right. by rewrite <- (se_live _ _ _ _ Hs), Hini. }
  destruct H as (-> & -> & _). eexists. split; [eapply cs_init; [exact Hr|exact Hok|by rewrite <- (se_live _ _ _ _ Hs)]|].
  eapply views_give; [|apply Hv|apply Hv|apply Hv|done].
  eapply sees_cleared; [exact Hs|done..| | |]; cbn; try done. intros _. cbn in Hb. apply Z.leb_le in Hb.
  unfold GTH_MIN_STACK_SIZE. destruct Hok as [? _]. lia.
Qed.

Lemma shutdown_env w st w' : gth_runtime_shutdown w = Done (st, w') → w_os w' = w_os w ∧ page_of w' = page_of w.
Proof using Type.
  unfold gth_runtime_shutdown. destruct (negb _); [by intros [= <- <-]|]. intros [= <- <-].
  set (w1 := match rt_trace (w_rt w) with Some _ => gth_trace_cleanup w | None => w end).
  assert (E1 : untrace w1 = untrace w) by (unfold w1; destruct (rt_trace (w_rt w)); [apply untrace_cleanup|done]).
  set (w2 := match rt_replay (w_rt w1) with Some _ => gth_replay_cleanup w1 | None => w1 end).
  set (w3 := match rt_fuzz (w_rt w2) with Some _ => gth_fuzz_cleanup w2 | None => w2 end).
  assert (E3 : w_os w3 = w_os w ∧ page_of w3 = page_of w).
  { rewrite <- (ut_os _ _ E1), <- (untrace_page _ _ E1). unfold w3, w2. by repeat case_match. }
  clearbody w3. destruct (free_stacks_frame (rt_threads (w_rt w3)) 0 w3) as (x & s' & ->). exact E3.
Qed.

Lemma refine_shutdown m c tid u x w :
  views m c → runs P c (TCall AShutdown) u →
  gth_runtime_shutdown (m_world P m) = Done (x, w) → implemented c (returned m tid u (status x) w).
Proof using Type.
  intros Hv Hr E. pose proof (shutdown_spec (m_world P m)) as H. unfold returns in H. rewrite E in H.
  pose proof (vi_sees _ _ Hv) as Hs. rewrite (se_live _ _ _ _ Hs) in H. destruct (c_live c) eqn:Hl; cbn [negb] in H.
  - destruct H as (-> & Hrt & Ho & _). destruct (shutdown_env _ _ _ E) as [Eos Epg].
    eexists. split; [by eapply cs_shutdown|]. eapply views_give; [|apply Hv|apply Hv|apply Hv|done].
    eapply sees_cleared; [exact Hs|done|by rewrite Hrt|done|done|unfold counts; by rewrite Hrt|by rewrite Hrt|done|by rewrite Hrt].
  - destruct H as [-> ->]. by apply (implemented_told m c tid u _ _ Hv Hr).
Qed.

Lemma refine_create m c tid u out attr fn arg x w :
  mach_ok P m → tid_room (m_world P m) → views m c → runs P c (TCall (ACreate out attr fn arg)) u →
  gth_thread_create out attr fn arg (m_world P m) = Done (x, w) → implemented c (returned m tid u x w).
Proof using Hbits.
  intros Hm Hroom Hv Hr E. pose proof (vi_sees _ _ Hv) as Hs. pose proof Hm as [Hw _ _].
  destruct (rt_initialized (w_rt (m_world P m))) eqn:Hini; pose proof (se_live _ _ _ _ Hs) as Hl; rewrite Hini in Hl.
  2:{ unfold gth_thread_create in E. rewrite Hini in E. injection E as <- <-.
      apply (implemented_told m c tid u _ _ Hv Hr). by left. }
  destruct (decide (out = true ∧ fn ≠ 0)) as [[-> Hfn]|Hno].
  2:{ unfold gth_thread_create in E. rewrite Hini in E. cbn [negb] in E.
      assert (Hb : negb out || (fn =? 0) = true) by (destruct out; [|done]; apply Z.eqb_eq; destruct (decide (fn = 0)); tauto).
      rewrite Hb in E. injection E as <- <-. apply (implemented_told m c tid u _ _ Hv Hr). right. left. split_and!; [done| |done].
      destruct out; [right|by left]. by apply Z.eqb_eq. }
  destruct (gth_runtime_alloc_thread_slot (w_rt (m_world P m))) as [i|] eqn:Ha.
  2:{ unfold gth_thread_create in E. rewrite Hini in E. destruct (Z.eqb_spec fn 0); [done|]. cbn [negb orb] in E.
      unfold bind, gth_thread_acquire_slot in E. rewrite Ha in E. injection E as <- <-.
      apply (implemented_told m c tid u _ _ Hv Hr). right. right. split_and!; try done. by eapply sees_full. }
  pose proof (create_granted attr fn arg (m_world P m) i page_bits Hw Hroom Hini Hfn Ha (se_page _ _ _ _ Hs) Hbits (se_grants _ _ _ _ Hs)
    (se_size _ _ _ _ Hs (eq_sym Hl))) as Hc. unfold returns in Hc. rewrite E in Hc. destruct Hc as (-> & En & stk & Et).
  pose proof (create_switches true attr fn arg (m_world P m)) as Hsw. rewrite E in Hsw. destruct Hsw as [Eset Esw].
  pose proof (frames_create true attr fn arg (m_world P m)) as Hse. rewrite E in Hse. destruct Hse as [Eo _].
  pose proof (se_counts _ _ _ _ Hs) as [= Hc1 Hc2]. rewrite Hc2. apply alloc_slot_Some in Ha as Hi. destruct Hi as (ti & Hti & Hst).
  assert (Hne : m_run P m ≠ Thr i).
  { intros Hrun. destruct Hm as [_ Hex _]. unfold executing in Hex. rewrite Hrun in Hex. destruct Hex as [[(t0 & Ht0 & He0 & _) _] _].
    assert (t0 = ti) as -> by congruence. apply is_empty_true in Hst. congruence. }
  eexists. split; [by eapply cs_create; [exact Hr|done|exact Hfn|by eapply sees_free]|].
  injection Eset as Eos Epg Ein Ecf Emo. destruct Hs as [Habs Hthr Hslot Hcnt Hlive Hsize Hmode Hpage Hg].
  eapply views_give; [|apply Hv|apply Hv| |done].
  2:{ destruct (vi_main _ _ Hv) as (t0 & mode & ? & Hpc). exists t0, mode. split; [done|]. cbn. by rewrite fn_lookup_insert_ne. }
  constructor; cbn; try (congruence || done).
  - apply (abs_objs (m_world P m)); [done..|]. rewrite Et, <- (abs_threads _ _ Habs). by rewrite alter_insert, list_fmap_insert.
  - intros j t. rewrite Et. intros [(<- & <- & _)|[Hji Ht]]%list_lookup_insert_Some He.
    + rewrite fn_lookup_insert. by rewrite Hc2.
    + rewrite fn_lookup_insert_ne by done. by apply Hthr.
  - intros j t. rewrite Et. intros [(<- & <- & _)|[Hji Ht]]%list_lookup_insert_Some Hct Hjr.
    + rewrite fn_lookup_insert. by eexists.
    + rewrite fn_lookup_insert_ne by congruence. by apply Hslot.
  - unfold counts. congruence.
  - rewrite Ecf. done.
  - by apply (grants_same (m_world P m)).
Qed.

Lemma refine_cancel m c self u tid x w :
  mach_ok P m → cur_ok (cur_of (m_run P m)) (w_rt (m_world P m)) → views m c → runs P c (TCall (ACancel tid)) u →
  gth_thread_cancel tid (m_world P m) = Done (x, w) → implemented c (returned m self u (status x) w).
Proof using Type.
  intros Hm Hcur Hv Hr E. pose proof (vi_sees _ _ Hv) as Hs. pose proof Hm as [Hw _ _].
  pose proof (cancel_spec _ tid (m_world P m) Hw Hcur) as H. unfold returns in H. rewrite E, (se_live _ _ _ _ Hs) in H.
  assert (Htold : told P c (ACancel tid) (status x) ∧ w = m_world P m → implemented c (returned m self u (status x) w))
    by (intros [Ht ->]; by apply (implemented_told m c self u _ _ Hv Hr)).
  destruct (c_live c) eqn:Hl; cbn [negb] in H; [|apply Htold; destruct H as [-> ->]; split; [by left|done]].
  destruct (Z.eqb_spec tid 0) as [Hz|Hnz]; [apply Htold; destruct H as [-> ->]; split; [right; by left|done]|].
  destruct (gth_runtime_find_thread _ _) as [i|] eqn:Hfind.
  2:{ apply Htold. destruct H as [-> ->]. split; [|done]. right. right. left. split_and!; [done..| |done]. by eapply sees_find_None. }
  destruct H as (t & Ht & Htid & H). apply find_thread_Some in Hfind as (t' & Ht' & He & _). assert (t' = t) as -> by congruence.
  assert (Hit : is_thread P c tid i) by (by eapply sees_is_thread). pose proof (sees_state _ _ _ _ i Hs) as Hst. rewrite Ht in Hst.
  destruct (gth_thread_is_terminal (th_state t)) eqn:Hterm.
  { apply Htold. destruct H as [-> ->]. split; [|done]. right. right. right. split_and!; [done..| |done]. by exists i, (th_state t). }
  destruct H as (-> & Et & _ & _ & Eo). eexists. split; [by eapply cs_cancel|].
  pose proof (books_cancel (R := same_books) tid (m_world P m)) as Hb. rewrite E in Hb. destruct Hb as [Eset Ecnt]. injection Eset as Eos Epg Ein Ecf Emo.
  destruct Hs as [Habs Hthr Hslot Hcnt Hlive Hsize Hmode Hpage Hg]. eapply views_give; [|apply Hv|apply Hv|apply Hv|done].
  constructor; cbn; try (congruence || done).
  - apply (abs_objs (m_world P m)); [done..|]. rewrite Et, <- (abs_threads _ _ Habs). by rewrite alter_insert, list_fmap_insert.
  - intros j tj. rewrite Et. intros [(<- & <- & _)|[Hji Htj]]%list_lookup_insert_Some Hne.
    + rewrite fn_lookup_insert, (Hthr i t Ht) by (by apply is_empty_false). done.
    + rewrite fn_lookup_insert_ne by done. by apply Hthr.
  - intros j tj. rewrite Et. intros [(<- & <- & _)|[Hji Htj]]%list_lookup_insert_Some Hct; [done|by apply Hslot].
  - rewrite Ecf. done.
  - by apply (grants_same (m_world P m)).
Qed.

Lemma refine_stats m c tid u out :
  mach_ok P m → views m c → runs P c (TCall (AGetStats out)) u →
  implemented c (returned m tid u (gth_runtime_get_stats out (m_world P m)) (m_world P m)).
Proof using Type.
  intros [Hw _ _] Hv Hr. apply (implemented_told m c tid u _ _ Hv Hr). pose proof (vi_sees _ _ Hv) as Hs. cbn.
  unfold gth_runtime_get_stats. destruct (negb out); [done|]. rewrite (se_live _ _ _ _ Hs). destruct (negb _); [done|].
  pose proof (se_counts _ _ _ _ Hs) as [= -> _]. rewrite (snapshot_counts (w_rt (m_world P m)) (tb_len _ _ _ _ _ _ (wo_table _ Hw))).
  cbn. assert (Hcf : ∀ (p : gth_thread_state_t → bool), countb (λ t, p (th_state t)) (rt_threads (w_rt (m_world P m))) = countb p (a_threads (c_abs c))).
  { intros p. rewrite <- (abs_threads _ _ (se_abs _ _ _ _ Hs)). unfold countb.
    induction (rt_threads (w_rt (m_world P m))) as [|t l IH]; [done|]. cbn. destruct (p (th_state t)); cbn; lia. }
  by rewrite <- !Hcf.
Qed.

(** ** Main waits for a thread *)

(** What a join that has found its thread does; [w0] is the world it starts in. *)
Lemma join_facts m c t u tid r w :
  mach_ok P m → joining P m → views m c → m_run P m = Main → runs_task P m 0 u t →
  (t = TCall (AJoin tid) ∨ ∃ i, t = TResume (KRunNext 0 (InJoin tid i))) → code t (m_world P m) = Done (r, w) →
  (∃ x, told P c (AJoin tid) x ∧ t = TCall (AJoin tid) ∧ r = Return x ∧ w = m_world P m) ∨
  (∃ i ti, joins_thread P c t tid i ∧ rt_threads (w_rt (m_world P m)) !! i = Some ti ∧
    ∃ w0, rt_threads (w_rt w0) = rt_threads (w_rt (m_world P m)) ∧ rt_mode (w_rt w0) = rt_mode (w_rt (m_world P m)) ∧
      join_outcome tid i ti w0 r w).
Proof using HP.
  intros Hm Hj Hv Hrun (mode & Hctl & Hmode) Ht Ec. pose proof (vi_sees _ _ Hv) as Hs. pose proof Hm as [Hw Hex _].
  unfold executing in Hex. rewrite Hrun in Hex, Hctl. destruct Hex as (mode' & E & Hx). rewrite Hctl in E. injection E as <-.
  assert (Hcrun : c_run c = Main) by (by rewrite (vi_run _ _ Hv)). destruct Ht as [->|[i ->]]; cbn in Hmode, Ec.
  - destruct Hmode as [-> Hn]. pose proof (join_spec tid (m_world P m) Hw Hx) as H. unfold safe in H. rewrite Ec in H.
    rewrite (se_live _ _ _ _ Hs) in H. destruct (c_live c) eqn:Hl; cbn [negb] in H.
    2:{ destruct H as [-> ->]. left. eexists. split_and!; [|done..]. split; [done|]. by left. }
    destruct (Z.eqb_spec tid 0) as [->|Hnz].
    { destruct H as [-> ->]. left. eexists. split_and!; [|done..]. split; [done|]. right. by left. }
    destruct (gth_runtime_find_thread (w_rt (m_world P m)) tid) as [i|] eqn:Hf.
    + destruct H as (ti & Hti & Htid & Ho). right. exists i, ti. split_and!; [|done|by exists (m_world P m)].
      split_and!; [done| |by left]. apply find_thread_Some in Hf as (t' & Ht' & Hne & Htid').
      by apply (sees_is_thread _ _ _ _ _ _ t' Hs).
    + destruct H as [-> ->]. left. eexists. split_and!; [|done..]. split; [done|]. right. right. split_and!; try done.
      by eapply sees_find_None.
  - subst mode. destruct Hx as [[_ Hlt] Hnr]. unfold joining in Hj. rewrite Hctl in Hj. cbn in Hj. destruct Hj as (ti & Hti & He & Htid).
    right. exists i, ti. split_and!; [|done|].
    { split_and!; [done| |by right]. apply (sees_is_thread _ _ _ _ _ _ ti Hs); [done|by apply is_empty_false|done]. }
    unfold bind at 1, modify in Ec. set (w0 := gth_scheduler_run_next_resume 0 (m_world P m)) in *.
    exists w0. split_and!; [done|done|]. assert (Hw0 : world_ok w0) by (apply world_ok_rt; [done|apply Hw|apply Hw]).
    assert (Hc0 : cur_ok None (w_rt w0)) by (constructor; [done|]; intros j t' Ht' Hr'; exfalso; by eapply Hnr).
    assert (Hini : rt_initialized (w_rt w0) = true).
    { destruct (rt_initialized (w_rt w0)) eqn:Hi; [done|]. by rewrite (tb_uninit _ _ _ _ _ _ (wo_table _ Hw) Hi i ti Hti) in He. }
    assert (Hfind : gth_runtime_find_thread (w_rt w0) tid = Some i) by (rewrite <- Htid; by apply (find_thread_unique w0 Hw0)).
    pose proof (join_loop_outcome tid i ti w0 Hw0 Hc0 Hini Hfind Hti) as H. unfold safe, bind at 1 in H. by rewrite Ec in H.
Qed.

Lemma code_join_frames t tid w r w' :
  (t = TCall (AJoin tid) ∨ ∃ i, t = TResume (KRunNext 0 (InJoin tid i))) → code t w = Done (r, w') →
  objs w' = objs w ∧ tallied w r w'.
Proof using Type.
  intros [->|[i ->]] E; cbn in E.
  - pose proof (frames_join tid w) as H. rewrite E in H. split; [apply H|by eapply join_tally].
  - pose proof (frames_resume_main 0 (InJoin tid i) w) as H. cbn in H. rewrite E in H. split; [apply H|].
    by apply (resume_main_tally 0 (InJoin tid i)).
Qed.

Lemma refine_join_return m c t u tid x w :
  mach_ok P m → joining P m → views m c → m_run P m = Main → runs_task P m 0 u t →
  (t = TCall (AJoin tid) ∨ ∃ i, t = TResume (KRunNext 0 (InJoin tid i))) → code t (m_world P m) = Done (Return x, w) →
  implemented c (returned m 0 u x w).
Proof using HP.
  intros Hm Hj Hv Hrun Ht Htj Ec. pose proof (views_runs m c 0 u t Hv Ht) as Hr. pose proof (vi_sees _ _ Hv) as Hs.
  destruct (code_join_frames t tid _ _ _ Htj Ec) as [Eo Et].
  destruct (join_facts m c t u tid _ w Hm Hj Hv Hrun Ht Htj Ec) as [(y & Hto & -> & [= <-] & ->)|(i & ti & Hji & Hti & w0 & Ets & Emo & Ho)].
  { by apply (implemented_told m c 0 u (AJoin tid)). }
  pose proof (sees_state _ _ _ _ i Hs) as Hst. rewrite Hti in Hst. unfold join_outcome in Ho.
  destruct (gth_thread_is_terminal (th_state ti)) eqn:Hterm.
  - destruct Ho as [[= ->] (Ethr & _)]. destruct Hji as (Hcr & Hit & Hjt).
    assert (Hne : is_empty ti = false) by (unfold is_empty; by destruct (th_state ti)).
    pose proof (se_thr _ _ _ _ Hs i ti Hti Hne) as Hthr. eexists. split; [eapply cs_join_reap; [by split_and!|done|done|done]|].
    rewrite Hthr. eapply views_give; [|apply Hv|apply Hv|apply Hv|done]. destruct Et as [Eset Ecnt]. injection Eset as Eos Epg Ein Ecf Em.
    destruct Hs as [Habs Hth Hslot Hcnt Hlive Hsize Hmode Hpage Hg]. rewrite Ets in Ethr.
    constructor; cbn; try (congruence || done).
    + apply (abs_objs (m_world P m)); [done..|]. rewrite Ethr, <- (abs_threads _ _ Habs). by rewrite alter_insert, list_fmap_insert.
    + intros j tj. rewrite Ethr. intros [(<- & <- & _)|[Hji Htj']]%list_lookup_insert_Some He; [done|by apply Hth].
    + intros j tj. rewrite Ethr. intros [(<- & <- & _)|[Hji Htj']]%list_lookup_insert_Some Hct; [done|by apply Hslot].
    + rewrite Ecnt. exact Hcnt.
    + rewrite Ecf. done.
    + by apply (grants_same (m_world P m)).
  - destruct Ho as [([= ->] & Ethr & Hnr)|(j & tj & [=] & _)].
    exists (give P u (status GTH_EBUSY) c). split.
    + eapply cs_join_stuck; [done..|]. apply (sees_none_ready _ _ _ _ Hs). unfold no_ready. rewrite <- Ets. apply Hnr.
      by rewrite Emo, (se_mode _ _ _ _ Hs).
    + eapply views_told; [done|done|congruence| |done]. destruct Et as [Eset Ecnt]. by split.
Qed.

(** Of the other calls, yield and join switch stacks. *)
Lemma swapping_calls f w from to k w' :
  api_call f w = Done (Swap from to k, w') → basic f = true → (∀ cl a, sync_spec cl f a = None) →
  f = AYield ∨ ∃ tid, f = AJoin tid.
Proof using Type.
  intros E Hb Hn. assert (Hret : ∀ m, returning m w ≠ Done (Swap from to k, w')).
  { intros m. unfold returning, bind. by destruct (m w) as [[st w1]| |]. }
  specialize (Hn (mk_caller 0 None) (alpha w)). destruct f; try done; cbn in E; try (by destruct (Hret _ E)); eauto.
  unfold bind in E. by destruct (gth_thread_create _ _ _ _ w) as [[st w1]| |].
Qed.

(** Main hands over to a thread, in a join or in a yield. *)
Lemma refine_enter m c i ti t u k w mem mode m' :
  mach_ok P m → basic_next m → joining P m → views m c → m_run P m = Main → runs_task P m 0 u t →
  code t (m_world P m) = Done (Swap SchedCtx (ThreadCtx i) k, w) → rt_threads (w_rt (m_world P m)) !! i = Some ti →
  is_ready ti = true → entered P m i ti mem mode →
  m' = mk_machine P (upd_rt (save_ctx SchedCtx (CtxSaved Main (m_serial P m))) w) mem (Thr i)
      (<[Thr i := Some (mk_ctl P (th_tid ti) mode)]>
        (<[Main := Some (mk_ctl P 0 (Suspended P (m_serial P m) k u))]> (m_ctl P m))) (S (m_serial P m)) →
  implemented c m'.
Proof using HP.
  intros Hm HB Hj Hv Hrun Ht Ec Hti Hr Hent Em. pose proof (views_runs m c 0 u t Hv Ht) as Hru. pose proof (vi_sees _ _ Hv) as Hs.
  assert (Hready : state_of P c i = Some GTH_THREAD_READY).
  { rewrite (sees_state _ _ _ _ i Hs), Hti. cbn. f_equal. by apply is_ready_true. }
  assert (Hgo : objs w = objs (m_world P m) → tallied (m_world P m) (Swap SchedCtx (ThreadCtx i) k) w →
    rt_threads (w_rt w) = <[i := set_state GTH_THREAD_RUNNING ti]> (rt_threads (w_rt (m_world P m))) → cstep P c (enter P i k u c) →
    implemented c m').
  { intros Eo Et Ets Hst. exists (enter P i k u c). split; [done|]. by eapply (views_enter m c i ti k u w). }
  destruct (task_effect_ok P HP m 0 u t _ w Hm Hj Ht Ec) as [v a _ Hans _ _|Hn Hse Hsc _].
  { destruct v as [|k']; [done|]. rewrite Hrun in Hans. by destruct Hans as (c' & ? & _). }
  assert (Ets : rt_threads (w_rt w) = <[i := set_state GTH_THREAD_RUNNING ti]> (rt_threads (w_rt (m_world P m)))).
  { inversion Hsc; subst. by simplify_eq. }
  assert (Hjoin : ∀ tid, t = TCall (AJoin tid) ∨ (∃ j, t = TResume (KRunNext 0 (InJoin tid j))) → implemented c m').
  { intros tid Htj. destruct (code_join_frames t tid _ _ _ Htj Ec) as [Eo Et].
    destruct (join_facts m c t u tid _ w Hm Hj Hv Hrun Ht Htj Ec) as [(y & _ & _ & [=] & _)|(j & tj & Hjj & Htj' & w0 & E1 & E2 & Ho)].
    unfold join_outcome in Ho. destruct (gth_thread_is_terminal (th_state tj)) eqn:Hterm; [by destruct Ho|].
    destruct Ho as [[[=] _]|(i' & ti' & [= <- ->] & _)]. apply Hgo; [done..|].
    eapply cs_join_enter; [done|done| |exact Hterm|done]. by rewrite (sees_state _ _ _ _ j Hs), Htj'. }
  pose proof Hm as [Hw Hex _]. unfold executing in Hex. destruct Ht as (mode0 & Hctl & Hmode). rewrite Hrun in Hex, Hctl.
  destruct Hex as (mode1 & E1 & Hx). rewrite Hctl in E1. injection E1 as <-. destruct t as [f|k']; cbn in Hmode.
  - destruct Hmode as [-> Hnext]. assert (Hf : f = AYield ∨ ∃ tid, f = AJoin tid)
      by (apply (swapping_calls f (m_world P m) _ _ _ w Ec); [by eapply HB; [rewrite Hrun|]|intros cl; apply Hn]).
    destruct Hf as [->|[tid ->]]; [|apply (Hjoin tid); by left]. cbn in Ec. pose proof (yield_tally _ _ _ Ec) as Et.
    unfold gth_thread_yield in Ec. destruct (rt_initialized (w_rt (m_world P m))) eqn:Hini; [|done].
    rewrite (co_current _ _ Hx) in Ec. cbn [negb Z.eqb] in Ec. unfold bind in Ec.
    destruct (gth_scheduler_run_next InYield (m_world P m)) as [[[st|sw] w1]| |] eqn:En; [done| |done..].
    injection Ec as -> ->. pose proof (run_next_slots (m_world P m) Hw Hx Hini None InYield _ w En) as [_ [i' [= <- ->]]].
    apply Hgo; [apply Hse|done|done|]. apply cs_yield_enter; try done; [by rewrite (vi_run _ _ Hv)|by rewrite <- (se_live _ _ _ _ Hs)].
  - subst mode0. destruct Hx as [Hk _]. destruct k' as [| | | |prev [|tid j]]; try done. destruct Hk as [-> _]. apply (Hjoin tid). right. by exists j.
Qed.

(** ** One step *)

Lemma refine_yield_return m c tid u x w :
  mach_ok P m → views m c → runs_task P m tid u (TCall AYield) → gth_thread_yield (m_world P m) = Done (Return x, w) →
  implemented c (returned m tid u x w).
Proof using Type.
  intros Hm Hv Ht E. pose proof (views_runs m c tid u _ Hv Ht) as Hr. pose proof (vi_sees _ _ Hv) as Hs. pose proof Hm as [Hw Hex _].
  pose proof (yield_tally _ _ _ E) as Hb. pose proof (frames_yield (R := settles) (m_world P m)) as Hf. rewrite E in Hf.
  unfold executing in Hex. destruct Ht as (mode & Hctl & -> & Hn). unfold gth_thread_yield in E.
  destruct (rt_initialized (w_rt (m_world P m))) eqn:Hini; cbn [negb] in E; rewrite (se_live _ _ _ _ Hs) in Hini.
  2:{ injection E as <- <-. apply (implemented_told m c tid u _ _ Hv Hr). split; [|by left]. rewrite (vi_run _ _ Hv).
      destruct (m_run P m) as [|i]; [done|]. destruct Hex as [[(ti & Hti & He & _) _] _].
      rewrite <- (se_live _ _ _ _ Hs) in Hini. by rewrite (tb_uninit _ _ _ _ _ _ (wo_table _ Hw) Hini i ti Hti) in He. }
  destruct (m_run P m) as [|i] eqn:Hrun.
  - destruct Hex as (mode & E' & Hx). rewrite Hctl in E'. injection E' as -> <-. rewrite (co_current _ _ Hx) in E. cbn [Z.eqb] in E.
    unfold bind in E. destruct (gth_scheduler_run_next InYield (m_world P m)) as [[[st|sw] w1]| |] eqn:En; [..|done|done].
    + injection E as <- <-. pose proof (run_next_outcome InYield (m_world P m) Hw Hx) as Ho.
      rewrite (se_live _ _ _ _ Hs) in Ho. specialize (Ho Hini). unfold safe in Ho. rewrite En in Ho. destruct Ho as (-> & Ets & Hnr).
      exists (give P u (status GTH_ENOTFOUND) c). split.
      * eapply cs_told; [exact Hr|]. split; [by rewrite (vi_run _ _ Hv)|]. right. split_and!; [done| |done].
        apply (sees_none_ready _ _ _ _ Hs), Hnr. by rewrite (se_mode _ _ _ _ Hs).
      * eapply views_told; [done|apply Hf|done| |done]. destruct Hb as [E1 E2]. by split.
    + injection E as -> <-. exfalso. rewrite <- (se_live _ _ _ _ Hs) in Hini.
      by destruct (run_next_slots (m_world P m) Hw Hx Hini None InYield _ w1 En) as [_ [i [=]]].
  - destruct Hex as [Hc _]. destruct (find_current _ Hw i Hc) as (Hfind & Hnz & _). apply Z.eqb_neq in Hnz. by rewrite Hnz, Hfind in E.
Qed.

Lemma refine_return m c tid u t x w :
  mach_ok P m → tid_room (m_world P m) → basic_next m → joining P m → views m c → runs_task P m tid u t →
  code t (m_world P m) = Done (Return x, w) → implemented c (returned m tid u x w).
Proof using HP Hbits.
  intros Hm Hroom HB Hj Hv Ht Ec. pose proof (views_runs m c tid u t Hv Ht) as Hr.
  destruct (task_spec (ccaller P c) t (c_abs c)) as [[v a]|] eqn:Hsp.
  { destruct (sync_task m c tid u t _ w v a Hm Hroom Hv Ht Ec Hsp) as [Hans Hs].
    destruct v as [st|k]; [|by destruct Hans as (i & _ & [=])]. injection Hans as ->. eexists.
    split; [by eapply cs_answer|]. eapply views_give; [exact Hs|apply Hv..|done]. }
  pose proof (task_ok P HP m tid u t Hm Hroom Ht) as [-> _]. pose proof Hm as [_ Hex _]. unfold executing in Hex.
  assert (Hgo : ∀ y, (t = TResume KYield ∨ t = TResume KSemWait ∨ t = TResume (KRunNext 0 InYield)) → y = status GTH_OK →
    objs w = objs (m_world P m) → rt_threads (w_rt w) = rt_threads (w_rt (m_world P m)) → same_books (m_world P m) w →
    ∀ tid, implemented c (returned m tid u y w)).
  { intros y Hty -> E1 E2 E3 tid. eexists. split; [by eapply cs_go_on|]. by eapply views_told. }
  destruct t as [f|k].
  - destruct Ht as (mode & Hctl & -> & Hnext). pose proof (HB _ u f Hctl Hnext) as Hb.
    destruct f; try done; cbn in Ec, Hsp;
      try (unfold returning, bind in Ec; destruct (gth_runtime_init config (m_world P m)) as [[st w1]| |] eqn:E; [|done..];
           injection Ec as <- <-; by apply (refine_init m c _ u config)).
    + unfold returning, bind in Ec. destruct (gth_runtime_shutdown (m_world P m)) as [[st w1]| |] eqn:E; [|done..].
      injection Ec as <- <-. by apply (refine_shutdown m c).
    + injection Ec as <- <-. by apply (refine_stats m c).
    + unfold bind in Ec. destruct (gth_thread_create _ _ _ _ (m_world P m)) as [[y w1]| |] eqn:E; [|done..].
      injection Ec as <- <-. by eapply (refine_create m c).
    + apply (refine_yield_return m c); try done. by exists (User P u).
    + destruct (m_run P m) as [|i] eqn:Hrun.
      * apply (refine_join_return m c (TCall (AJoin tid)) u tid); try done; [exists (User P u); by rewrite Hrun|by left].
      * destruct Hex as (_ & _ & _ & mode & E & Hu). rewrite Hctl in E. injection E as <-. by specialize (HP u (AJoin tid) Hu Hnext).
    + unfold returning, bind in Ec. destruct (gth_thread_cancel tid (m_world P m)) as [[st w1]| |] eqn:E; [|done..].
      injection Ec as <- <-. apply (refine_cancel m c _ u tid); [done| |done..].
      destruct (m_run P m) as [|i]; [|apply Hex]. destruct Hex as (mode & E' & Hx). rewrite Hctl in E'. injection E' as <-. exact Hx.
    + injection Ec as <- <-. apply (implemented_told m c _ u _ _ Hv Hr). cbn. f_equal. f_equal.
      symmetry. eapply (self_eq m c _ u (TCall ASelf)); [done..|by exists (User P u)|done].
  - destruct Ht as (mode & Hctl & Hmode). cbn in Hmode. subst mode. destruct (m_run P m) as [|i] eqn:Hrun.
    + destruct Hex as (mode & E & Hx). rewrite Hctl in E. injection E as <-. destruct Hx as [Hk _].
      destruct k as [| | | |prev [|tid i]]; try done; cbn in Hk.
      * subst prev. cbn in Ec. injection Ec as <- <-. by apply Hgo; auto.
      * destruct Hk as [-> _]. apply (refine_join_return m c (TResume (KRunNext 0 (InJoin tid i))) u tid); try done; [|right; by exists i].
        exists (Resuming P (KRunNext 0 (InJoin tid i)) u). by rewrite Hrun.
    + destruct Hex as (_ & _ & _ & mode & E & Hx). rewrite Hctl in E. injection E as <-. destruct Hx as [Hk _].
      destruct k as [|x' s'|x'| |prev kr]; try done; cbn in Ec; injection Ec as <- <-; by apply Hgo; auto.
Qed.

Lemma refine_park m c i tid u t k w n k0 u0 m' :
  mach_ok P m → tid_room (m_world P m) → basic_next m → joining P m → views m c → m_run P m = Thr i → runs_task P m tid u t →
  code t (m_world P m) = Done (Swap (ThreadCtx i) SchedCtx k, w) → main_waits P m n k0 u0 →
  m' = mk_machine P (upd_rt (save_ctx (ThreadCtx i) (CtxSaved (Thr i) (m_serial P m))) w) (m_mem P m) Main
      (<[Main := Some (mk_ctl P 0 (Resuming P k0 u0))]>
        (<[Thr i := Some (mk_ctl P tid (Suspended P (m_serial P m) k u))]> (m_ctl P m))) (S (m_serial P m)) →
  implemented c m'.
Proof using HP.
  intros Hm Hroom HB Hj Hv Hrun Ht Ec Hwait Em. pose proof (views_runs m c tid u t Hv Ht) as Hr. pose proof (vi_sees _ _ Hv) as Hs.
  pose proof (main_waits_pc m c n k0 u0 Hv Hwait) as Hpc. pose proof Hm as [Hw Hex _]. unfold executing in Hex.
  pose proof (task_ok P HP m tid u t Hm Hroom Ht) as [Etid _]. rewrite Hrun in *. destruct Hex as (Hc & _ & _ & mode & Hctl & Hx).
  destruct (co_current _ _ Hc) as (ti & Hti & He & Eti).
  assert (Hgo : ∀ c1, sees w (m_ctl P m) (Thr i) c1 → c_mem c1 = m_mem P m → c_pc c1 Main = c_pc c Main →
    th_tid <$> rt_threads (w_rt w) !! i = Some tid → views m' (leave P i (PStop P k u) c1)).
  { intros c1 H1 H2 H3 H4. eapply (views_leave m i tid u k w n k0 u0 c1); try done; [by rewrite H3|].
    intros t' Ht'. rewrite Ht' in H4. by injection H4. }
  assert (Hold : th_tid <$> rt_threads (w_rt (m_world P m)) !! i = Some tid) by (rewrite Hti; cbn; congruence).
  destruct (task_spec (ccaller P c) t (c_abs c)) as [[v a]|] eqn:Hsp.
  - destruct (sync_task m c tid u t _ w v a Hm Hroom Hv Ht Ec Hsp) as [Hans Hs']. rewrite Hrun in Hans, Hs'.
    destruct v as [st|k']; [done|]. destruct Hans as (i' & _ & [= <- <-]). eexists.
    split; [eapply cs_park; [by rewrite (vi_run _ _ Hv)|done|done]|]. apply Hgo; [done|apply Hv|done|].
    destruct (task_effect_ok P HP m tid u t _ w Hm Hj Ht Ec) as [v' a' _ _ _ Hb|Hn _ _ _]; [|by rewrite Hn in Hsp].
    by rewrite (slots_tid _ _ i (briefs_slots _ _ Hb)).
  - destruct (task_effect_ok P HP m tid u t _ w Hm Hj Ht Ec) as [v' a' Hsp' _ _ _|Hn Hse Hsc _].
    { by rewrite (task_spec_None _ _ _ Hsp) in Hsp'. }
    assert (Hy : k = KYield ∧ rt_threads (w_rt w) = <[i := set_state GTH_THREAD_READY ti]> (rt_threads (w_rt (m_world P m))))
      by (inversion Hsc; subst; by simplify_eq). destruct Hy as [-> Ets].
    assert (t = TCall AYield) as ->.
    { destruct t as [f|k']; cbn in Ec.
      - destruct Ht as (mode0 & Hctl0 & -> & Hnext). pose proof (HB _ u f Hctl0 Hnext) as Hb. rewrite Hrun, Hctl in Hctl0. injection Hctl0 as _ ->.
        destruct (swapping_calls f (m_world P m) _ _ _ w Ec Hb ltac:(intros; apply Hn)) as [->|[tid' ->]]; [done|].
        by specialize (HP u (AJoin tid') Hx Hnext).
      - destruct Ht as (mode0 & Hctl0 & ->). rewrite Hrun, Hctl in Hctl0. injection Hctl0 as _ ->. destruct Hx as [Hk _].
        by destruct k' as [|x s'|x| |prev kr]. }
    cbn in Ec. destruct (yield_tally _ _ _ Ec) as [Eset Ecnt]. cbn in Ecnt.
    eexists. split; [eapply cs_yield; [by rewrite (vi_run _ _ Hv)|done]|]. apply Hgo; [|apply Hv|done|].
    2:{ rewrite Ets, list_lookup_insert_eq by (by eapply lookup_lt_Some). cbn. congruence. }
    injection Eset as Eos Epg Ein Ecf Emo. destruct Hs as [Habs Hth Hslot Hcnt Hlive Hsize Hmode Hpage Hg].
    constructor; cbn; try (congruence || done).
    + apply (abs_objs (m_world P m)); [apply Hse|done|]. rewrite Ets, <- (abs_threads _ _ Habs). by rewrite alter_insert, list_fmap_insert.
    + intros j tj. rewrite Ets. intros [(<- & <- & _)|[Hji Htj']]%list_lookup_insert_Some He'; [by apply (Hth i ti)|by apply Hth].
    + intros j tj. rewrite Ets. intros [(<- & <- & _)|[Hji Htj']]%list_lookup_insert_Some Hct Hne; [done|by apply Hslot].
    + rewrite Ecnt. exact Hcnt.
    + rewrite Ecf. done.
    + by apply (grants_same (m_world P m)).
Qed.

Lemma refine_exit m c i tid u v w n k0 u0 m' :
  mach_ok P m → views m c → m_run P m = Thr i → m_ctl P m (Thr i) = Some (mk_ctl P tid (User P u)) → p_next P u = AReturn v →
  trampoline_exit i v (m_world P m) = Done (tt, w) → main_waits P m n k0 u0 →
  m' = {| m with m_world := w; m_run := Main;
      m_ctl := <[Main := Some (mk_ctl P 0 (Resuming P k0 u0))]> (<[Thr i := None]> (m_ctl P m)) |} →
  implemented c m'.
Proof using Type.
  intros Hm Hv Hrun Hctl Hn Et Hwait ->. pose proof (vi_sees _ _ Hv) as Hs. pose proof (main_waits_pc m c n k0 u0 Hv Hwait) as Hpc.
  pose proof Hm as [Hw Hex _]. unfold executing in Hex. rewrite Hrun in Hex. destruct Hex as ((Hc & _) & _).
  destruct Hc as (ti & Hti & He & _). pose proof (books_trampoline (R := same_books) i v (m_world P m)) as Hb.
  pose proof (frames_trampoline (R := settles) i v (m_world P m)) as Hse. rewrite Et in Hb, Hse.
  assert (Ets : rt_threads (w_rt w) = <[i := finished v ti]> (rt_threads (w_rt (m_world P m)))).
  { rewrite (trampoline_exit_eq i v _ ti Hti) in Et. injection Et as <-. cbn. unfold gth_trace_thread_exit.
    rewrite (ut_threads _ _ (untrace_record _ _ _ _ _)). cbn. apply alter_insert. }
  assert (Hfin : th_state (finished v ti) = fst (ended (th_state ti) v) ∧ counted (finished v ti) = false ∧
    thr_of (finished v ti) = {| (thr_of ti) with t_val := snd (ended (th_state ti) v) |}).
  { unfold finished, counted, is_ready, is_blocked. destruct (th_state ti) eqn:Est; cbn; by rewrite ?Est. }
  destruct Hfin as (Hf1 & Hf2 & Hf3).
  assert (Hpcu : c_pc c (Thr i) = PUser P u).
  { destruct (vi_cur _ _ Hv) as (tid' & mode & E & Hp). rewrite Hrun, Hctl in E. injection E as _ <-. by rewrite Hrun in Hp. }
  eexists. split.
  { eapply (cs_exit P c i u v (th_state ti)); [by rewrite (vi_run _ _ Hv)|done|done|]. by rewrite (sees_state _ _ _ _ i Hs), Hti. }
  pose proof (se_thr _ _ _ _ Hs i ti Hti He) as Hthi.
  destruct Hb as [Eset Ecnt]. injection Eset as Eos Epg Ein Ecf Emo. destruct Hs as [Habs Hth Hslot Hcnt Hlive Hsize Hmode Hpage Hg].
  unfold leave. cbn. rewrite Hpc.
  constructor; cbn; [|apply Hv|done|eexists _, _; by rewrite !fn_lookup_insert|eexists _, _; by rewrite !fn_lookup_insert].
  constructor; cbn; try (congruence || done).
  - apply (abs_objs (m_world P m)); [apply Hse|done|]. rewrite Ets, <- (abs_threads _ _ Habs). by rewrite alter_insert, list_fmap_insert, Hf1.
  - intros j tj. rewrite Ets. intros [(<- & <- & _)|[Hji Htj']]%list_lookup_insert_Some He'.
    + by rewrite fn_lookup_insert, Hf3, Hthi.
    + rewrite fn_lookup_insert_ne by done. by apply Hth.
  - intros j tj. rewrite Ets. intros [(<- & <- & _)|[Hji Htj']]%list_lookup_insert_Some Hct _; [congruence|].
    rewrite !fn_lookup_insert_ne by congruence. specialize (Hslot j tj Htj' Hct ltac:(congruence)). unfold slot_pc in *.
    destruct (c_pc c (Thr j)); try done. by rewrite !insert_ctl_ne by congruence.
  - rewrite Ecf. done.
  - by apply (grants_same (m_world P m)).
Qed.

Lemma refine_step m c m' :
  mach_ok P m → tid_room (m_world P m) → basic_next m → joining P m → views m c → step P m = Next P m' → implemented c m'.
Proof using HP Hbits.
  intros Hm Hroom HB Hj Hv E.
  apply step_stepped in E as [tid u t r w Ht Ec|i tid u t k w n k0 u0 Hrun Ht Ec Hk Hwait|i ti u t k w mem mode Hrun Ht Ec Hk Hti Hr He|i tid u v w n k0 u0 Hrun Hctl Hn Et Hwait]; try done.
  - by apply (refine_return m c tid u t).
  - by eapply (refine_park m c i tid u t k w).
  - by eapply (refine_enter m c i ti t u k w mem mode).
  - by eapply (refine_exit m c i tid u v w).
Qed.

Lemma views_boot os fuel :
  os_page_size os = 2 ^ page_bits → (∀ n size, is_Some (os_mmap os n size)) → (∀ n, os_mprotect os n = true) →
  views (boot P os fuel) (cboot P).
Proof using Hbits.
  intros Hp Hmm Hmp. assert (Hz : ∀ i t, replicate GTH_MAX_THREADS thread_zero !! i = Some t → t = thread_zero)
    by (intros i t [-> _]%lookup_replicate_1; done).
  constructor; [|done|done|by eexists _, _|by eexists _, _]. constructor; try done.
  - intros i t Ht%Hz He. by subst.
  - intros i t Ht%Hz Hc. by subst.
  - constructor; [|done..]. unfold page_of. cbn. rewrite Hp. by apply Z.pow_pos_nonneg; lia.
Qed.
End refinement.

(** C4. The library implements cooperative threads.  Take a program whose green
    threads neither join nor shut down, on a system that grants memory, and an
    execution in which it makes no calls about tracing, replay, fuzzing and
    modes ([basic]; a configured stack has at most 64 MiB).  The execution is
    step by step one of the abstract machine: threads are created, handed over
    to, blocked, woken, cancelled, ended and reaped as there, with the same ids,
    results, answers, memory and objects.  What the abstract machine answers is
    what the code answers, also where the header says otherwise: main's yield
    with no thread ready is ENOTFOUND. *)
Theorem machine_refines_coop P os fuel page_bits n m :
  disciplined P → 0 ≤ page_bits ≤ 30 → os_page_size os = 2 ^ page_bits →
  (∀ n size, is_Some (os_mmap os n size)) → (∀ n, os_mprotect os n = true) → Z.of_nat n < 2 ^ 64 - 2 →
  (∀ k m', (k < n)%nat → run P k (boot P os fuel) = Next P m' → basic_next P m') →
  run P n (boot P os fuel) = Next P m →
  ∃ c, nsteps (cstep P) n (cboot P) c ∧ views P page_bits m c.
Proof.
  intros HP Hbits Hp Hmm Hmp. revert m. induction n as [|n IH]; intros m Hn HB E.
  - injection E as <-. exists (cboot P). split; [constructor|]. by apply views_boot.
  - apply run_snoc in E as (m1 & E1 & E2). destruct (IH m1 ltac:(lia) (λ k m' Hk, HB k m' ltac:(lia)) E1) as (c1 & Hc1 & Hv1).
    destruct (refine_step P HP page_bits Hbits m1 c1 m) as (c & Hc & Hv); [..|done|done|].
    + eapply reachable_ok; [done| |exact E1]. lia.
    + eapply reachable_room; [done| |exact E1]. lia.
    + apply (HB n); [lia|done].
    + eapply reachable_joining; [done| |exact E1]. lia.
    + exists c. split; [|done]. by eapply nsteps_r.
Qed.

(** ** Witness: two threads and a mutex *)

Definition twins : program := script_program
  [AInit (Some demo_config); AMutexInit 5; ACreate true None 1 0; ACreate true None 1 0; AJoin 1; AJoin 2]
  (λ _, [ALock 5; AYield; AUnlock 5]).

Lemma twins_disciplined : disciplined twins.
Proof. by apply script_disciplined. Qed.

Lemma basic_run P os fuel n :
  forallb (λ k, match next_call (run P k (boot P os fuel)) with Some (_, a) => basic a | None => true end) (seq 0 n) = true →
  ∀ k m, (k < n)%nat → run P k (boot P os fuel) = Next P m → basic_next P m.
Proof.
  intros H k m Hk E tid u a E1 E2. pose proof (proj1 (forallb_forall _ _) H k ltac:(apply in_seq; lia)) as Hb. cbn beta in Hb.
  by rewrite E, (next_call_eq P m tid u a E1 E2) in Hb.
Qed.

Lemma machine_refines_coop_witness : ∃ m c,
  run twins 14 (boot twins sunny_os 0) = Next twins m ∧ nsteps (cstep twins) 14 (cboot twins) c ∧ views twins 12 m c.
Proof.
  destruct (is_next_true (run twins 14 (boot twins sunny_os 0))) as [m Hm]; [by vm_compute|]. exists m.
  destruct (machine_refines_coop twins sunny_os 0 12 14 m twins_disciplined ltac:(lia) eq_refl
    (λ n _, ex_intro _ _ eq_refl) (λ _, eq_refl) ltac:(cbn; lia) (basic_run twins sunny_os 0 14 ltac:(by vm_compute)) Hm) as (c & H1 & H2).
  exists c. split; [exact Hm|]. split; [exact H1|exact H2].
Defined.
