(* ===== verification/Context.v ===== *)
(** * The context switch in assembly (src/src/context/ctx_x86_64.S)

    The three routines of the assembly file, instruction by instruction, on a
    model of the x86-64 registers, of memory as 64-bit words, and of the
    FPU/SSE state.  The theorems justify what [Thread] and [Machine] assume of
    [gth_ctx_make] and [gth_ctx_swap]: a switch comes back to its caller like
    an ordinary call, with the callee-saved registers it had, and the first
    switch to a new context enters the trampoline's function with the slot as
    argument and an aligned stack.

    Addresses of code count instructions: [text + k] is the [k]-th instruction
    of the file. *)

From S2P Require Import Prelude Stack.

Inductive reg := RAX | RBX | RCX | RDX | RSP | RBP | RSI | RDI | R12 | R13 | R14 | R15.

#[export] Instance reg_eq_dec : EqDecision reg.
Proof. solve_decision. Defined.

(** ** Instructions, in AT&T order: source, then destination *)

Inductive instr :=
| movq_rm (src : reg) (disp : Z) (base : reg)      (* movq %src, disp(%base) *)
| movq_mr (disp : Z) (base : reg) (dst : reg)      (* movq disp(%base), %dst *)
| leaq_label (k : nat) (dst : reg)                 (* leaq label(%rip), %dst *)
| leaq (disp : Z) (base : reg) (dst : reg)         (* leaq disp(%base), %dst *)
| xorq_self (r : reg)                              (* xorq %r, %r *)
| testq_self (r : reg)                             (* testq %r, %r *)
| jz (k : nat)                                     (* jz label *)
| fxsave (base : reg)                              (* fxsave (%base) *)
| fxrstor (base : reg)                             (* fxrstor (%base) *)
| jmpq_m (disp : Z) (base : reg)                   (* jmpq *disp(%base) *)
| callq_r (r : reg)                                (* callq *%r *)
| ret_                                             (* ret *)
| ud2.

(** ** The listing *)

Definition gth_ctx_swap : list instr := [
  movq_rm RBX 0 RDI; movq_rm RBP 8 RDI; movq_rm R12 16 RDI; movq_rm R13 24 RDI;
  movq_rm R14 32 RDI; movq_rm R15 40 RDI; movq_rm RSP 48 RDI;
  leaq_label 25 RAX; movq_rm RAX 56 RDI;
  movq_mr 64 RDI RAX; testq_self RAX; jz 13; fxsave RAX;
  movq_mr 64 RSI RAX; testq_self RAX; jz 17; fxrstor RAX;
  movq_mr 0 RSI RBX; movq_mr 8 RSI RBP; movq_mr 16 RSI R12; movq_mr 24 RSI R13;
  movq_mr 32 RSI R14; movq_mr 40 RSI R15; movq_mr 48 RSI RSP;
  jmpq_m 56 RSI;
  ret_ ].

Definition gth_ctx_make : list instr := [
  xorq_self RAX;
  movq_rm RAX 0 RDI; movq_rm RAX 8 RDI; movq_rm RAX 16 RDI; movq_rm RAX 24 RDI;
  movq_rm RAX 32 RDI; movq_rm RAX 40 RDI;
  leaq (-16) RSI RAX; movq_rm RAX 48 RDI;
  movq_rm RDX 0 RAX; movq_rm RCX 8 RAX;
  leaq_label 44 RAX; movq_rm RAX 56 RDI;
  movq_mr 64 RDI RAX; testq_self RAX; jz 43; fxsave RAX;
  ret_ ].

Definition gth_ctx_trampoline : list instr := [
  movq_mr 0 RSP RAX; movq_mr 8 RSP RDI; callq_r RAX; ud2 ].

(** The labels [gth_ctx_swap], [gth_ctx_make] and [gth_ctx_trampoline]. *)
Definition swap_entry : nat := 0.
Definition swap_resume : nat := 25.
Definition make_entry : nat := 26.
Definition trampoline_entry : nat := 44.

Definition code : list instr := gth_ctx_swap ++ gth_ctx_make ++ gth_ctx_trampoline.

(** ** Machine state *)

(** The part of the 512-byte FXSAVE image that the processor writes: bytes 0
    to 463; the rest is left to software. *)
Definition FX_WORDS : nat := 58.

Record cpu := mk_cpu {
  regs : reg → Z;
  mem : Z → Z;              (* the 64-bit word at each 8-aligned address *)
  fpu : list Z;             (* x87 and SSE state, as FXSAVE lays it out *)
  zf : bool;
  pc : Z
}.

Definition aligned (n a : Z) : bool := a mod n =? 0.

(** The words at [a], [a + 8], ... *)
Definition words_at (m : Z → Z) (a : Z) (n : nat) : list Z := (λ i, m (a + 8 * Z.of_nat i)) <$> seq 0 n.

Fixpoint store_words (m : Z → Z) (a : Z) (ws : list Z) : Z → Z :=
  match ws with [] => m | w :: ws => store_words (<[a := w]> m) (a + 8) ws end.

(** ** Contexts in memory *)

(** A [gth_ctx_t]: eight saved registers, the FXSAVE pointer, and at offset 80
    the FXSAVE buffer; 592 bytes in all. *)
Definition CTX_SIZE : Z := 592.

Record ctx_ok (m : Z → Z) (c : Z) : Prop := {
  cx_aligned : c mod 16 = 0;
  cx_low : 0 ≤ c;
  cx_high : c + CTX_SIZE ≤ 2 ^ 64;
  cx_area : m (c + 64) = 0 ∨ m (c + 64) = c + 80
}.

Definition callee_saved : list reg := [RBX; RBP; R12; R13; R14; R15; RSP].

(** The memory after [movq %reg, 8*i(%rdi)] for the seven registers and the
    resume address [rip]. *)
Definition save_regs (m : Z → Z) (c : Z) (r : reg → Z) (rip : Z) : Z → Z :=
  <[c + 56 := rip]> (<[c + 48 := r RSP]> (<[c + 40 := r R15]> (<[c + 32 := r R14]>
    (<[c + 24 := r R13]> (<[c + 16 := r R12]> (<[c + 8 := r RBP]> (<[c + 0 := r RBX]> m))))))).

Lemma mod_aligned a d : a mod 16 = 0 → d mod 8 = 0 → aligned 8 (a + d) = true.
Proof.
  intros Ha Hd. unfold aligned. apply Z.eqb_eq.
  apply Z.mod_divide in Ha as [x ->]; [|done]. apply Z.mod_divide in Hd as [y ->]; [|done].
  replace (x * 16 + y * 8) with ((2 * x + y) * 8) by lia. by apply Z_mod_mult.
Qed.

Lemma lookup_upd (m : Z → Z) a v b : <[a := v]> m b = if decide (a = b) then v else m b.
Proof.
  case_decide as E; [subst; by rewrite fn_lookup_insert|by rewrite fn_lookup_insert_ne].
Qed.

(** Looking up a word of a context that was just saved. *)
Ltac look := repeat (rewrite lookup_upd; case_decide; [try lia|]); try lia.

Lemma save_regs_frame m c r rip a : ¬ (c ≤ a < c + 64) → save_regs m c r rip a = m a.
Proof. intros Ha. unfold save_regs. look. Qed.

Lemma save_regs_reg m c r rip i x :
  callee_saved !! i = Some x → save_regs m c r rip (c + 8 * Z.of_nat i) = r x.
Proof.
  unfold save_regs. intros Hi. do 7 (destruct i as [|i]; [injection Hi as <-; look; try done|]). done.
Qed.

Lemma save_regs_rip m c r rip : save_regs m c r rip (c + 56) = rip.
Proof. unfold save_regs. by rewrite lookup_upd, decide_True. Qed.

Lemma store_words_frame ws : ∀ m a b, ¬ (a ≤ b < a + 8 * Z.of_nat (length ws)) → store_words m a ws b = m b.
Proof.
  induction ws as [|x ws IH]; intros m a b Hb; cbn [store_words]; [done|].
  rewrite IH by (cbn [length] in Hb; lia). rewrite lookup_upd. case_decide; [cbn [length] in Hb; lia|done].
Qed.

Lemma words_at_S m a n : words_at m a (S n) = m a :: words_at m (a + 8) n.
Proof.
  unfold words_at. cbn [seq fmap list_fmap]. f_equal; [f_equal; lia|].
  rewrite <- seq_shift, <- list_fmap_compose. apply list_fmap_ext. intros i x _. cbn. f_equal. lia.
Qed.

Lemma words_at_ext m m' a n :
  (∀ b, a ≤ b < a + 8 * Z.of_nat n → m b = m' b) → words_at m a n = words_at m' a n.
Proof.
  intros H. apply list_fmap_ext. intros i x Hx. apply lookup_seq in Hx as [-> Hi]. apply H. lia.
Qed.

Lemma words_at_store ws : ∀ m a, words_at (store_words m a ws) a (length ws) = ws.
Proof.
  induction ws as [|x ws IH]; intros m a; [done|]. cbn [length store_words]. rewrite words_at_S, IH.
  f_equal. rewrite store_words_frame by lia. by rewrite lookup_upd, decide_True.
Qed.

Section exec.
Context (text : Z).

Definition code_at (k : nat) : Z := text + Z.of_nat k.

Definition ea (s : cpu) (disp : Z) (base : reg) : Z := u64 (regs s base + disp).

(** One instruction; [None] is a fault (a misaligned operand, [ud2]). *)
Definition exec (i : instr) (s : cpu) : option cpu :=
  let next := {| s with pc := pc s + 1 |} in
  match i with
  | movq_rm src disp base =>
      let a := ea s disp base in
      if aligned 8 a then Some {| next with mem := <[a := regs s src]> (mem s) |} else None
  | movq_mr disp base dst =>
      let a := ea s disp base in
      if aligned 8 a then Some {| next with regs := <[dst := mem s a]> (regs s) |} else None
  | leaq_label k dst => Some {| next with regs := <[dst := code_at k]> (regs s) |}
  | leaq disp base dst => Some {| next with regs := <[dst := ea s disp base]> (regs s) |}
  | xorq_self r => Some {| next with regs := <[r := 0]> (regs s); zf := true |}
  | testq_self r => Some {| next with zf := (regs s r =? 0) |}
  | jz k => Some (if zf s then {| s with pc := code_at k |} else next)
  | fxsave base =>
      let a := regs s base in
      if aligned 16 a then Some {| next with mem := store_words (mem s) a (fpu s) |} else None
  | fxrstor base =>
      let a := regs s base in
      if aligned 16 a then Some {| next with fpu := words_at (mem s) a FX_WORDS |} else None
  | jmpq_m disp base =>
      let a := ea s disp base in
      if aligned 8 a then Some {| s with pc := mem s a |} else None
  | callq_r r =>
      let sp := u64 (regs s RSP - 8) in
      if aligned 8 sp
      then Some {| s with regs := <[RSP := sp]> (regs s); mem := <[sp := pc s + 1]> (mem s); pc := regs s r |}
      else None
  | ret_ =>
      let sp := regs s RSP in
      if aligned 8 sp
      then Some {| s with regs := <[RSP := u64 (sp + 8)]> (regs s); pc := mem s sp |} else None
  | ud2 => None
  end.

Definition fetch (a : Z) : option instr := if text <=? a then code !! Z.to_nat (a - text) else None.

Definition step_cpu (s : cpu) : option cpu := i ← fetch (pc s); exec i s.

Fixpoint steps (n : nat) (s : cpu) : option cpu :=
  match n with O => Some s | S n' => s' ← step_cpu s; steps n' s' end.

Lemma fetch_code_at k : fetch (code_at k) = code !! k.
Proof.
  unfold fetch, code_at. destruct (Z.leb_spec text (text + Z.of_nat k)); [|lia].
  by replace (Z.to_nat (text + Z.of_nat k - text)) with k by lia.
Qed.

Lemma steps_at n s k i s' :
  pc s = code_at k → code !! k = Some i → exec i s = Some s' → steps (S n) s = steps n s'.
Proof.
  intros Hpc Hi He. cbn [steps]. unfold step_cpu. rewrite Hpc, fetch_code_at, Hi. cbn. by rewrite He.
Qed.

Lemma steps_plus n1 n2 s : steps (n1 + n2) s = (s' ← steps n1 s; steps n2 s').
Proof.
  revert s. induction n1 as [|n1 IH]; intros s; cbn; [done|]. destruct (step_cpu s) as [s'|]; cbn; [apply IH|done].
Qed.

(** ** Running the listing *)

(** The address computation does not wrap and the operand is aligned. *)
Lemma ea_ok s disp base c : regs s base = c → 0 ≤ c + disp < 2 ^ 64 → ea s disp base = c + disp.
Proof. intros E H. unfold ea. rewrite E. by apply wrap_small. Qed.

Lemma exec_store s src disp base c :
  regs s base = c → 0 ≤ c + disp < 2 ^ 64 → aligned 8 (c + disp) = true →
  exec (movq_rm src disp base) s = Some {| s with pc := pc s + 1; mem := <[c + disp := regs s src]> (mem s) |}.
Proof. intros E H Ha. cbn. by rewrite (ea_ok s disp base c E H), Ha. Qed.

Lemma exec_load s disp base dst c :
  regs s base = c → 0 ≤ c + disp < 2 ^ 64 → aligned 8 (c + disp) = true →
  exec (movq_mr disp base dst) s = Some {| s with pc := pc s + 1; regs := <[dst := mem s (c + disp)]> (regs s) |}.
Proof. intros E H Ha. cbn. by rewrite (ea_ok s disp base c E H), Ha. Qed.

Ltac access c := (apply (exec_store _ _ _ _ c) || apply (exec_load _ _ _ _ c));
  [done|unfold CTX_SIZE in *; lia|by apply mod_aligned].
(** Run instruction [k], whose memory operand, if any, is in the context at [c]. *)
Ltac istep k c :=
  erewrite (steps_at _ _ k); [|cbn [pc]; unfold code_at in *; lia|reflexivity|first [access c|reflexivity]];
  cbn [regs mem fpu zf pc].

Lemma swap_save s from :
  pc s = code_at 0 → regs s RDI = from → ctx_ok (mem s) from →
  steps 9 s = Some {| s with regs := <[RAX := code_at 25]> (regs s);
                             mem := save_regs (mem s) from (regs s) (code_at 25); pc := code_at 9 |}.
Proof.
  intros Hpc Hdi [Hal Hlo Hhi _].
  istep 0%nat from. istep 1%nat from. istep 2%nat from. istep 3%nat from. istep 4%nat from.
  istep 5%nat from. istep 6%nat from. istep 7%nat from. istep 8%nat from. cbn [steps].
  f_equal. f_equal. unfold code_at in *. lia.
Qed.

(** Execution is deterministic, so reaching a state means getting there. *)
Definition reaches (s s' : cpu) : Prop := ∃ n, steps n s = Some s'.

Lemma reaches_trans s1 s2 s3 : reaches s1 s2 → reaches s2 s3 → reaches s1 s3.
Proof. intros [n1 E1] [n2 E2]. exists (n1 + n2)%nat. rewrite steps_plus, E1. exact E2. Qed.

(** The FPU state is saved or loaded only through a non-NULL [fxsave_area]. *)
Definition fx_save (m : Z → Z) (area : Z) (f : list Z) : Z → Z := if area =? 0 then m else store_words m area f.
Definition fx_load (m : Z → Z) (area : Z) (f : list Z) : list Z :=
  if area =? 0 then f else words_at m area FX_WORDS.

Lemma area_aligned c : c mod 16 = 0 → aligned 16 (c + 80) = true.
Proof.
  intros H. unfold aligned. apply Z.eqb_eq. apply Z.mod_divide in H as [x ->]; [|done].
  replace (x * 16 + 80) with ((x + 5) * 16) by lia. by apply Z_mod_mult.
Qed.

(** The conditional [fxsave] of both routines, starting at instruction [k]. *)
Lemma fxsave_block k s c :
  take 4 (drop k code) = [movq_mr 64 RDI RAX; testq_self RAX; jz (k + 4); fxsave RAX] →
  pc s = code_at k → regs s RDI = c → ctx_ok (mem s) c →
  reaches s {| s with regs := <[RAX := mem s (c + 64)]> (regs s); zf := (mem s (c + 64) =? 0);
                      mem := fx_save (mem s) (mem s (c + 64)) (fpu s); pc := code_at (k + 4) |}.
Proof.
  intros Hcode Hpc Hdi [Hal Hlo Hhi Harea].
  assert (Hi : ∀ j i, [movq_mr 64 RDI RAX; testq_self RAX; jz (k + 4); fxsave RAX] !! j = Some i →
             code !! (k + j)%nat = Some i).
  { intros j i Hj. rewrite <- Hcode in Hj. rewrite <- lookup_drop.
    assert (j < 4)%nat by (apply lookup_lt_Some in Hj; rewrite length_take in Hj; lia).
    by rewrite lookup_take_lt in Hj by done. }
  assert (H0 : ∀ n, steps (S (S (S n))) s = steps n {| s with regs := <[RAX := mem s (c + 64)]> (regs s);
     zf := (mem s (c + 64) =? 0); pc := if mem s (c + 64) =? 0 then code_at (k + 4) else code_at (k + 3) |}).
  { intros n. erewrite (steps_at _ _ k); [|exact Hpc|rewrite <- (Nat.add_0_r k) at 1; by apply Hi|access c].
    erewrite (steps_at _ _ (k + 1)); [|cbn [pc]; unfold code_at in *; lia|by apply Hi|reflexivity].
    erewrite (steps_at _ _ (k + 2)); [|cbn [pc]; unfold code_at in *; lia|by apply Hi|reflexivity].
    cbn [regs mem fpu zf pc]. rewrite fn_lookup_insert. destruct (_ =? 0); [done|].
    f_equal. f_equal. unfold code_at in *. lia. }
  unfold fx_save. destruct (Z.eqb_spec (mem s (c + 64)) 0) as [E|E]; [exists 3%nat; by rewrite H0|].
  destruct Harea as [|Harea]; [done|]. exists 4%nat. rewrite H0, Harea.
  erewrite (steps_at _ _ (k + 3)); [|reflexivity|by apply Hi|].
  2:{ cbn. by rewrite fn_lookup_insert, area_aligned. }
  cbn [steps regs mem fpu zf pc]. do 2 f_equal. unfold code_at in *. lia.
Qed.

Lemma swap_fxrstor s to :
  pc s = code_at 13 → regs s RSI = to → ctx_ok (mem s) to →
  reaches s {| s with regs := <[RAX := mem s (to + 64)]> (regs s); zf := (mem s (to + 64) =? 0);
                      fpu := fx_load (mem s) (mem s (to + 64)) (fpu s); pc := code_at 17 |}.
Proof.
  intros Hpc Hsi [Hal Hlo Hhi Harea]. unfold fx_load. destruct (Z.eqb_spec (mem s (to + 64)) 0) as [E|E].
  - exists 3%nat. istep 13%nat to. istep 14%nat to. istep 15%nat to. cbn [steps].
    by rewrite fn_lookup_insert, E.
  - destruct Harea as [|Harea]; [done|]. exists 4%nat. istep 13%nat to. istep 14%nat to. istep 15%nat to.
    rewrite fn_lookup_insert, Harea in *. destruct (Z.eqb_spec (to + 80) 0) as [|_]; [done|].
    erewrite (steps_at _ _ 16); [|cbn [pc]; unfold code_at in *; lia|reflexivity|].
    2:{ cbn. by rewrite fn_lookup_insert, area_aligned. }
    cbn [steps regs mem fpu zf pc]. do 2 f_equal. unfold code_at in *. lia.
Qed.

Definition load_regs (m : Z → Z) (c : Z) (r : reg → Z) : reg → Z :=
  <[RSP := m (c + 48)]> (<[R15 := m (c + 40)]> (<[R14 := m (c + 32)]> (<[R13 := m (c + 24)]>
    (<[R12 := m (c + 16)]> (<[RBP := m (c + 8)]> (<[RBX := m (c + 0)]> r)))))).

Lemma swap_load s to :
  pc s = code_at 17 → regs s RSI = to → ctx_ok (mem s) to →
  reaches s {| s with regs := load_regs (mem s) to (regs s); pc := mem s (to + 56) |}.
Proof.
  intros Hpc Hsi [Hal Hlo Hhi _]. exists 8%nat.
  istep 17%nat to. istep 18%nat to. istep 19%nat to. istep 20%nat to. istep 21%nat to. istep 22%nat to.
  istep 23%nat to.
  erewrite (steps_at _ _ 24); [|cbn [pc]; unfold code_at in *; lia|reflexivity|].
  2:{ cbn [exec]. rewrite (ea_ok _ _ _ to) by (done || unfold CTX_SIZE in *; lia).
      by rewrite mod_aligned. }
  done.
Qed.

(** ** What a switch does *)

(** The memory a switch may write in the context [c]. *)
Definition in_ctx (c a : Z) : Prop := c ≤ a < c + CTX_SIZE.

(** [from] now holds the state of [s], resuming at [1:]. *)
Record suspended (from : Z) (s : cpu) (m : Z → Z) : Prop := {
  su_regs : ∀ i r, callee_saved !! i = Some r → m (from + 8 * Z.of_nat i) = regs s r;
  su_rip : m (from + 56) = code_at swap_resume;
  su_area : m (from + 64) = mem s (from + 64);
  su_fpu : mem s (from + 64) ≠ 0 → words_at m (from + 80) FX_WORDS = fpu s
}.

(** [s'] is the state saved in [to]. *)
Record resumed (to : Z) (m : Z → Z) (f : list Z) (s' : cpu) : Prop := {
  re_regs : ∀ i r, callee_saved !! i = Some r → regs s' r = m (to + 8 * Z.of_nat i);
  re_pc : pc s' = m (to + 56);
  re_fpu : fpu s' = fx_load m (m (to + 64)) f
}.

Lemma load_regs_reg m c r i x : callee_saved !! i = Some x → load_regs m c r x = m (c + 8 * Z.of_nat i).
Proof. intros Hi. do 7 (destruct i as [|i]; [by injection Hi as <-|]). done. Qed.

Lemma swap_spec s from to :
  pc s = code_at swap_entry → regs s RDI = from → regs s RSI = to → ctx_ok (mem s) from → ctx_ok (mem s) to →
  from + CTX_SIZE ≤ to ∨ to + CTX_SIZE ≤ from → length (fpu s) = FX_WORDS →
  ∃ s', reaches s s' ∧ suspended from s (mem s') ∧ resumed to (mem s) (fpu s) s' ∧
    ∀ a, ¬ in_ctx from a → mem s' a = mem s a.
Proof.
  intros Hpc Hdi Hsi Hfrom Hto Hdisj Hlen. unfold in_ctx, CTX_SIZE in *.
  set (m1 := save_regs (mem s) from (regs s) (code_at 25)).
  set (m2 := fx_save m1 (mem s (from + 64)) (fpu s)).
  assert (E1 : ∀ a, ¬ (from ≤ a < from + 64) → m1 a = mem s a) by (intros; by apply save_regs_frame).
  assert (E2 : ∀ a, a < from + 80 ∨ from + 592 ≤ a → m2 a = m1 a).
  { intros a Ha. unfold m2, fx_save. destruct (Z.eqb_spec (mem s (from + 64)) 0); [done|].
    destruct (cx_area _ _ Hfrom) as [|Ea]; [done|]. rewrite Ea. apply store_words_frame.
    rewrite Hlen. unfold FX_WORDS. lia. }
  assert (E3 : ∀ a, to ≤ a < to + 592 → m2 a = mem s a) by (intros a Ha; rewrite E2, E1 by lia; done).
  assert (Hfrom1 : ctx_ok m1 from) by (destruct Hfrom; constructor; auto; by rewrite E1 by lia).
  assert (Hto2 : ctx_ok m2 to) by (destruct Hto; constructor; auto; by rewrite E3 by lia).
  eexists. split.
  { eapply reaches_trans; [eexists; by apply (swap_save s from)|].
    eapply reaches_trans; [by apply (fxsave_block 9 _ from)|]. cbn [regs mem fpu zf pc]. fold m1. rewrite (E1 (from + 64)) by lia.
    eapply reaches_trans; [by apply (swap_fxrstor _ to)|]. by apply (swap_load _ to). }
  cbn [regs mem fpu zf pc]. fold m1 m2. split_and!.
  - constructor.
    + intros i r Hi. assert (i < 7)%nat by (by apply lookup_lt_Some in Hi).
      rewrite E2 by lia. by apply save_regs_reg.
    + rewrite E2 by lia. apply save_regs_rip.
    + by rewrite E2, E1 by lia.
    + intros Hnz. unfold m2, fx_save. destruct (Z.eqb_spec (mem s (from + 64)) 0); [done|].
      destruct (cx_area _ _ Hfrom) as [|Ea]; [done|]. rewrite Ea, <- Hlen. apply words_at_store.
  - constructor.
    + intros i r Hi. assert (i < 7)%nat by (by apply lookup_lt_Some in Hi). cbn [regs].
      rewrite (load_regs_reg _ _ _ i r Hi). rewrite E3 by lia. done.
    + cbn [pc]. by rewrite E3 by lia.
    + cbn [fpu]. rewrite E3 by lia. unfold fx_load. destruct (Z.eqb_spec (mem s (to + 64)) 0); [done|].
      destruct (cx_area _ _ Hto) as [|Ea]; [done|]. rewrite Ea. apply words_at_ext. unfold FX_WORDS.
      intros b Hb. apply E3. lia.
  - intros a Ha. rewrite E2, E1 by lia. done.
Qed.

(** The [ret] at [1:]. *)
Lemma resume_ret s sp :
  pc s = code_at swap_resume → regs s RSP = sp → aligned 8 sp = true →
  reaches s {| s with regs := <[RSP := u64 (sp + 8)]> (regs s); pc := mem s sp |}.
Proof.
  intros Hpc Hsp Hal. exists 1%nat. erewrite (steps_at _ _ 25); [|exact Hpc|reflexivity|]; [done|].
  cbn. by rewrite Hsp, Hal.
Qed.

(** ** Making a context *)

(** [ctx] enters [entry(slot)] on the stack that ends at [top]. *)
Record fresh (ctx top entry slot : Z) (f : list Z) (m : Z → Z) : Prop := {
  fr_regs : ∀ i, (i < 6)%nat → m (ctx + 8 * Z.of_nat i) = 0;
  fr_rsp : m (ctx + 48) = top - 16;
  fr_rip : m (ctx + 56) = code_at trampoline_entry;
  fr_entry : m (top - 16) = entry;
  fr_slot : m (top - 8) = slot;
  fr_fpu : m (ctx + 64) ≠ 0 → words_at m (ctx + 80) FX_WORDS = f
}.

(** The words a call of [gth_ctx_make] writes. *)
Definition make_mem (m : Z → Z) (ctx top entry slot : Z) : Z → Z :=
  <[ctx + 56 := code_at 44]> (<[top - 16 + 8 := slot]> (<[top - 16 + 0 := entry]> (<[ctx + 48 := top - 16]>
    (<[ctx + 40 := 0]> (<[ctx + 32 := 0]> (<[ctx + 24 := 0]> (<[ctx + 16 := 0]> (<[ctx + 8 := 0]>
      (<[ctx + 0 := 0]> m))))))))).

Lemma make_mem_fresh m ctx top entry slot :
  top ≤ ctx ∨ ctx + 64 ≤ top - 16 →
  (∀ i, (i < 6)%nat → make_mem m ctx top entry slot (ctx + 8 * Z.of_nat i) = 0) ∧
  make_mem m ctx top entry slot (ctx + 48) = top - 16 ∧
  make_mem m ctx top entry slot (ctx + 56) = code_at trampoline_entry ∧
  make_mem m ctx top entry slot (top - 16) = entry ∧ make_mem m ctx top entry slot (top - 8) = slot.
Proof.
  intros Hdisj. unfold make_mem. split_and!; [intros i Hi; do 6 (destruct i as [|i]; [look; done|]); lia|look; done..].
Qed.

Lemma make_stores s ctx top :
  pc s = code_at make_entry → regs s RDI = ctx → regs s RSI = top → ctx_ok (mem s) ctx →
  top mod 16 = 0 → 16 ≤ top < 2 ^ 64 →
  steps 13 s = Some {| s with regs := <[RAX := code_at 44]> (<[RAX := top - 16]> (<[RAX := 0]> (regs s)));
    zf := true; mem := make_mem (mem s) ctx top (regs s RDX) (regs s RCX); pc := code_at 39 |}.
Proof.
  intros Hpc Hdi Hsi [Hal Hlo Hhi _] Htal Htop. unfold make_entry in Hpc.
  istep 26%nat ctx. istep 27%nat ctx. istep 28%nat ctx. istep 29%nat ctx. istep 30%nat ctx. istep 31%nat ctx.
  istep 32%nat ctx.
  erewrite (steps_at _ _ 33); [|cbn [pc]; unfold code_at in *; lia|reflexivity|].
  2:{ cbn [exec]. rewrite (ea_ok _ _ _ top) by (done || lia). reflexivity. }
  replace (top + -16) with (top - 16) by lia. cbn [regs mem fpu zf pc].
  assert (Hsal : (top - 16) mod 16 = 0).
  { apply Z.mod_divide in Htal as [x ->]; [|done]. replace (x * 16 - 16) with ((x - 1) * 16) by lia. by apply Z_mod_mult. }
  istep 34%nat ctx. istep 35%nat (top - 16). istep 36%nat (top - 16). istep 37%nat ctx. istep 38%nat ctx. cbn [steps].
  f_equal. unfold make_mem. f_equal. unfold code_at in *. lia.
Qed.

Lemma make_spec s ctx top :
  pc s = code_at make_entry → regs s RDI = ctx → regs s RSI = top → ctx_ok (mem s) ctx →
  top mod 16 = 0 → 16 ≤ top < 2 ^ 64 → top ≤ ctx ∨ ctx + CTX_SIZE ≤ top - 16 →
  aligned 8 (regs s RSP) = true → ¬ in_ctx ctx (regs s RSP) → ¬ (top - 16 ≤ regs s RSP < top) →
  length (fpu s) = FX_WORDS →
  ∃ s', reaches s s' ∧ fresh ctx top (regs s RDX) (regs s RCX) (fpu s) (mem s') ∧
    pc s' = mem s (regs s RSP) ∧ regs s' RSP = u64 (regs s RSP + 8) ∧
    (∀ r, r ∉ [RAX; RSP] → regs s' r = regs s r) ∧ fpu s' = fpu s ∧
    mem s' (ctx + 64) = mem s (ctx + 64) ∧
    ∀ a, ¬ in_ctx ctx a → ¬ (top - 16 ≤ a < top) → mem s' a = mem s a.
Proof.
  intros Hpc Hdi Hsi Hctx Htal Htop Hdisj Hsp Hsp1 Hsp2 Hlen. unfold in_ctx, CTX_SIZE in *.
  set (m1 := make_mem (mem s) ctx top (regs s RDX) (regs s RCX)).
  assert (E1 : ∀ a, ¬ (ctx ≤ a < ctx + 64) → ¬ (top - 16 ≤ a < top) → m1 a = mem s a)
    by (intros a H1 H2; unfold m1, make_mem; look).
  assert (Earea : m1 (ctx + 64) = mem s (ctx + 64)) by (apply E1; lia).
  assert (Hctx1 : ctx_ok m1 ctx) by (destruct Hctx; constructor; auto; by rewrite Earea).
  set (m2 := fx_save m1 (mem s (ctx + 64)) (fpu s)).
  assert (E2 : ∀ a, a < ctx + 80 ∨ ctx + 592 ≤ a → m2 a = m1 a).
  { intros a Ha. unfold m2, fx_save. destruct (Z.eqb_spec (mem s (ctx + 64)) 0); [done|].
    destruct (cx_area _ _ Hctx) as [|Ea]; [done|]. rewrite Ea. apply store_words_frame.
    rewrite Hlen. unfold FX_WORDS. lia. }
  assert (E3 : ∀ a, ¬ (ctx ≤ a < ctx + 592) → ¬ (top - 16 ≤ a < top) → m2 a = mem s a)
    by (intros a H1 H2; rewrite E2, E1 by lia; done).
  eexists. split.
  { eapply reaches_trans; [eexists; by apply (make_stores s ctx top)|].
    eapply reaches_trans; [by apply (fxsave_block 39 _ ctx)|]. cbn [regs mem fpu zf pc]. fold m1. rewrite Earea.
    exists 1%nat. erewrite (steps_at _ _ 43); [|reflexivity|reflexivity|]; [reflexivity|].
    cbn [exec regs]. rewrite !fn_lookup_insert_ne by done. by rewrite Hsp. }
  cbn [regs mem fpu zf pc]. fold m1 m2.
  destruct (make_mem_fresh (mem s) ctx top (regs s RDX) (regs s RCX)) as (F1 & F2 & F3 & F4 & F5); [lia|].
  fold m1 in F1, F2, F3, F4, F5. split_and!; try done.
  - constructor; try (rewrite E2 by lia; done).
    + intros i Hi. rewrite E2 by lia. by apply F1.
    + rewrite E2, Earea by lia. intros Hnz. unfold m2, fx_save.
      destruct (Z.eqb_spec (mem s (ctx + 64)) 0); [done|]. destruct (cx_area _ _ Hctx) as [|Ea]; [done|].
      rewrite Ea, <- Hlen. apply words_at_store.
  - apply E3; lia.
  - intros r Hr. rewrite !not_elem_of_cons in Hr. destruct Hr as (H1 & H2 & _).
    by rewrite !fn_lookup_insert_ne by done.
  - by rewrite E2, Earea by lia.
Qed.

(** The trampoline: [entry(slot)] is called with the two words at the stack pointer. *)
Lemma trampoline_enters s sp :
  pc s = code_at trampoline_entry → regs s RSP = sp → sp mod 16 = 0 → 16 ≤ sp → sp + 8 < 2 ^ 64 →
  reaches s {| s with regs := <[RSP := sp - 8]> (<[RDI := mem s (sp + 8)]> (<[RAX := mem s (sp + 0)]> (regs s)));
                      mem := <[sp - 8 := code_at 47]> (mem s); pc := mem s (sp + 0) |}.
Proof.
  intros Hpc Hsp Hal Hlo Hhi. unfold trampoline_entry in Hpc. exists 3%nat. istep 44%nat sp. istep 45%nat sp.
  erewrite (steps_at _ _ 46); [|cbn [pc]; unfold code_at in *; lia|reflexivity|].
  2:{ cbn [exec regs]. rewrite !fn_lookup_insert_ne by done. rewrite Hsp.
      rewrite (wrap_small 64 (sp - 8)) by (unfold fits; lia).
      replace (sp - 8) with (sp + -8) by lia. rewrite mod_aligned by done. reflexivity. }
  cbn [steps regs mem fpu zf pc]. replace (sp + -8) with (sp - 8) by lia. do 2 f_equal.
  f_equal. unfold code_at in *. lia.
Qed.
End exec.

(** ** The theorems *)

(** A caller of [gth_ctx_swap(from, to)]. *)
Record calls_swap (text from to : Z) (s : cpu) : Prop := {
  cs_pc : pc s = code_at text swap_entry;
  cs_from : regs s RDI = from;
  cs_to : regs s RSI = to;
  cs_from_ok : ctx_ok (mem s) from;
  cs_to_ok : ctx_ok (mem s) to;
  cs_disjoint : from + CTX_SIZE ≤ to ∨ to + CTX_SIZE ≤ from;
  cs_fpu : length (fpu s) = FX_WORDS
}.

(** The second half of a round trip: [from] is continued where it was left. *)
Lemma swap_back text s m1 t from back :
  ctx_ok (mem s) from → aligned 8 (regs s RSP) = true → suspended text from s m1 →
  calls_swap text back from t → ¬ in_ctx back (regs s RSP) →
  (∀ a, in_ctx from a → mem t a = m1 a) →
  ∃ t', reaches text t t' ∧ pc t' = mem t (regs s RSP) ∧ regs t' RSP = u64 (regs s RSP + 8) ∧
    (∀ r, r ∈ [RBX; RBP; R12; R13; R14; R15] → regs t' r = regs s r) ∧
    fpu t' = (if mem s (from + 64) =? 0 then fpu t else fpu s) ∧
    suspended text back t (mem t') ∧ ∀ a, ¬ in_ctx back a → mem t' a = mem t a.
Proof.
  intros Hfrom Hsp [Hsr Hsrip Hsa Hsf] [Hpt Hdt Hst Hback Hfrom' Hdisj Hlt] Hspb Em.
  unfold in_ctx, CTX_SIZE in *.
  destruct (swap_spec text t back from) as (t1 & Hreach & Hsu & [Hr Hp Hf] & Hframe); auto.
  assert (Hregs : ∀ i r, callee_saved !! i = Some r → regs t1 r = regs s r).
  { intros i r Hi. assert (i < 7)%nat by (by apply lookup_lt_Some in Hi).
    rewrite (Hr i r Hi), Em by lia. by apply Hsr. }
  assert (Hsp1 : regs t1 RSP = regs s RSP) by (by apply (Hregs 6%nat)).
  eexists. split.
  { eapply reaches_trans; [exact Hreach|]. apply (resume_ret text t1 (regs s RSP)); [|done|done].
    rewrite Hp, Em by lia. exact Hsrip. }
  cbn [regs mem fpu zf pc]. split_and!.
  - by rewrite Hframe by (unfold in_ctx, CTX_SIZE; lia).
  - by rewrite fn_lookup_insert.
  - intros r Hin. assert (r ≠ RSP) by (intros ->; revert Hin; set_solver). rewrite fn_lookup_insert_ne by done.
    assert (Hl : r ∈ callee_saved) by (unfold callee_saved; set_solver).
    apply list_elem_of_lookup in Hl as [i Hi]. by apply (Hregs i).
  - rewrite Hf. unfold fx_load. rewrite Em, Hsa by lia. destruct (Z.eqb_spec (mem s (from + 64)) 0) as [|Hnz]; [done|].
    destruct (cx_area _ _ Hfrom) as [|Ea]; [done|]. rewrite Ea, <- (Hsf Hnz). apply words_at_ext.
    intros b Hb. apply Em. unfold FX_WORDS in Hb. lia.
  - done.
  - done.
Qed.

(** The first switch to a context that [gth_ctx_make] has left in [m1]. *)
Lemma swap_enters text ctx top entry slot f m1 t from :
  fresh text ctx top entry slot f m1 → ctx_ok m1 ctx → top mod 16 = 0 → 32 ≤ top < 2 ^ 64 →
  calls_swap text from ctx t → from + CTX_SIZE ≤ top - 16 ∨ top ≤ from →
  (∀ a, in_ctx ctx a ∨ top - 16 ≤ a < top → mem t a = m1 a) →
  ∃ t' m2, reaches text t t' ∧ pc t' = entry ∧ regs t' RDI = slot ∧ regs t' RSP = top - 24 ∧
    (∀ r, r ∈ [RBX; RBP; R12; R13; R14; R15] → regs t' r = 0) ∧
    fpu t' = (if m1 (ctx + 64) =? 0 then fpu t else f) ∧
    mem t' = <[top - 24 := code_at text 47]> m2 ∧ suspended text from t m2 ∧
    ∀ a, ¬ in_ctx from a → m2 a = mem t a.
Proof.
  intros [Fr Frsp Frip Fe Fs Ff] Hctx Htal Htop [Ct1 Ct2 Ct3 Ct4 Ct5 Ct6 Ct7] Hfd Em. unfold in_ctx, CTX_SIZE in *.
  destruct (swap_spec text t from ctx) as (t1 & Hr1 & Hsu & [Rr Rp Rf] & Hframe); auto.
  unfold in_ctx, CTX_SIZE in Hframe.
  assert (Hsp1 : regs t1 RSP = top - 16) by (rewrite (Rr 6%nat RSP eq_refl), Em by lia; exact Frsp).
  assert (Hsal : (top - 16) mod 16 = 0).
  { apply Z.mod_divide in Htal as [x ->]; [|done]. replace (x * 16 - 16) with ((x - 1) * 16) by lia. by apply Z_mod_mult. }
  assert (Hw : mem t1 (top - 16 + 0) = entry ∧ mem t1 (top - 16 + 8) = slot).
  { rewrite !Hframe, !Em by lia. by rewrite Z.add_0_r, <- Z.sub_sub_distr. }
  destruct Hw as [Hw1 Hw2]. eexists _, (mem t1). split.
  { eapply reaches_trans; [exact Hr1|]. apply (trampoline_enters text t1 (top - 16)); [|done|done|lia|lia].
    rewrite Rp, Em by lia. exact Frip. }
  cbn [regs mem fpu zf pc]. rewrite fn_lookup_insert. split_and!; try done; try lia.
  - intros r Hr. rewrite !fn_lookup_insert_ne by (intros <-; revert Hr; set_solver).
    assert (∃ i, (i < 6)%nat ∧ callee_saved !! i = Some r) as (i & Hi & Hr').
    { apply list_elem_of_lookup in Hr as [i Hi]. exists i. split; [by apply lookup_lt_Some in Hi|].
      do 6 (destruct i as [|i]; [done|]). done. }
    rewrite (Rr i r Hr'), Em by lia. by apply Fr.
  - rewrite Rf. unfold fx_load. rewrite Em by lia. destruct (Z.eqb_spec (m1 (ctx + 64)) 0) as [|Hnz]; [done|].
    destruct (cx_area _ _ Hctx) as [|Ea]; [done|]. rewrite Ea, <- Ff by congruence. apply words_at_ext.
    intros b Hb. apply Em. unfold FX_WORDS in Hb. lia.
  - f_equal. lia.
Qed.

(** A context switch comes back.  A call of [gth_ctx_swap(from, to)] runs to
    the state saved in [to], writing nothing outside [from]; and when, later,
    some [gth_ctx_swap(back, from)] is called with [from] as the first call
    left it, it runs to the return address of the first call (as the stack
    then holds it), with the stack pointer popped and all callee-saved
    registers as the first caller had them.  The FPU/SSE state is the first
    caller's if [from] has a save area, and the second caller's otherwise. *)
Theorem swap_roundtrip text from to s :
  calls_swap text from to s → aligned 8 (regs s RSP) = true →
  ∃ s1, reaches text s s1 ∧ resumed to (mem s) (fpu s) s1 ∧ suspended text from s (mem s1) ∧
    (∀ a, ¬ in_ctx from a → mem s1 a = mem s a) ∧
    ∀ back t, calls_swap text back from t → ¬ in_ctx back (regs s RSP) →
      (∀ a, in_ctx from a → mem t a = mem s1 a) →
      ∃ t', reaches text t t' ∧ pc t' = mem t (regs s RSP) ∧ regs t' RSP = u64 (regs s RSP + 8) ∧
        (∀ r, r ∈ [RBX; RBP; R12; R13; R14; R15] → regs t' r = regs s r) ∧
        fpu t' = if mem s (from + 64) =? 0 then fpu t else fpu s.
Proof.
  intros Hs Hsp. pose proof Hs as [H1 H2 H3 H4 H5 H6 H7].
  destruct (swap_spec text s from to) as (s1 & Hreach & Hsu & Hre & Hframe); auto.
  exists s1. split_and!; [done|done|done|done|]. intros back t Ht Hspb Em.
  destruct (swap_back text s (mem s1) t from back) as (t' & ? & ? & ? & ? & ? & _); try done. by exists t'.
Qed.

(** C21. A new context starts where it should.  After [gth_ctx_make(ctx, top,
    entry, slot)] has returned to its caller (callee-saved registers and FPU
    state untouched), the first switch to [ctx] that finds it and the two
    words below [top] intact reaches the first instruction of [entry] with
    [slot] as first argument, all other callee-saved registers zero, the stack
    pointer at [top - 24] as the ABI wants it on entry (16-byte aligned once
    the return address is popped), and the creator's FPU state if [ctx] has a
    save area; returning from [entry] traps. *)
Theorem make_then_swap text ctx top s :
  pc s = code_at text make_entry → regs s RDI = ctx → regs s RSI = top → ctx_ok (mem s) ctx →
  top mod 16 = 0 → 32 ≤ top < 2 ^ 64 → top ≤ ctx ∨ ctx + CTX_SIZE ≤ top - 24 →
  aligned 8 (regs s RSP) = true → ¬ in_ctx ctx (regs s RSP) → ¬ (top - 16 ≤ regs s RSP < top) →
  length (fpu s) = FX_WORDS →
  ∃ s1, reaches text s s1 ∧ pc s1 = mem s (regs s RSP) ∧ regs s1 RSP = u64 (regs s RSP + 8) ∧
    (∀ r, r ∈ [RBX; RBP; R12; R13; R14; R15] → regs s1 r = regs s r) ∧ fpu s1 = fpu s ∧
    ∀ from t, calls_swap text from ctx t → from + CTX_SIZE ≤ top - 16 ∨ top ≤ from →
      (∀ a, in_ctx ctx a ∨ top - 16 ≤ a < top → mem t a = mem s1 a) →
      ∃ t', reaches text t t' ∧ pc t' = regs s RDX ∧ regs t' RDI = regs s RCX ∧
        regs t' RSP = top - 24 ∧ (regs t' RSP + 8) mod 16 = 0 ∧
        (∀ r, r ∈ [RBX; RBP; R12; R13; R14; R15] → regs t' r = 0) ∧
        fetch text (mem t' (regs t' RSP)) = Some ud2 ∧
        fpu t' = if mem s (ctx + 64) =? 0 then fpu t else fpu s.
Proof.
  intros Hpc Hdi Hsi Hctx Htal Htop Hdisj Hsp Hsp1 Hsp2 Hlen. unfold in_ctx, CTX_SIZE in *.
  destruct (make_spec text s ctx top) as (s1 & Hreach & Hfresh & Hret & Hrsp & Hregs & Hfpu & Harea & _);
    unfold in_ctx, CTX_SIZE; try done; try lia.
  exists s1. split_and!; try done; [intros r Hr; apply Hregs; revert Hr; rewrite !elem_of_cons; set_solver|].
  intros from t Ht Hfd Em.
  assert (Hctx1 : ctx_ok (mem s1) ctx) by (destruct Hctx; constructor; auto; by rewrite Harea).
  destruct (swap_enters text ctx top (regs s RDX) (regs s RCX) (fpu s) (mem s1) t from) as
    (t' & m2 & Hr1 & Hp1 & Hd1 & Hs1 & Hz & Hf1 & Hm & _ & _); try done.
  exists t'. rewrite Hs1, Hm, fn_lookup_insert, <- Harea. split_and!; try done.
  - apply Z.mod_divide in Htal as [x ->]; [|done]. replace (x * 16 - 24 + 8) with ((x - 1) * 16) by lia. by apply Z_mod_mult.
  - apply fetch_code_at.
Qed.

(** ** Witnesses *)

(** A thread at 65536 and a context at 131072, both with a save area. *)
Definition demo_mem (a : Z) : Z :=
  if a =? 65600 then 65616 else if a =? 131136 then 131152 else 0.
Definition demo_regs (rdi rsi : Z) (r : reg) : Z :=
  match r with RDI => rdi | RSI => rsi | RSP => 1048576 | RBX => 11 | RDX => 77 | RCX => 3 | _ => 5 end.
Definition demo_cpu (k : nat) (rdi rsi : Z) (m : Z → Z) : cpu :=
  mk_cpu (demo_regs rdi rsi) m (replicate 58 9) false (code_at 4096 k).

Lemma demo_ctx m c : (m (c + 64) = c + 80) → c mod 16 = 0 → 0 ≤ c → c + 592 ≤ 2 ^ 64 → ctx_ok m c.
Proof. constructor; auto. Qed.

Lemma swap_roundtrip_witness : ∃ s1 t',
  reaches 4096 (demo_cpu 0 65536 131072 demo_mem) s1 ∧
  reaches 4096 (demo_cpu 0 131072 65536 (mem s1)) t' ∧ regs t' RBX = 11.
Proof.
  destruct (swap_roundtrip 4096 65536 131072 (demo_cpu 0 65536 131072 demo_mem)) as (s1 & H1 & _ & Hsu & Hf & H2).
  - constructor; try reflexivity; [apply demo_ctx; done || lia|apply demo_ctx; done || lia|]. unfold CTX_SIZE. lia.
  - reflexivity.
  - destruct (H2 131072 (demo_cpu 0 131072 65536 (mem s1))) as (t' & H3 & _ & _ & Hr & _).
    + constructor; try reflexivity; cbn [mem demo_cpu].
      * apply demo_ctx; try lia; [|reflexivity]. rewrite Hf; [reflexivity|]. unfold in_ctx, CTX_SIZE. lia.
      * apply demo_ctx; try lia; [|reflexivity]. rewrite (su_area _ _ _ _ Hsu). reflexivity.
      * unfold CTX_SIZE. lia.
    + unfold in_ctx, CTX_SIZE. cbn. lia.
    + reflexivity.
    + exists s1, t'. split; [exact H1|]. split; [exact H3|]. apply (Hr RBX). left.
Defined.

Lemma make_then_swap_witness : ∃ s1,
  reaches 4096 (demo_cpu 26 65536 524288 demo_mem) s1 ∧ regs s1 RBX = 11.
Proof.
  destruct (make_then_swap 4096 65536 524288 (demo_cpu 26 65536 524288 demo_mem)) as (s1 & H1 & _ & _ & Hr & _).
  - reflexivity.
  - reflexivity.
  - reflexivity.
  - apply demo_ctx; done || lia.
  - reflexivity.
  - lia.
  - unfold CTX_SIZE. lia.
  - reflexivity.
  - unfold in_ctx, CTX_SIZE. cbn. lia.
  - cbn. lia.
  - reflexivity.
  - exists s1. split; [exact H1|]. apply (Hr RBX). left.
Defined.
