(* ===== verification/Layout.v ===== *)
(** * The layout of the C structures

    Sizes, alignments and offsets of C types as the System V ABI for x86-64
    computes them, and the structures of the library that are accessed by
    address: the contexts, which the assembly of [Context] reads and writes at
    constant displacements; the synchronisation objects, which live in the
    opaque storage of the public header; the trace header and record, which
    are written to files as they lie in memory.

    The general theorems (a located member is inside its structure, aligned,
    and apart from every other member) hold for all types; the theorems about
    the library's structures are instances of them. *)

From S2P Require Import Prelude WaitQueue TraceFormat State Context.

(** ** C types *)

(** A scalar of [2 ^ log] bytes, an array, a structure; a member may ask for
    an alignment of [2 ^ alignas] bytes. *)
Inductive ctype :=
| Scalar (log : nat)
| Array (t : ctype) (n : nat)
| Struct (packed : bool) (ms : members)
with members :=
| MNil
| MCons (name : string) (alignas : nat) (t : ctype) (ms : members).

Scheme ctype_ind' := Induction for ctype Sort Prop
  with members_ind' := Induction for members Sort Prop.
Combined Scheme ctype_members_ind from ctype_ind', members_ind'.

Fixpoint align_log (t : ctype) : nat :=
  match t with
  | Scalar log => log
  | Array t _ => align_log t
  | Struct packed ms => if packed then 0 else members_log ms
  end
with members_log (ms : members) : nat :=
  match ms with
  | MNil => 0
  | MCons _ a t ms => (a `max` align_log t) `max` members_log ms
  end.

Definition alignof (t : ctype) : Z := 2 ^ Z.of_nat (align_log t).

Definition round_up (x a : Z) : Z := (x + a - 1) / a * a.

(** Where a member goes when the previous ones end at [off]. *)
Definition place (packed : bool) (off : Z) (a : nat) (t : ctype) : Z :=
  if packed then off else round_up off (2 ^ Z.of_nat (a `max` align_log t)).

Fixpoint sizeof (t : ctype) : Z :=
  match t with
  | Scalar log => 2 ^ Z.of_nat log
  | Array t n => Z.of_nat n * sizeof t
  | Struct packed ms => round_up (members_end packed 0 ms) (alignof (Struct packed ms))
  end
with members_end (packed : bool) (off : Z) (ms : members) : Z :=
  match ms with
  | MNil => off
  | MCons _ a t ms => members_end packed (place packed off a t + sizeof t) ms
  end.

(** A path into an object: [.name] and [[i]]. *)
Inductive sel := Fld (name : string) | Idx (i : nat).

#[export] Instance sel_eq_dec : EqDecision sel.
Proof. solve_decision. Defined.

Fixpoint find_member (packed : bool) (off : Z) (x : string) (ms : members) : option (Z * ctype) :=
  match ms with
  | MNil => None
  | MCons y a t ms =>
      let o := place packed off a t in
      if decide (x = y) then Some (o, t) else find_member packed (o + sizeof t) x ms
  end.

(** The offset and the type of an immediate part. *)
Definition part (t : ctype) (s : sel) : option (Z * ctype) :=
  match t, s with
  | Struct packed ms, Fld x => find_member packed 0 x ms
  | Array t n, Idx i => if decide (i < n)%nat then Some (Z.of_nat i * sizeof t, t) else None
  | _, _ => None
  end.

(** [offsetof] along a path, with the type found there. *)
Fixpoint locate (t : ctype) (path : list sel) : option (Z * ctype) :=
  match path with
  | [] => Some (0, t)
  | s :: path =>
      '(o, u) ← part t s; '(o', v) ← locate u path; Some (o + o', v)
  end.

(** No structure in [t] is packed. *)
Fixpoint unpacked (t : ctype) : bool :=
  match t with
  | Scalar _ => true
  | Array t _ => unpacked t
  | Struct packed ms => negb packed && members_unpacked ms
  end
with members_unpacked (ms : members) : bool :=
  match ms with MNil => true | MCons _ _ t ms => unpacked t && members_unpacked ms end.

(** ** The types of the library *)

Definition uint8_t : ctype := Scalar 0.
Definition uint16_t : ctype := Scalar 1.
Definition uint32_t : ctype := Scalar 2.
Definition c_int : ctype := Scalar 2.               (* [int] and the enumerations *)
Definition uint64_t : ctype := Scalar 3.            (* [gth_tid_t] and [size_t] too *)
Definition pointer : ctype := Scalar 3.

Fixpoint struct_of (ms : list (string * nat * ctype)) : members :=
  match ms with [] => MNil | (x, a, t) :: ms => MCons x a t (struct_of ms) end.
Abbreviation struct ms := (Struct false (struct_of ms)).
Abbreviation packed_struct ms := (Struct true (struct_of ms)).

Local Open Scope string_scope.

(** [gth_ctx_t]; [_Alignas(16)] on the FXSAVE buffer. *)
Definition ctx_layout : ctype := struct
  [("regs", 0%nat, Array pointer 8); ("fxsave_area", 0%nat, pointer); ("fxsave_buf", 4%nat, Array uint8_t 512)].

Definition stack_alloc_layout : ctype := struct
  [("memory", 0%nat, pointer); ("total_size", 0%nat, uint64_t); ("stack_size", 0%nat, uint64_t);
   ("stack_top", 0%nat, pointer); ("guard_page", 0%nat, pointer)].

Definition thread_layout : ctype := struct
  [("tid", 0%nat, uint64_t); ("fn", 0%nat, pointer); ("arg", 0%nat, pointer); ("retval", 0%nat, pointer);
   ("priority", 0%nat, uint32_t); ("state", 0%nat, c_int); ("ctx", 0%nat, ctx_layout);
   ("stack", 0%nat, stack_alloc_layout); ("slot_index", 0%nat, uint64_t)].

Definition config_layout : ctype := struct
  [("stack_size_bytes", 0%nat, uint64_t); ("policy", 0%nat, c_int); ("quantum_us", 0%nat, uint32_t);
   ("replay_seed", 0%nat, uint32_t); ("enable_deterministic_trace", 0%nat, c_int);
   ("enable_schedule_fuzzing", 0%nat, c_int)].

Definition runtime_layout : ctype := struct
  [("initialized", 0%nat, c_int); ("shutting_down", 0%nat, c_int); ("config", 0%nat, config_layout);
   ("next_tid", 0%nat, uint64_t); ("current_tid", 0%nat, uint64_t); ("context_switches", 0%nat, uint64_t);
   ("runnable_threads", 0%nat, uint64_t); ("blocked_threads", 0%nat, uint64_t);
   ("finished_threads", 0%nat, uint64_t); ("trace_enabled", 0%nat, c_int);
   ("scheduler_ctx", 0%nat, ctx_layout); ("threads", 0%nat, Array thread_layout GTH_MAX_THREADS);
   ("last_rr_slot", 0%nat, uint64_t); ("mode", 0%nat, c_int); ("trace", 0%nat, pointer);
   ("replay", 0%nat, pointer); ("fuzz", 0%nat, pointer)].

Definition wait_queue_layout : ctype := struct
  [("head", 0%nat, uint8_t); ("tail", 0%nat, uint8_t); ("count", 0%nat, uint8_t);
   ("capacity", 0%nat, uint8_t); ("slots", 0%nat, Array uint8_t (Z.to_nat GTH_WQ_FIXED_SLOTS))].

Definition mutex_layout : ctype := struct
  [("initialized", 0%nat, uint32_t); ("locked", 0%nat, uint32_t); ("owner", 0%nat, uint64_t);
   ("wq", 0%nat, wait_queue_layout)].

Definition sem_layout : ctype := struct
  [("initialized", 0%nat, uint32_t); ("count", 0%nat, uint32_t); ("wq", 0%nat, wait_queue_layout)].

Definition cond_layout : ctype := struct
  [("initialized", 0%nat, uint32_t); ("pad", 0%nat, uint32_t); ("wq", 0%nat, wait_queue_layout)].

(** The opaque types of the public header. *)
Definition gth_mutex_t : ctype := struct [("_opaque", 0%nat, Array uint64_t 10)].
Definition gth_sem_t : ctype := struct [("_opaque", 0%nat, Array uint64_t 8)].
Definition gth_cond_t : ctype := struct [("_opaque", 0%nat, Array uint64_t 8)].

Definition header_layout : ctype := packed_struct
  [("magic", 0%nat, uint32_t); ("version", 0%nat, uint32_t); ("creation_time", 0%nat, uint64_t);
   ("timestamp_freq", 0%nat, uint64_t); ("reserved", 0%nat, Array uint32_t 2)].

(** The union of the event data has the one member [raw]. *)
Definition record_layout : ctype := packed_struct
  [("timestamp", 0%nat, uint64_t); ("type", 0%nat, uint8_t); ("reserved", 0%nat, uint8_t);
   ("tid", 0%nat, uint32_t); ("slot_index", 0%nat, uint32_t); ("data", 0%nat, uint64_t);
   ("pad", 0%nat, uint16_t); ("checksum", 0%nat, uint32_t)].

Local Close Scope string_scope.

(** ** Sizes and alignments *)

Lemma alignof_pos t : 0 < alignof t.
Proof. apply Z.pow_pos_nonneg; lia. Qed.

Lemma round_up_spec x a : 0 < a → x ≤ round_up x a < x + a ∧ (a | round_up x a).
Proof.
  intros Ha. unfold round_up. split; [|apply Z.divide_factor_r].
  pose proof (Z.div_mod (x + a - 1) a). pose proof (Z.mod_pos_bound (x + a - 1) a). lia.
Qed.

Lemma log_divide a b : (a ≤ b)%nat → (2 ^ Z.of_nat a | 2 ^ Z.of_nat b).
Proof. intros H. exists (2 ^ Z.of_nat (b - a)). rewrite <- Z.pow_add_r by lia. f_equal. lia. Qed.

Lemma place_spec packed off a t :
  off ≤ place packed off a t ∧ (packed = false → (alignof t | place packed off a t)).
Proof.
  unfold place. destruct packed; [split; [lia|done]|].
  pose proof (round_up_spec off (2 ^ Z.of_nat (a `max` align_log t)) ltac:(apply Z.pow_pos_nonneg; lia)) as [H1 H2].
  split; [lia|]. intros _. etrans; [|exact H2]. apply log_divide. lia.
Qed.

Lemma sizes_nonneg :
  (∀ t, 0 ≤ sizeof t) ∧ (∀ ms packed off, 0 ≤ off → off ≤ members_end packed off ms).
Proof.
  apply ctype_members_ind.
  - intros log. apply Z.pow_nonneg. lia.
  - intros t IH n. cbn. lia.
  - intros packed ms IH. cbn [sizeof].
    pose proof (round_up_spec (members_end packed 0 ms) _ (alignof_pos (Struct packed ms))).
    specialize (IH packed 0 ltac:(lia)). lia.
  - intros packed off H. cbn. lia.
  - intros x a t IHt ms IHms packed off H. cbn [members_end].
    pose proof (place_spec packed off a t) as [Hp _]. specialize (IHms packed (place packed off a t + sizeof t)). lia.
Qed.

Lemma sizeof_nonneg t : 0 ≤ sizeof t.
Proof. apply sizes_nonneg. Qed.

Lemma members_end_ge ms packed off : 0 ≤ off → off ≤ members_end packed off ms.
Proof. apply sizes_nonneg. Qed.

Lemma sizeof_struct packed ms : members_end packed 0 ms ≤ sizeof (Struct packed ms).
Proof. cbn [sizeof]. apply round_up_spec, alignof_pos. Qed.

(** An element of an array is aligned because a size is a multiple of the alignment. *)
Lemma sizeof_aligned t : (alignof t | sizeof t).
Proof.
  induction t as [log|t IH n|packed ms]; [done|apply Z.divide_mul_r, IH|]. cbn [sizeof].
  apply round_up_spec, alignof_pos.
Qed.

Lemma members_align_le x ms packed off o t :
  find_member packed off x ms = Some (o, t) → (align_log t ≤ members_log ms)%nat.
Proof.
  revert off. induction ms as [|y a u ms IH]; intros off; [done|]. cbn [find_member members_log].
  case_decide; [intros [= <- <-]; lia|]. intros E%IH. lia.
Qed.

(** ** Located members *)

Lemma find_member_inside x packed o t ms : ∀ off,
  0 ≤ off → find_member packed off x ms = Some (o, t) → off ≤ o ∧ o + sizeof t ≤ members_end packed off ms.
Proof.
  induction ms as [|y a u ms IH]; intros off Hoff; [done|]. cbn [find_member members_end].
  pose proof (place_spec packed off a u) as [Hp _]. pose proof (sizeof_nonneg u).
  case_decide; [intros [= <- <-]; split; [lia|]; apply members_end_ge; lia|]. intros [H1 H2]%IH; lia.
Qed.

Lemma find_member_aligned x o t ms : ∀ off, find_member false off x ms = Some (o, t) → (alignof t | o).
Proof.
  induction ms as [|y a u ms IH]; intros off; [done|]. cbn [find_member].
  case_decide; [intros [= <- <-]; by apply (place_spec false off a u)|by apply IH].
Qed.

(** Two members do not overlap. *)
Lemma find_member_apart packed x1 x2 o1 t1 o2 t2 ms : ∀ off,
  0 ≤ off → x1 ≠ x2 → find_member packed off x1 ms = Some (o1, t1) → find_member packed off x2 ms = Some (o2, t2) →
  o1 + sizeof t1 ≤ o2 ∨ o2 + sizeof t2 ≤ o1.
Proof.
  induction ms as [|y a u ms IH]; intros off Hoff Hne; [done|]. cbn [find_member].
  pose proof (place_spec packed off a u) as [Hp _]. pose proof (sizeof_nonneg u).
  repeat case_decide; [congruence|intros [= <- <-] [? _]%find_member_inside; lia|
    intros [? _]%find_member_inside [= <- <-]; lia|apply IH; [lia|done]].
Qed.

Lemma part_inside t s o u : part t s = Some (o, u) → 0 ≤ o ∧ o + sizeof u ≤ sizeof t.
Proof.
  destruct t as [log|t n|packed ms], s as [x|i]; try done.
  - cbn [part sizeof]. case_decide; [|done]. intros [= <- <-]. pose proof (sizeof_nonneg t). nia.
  - intros [H1 H2]%find_member_inside; [|lia]. pose proof (sizeof_struct packed ms). lia.
Qed.

Lemma part_apart t s1 s2 o1 u1 o2 u2 :
  s1 ≠ s2 → part t s1 = Some (o1, u1) → part t s2 = Some (o2, u2) →
  o1 + sizeof u1 ≤ o2 ∨ o2 + sizeof u2 ≤ o1.
Proof.
  destruct t as [log|t n|packed ms], s1 as [x|i], s2 as [y|j]; try done; intros Hne.
  - cbn [part]. repeat case_decide; try done. intros [= <- <-] [= <- <-]. pose proof (sizeof_nonneg t).
    assert (i ≠ j) by congruence. nia.
  - intros H1 H2. eapply find_member_apart; [| |exact H1|exact H2]; [lia|congruence].
Qed.

Lemma members_unpacked_find packed x ms o t : ∀ off,
  members_unpacked ms = true → find_member packed off x ms = Some (o, t) → unpacked t = true.
Proof.
  induction ms as [|y a u ms IH]; intros off; [done|]. cbn [find_member members_unpacked].
  intros [Hu Hms]%andb_true_iff. case_decide; [by intros [= <- <-]|by apply IH].
Qed.

Lemma part_aligned t s o u :
  unpacked t = true → part t s = Some (o, u) → (alignof u | o) ∧ unpacked u = true ∧ (align_log u ≤ align_log t)%nat.
Proof.
  destruct t as [log|t n|packed ms], s as [x|i]; try done; cbn [unpacked align_log part].
  - intros Hu. case_decide; [|done]. intros [= <- <-]. split; [apply Z.divide_mul_r, sizeof_aligned|done].
  - intros [Hp Hms]%andb_true_iff. destruct packed; [done|]. intros E. split_and!.
    + by eapply find_member_aligned.
    + by eapply members_unpacked_find.
    + by eapply members_align_le.
Qed.

Lemma locate_cons t s path o v :
  locate t (s :: path) = Some (o, v) → ∃ o1 u o2, part t s = Some (o1, u) ∧ locate u path = Some (o2, v) ∧ o = o1 + o2.
Proof.
  cbn [locate]. destruct (part t s) as [[o1 u]|] eqn:E1; [|done]. cbn.
  destruct (locate u path) as [[o2 v']|] eqn:E2; [|done]. cbn. intros [= <- <-]. by exists o1, u, o2.
Qed.

Lemma locate_app p1 p2 : ∀ t o1 u o2 v,
  locate t p1 = Some (o1, u) → locate u p2 = Some (o2, v) → locate t (p1 ++ p2) = Some (o1 + o2, v).
Proof.
  induction p1 as [|s p1 IH]; intros t o1 u o2 v.
  - intros [= <- <-] E. exact E.
  - intros (a1 & t1 & b1 & E1 & H1 & ->)%locate_cons H2. cbn [app locate]. rewrite E1. cbn.
    rewrite (IH _ _ _ _ _ H1 H2). cbn. do 2 f_equal. lia.
Qed.

Lemma locate_idx t n i : (i < n)%nat → locate (Array t n) [Idx i] = Some (Z.of_nat i * sizeof t, t).
Proof. intros H. cbn [locate part]. rewrite decide_True by done. cbn. do 2 f_equal. lia. Qed.

Lemma locate_inside path : ∀ t o u, locate t path = Some (o, u) → 0 ≤ o ∧ o + sizeof u ≤ sizeof t.
Proof.
  induction path as [|s path IH]; intros t o u.
  - intros [= <- <-]. lia.
  - intros (o1 & t1 & o2 & H1%part_inside & H2%IH & ->)%locate_cons. lia.
Qed.

Lemma locate_aligned path : ∀ t o u,
  unpacked t = true → locate t path = Some (o, u) → (alignof u | o) ∧ (align_log u ≤ align_log t)%nat.
Proof.
  induction path as [|s path IH]; intros t o u Hu.
  - intros [= <- <-]. split; [apply Z.divide_0_r|done].
  - intros (o1 & t1 & o2 & (Ha & Hu1 & Hl)%part_aligned & H2 & ->)%locate_cons; [|done].
    destruct (IH _ _ _ Hu1 H2) as [Ha2 Hl2]. split; [|lia]. apply Z.divide_add_r; [|done].
    etrans; [by apply log_divide|exact Ha].
Qed.

(** Parts at paths that separate do not overlap. *)
Lemma locate_apart path s1 s2 p1 p2 : ∀ t o1 u1 o2 u2,
  s1 ≠ s2 → locate t (path ++ s1 :: p1) = Some (o1, u1) → locate t (path ++ s2 :: p2) = Some (o2, u2) →
  o1 + sizeof u1 ≤ o2 ∨ o2 + sizeof u2 ≤ o1.
Proof.
  induction path as [|s path IH]; intros t o1 u1 o2 u2 Hne; cbn [app].
  - intros (a1 & t1 & b1 & E1 & H1%locate_inside & ->)%locate_cons (a2 & t2 & b2 & E2 & H2%locate_inside & ->)%locate_cons.
    destruct (part_apart t s1 s2 a1 t1 a2 t2 Hne E1 E2); lia.
  - intros (a1 & t1 & b1 & E1 & H1 & ->)%locate_cons (a2 & t2 & b2 & E2 & H2 & ->)%locate_cons.
    rewrite E1 in E2. injection E2 as <- <-. destruct (IH _ _ _ _ _ Hne H1 H2); lia.
Qed.

(** ** Contexts *)

(** The displacements that the assembly uses are the offsets of [gth_ctx_t]. *)
Lemma ctx_displacements :
  (∀ i, (i < 8)%nat → locate ctx_layout [Fld "regs"; Idx i] = Some (8 * Z.of_nat i, pointer)) ∧
  locate ctx_layout [Fld "fxsave_area"] = Some (64, pointer) ∧
  locate ctx_layout [Fld "fxsave_buf"] = Some (80, Array uint8_t 512) ∧
  sizeof ctx_layout = CTX_SIZE.
Proof.
  split_and!; try reflexivity. intros i Hi. do 8 (destruct i as [|i]; [reflexivity|]). lia.
Qed.

(** Where the contexts are in [g_state]. *)
Definition ctx_path (r : ctx_ref) : list sel :=
  match r with
  | SchedCtx => [Fld "scheduler_ctx"]
  | ThreadCtx i => [Fld "threads"; Idx i; Fld "ctx"]
  end.

Definition ctx_valid (r : ctx_ref) : Prop := match r with SchedCtx => True | ThreadCtx i => (i < GTH_MAX_THREADS)%nat end.

(** [&state->scheduler_ctx] and [&state->threads[i].ctx], for [state] at [g]. *)
Definition ctx_addr (g : Z) (r : ctx_ref) : Z := g + default 0 (fst <$> locate runtime_layout (ctx_path r)).

Lemma locate_ctx r : ctx_valid r → ∃ o, locate runtime_layout (ctx_path r) = Some (o, ctx_layout).
Proof.
  destruct r as [|i]; cbn [ctx_valid ctx_path]; intros H; [by eexists|]. eexists.
  eapply (locate_app [Fld "threads"] _ _ _ (Array thread_layout GTH_MAX_THREADS)); [reflexivity|].
  eapply (locate_app [Idx i]); [by apply locate_idx|reflexivity].
Qed.

Lemma ctx_addr_eq g r o u : locate runtime_layout (ctx_path r) = Some (o, u) → ctx_addr g r = g + o.
Proof. unfold ctx_addr. by intros ->. Qed.

Record placed (g : Z) : Prop := {
  pl_aligned : (16 | g);
  pl_low : 0 < g;
  pl_high : g + sizeof runtime_layout ≤ 2 ^ 64
}.

Lemma ctx_addr_placed g r : placed g → ctx_valid r →
  ctx_addr g r mod 16 = 0 ∧ 0 ≤ ctx_addr g r ∧ ctx_addr g r + CTX_SIZE ≤ g + sizeof runtime_layout.
Proof.
  intros [Ha Hl Hh] (o & E)%locate_ctx. rewrite (ctx_addr_eq g r o _ E).
  pose proof (locate_inside _ _ _ _ E) as [H1 H2]. rewrite (proj2 (proj2 (proj2 ctx_displacements))) in H2.
  pose proof (locate_aligned _ runtime_layout _ _ eq_refl E) as [H3 _]. split_and!; [|lia..].
  apply Z.mod_divide; [done|]. apply Z.divide_add_r; [done|exact H3].
Qed.

Lemma ctx_addr_apart g r1 r2 : ctx_valid r1 → ctx_valid r2 → r1 ≠ r2 →
  ctx_addr g r1 + CTX_SIZE ≤ ctx_addr g r2 ∨ ctx_addr g r2 + CTX_SIZE ≤ ctx_addr g r1.
Proof.
  intros (o1 & E1)%locate_ctx (o2 & E2)%locate_ctx Hne. rewrite (ctx_addr_eq g r1 o1 _ E1), (ctx_addr_eq g r2 o2 _ E2).
  rewrite <- (proj2 (proj2 (proj2 ctx_displacements))).
  enough (o1 + sizeof ctx_layout ≤ o2 ∨ o2 + sizeof ctx_layout ≤ o1) by lia.
  destruct r1 as [|i], r2 as [|j]; [done|..].
  - refine (locate_apart [] _ _ _ _ _ _ _ _ _ _ E1 E2). discriminate.
  - refine (locate_apart [] _ _ _ _ _ _ _ _ _ _ E1 E2). discriminate.
  - refine (locate_apart [Fld "threads"] _ _ _ _ _ _ _ _ _ _ E1 E2). congruence.
Qed.

(** ** Synchronisation objects *)

(** C36. The synchronisation objects fit the storage that users declare: the
    casts from the opaque types are to structures that are no larger and need
    no stronger alignment, and every slot that a well-formed wait queue uses
    is a byte of that storage, apart from the other members. *)
Theorem sync_objects_fit impl storage :
  (impl, storage) ∈ [(mutex_layout, gth_mutex_t); (sem_layout, gth_sem_t); (cond_layout, gth_cond_t)] →
  sizeof impl ≤ sizeof storage ∧ (alignof impl | alignof storage) ∧
  ∀ wq i, wq_wf wq → (i < Z.to_nat (wq_capacity wq))%nat →
    ∃ o, locate impl [Fld "wq"; Fld "slots"; Idx i] = Some (o, uint8_t) ∧ 0 ≤ o < sizeof storage ∧
      ∀ x o' u, x ≠ "wq"%string → locate impl [Fld x] = Some (o', u) → o < o' ∨ o' + sizeof u ≤ o.
Proof.
  intros Hin.
  assert (H : sizeof impl ≤ sizeof storage ∧ (alignof impl | alignof storage) ∧
    ∃ o, locate impl [Fld "wq"; Fld "slots"] = Some (o, Array uint8_t (Z.to_nat GTH_WQ_FIXED_SLOTS))).
  { rewrite !elem_of_cons in Hin. destruct Hin as [[= -> ->]|[[= -> ->]|[[= -> ->]|[]%elem_of_nil]]];
      (split; [vm_compute; congruence|]; split; [by apply log_divide; vm_compute; lia|by eexists]). }
  destruct H as (Hs & Ha & o & E). split_and!; [done..|]. intros wq i Hwf Hi.
  assert (Ei : locate impl [Fld "wq"; Fld "slots"; Idx i] = Some (o + Z.of_nat i, uint8_t)).
  { assert (Hi' : (i < Z.to_nat GTH_WQ_FIXED_SLOTS)%nat) by (destruct Hwf; lia).
    etrans; [exact (locate_app [Fld "wq"; Fld "slots"] [Idx i] impl _ _ _ _ E (locate_idx _ _ i Hi'))|].
    change (sizeof uint8_t) with 1. do 2 f_equal. lia. }
  exists (o + Z.of_nat i). split; [done|]. pose proof (locate_inside _ _ _ _ Ei) as [H1 H2]. change (sizeof uint8_t) with 1 in H2.
  split; [lia|]. intros x o' u Hx E'. assert (Hne : Fld "wq" ≠ Fld x) by congruence.
  destruct (locate_apart [] _ _ _ [] _ _ _ _ _ Hne Ei E'); change (sizeof uint8_t) with 1 in *; lia.
Qed.

Lemma sync_objects_fit_witness : sizeof sem_layout ≤ sizeof gth_sem_t ∧ ∃ o,
  locate sem_layout [Fld "wq"; Fld "slots"; Idx 51] = Some (o, uint8_t) ∧ 0 ≤ o < sizeof gth_sem_t.
Proof.
  destruct (sync_objects_fit sem_layout gth_sem_t) as (H1 & _ & H); [right; left|].
  split; [exact H1|]. destruct (H (gth_wq_init wq_zero 52) 51%nat) as (o & E & Ho & _); [|vm_compute; lia|by exists o].
  constructor; vm_compute; try split; congruence.
Defined.

(** ** Trace headers and records *)

(** The scalar members, with the values that the model's records hold for them. *)
Definition record_members (r : gth_trace_record_t) : list (list sel * Z) :=
  [([Fld "timestamp"], rec_timestamp r); ([Fld "type"], rec_type r); ([Fld "reserved"], rec_reserved r);
   ([Fld "tid"], rec_tid r); ([Fld "slot_index"], rec_slot_index r); ([Fld "data"], rec_data_raw r);
   ([Fld "pad"], rec_pad r); ([Fld "checksum"], rec_checksum r)].

Definition header_members (h : gth_trace_header_t) : list (list sel * Z) :=
  [([Fld "magic"], hd_magic h); ([Fld "version"], hd_version h); ([Fld "creation_time"], hd_creation_time h);
   ([Fld "timestamp_freq"], hd_timestamp_freq h); ([Fld "reserved"; Idx 0], hd_reserved0 h);
   ([Fld "reserved"; Idx 1], hd_reserved1 h)].

(** [bs] is the memory of an object of type [t] whose members have these values, little-endian. *)
Definition image (t : ctype) (members : list (list sel * Z)) (bs : list Z) : Prop :=
  Z.of_nat (length bs) = sizeof t ∧
  Forall (λ '(p, v), ∃ o log, locate t p = Some (o, Scalar log) ∧ field (Z.to_nat o) (2 ^ log) bs = v) members.

Ltac member E :=
  cbv beta iota; do 2 eexists; split; [reflexivity|]; match goal with |- _ = ?f _ => exact (f_equal f E) end.

(** The bytes that are written to and read from trace files are the
    structures as they lie in memory: each member of the packed record (of the
    packed header) is found, little-endian, at its offset, and both have the
    32 bytes that the assertions of the header demand. *)
Theorem trace_images r h : record_fits r → header_fits h →
  image record_layout (record_members r) (record_bytes r) ∧ sizeof record_layout = Z.of_nat GTH_TRACE_RECORD_SIZE ∧
  image header_layout (header_members h) (header_bytes h) ∧ sizeof header_layout = Z.of_nat GTH_TRACE_HEADER_SIZE.
Proof.
  intros Hr%record_of_bytes_bytes Hh%header_of_bytes_bytes.
  split_and!; try reflexivity; (split; [reflexivity|]).
  - unfold record_members. repeat (apply Forall_cons_2; [member Hr|]). apply Forall_nil_2.
  - unfold header_members. repeat (apply Forall_cons_2; [member Hh|]). apply Forall_nil_2.
Qed.

Lemma trace_images_witness :
  image record_layout (record_members (mk_record 7 3 0 5 0 9 0 1)) (record_bytes (mk_record 7 3 0 5 0 9 0 1)).
Proof.
  apply (trace_images (mk_record 7 3 0 5 0 9 0 1) (mk_header GTH_TRACE_MAGIC GTH_TRACE_VERSION 1 1 0 0)).
  - constructor; vm_compute; split; congruence.
  - constructor; vm_compute; split; congruence.
Defined.
