(* ===== verification/Coroutines.v ===== *)
(** * Many stacks, one processor

    [Context] is about one call of the assembly at a time.  Here the calls are
    those of a whole execution: the scheduler's context and the 128 contexts of
    the thread table lie in [g_state] as [Layout] computes, stacks are created
    by [gth_ctx_make], given up, and their memory used again, and control goes
    from one to another by [gth_ctx_swap] in any order.  Between the calls the
    running code does what it wants, except writing to the stack or the context
    of a coroutine that is not running.

    The theorem is that a switch always continues its target exactly where the
    target left off, however many switches there were in between: this is what
    lets [Machine] take a context for a resume point. *)

From S2P Require Import Prelude Stack State Context Layout.

#[export] Instance ctx_ref_eq_dec : EqDecision ctx_ref.
Proof. solve_decision. Defined.

(** Why a coroutine does not run: it called [gth_ctx_swap] in the state [s], or
    it has been made (in FPU state [f]) and never run. *)
Inductive parked :=
| Left (s : cpu)
| Made (top entry slot : Z) (f : list Z).

(** Who runs, the state of the processor, the others, and the memory each has
    for its stack. *)
Record conf := mk_conf {
  who : ctx_ref;
  now : cpu;
  parks : ctx_ref → option parked;
  region : ctx_ref → Z * Z
}.

Definition in_region (rg : Z * Z) (a : Z) : Prop := fst rg ≤ a < snd rg.
Definition apart (rg1 rg2 : Z * Z) : Prop := snd rg1 ≤ fst rg2 ∨ snd rg2 ≤ fst rg1.

(** The coroutines whose stacks are in use. *)
Definition live (c : conf) (r : ctx_ref) : Prop := r = who c ∨ is_Some (parks c r).

Section coroutines.
Context (text g : Z) (Hg : placed g).

Abbreviation addr := (ctx_addr g).
Definition ctx_region (r : ctx_ref) : Z * Z := (addr r, addr r + CTX_SIZE).

(** The program counter has left the three routines. *)
Definition outside (a : Z) : Prop := fetch text a = None.

(** A call of one of the routines from the running coroutine's stack. *)
Record calling (c : conf) (entry : nat) : Prop := {
  ca_pc : pc (now c) = code_at text entry;
  ca_aligned : aligned 8 (regs (now c) RSP) = true;
  ca_stack : in_region (region c (who c)) (regs (now c) RSP);
  ca_return : outside (mem (now c) (regs (now c) RSP))
}.

(** The FXSAVE pointer of the context at [a] is NULL or its own buffer. *)
Definition area_ok (m : Z → Z) (a : Z) : Prop := m (a + 64) = 0 ∨ m (a + 64) = a + 80.

(** A call of [gth_ctx_swap(from, &...ctx)], with the running coroutine's own
    context for [from], or one on the running stack. *)
Record departs (c : conf) (from : Z) (r : ctx_ref) : Prop := {
  de_call : calling c swap_entry;
  de_from : regs (now c) RDI = from;
  de_ok : ctx_ok (mem (now c)) from;
  de_where : from = addr (who c) ∨ fst (region c (who c)) ≤ from ∧ from + CTX_SIZE ≤ snd (region c (who c));
  de_to : regs (now c) RSI = addr r
}.

Inductive cstep : conf → conf → Prop :=
| own_code c s' :
    (∀ r a, is_Some (parks c r) → in_region (ctx_region r) a ∨ in_region (region c r) a → mem s' a = mem (now c) a) →
    length (fpu s') = FX_WORDS →
    cstep c {| c with now := s' |}
(* gth_ctx_make(&threads[i].ctx, top, entry, slot), with the stack [lo, top) *)
| make c r lo top s' :
    calling c make_entry → ctx_valid r → r ≠ who c →
    regs (now c) RDI = addr r → area_ok (mem (now c)) (addr r) →
    regs (now c) RSI = top → top mod 16 = 0 → 0 ≤ lo → lo + 32 ≤ top < 2 ^ 64 → outside (regs (now c) RDX) →
    (∀ q, live c q → q ≠ r → apart (region c q) (lo, top)) → (∀ q, ctx_valid q → apart (ctx_region q) (lo, top)) →
    reaches text (now c) s' → outside (pc s') →
    cstep c {| c with now := s';
      parks := <[r := Some (Made top (regs (now c) RDX) (regs (now c) RCX) (fpu (now c)))]> (parks c);
      region := <[r := (lo, top)]> (region c) |}
(* gth_ctx_swap(&...ctx, ...) *)
| swap c r s' :
    departs c (addr (who c)) r → is_Some (parks c r) → reaches text (now c) s' → outside (pc s') →
    cstep c (mk_conf r s' (<[r := None]> (<[who c := Some (Left (now c))]> (parks c))) (region c))
(* gth_ctx_swap(&dummy, ...), never to return *)
| leave c dummy r s' :
    departs c dummy r → is_Some (parks c r) → reaches text (now c) s' → outside (pc s') →
    cstep c (mk_conf r s' (<[r := None]> (parks c)) (region c))
(* the stack of [r] is released *)
| release c r : cstep c {| c with parks := <[r := None]> (parks c) |}.

(** Main runs on its own stack, which is outside [g_state]. *)
Record starts (c : conf) : Prop := {
  st_who : who c = SchedCtx;
  st_parks r : parks c r = None;
  st_region r : ctx_valid r → apart (region c SchedCtx) (ctx_region r);
  st_fpu : length (fpu (now c)) = FX_WORDS
}.

(** What a switch to a parked coroutine [p] from [s] leads to. *)
Definition continues (p : parked) (r : ctx_ref) (rg : Z * Z) (s s' : cpu) : Prop :=
  match p with
  | Left s0 =>
      pc s' = mem s0 (regs s0 RSP) ∧ regs s' RSP = u64 (regs s0 RSP + 8) ∧
      (∀ x, x ∈ [RBX; RBP; R12; R13; R14; R15] → regs s' x = regs s0 x) ∧
      (∀ a, in_region rg a → mem s' a = mem s0 a) ∧
      fpu s' = if mem s (addr r + 64) =? 0 then fpu s else fpu s0
  | Made top entry slot f =>
      pc s' = entry ∧ regs s' RDI = slot ∧ regs s' RSP = top - 24 ∧
      (∀ x, x ∈ [RBX; RBP; R12; R13; R14; R15] → regs s' x = 0) ∧
      fetch text (mem s' (top - 24)) = Some ud2 ∧
      fpu s' = if mem s (addr r + 64) =? 0 then fpu s else f
  end.

(** ** Invariant *)

(** The memory that belongs to a parked coroutine holds what it needs to go on. *)
Definition holds (p : parked) (cx : Z) (rg : Z * Z) (m : Z → Z) : Prop :=
  match p with
  | Left s =>
      suspended text cx s m ∧ ctx_ok (mem s) cx ∧ aligned 8 (regs s RSP) = true ∧ in_region rg (regs s RSP) ∧
      outside (mem s (regs s RSP)) ∧ length (fpu s) = FX_WORDS ∧ ∀ a, in_region rg a → m a = mem s a
  | Made top entry slot f =>
      fresh text cx top entry slot f m ∧ top mod 16 = 0 ∧ 0 ≤ fst rg ∧ fst rg + 32 ≤ top < 2 ^ 64 ∧ snd rg = top ∧ outside entry ∧
      length f = FX_WORDS
  end.

Record inv (c : conf) : Prop := {
  iv_who : ctx_valid (who c);
  iv_idle : parks c (who c) = None;
  iv_fpu : length (fpu (now c)) = FX_WORDS;
  iv_parked r p : parks c r = Some p →
    ctx_valid r ∧ area_ok (mem (now c)) (addr r) ∧ holds p (addr r) (region c r) (mem (now c));
  iv_regions r1 r2 : live c r1 → live c r2 → r1 ≠ r2 → apart (region c r1) (region c r2);
  iv_contexts r1 r2 : live c r1 → ctx_valid r2 → apart (region c r1) (ctx_region r2)
}.

(** ** The processor *)

Lemma steps_stuck n s : outside (pc s) → steps text (S n) s = None.
Proof using Type. intros H. cbn [steps]. unfold step_cpu. by rewrite H. Qed.

(** The state in which the routines are left is determined. *)
Lemma reaches_unique s s1 s2 :
  reaches text s s1 → outside (pc s1) → reaches text s s2 → outside (pc s2) → s1 = s2.
Proof using Type.
  assert (H : ∀ n1 n2 s1 s2, (n1 ≤ n2)%nat → steps text n1 s = Some s1 → outside (pc s1) → steps text n2 s = Some s2 → s1 = s2).
  { clear. intros n1 n2 s1 s2 Hle E1 Ho E2. replace n2 with (n1 + (n2 - n1))%nat in E2 by lia.
    rewrite steps_plus, E1 in E2. cbn in E2. destruct (n2 - n1)%nat; [by injection E2|].
    by rewrite steps_stuck in E2. }
  intros [n1 E1] O1 [n2 E2] O2. destruct (Nat.le_ge_cases n1 n2) as [Hle|Hle];
    [by eapply (H n1 n2)|symmetry; by eapply (H n2 n1)].
Qed.

(** ** Memory *)

Lemma ctx_ok_addr m r : ctx_valid r → area_ok m (addr r) → ctx_ok m (addr r).
Proof using Hg.
  intros Hr Ha. destruct (ctx_addr_placed g r Hg Hr) as (H1 & H2 & H3). destruct Hg. constructor; [done|lia|lia|done].
Qed.

Lemma ctx_regions_apart r1 r2 : ctx_valid r1 → ctx_valid r2 → r1 ≠ r2 → apart (ctx_region r1) (ctx_region r2).
Proof using Type. intros H1 H2 Hne. apply (ctx_addr_apart g r1 r2 H1 H2 Hne). Qed.

Lemma apart_sym rg1 rg2 : apart rg1 rg2 → apart rg2 rg1.
Proof using Type. unfold apart. lia. Qed.

Lemma apart_not_in rg1 rg2 a : apart rg1 rg2 → in_region rg1 a → ¬ in_region rg2 a.
Proof using Type. unfold apart, in_region. lia. Qed.

Lemma suspended_ext cx s m m' :
  (∀ a, in_region (cx, cx + CTX_SIZE) a → m' a = m a) → suspended text cx s m → suspended text cx s m'.
Proof using Type.
  unfold in_region, CTX_SIZE. cbn [fst snd]. intros E [H1 H2 H3 H4]. constructor.
  - intros i x Hi. assert (i < 7)%nat by (by apply lookup_lt_Some in Hi). rewrite E by lia. by apply H1.
  - rewrite E by lia. done.
  - rewrite E by lia. done.
  - intros Hnz. rewrite <- H4 by done. apply words_at_ext. unfold FX_WORDS. intros b Hb. apply E. lia.
Qed.

Lemma fresh_ext cx top entry slot f m m' :
  (∀ a, in_region (cx, cx + CTX_SIZE) a ∨ top - 16 ≤ a < top → m' a = m a) →
  fresh text cx top entry slot f m → fresh text cx top entry slot f m'.
Proof using Type.
  unfold in_region, CTX_SIZE. cbn [fst snd]. intros E [H1 H2 H3 H4 H5 H6]. constructor; try (rewrite E by lia; done).
  - intros i Hi. rewrite E by lia. by apply H1.
  - rewrite E by lia. intros Hnz. rewrite <- H6 by done. apply words_at_ext. unfold FX_WORDS. intros b Hb. apply E. lia.
Qed.

(** A parked coroutine is not disturbed by writes elsewhere. *)
Lemma holds_ext p cx rg m m' :
  (∀ a, in_region (cx, cx + CTX_SIZE) a ∨ in_region rg a → m' a = m a) → holds p cx rg m → holds p cx rg m'.
Proof using Type.
  intros E. destruct p as [s|top entry slot f]; cbn [holds].
  - intros (H1 & H2 & H3 & H4 & H5 & H6 & H7). split_and!; try done.
    + eapply suspended_ext; [|done]. auto.
    + intros a Ha. rewrite E by auto. by apply H7.
  - intros (H1 & H2 & H3 & H4 & H5 & H6 & H7). split_and!; try done; try lia. eapply fresh_ext; [|done].
    intros a [Ha|Ha]; apply E; [by left|right]. unfold in_region. lia.
Qed.

Lemma area_ok_ext m m' r : (∀ a, in_region (ctx_region r) a → m' a = m a) → area_ok m (addr r) → area_ok m' (addr r).
Proof using Type. intros E. unfold area_ok. rewrite E; [done|]. unfold in_region, ctx_region, CTX_SIZE. cbn. lia. Qed.

(** ** Switching *)

(** What changes in memory when control leaves through the context at [from]
    for a coroutine with the stack [rg]. *)
Definition switched (from : Z) (rg : Z * Z) (s s' : cpu) : Prop := ∃ m2,
  suspended text from s m2 ∧ (∀ a, ¬ in_ctx from a → m2 a = mem s a) ∧ ∀ a, ¬ in_region rg a → mem s' a = m2 a.

Lemma switch_left from r rg s0 s :
  ctx_valid r → area_ok (mem s) (addr r) → holds (Left s0) (addr r) rg (mem s) →
  calls_swap text from (addr r) s → apart (from, from + CTX_SIZE) rg →
  ∃ s', reaches text s s' ∧ outside (pc s') ∧ continues (Left s0) r rg s s' ∧ length (fpu s') = FX_WORDS ∧
    switched from rg s s'.
Proof using Type.
  intros Hr Har (H1 & H2 & H3 & H4 & H5 & H6 & H7) Hc Hap. pose proof (apart_not_in _ _ _ (apart_sym _ _ Hap) H4) as Hsp.
  destruct (swap_back text s0 (mem s) s (addr r) from) as (s' & R & P & Sp & Rg & F & Su & Fr); try done.
  rewrite H7 in P by done. rewrite <- (su_area _ _ _ _ H1) in F.
  exists s'. split_and!; [done|by rewrite P| |rewrite F; destruct (_ =? 0); [apply Hc|done]|].
  - cbn [continues]. split_and!; try done. intros a Ha. rewrite Fr; [by apply H7|].
    apply (apart_not_in _ _ _ (apart_sym _ _ Hap) Ha).
  - exists (mem s'). by split_and!.
Qed.

Lemma switch_made from r rg top entry slot f s :
  ctx_valid r → area_ok (mem s) (addr r) → holds (Made top entry slot f) (addr r) rg (mem s) →
  calls_swap text from (addr r) s → apart (from, from + CTX_SIZE) rg →
  ∃ s', reaches text s s' ∧ outside (pc s') ∧ continues (Made top entry slot f) r rg s s' ∧ length (fpu s') = FX_WORDS ∧
    switched from rg s s'.
Proof using Hg.
  intros Hr Har (H1 & H2 & H3 & H4 & H5 & H6 & H7) Hc Hap. unfold apart in Hap. cbn [fst snd] in Hap.
  destruct (swap_enters text (addr r) top entry slot f (mem s) s from) as (s' & m2 & R & P & D & Sp & Rg & F & M & Su & Fr);
    try done; [by apply ctx_ok_addr|lia|lia|].
  exists s'. split_and!; [done|by rewrite P| |rewrite F; destruct (_ =? 0); [apply Hc|done]|].
  - cbn [continues]. split_and!; try done. rewrite M, fn_lookup_insert. apply fetch_code_at.
  - exists m2. split_and!; [done..|]. intros a Ha. rewrite M, fn_lookup_insert_ne; [done|]. unfold in_region in Ha. lia.
Qed.

Lemma switch_to from r p rg s :
  ctx_valid r → area_ok (mem s) (addr r) → holds p (addr r) rg (mem s) →
  calls_swap text from (addr r) s → apart (from, from + CTX_SIZE) rg →
  ∃ s', reaches text s s' ∧ outside (pc s') ∧ continues p r rg s s' ∧ length (fpu s') = FX_WORDS ∧ switched from rg s s'.
Proof using Hg. destruct p; [apply switch_left|apply switch_made]. Qed.

(** The context used for leaving is apart from what belongs to the others. *)
Lemma departs_apart c from r q :
  inv c → departs c from r → is_Some (parks c q) →
  apart (from, from + CTX_SIZE) (ctx_region q) ∧ apart (from, from + CTX_SIZE) (region c q).
Proof using Type.
  intros I D [p Hp]. destruct (iv_parked _ I q p Hp) as (Hq & _ & _).
  assert (Hne : who c ≠ q) by (intros <-; rewrite (iv_idle _ I) in Hp; done).
  assert (Lw : live c (who c)) by (by left). assert (Lq : live c q) by (right; by exists p).
  destruct (de_where _ _ _ D) as [->|Hin].
  - split; [apply ctx_regions_apart; [apply I|done|done]|]. apply apart_sym, (iv_contexts _ I); [done|apply I].
  - pose proof (iv_contexts _ I _ _ Lw Hq) as H1. pose proof (iv_regions _ I _ _ Lw Lq Hne) as H2.
    unfold apart in *. cbn [fst snd] in *. lia.
Qed.

Lemma departs_switches c from r p :
  inv c → departs c from r → parks c r = Some p →
  ∃ s', reaches text (now c) s' ∧ outside (pc s') ∧ continues p r (region c r) (now c) s' ∧
    length (fpu s') = FX_WORDS ∧ switched from (region c r) (now c) s'.
Proof using Hg.
  intros I D Hp. destruct (iv_parked _ I r p Hp) as (Hr & Ha & Hh).
  destruct (departs_apart c from r r I D ltac:(by exists p)) as [A1 A2].
  apply switch_to; try done. constructor; try apply D; [by apply ctx_ok_addr| |apply I].
  unfold apart, ctx_region in A1. cbn [fst snd] in A1. done.
Qed.

(** ** The invariant holds *)

Lemma starts_inv c : starts c → inv c.
Proof using Type.
  intros [H1 H2 H3 H4]. assert (Hl : ∀ r, live c r → r = SchedCtx).
  { intros r [->|[p Hp]]; [done|]. by rewrite H2 in Hp. }
  constructor; rewrite ?H1; try done.
  - intros r p Hp. by rewrite H2 in Hp.
  - intros r1 r2 ->%Hl ->%Hl. done.
  - intros r1 r2 ->%Hl. apply H3.
Qed.

(** Parked coroutines are as they were when memory only changed elsewhere. *)
Lemma parked_frame c q p s' :
  inv c → parks c q = Some p →
  (∀ a, in_region (ctx_region q) a ∨ in_region (region c q) a → mem s' a = mem (now c) a) →
  ctx_valid q ∧ area_ok (mem s') (addr q) ∧ holds p (addr q) (region c q) (mem s').
Proof using Type.
  intros I Hq E. destruct (iv_parked _ I q p Hq) as (H1 & H2 & H3). split_and!; [done| |].
  - eapply area_ok_ext; [|done]. auto.
  - eapply holds_ext; [|done]. exact E.
Qed.

Lemma switched_frame c from r q s' a :
  inv c → departs c from r → is_Some (parks c r) → is_Some (parks c q) → q ≠ r → switched from (region c r) (now c) s' →
  in_region (ctx_region q) a ∨ in_region (region c q) a → mem s' a = mem (now c) a.
Proof using Type.
  intros I D [pr Hr] [p Hp] Hne (m2 & _ & Hm & E) Ha.
  destruct (departs_apart c from r q I D ltac:(by exists p)) as [A1 A2].
  destruct (iv_parked _ I q p Hp) as (Hq & _ & _).
  assert (Lq : live c q) by (right; by exists p). assert (Lr : live c r) by (right; by exists pr).
  pose proof (iv_contexts _ I _ _ Lr Hq) as A3. pose proof (iv_regions _ I _ _ Lq Lr Hne) as A4.
  rewrite E, Hm; unfold in_ctx, in_region, apart, ctx_region in *; cbn [fst snd] in *; lia || done.
Qed.

Lemma live_resume c r q parks' s' :
  is_Some (parks c r) → (∀ q, is_Some (parks' q) → live c q) → live (mk_conf r s' parks' (region c)) q → live c q.
Proof using Type. intros Hr Hl [->|Hq]; [by right|by apply Hl]. Qed.

(** A switch to [r], after which the coroutines of [parks'] are parked. *)
Lemma inv_resume c r s' parks' :
  inv c → is_Some (parks c r) → length (fpu s') = FX_WORDS → parks' r = None →
  (∀ q, is_Some (parks' q) → live c q) →
  (∀ q p, parks' q = Some p → ctx_valid q ∧ area_ok (mem s') (addr q) ∧ holds p (addr q) (region c q) (mem s')) →
  inv (mk_conf r s' parks' (region c)).
Proof using Type.
  intros I [p Hp] Hf Hn Hl Hq. pose proof (λ q, live_resume c r q parks' s' ltac:(by exists p) Hl) as HL.
  constructor; cbn [who now parks region]; try done.
  - by apply (iv_parked _ I r p).
  - intros r1 r2 L1%HL L2%HL. by apply (iv_regions _ I).
  - intros r1 r2 L1%HL. by apply (iv_contexts _ I).
Qed.

Lemma inv_leave c from r s' :
  inv c → departs c from r → is_Some (parks c r) → reaches text (now c) s' → outside (pc s') →
  inv (mk_conf r s' (<[r := None]> (parks c)) (region c)).
Proof using Hg.
  intros I D Hr R O. pose proof Hr as [p Hp].
  destruct (departs_switches c from r p I D Hp) as (s1 & R1 & O1 & _ & F1 & Sw).
  rewrite (reaches_unique _ _ _ R O R1 O1) in *. apply inv_resume; [done..|apply fn_lookup_insert| |].
  - intros q. destruct (decide (r = q)) as [<-|Hne]; [rewrite fn_lookup_insert; by intros [? ?]|].
    rewrite fn_lookup_insert_ne by done. by right.
  - intros q p'. destruct (decide (r = q)) as [<-|Hne]; [by rewrite fn_lookup_insert|].
    rewrite fn_lookup_insert_ne by done. intros Hq. apply (parked_frame c q p' s1 I Hq). intros a.
    by eapply switched_frame.
Qed.

(** The coroutine that has left through its own context can be continued. *)
Lemma left_holds c r s' :
  inv c → departs c (addr (who c)) r → is_Some (parks c r) → switched (addr (who c)) (region c r) (now c) s' →
  area_ok (mem s') (addr (who c)) ∧ holds (Left (now c)) (addr (who c)) (region c (who c)) (mem s').
Proof using Type.
  intros I D [p Hp] (m2 & Su & Fr & E).
  assert (Hne : who c ≠ r) by (intros <-; rewrite (iv_idle _ I) in Hp; done).
  assert (Lw : live c (who c)) by (by left). assert (Lr : live c r) by (right; by exists p).
  pose proof (iv_contexts _ I _ _ Lr (iv_who _ I)) as A1. pose proof (iv_contexts _ I _ _ Lw (iv_who _ I)) as A2.
  pose proof (iv_regions _ I _ _ Lw Lr Hne) as A3.
  assert (Ec : ∀ a, in_region (ctx_region (who c)) a → mem s' a = m2 a).
  { intros a Ha. apply E. by apply (apart_not_in _ _ _ (apart_sym _ _ A1)). }
  assert (Su' : suspended text (addr (who c)) (now c) (mem s')) by (eapply suspended_ext; [exact Ec|done]).
  split.
  - unfold area_ok. rewrite (su_area _ _ _ _ Su'). apply (cx_area _ _ (de_ok _ _ _ D)).
  - destruct (de_call _ _ _ D) as [C1 C2 C3 C4]. cbn [holds]. split_and!; try done; [apply D|apply I|].
    intros a Ha. rewrite E by (by apply (apart_not_in _ _ _ A3)). apply Fr. exact (apart_not_in _ _ _ A2 Ha).
Qed.

Lemma inv_swap c r s' :
  inv c → departs c (addr (who c)) r → is_Some (parks c r) → reaches text (now c) s' → outside (pc s') →
  inv (mk_conf r s' (<[r := None]> (<[who c := Some (Left (now c))]> (parks c))) (region c)).
Proof using Hg.
  intros I D Hr R O. pose proof Hr as [p Hp].
  destruct (departs_switches c _ r p I D Hp) as (s1 & R1 & O1 & _ & F1 & Sw).
  rewrite (reaches_unique _ _ _ R O R1 O1) in *. apply inv_resume; [done..|apply fn_lookup_insert| |].
  - intros q. destruct (decide (r = q)) as [<-|Hne]; [rewrite fn_lookup_insert; by intros [? ?]|].
    rewrite fn_lookup_insert_ne by done. destruct (decide (who c = q)) as [<-|Hnw]; [by left|].
    rewrite fn_lookup_insert_ne by done. by right.
  - intros q p'. destruct (decide (r = q)) as [<-|Hne]; [by rewrite fn_lookup_insert|].
    rewrite fn_lookup_insert_ne by done. destruct (decide (who c = q)) as [<-|Hnw].
    + rewrite fn_lookup_insert. intros [= <-]. split; [apply I|]. by eapply left_holds.
    + rewrite fn_lookup_insert_ne by done. intros Hq. apply (parked_frame c q p' s1 I Hq). intros a.
      by eapply switched_frame.
Qed.

Lemma inv_own c s' :
  inv c → (∀ r a, is_Some (parks c r) → in_region (ctx_region r) a ∨ in_region (region c r) a → mem s' a = mem (now c) a) →
  length (fpu s') = FX_WORDS → inv {| c with now := s' |}.
Proof using Type.
  intros I E Hf. constructor; cbn [who now parks region]; try apply I; [done|].
  intros r p Hp. apply (parked_frame c r p s' I Hp). intros a. apply E. by exists p.
Qed.

Lemma inv_release c r : inv c → inv {| c with parks := <[r := None]> (parks c) |}.
Proof using Type.
  intros I. assert (Hp : ∀ q p, <[r := None]> (parks c) q = Some p → parks c q = Some p).
  { intros q p. destruct (decide (r = q)) as [<-|Hne]; [by rewrite fn_lookup_insert|by rewrite fn_lookup_insert_ne]. }
  assert (HL : ∀ q, live {| c with parks := <[r := None]> (parks c) |} q → live c q).
  { intros q [->|[p Hq%Hp]]; [by left|right; by exists p]. }
  constructor; cbn [who now parks region]; try apply I.
  - destruct (parks c (who c)) eqn:E; [by rewrite (iv_idle _ I) in E|].
    destruct (<[r := None]> (parks c) (who c)) eqn:E'; [|done]. apply Hp in E'. congruence.
  - intros q p Hq%Hp. by apply (iv_parked _ I).
  - intros r1 r2 L1%HL L2%HL. by apply (iv_regions _ I).
  - intros r1 r2 L1%HL. by apply (iv_contexts _ I).
Qed.

Lemma inv_make c r lo top s' :
  inv c → calling c make_entry → ctx_valid r → r ≠ who c →
  regs (now c) RDI = addr r → area_ok (mem (now c)) (addr r) →
  regs (now c) RSI = top → top mod 16 = 0 → 0 ≤ lo → lo + 32 ≤ top < 2 ^ 64 → outside (regs (now c) RDX) →
  (∀ q, live c q → q ≠ r → apart (region c q) (lo, top)) → (∀ q, ctx_valid q → apart (ctx_region q) (lo, top)) →
  reaches text (now c) s' → outside (pc s') →
  inv {| c with now := s';
    parks := <[r := Some (Made top (regs (now c) RDX) (regs (now c) RCX) (fpu (now c)))]> (parks c);
    region := <[r := (lo, top)]> (region c) |}.
Proof using Hg.
  intros I [C1 C2 C3 C4] Hr Hne Hdi Har Hsi Hal Hlo Htop Hent Hreg Hctx R O.
  assert (Lw : live c (who c)) by (by left).
  pose proof (iv_contexts _ I _ _ Lw Hr) as A1. pose proof (Hreg _ Lw ltac:(congruence)) as A2. pose proof (Hctx r Hr) as A3.
  destruct (make_spec text (now c) (addr r) top) as (s1 & R1 & Fr & P1 & _ & _ & F1 & Ar & E); try done;
    [by apply ctx_ok_addr|lia|unfold apart, ctx_region in A3; cbn [fst snd] in A3; lia|exact (apart_not_in _ _ _ A1 C3)|
     unfold apart, in_region in *; cbn [fst snd] in *; lia|apply I|].
  rewrite (reaches_unique _ _ _ R O R1 ltac:(by rewrite P1)) in *.
  assert (HL : ∀ q y, q ≠ r → q = who c ∨ is_Some (<[r := y]> (parks c) q) → live c q).
  { intros q y Hq [->|Hp]; [by left|right]. by rewrite fn_lookup_insert_ne in Hp by congruence. }
  constructor; cbn [who now parks region].
  - apply I.
  - rewrite fn_lookup_insert_ne by done. apply I.
  - rewrite F1. apply I.
  - intros q p. destruct (decide (r = q)) as [<-|Hq].
    + rewrite !fn_lookup_insert. intros [= <-]. split_and!; [done| |].
      * unfold area_ok. by rewrite Ar.
      * cbn [holds fst snd]. split_and!; try done; try lia. apply I.
    + rewrite !fn_lookup_insert_ne by done. intros Hp. apply (parked_frame c q p s1 I Hp).
      assert (Lq : live c q) by (right; by exists p). destruct (iv_parked _ I q p Hp) as (Vq & _ & _).
      pose proof (Hreg q Lq ltac:(congruence)) as B1. pose proof (Hctx q Vq) as B2.
      pose proof (ctx_regions_apart q r Vq Hr ltac:(congruence)) as B3. pose proof (iv_contexts _ I _ _ Lq Hr) as B4.
      intros a Ha. apply E; unfold in_ctx, in_region, apart, ctx_region in *; cbn [fst snd] in *; lia.
  - intros r1 r2 L1 L2 H12. destruct (decide (r = r1)) as [<-|H1], (decide (r = r2)) as [<-|H2]; try done;
      rewrite ?fn_lookup_insert, ?fn_lookup_insert_ne by done.
    + apply apart_sym, Hreg; [|done]. by eapply HL.
    + apply Hreg; [|done]. by eapply HL.
    + apply (iv_regions _ I); [by eapply HL..|done].
  - intros r1 r2 L1 V2. destruct (decide (r = r1)) as [<-|H1]; rewrite ?fn_lookup_insert, ?fn_lookup_insert_ne by done.
    + by apply apart_sym, Hctx.
    + apply (iv_contexts _ I); [by eapply HL|done].
Qed.

Lemma inv_step c c' : inv c → cstep c c' → inv c'.
Proof using Hg.
  intros I H. destruct H as [c s'|c r lo top s'|c r s'|c dummy r s'|c r].
  - by apply inv_own.
  - by eapply inv_make.
  - by apply inv_swap.
  - by eapply inv_leave.
  - by apply inv_release.
Qed.

Lemma inv_reachable c0 c : starts c0 → rtc cstep c0 c → inv c.
Proof using Hg. intros H0%starts_inv H. induction H; eauto using inv_step. Qed.
End coroutines.

(** C20. Switching between stacks works, in every execution.  However stacks
    were made, switched between, left and released before: when the running
    code calls [gth_ctx_swap] to a coroutine that waits in a switch of its
    own, the processor leaves the routine in exactly one state, at the return
    address of that earlier call, with the callee-saved registers, the stack
    pointer and the contents of the whole stack as they were then, and the FPU
    state too if its context has a save area (otherwise it is the caller's);
    a coroutine that has not run yet is entered at its function, with its slot
    as argument, on its aligned stack, and cannot return from it. *)
Theorem switches_resume text g c0 c from r p :
  placed g → starts g c0 → rtc (cstep text g) c0 c → departs text g c from r → parks c r = Some p →
  ∃ s', (reaches text (now c) s' ∧ outside text (pc s')) ∧ continues text g p r (region c r) (now c) s' ∧
    ∀ s2, reaches text (now c) s2 → outside text (pc s2) → s2 = s'.
Proof.
  intros Hg H0 H D Hp. pose proof (inv_reachable text g Hg c0 c H0 H) as I.
  destruct (departs_switches text g Hg c from r p I D Hp) as (s' & R & O & Hc & _). exists s'.
  split_and!; try done. intros s2 R2 O2. by eapply reaches_unique.
Qed.

(** ** Witness *)

(** [g_state] at 65536, the code at 2^40, main's stack and a thread's stack
    above both; main has made the thread in slot 0 and switches to it, and the
    thread switches back. *)
Definition demo_g : Z := 65536.
Definition demo_text : Z := 2 ^ 40.
Definition main_stack : Z * Z := (2 ^ 20, 2 ^ 20 + 65536).
Definition thread_stack : Z * Z := (2 ^ 21, 2 ^ 21 + 65536).

Definition caller (entry : nat) (rdi rsi rsp rbx : Z) (m : Z → Z) : cpu :=
  mk_cpu (λ r, match r with RDI => rdi | RSI => rsi | RSP => rsp | RBX => rbx | RDX => 7 | _ => 0 end)
         m (replicate FX_WORDS 0) false (code_at demo_text entry).

Definition demo_start : conf := mk_conf SchedCtx
  (caller make_entry (ctx_addr demo_g (ThreadCtx 0)) (snd thread_stack) (2 ^ 20 + 4096) 11 (λ _, 0)) (λ _, None) (λ _, main_stack).

Lemma demo_placed : placed demo_g.
Proof. constructor; [by exists 4096|done|vm_compute; congruence]. Qed.

Lemma demo_contexts q rg : ctx_valid q → 2 ^ 20 ≤ fst rg → apart (ctx_region demo_g q) rg.
Proof.
  intros Hq Hrg. destruct (ctx_addr_placed demo_g q demo_placed Hq) as (_ & _ & H). left.
  unfold ctx_region. cbn [fst snd]. assert (demo_g + sizeof runtime_layout ≤ 2 ^ 20) by (vm_compute; congruence). lia.
Qed.

Lemma demo_starts : starts demo_g demo_start.
Proof.
  constructor; try done. intros r Hr. apply apart_sym, demo_contexts; [done|]. cbn. lia.
Qed.

Definition made_slot_0 (s : cpu) : conf :=
  {| demo_start with now := s; parks := <[ThreadCtx 0 := Some (Made (snd thread_stack) 7 0 (replicate FX_WORDS 0))]> (λ _, None);
                     region := <[ThreadCtx 0 := thread_stack]> (λ _, main_stack) |}.

(** Main makes the thread. *)
Lemma demo_make : ∃ s, rtc (cstep demo_text demo_g) demo_start (made_slot_0 s).
Proof.
  assert (Hv : ctx_valid (ThreadCtx 0)) by (cbn; unfold GTH_MAX_THREADS; lia).
  destruct (make_spec demo_text (now demo_start) (ctx_addr demo_g (ThreadCtx 0)) (snd thread_stack)) as
    (s & R & _ & P & _); try reflexivity; try (vm_compute; intuition congruence).
  { apply (ctx_ok_addr demo_g demo_placed _ _ Hv). by left. }
  exists s. apply rtc_once. refine (make demo_text demo_g demo_start (ThreadCtx 0) (fst thread_stack) (snd thread_stack) s _ _ _ _ _ _ _ _ _ _ _ _ _ _);
    try reflexivity; try done.
  - by left.
  - intros q [->|[? ?]]; [|done]. intros _. left. cbn. lia.
  - intros q Hq. by apply demo_contexts.
  - rewrite P. reflexivity.
Qed.

(** The running code pushes a return address (5) and calls [gth_ctx_swap]. *)
Definition call_swap (c : conf) (to : ctx_ref) (rsp rbx : Z) : conf :=
  {| c with now := caller swap_entry (ctx_addr demo_g (who c)) (ctx_addr demo_g to) rsp rbx
              (<[rsp := 5]> (<[ctx_addr demo_g (who c) + 64 := 0]> (mem (now c)))) |}.

Lemma call_swap_ok c to rsp rbx :
  inv demo_text demo_g c → aligned 8 rsp = true → in_region (region c (who c)) rsp →
  cstep demo_text demo_g c (call_swap c to rsp rbx) ∧
  departs demo_text demo_g (call_swap c to rsp rbx) (ctx_addr demo_g (who c)) to.
Proof.
  intros I Hal Hin. assert (Lw : live c (who c)) by (by left).
  pose proof (iv_contexts _ _ _ I _ _ Lw (iv_who _ _ _ I)) as A1.
  assert (Hne : rsp ≠ ctx_addr demo_g (who c) + 64).
  { unfold apart, in_region, ctx_region, CTX_SIZE in *. cbn [fst snd] in *. lia. }
  split.
  - apply own_code; [|done]. intros r a Hr Ha. pose proof Hr as [p Hp]. destruct (iv_parked _ _ _ I r p Hp) as (Vr & _).
    assert (Hrw : who c ≠ r) by (intros <-; by rewrite (iv_idle _ _ _ I) in Hp).
    assert (Lr : live c r) by (by right). pose proof (iv_contexts _ _ _ I _ _ Lw Vr) as A2.
    pose proof (iv_contexts _ _ _ I _ _ Lr (iv_who _ _ _ I)) as A3. pose proof (iv_regions _ _ _ I _ _ Lw Lr Hrw) as A4.
    pose proof (ctx_regions_apart demo_g _ _ (iv_who _ _ _ I) Vr Hrw) as A5. cbn [caller mem call_swap now].
    unfold apart, in_region, ctx_region, CTX_SIZE in *. cbn [fst snd] in *. rewrite !fn_lookup_insert_ne by lia. done.
  - constructor; try done; [| |by left].
    + constructor; try done. cbn [call_swap now caller mem regs]. rewrite fn_lookup_insert. reflexivity.
    + apply (ctx_ok_addr demo_g demo_placed); [apply I|]. left. cbn [call_swap now caller mem].
      by rewrite fn_lookup_insert_ne, fn_lookup_insert.
Qed.

Lemma switches_resume_witness : ∃ c s',
  rtc (cstep demo_text demo_g) demo_start c ∧ who c = ThreadCtx 0 ∧ regs (now c) RBX = 22 ∧
  reaches demo_text (now c) s' ∧ pc s' = 5 ∧ regs s' RBX = 11 ∧ regs s' RSP = 2 ^ 20 + 2056.
Proof.
  destruct demo_make as [s1 H1]. pose proof (inv_reachable _ _ demo_placed _ _ demo_starts H1) as I1.
  destruct (call_swap_ok _ (ThreadCtx 0) (2 ^ 20 + 2048) 11 I1) as [St2 D2]; [reflexivity|split; vm_compute; congruence|].
  assert (H2 := rtc_r _ _ _ H1 St2). set (c2 := call_swap _ _ _ _) in *.
  destruct (switches_resume _ _ _ _ _ _ _ demo_placed demo_starts H2 D2 eq_refl) as (s3 & [R3 O3] & _ & _).
  assert (Hp2 : is_Some (parks c2 (ThreadCtx 0))) by (by eexists).
  assert (H3 := rtc_r _ _ _ H2 (swap _ _ c2 (ThreadCtx 0) s3 D2 Hp2 R3 O3)).
  pose proof (inv_reachable _ _ demo_placed _ _ demo_starts H3) as I3.
  destruct (call_swap_ok _ SchedCtx (2 ^ 21 + 2048) 22 I3) as [St4 D4]; [reflexivity|split; vm_compute; congruence|].
  assert (H4 := rtc_r _ _ _ H3 St4).
  destruct (switches_resume _ _ _ _ _ _ _ demo_placed demo_starts H4 D4 eq_refl) as (s5 & [R5 _] & Hc & _).
  destruct Hc as (P5 & S5 & Rg5 & _). eexists _, s5. split; [exact H4|].
  split; [reflexivity|]. split; [reflexivity|]. split; [exact R5|]. split; [rewrite P5; reflexivity|].
  split; [apply (Rg5 RBX); left|rewrite S5; reflexivity].
Defined.
