(* ===== verification/Clients.v ===== *)
(** * Client code

    User code of the machine as a small monad over the memory that main and
    the threads share: a stack runs from the return of one library call to the
    next, and in between it may change the memory.  The example programs and
    the tests of the repository are written in it. *)

From S2P Require Import Prelude State Machine Switching Safety.

Inductive user (mem A : Type) :=
| UReturn (a : A)
| UUpdate (f : mem → mem) (k : mem → user mem A)     (* [k] sees the updated memory *)
| UCall (a : api) (k : resp → user mem A).
Arguments UReturn {mem A} a.
Arguments UUpdate {mem A} f k.
Arguments UCall {mem A} a k.

Fixpoint ubind {mem A B} (m : user mem A) (f : A → user mem B) : user mem B :=
  match m with
  | UReturn a => f a
  | UUpdate g k => UUpdate g (λ s, ubind (k s) f)
  | UCall a k => UCall a (λ r, ubind (k r) f)
  end.

Declare Scope user_scope.
Delimit Scope user_scope with user.
Notation "x <~ m ; k" := (ubind m (λ x, k)) (at level 100, m at next level, right associativity) : user_scope.
Notation "m ;~ k" := (ubind m (λ _, k)) (at level 100, right associativity) : user_scope.
Open Scope user_scope.

Definition call {mem} (a : api) : user mem resp := UCall a UReturn.
Definition read {mem} : user mem mem := UUpdate id UReturn.
Definition update {mem} (f : mem → mem) : user mem unit := UUpdate f (λ _, UReturn tt).

(** [for (int i = from; i < from + n; i++)], with the local variables [s] that the body changes. *)
Fixpoint for_loop {mem S} (n from : nat) (s : S) (body : nat → S → user mem S) : user mem S :=
  match n with
  | O => UReturn s
  | Datatypes.S n' => s' <~ body from s; for_loop n' (Datatypes.S from) s' body
  end.

(** The same without local variables. *)
Definition for_each {mem} (n : nat) (body : nat → user mem unit) : user mem unit := for_loop n 0 tt (λ i _, body i).

Definition ok (r : resp) : bool := bool_decide (r_status r = GTH_OK).
Definition out (r : resp) (i : nat) : Z := default 0 (r_out r !! i).

(** Runs a stack up to its next call or its end. *)
Fixpoint advance {mem} (s : mem) (u : user mem Z) : mem * user mem Z :=
  match u with
  | UUpdate f k => advance (f s) (k (f s))
  | _ => (s, u)
  end.

Definition user_program {mem} (main : user mem Z) (s : mem) (thread : Z → Z → user mem Z) : program := {|
  p_mem := mem;
  p_state := user mem Z;
  p_boot := advance s main;
  p_start := λ s fn arg, advance s (thread fn arg);
  p_next := λ u, match u with UCall a _ => ACall a | UReturn v => AReturn v | UUpdate _ _ => AReturn 0 end;
  p_feed := λ s u r, match u with UCall _ k => advance s (k r) | _ => (s, u) end |}.

Definition exits_with_0 {P} (r : step_result P) : bool := match r with Exit _ v => v =? 0 | _ => false end.

(** ** Which calls code makes *)

(** All calls of the code satisfy [good]. *)
Inductive calls_only {mem A} (good : api → bool) : user mem A → Prop :=
| co_return a : calls_only good (UReturn a)
| co_update f k : (∀ s, calls_only good (k s)) → calls_only good (UUpdate f k)
| co_call a k : good a = true → (∀ r, calls_only good (k r)) → calls_only good (UCall a k).

Section calls_only.
Context {mem : Type} (good : api → bool).

Lemma calls_only_bind {A B} (m : user mem A) (f : A → user mem B) :
  calls_only good m → (∀ a, calls_only good (f a)) → calls_only good (ubind m f).
Proof using Type. intros Hm Hf. induction Hm; cbn [ubind]; [done|by constructor..]. Qed.

Lemma calls_only_call a : good a = true → calls_only good (call (mem:=mem) a).
Proof using Type. intros H. constructor; [done|]. intros r. constructor. Qed.

Lemma calls_only_update (f : mem → mem) : calls_only good (update f).
Proof using Type. constructor. intros s. constructor. Qed.

Lemma calls_only_read : calls_only good (read (mem:=mem)).
Proof using Type. constructor. intros s. constructor. Qed.

Lemma calls_only_loop {S} n : ∀ from (s : S) (body : nat → S → user mem S),
  (∀ i s, calls_only good (body i s)) → calls_only good (for_loop n from s body).
Proof using Type.
  induction n as [|n IH]; intros from s body Hb; cbn [for_loop]; [constructor|].
  apply calls_only_bind; [done|]. intros s'. by apply IH.
Qed.

Lemma calls_only_advance (u : user mem Z) : calls_only good u → ∀ s, calls_only good (snd (advance s u)).
Proof using Type. intros Hu. induction Hu; intros s; cbn [advance snd]; auto; by constructor. Qed.
End calls_only.

Create HintDb calls_only.
#[export] Hint Constructors calls_only : calls_only.
#[export] Hint Resolve calls_only_bind calls_only_call calls_only_update calls_only_read calls_only_loop : calls_only.

(** A program is disciplined when its thread functions are. *)
Lemma user_disciplined {mem} (main : user mem Z) (s : mem) thread :
  (∀ fn arg, calls_only thread_safe (thread fn arg)) → disciplined (user_program main s thread).
Proof.
  intros Hall u a Hu. assert (Hc : calls_only thread_safe (u : user mem Z)).
  { induction Hu as [s' fn arg|s' u r Hu IH]; cbn [p_start p_feed user_program].
    - by apply calls_only_advance.
    - destruct IH as [v|f k Hk|a' k Ha' Hk]; [constructor|by constructor|]. by apply calls_only_advance. }
  cbn. destruct Hc as [v|f k Hk|a' k Ha' Hk]; [done|done|]. by intros [= <-].
Qed.
