(* ===== verification/Progress.v ===== *)
(** * Client programs that finish

    [leads Q c]: however the scheduler chooses, the abstract machine of [Coop]
    gets from [c] to a state in which [Q] holds, and main does not return
    before that.  Proofs of [leads] go along the client's code, one call after
    the other, and by induction on what loops have left to do; [leads_run]
    carries them over to the machine. *)

From S2P Require Import Prelude WaitQueue TraceFormat State Stack TraceBuffer Trace Runtime Replay.
From S2P Require Import Fuzz Sched Thread Mutex Sem Cond Lifecycle Machine Scripts Invariant Ops Switching Safety.
From S2P Require Import SyncSpec Frame Exclusion Waiting ThreadSpec Slots Steps Queues Counting Agree Setup Coop Clients.
Import Sync.

Section progress.
Context (P : program).

(** Main is about to return. *)
Definition final (v : Z) (c : cstate P) : Prop := c_run c = Main ∧ ∃ u, c_pc c Main = PUser P u ∧ p_next P u = AReturn v.

(** The next step exists on the machine: main has not returned, ids are left,
    and the next call is one of [basic]. *)
Definition may_step (c : cstate P) : Prop :=
  (∀ v, ¬ final v c) ∧ c_next c < 2 ^ 64 - 1 ∧ ∀ u a, c_pc c (c_run c) = PUser P u → p_next P u = ACall a → basic a = true.

Inductive leads (Q : cstate P → Prop) (c : cstate P) : Prop :=
| ld_now : Q c → leads Q c
| ld_step : may_step c → (∀ c', cstep P c c' → leads Q c') → leads Q c.

Lemma leads_bind Q Q' c : leads Q c → (∀ c1, Q c1 → leads Q' c1) → leads Q' c.
Proof using Type.
  intros H HQ. induction H as [c H|c Hm _ IH]; [by apply HQ|]. by apply ld_step.
Qed.

Section machine.
Context (HP : disciplined P) (page_bits : Z) (Hbits : 0 ≤ page_bits ≤ 30).

Lemma views_basic m c : views P page_bits m c → may_step c → basic_next P m.
Proof using Type.
  intros Hv (_ & _ & Hb) tid u a Hctl. apply Hb. destruct (vi_cur _ _ _ _ Hv) as (tid' & mode & E & Hpc).
  rewrite Hctl in E. injection E as <- <-. by rewrite (vi_run _ _ _ _ Hv).
Qed.

Lemma exit_final m c v : mach_ok P m → tid_room (m_world P m) → views P page_bits m c → step P m = Exit P v → final v c.
Proof using HP.
  intros Hm Hroom Hv E. destruct (vi_cur _ _ _ _ Hv) as (tid & mode & Hctl & Hpc). unfold step in E. rewrite Hctl in E.
  assert (Hj : ∀ x m1, jump_to P x m1 ≠ Exit P v) by (intros x m1; unfold jump_to; repeat case_match; done).
  assert (Haft : ∀ o tid u r, after_call P m o tid u r ≠ Exit P v).
  { intros o tid' u [[[r|from to k] w]| |]; try done. apply Hj. }
  destruct (negb _); [done|]. destruct mode as [u|k u|]; [|by destruct (Haft _ _ _ _ E)|done].
  destruct (p_next P u) as [v'|a] eqn:Hn; [|by destruct (Haft _ _ _ _ E)].
  destruct (m_run P m) as [|i] eqn:Hrun.
  - injection E as ->. split; [by rewrite (vi_run _ _ _ _ Hv)|]. by exists u.
  - destruct (trampoline_exit i v' (m_world P m)) as [[[] w]| |]; [by destruct (Hj _ _ E)|done|done].
Qed.

Lemma leads_run Q c : leads Q c → ∀ m, mach_ok P m → joining P m → views P page_bits m c →
  ∃ n m' c', run P n m = Next P m' ∧ mach_ok P m' ∧ views P page_bits m' c' ∧ Q c'.
Proof using HP Hbits.
  intros H. induction H as [c H|c Hs _ IH]; intros m Hm Hj Hv; [by exists O, m, c|].
  assert (Hroom : tid_room (m_world P m)).
  { pose proof (se_counts _ _ _ _ _ _ (vi_sees _ _ _ _ Hv)) as [= _ E]. destruct Hs as (_ & Hn & _). unfold tid_room. lia. }
  pose proof (step_preserves P HP m Hm Hroom) as Hok. destruct (step P m) as [m1|v| |] eqn:E; cbn in Hok.
  - pose proof (views_basic m c Hv Hs) as HB. destruct (refine_step P HP page_bits Hbits m c m1 Hm Hroom HB Hj Hv E) as (c1 & Hc & Hv1).
    destruct (IH c1 Hc m1 (proj1 Hok) (joining_step P HP m m1 Hm Hroom Hj E) Hv1) as (n & m' & c' & Er & H').
    exists (S n), m', c'. cbn [run]. by rewrite E.
  - destruct Hs as (Hf & _). by destruct (Hf v (exit_final m c v Hm Hroom Hv E)).
  - done.
  - destruct Hok as [Hmode _]. by rewrite (se_mode _ _ _ _ _ _ (vi_sees _ _ _ _ Hv)) in Hmode.
Qed.

(** A final state of the abstract machine is an exit of the machine. *)
Lemma final_exit m c v : mach_ok P m → views P page_bits m c → final v c → step P m = Exit P v.
Proof using Type.
  intros [_ Hex _] Hv (Hrun & u & Hpc & Hn). rewrite (vi_run _ _ _ _ Hv) in Hrun. destruct (vi_cur _ _ _ _ Hv) as (tid & mode & Hctl & Hp).
  rewrite Hrun in *. rewrite Hpc in Hp. unfold step. rewrite Hrun, Hctl. cbn [stack_alive negb].
  destruct mode; try done. cbn in Hp. injection Hp as <-. by rewrite Hn.
Qed.

(** The program runs to its end. *)
Lemma leads_exit R v os fuel :
  os_page_size os = 2 ^ page_bits → (∀ n size, is_Some (os_mmap os n size)) → (∀ n, os_mprotect os n = true) →
  leads (λ c, final v c ∧ R (c_mem c)) (cboot P) →
  ∃ n m, run P n (boot P os fuel) = Next P m ∧ step P m = Exit P v ∧ R (m_mem P m).
Proof using HP Hbits.
  intros Hp Hmm Hmp H. eapply leads_run in H as (n & m & c & Er & Hm & Hv & Hf & HR).
  - exists n, m. split_and!; [exact Er|by eapply final_exit|]. by rewrite <- (vi_mem _ _ _ _ Hv).
  - apply boot_ok.
  - done.
  - by apply views_boot.
Qed.
End machine.
End progress.

(** ** The steps from a given state *)

Section inversion.
Context (P : program).
Implicit Types (c : cstate P).

Lemma runs_unique c t t' u u' : runs P c t u → runs P c t' u' → t = t' ∧ u = u'.
Proof using Type.
  destruct t as [a|k], t' as [a'|k']; cbn.
  - intros [E1 N1] [E2 N2]. rewrite E1 in E2. injection E2 as <-. rewrite N1 in N2. by injection N2 as <-.
  - intros [E1 _] E2. by rewrite E1 in E2.
  - intros E1 [E2 _]. by rewrite E1 in E2.
  - intros E1 E2. rewrite E1 in E2. by injection E2 as <- <-.
Qed.

Lemma free_unique c i j : free P c i → free P c j → i = j.
Proof using Type.
  intros [E1 H1] [E2 H2]. destruct (decide (i < j)%nat) as [Hlt|Hge]; [by destruct (H2 i Hlt)|].
  destruct (decide (j < i)%nat) as [Hlt|Hge']; [by destruct (H1 j Hlt)|]. lia.
Qed.

(** Brings the tasks of two [runs] of one state together. *)
Ltac same_task :=
  repeat match goal with
  | H1 : runs P ?c ?t ?u, H2 : runs P ?c ?t' ?u' |- _ =>
      lazymatch t with t' => fail | _ => destruct (runs_unique c t t' u u' H1 H2) as [? ?]; simplify_eq end
  | H1 : runs P ?c ?t ?u, H2 : runs P ?c ?t ?u' |- _ =>
      lazymatch u with u' => fail | _ => destruct (runs_unique c t t u u' H1 H2) as [_ ?]; simplify_eq end
  | H1 : c_run ?c = Thr ?i, H2 : c_run ?c = Thr ?j |- _ =>
      lazymatch i with j => fail | _ => rewrite H1 in H2; injection H2 as <- end
  end.

Lemma runs_exit c i t u u' v :
  c_run c = Thr i → runs P c t u → c_pc c (Thr i) = PUser P u' → p_next P u' = AReturn v → False.
Proof using Type.
  intros Hrun Hr Hpc Hn. destruct t as [a|k]; cbn in Hr; rewrite Hrun, Hpc in Hr; [|done].
  destruct Hr as [[= <-] Hn']. congruence.
Qed.

Lemma step_sync c c' t u v a :
  cstep P c c' → runs P c t u → task_spec (ccaller P c) t (c_abs c) = Some (v, a) →
  match v with
  | Answer st => c' = give P u (mk_resp st []) (with_abs P a c)
  | Park k => ∃ i, c_run c = Thr i ∧ c' = leave P i (PStop P k u) (with_abs P a c)
  end.
Proof using Type.
  intros Hs Hr Hsp. assert (Hj : ∀ tid i, joins_thread P c t tid i → False) by (by intros tid i (_ & _ & [(-> & _)| ->])).
  destruct Hs; try same_task; try done; try (by exfalso; eapply Hj); try (by exfalso; eapply runs_exit); eauto.
  - by destruct H as [->|[->| ->]].
  - by destruct a0.
Qed.

Lemma step_go_on c c' t u :
  cstep P c c' → runs P c t u → t = TResume KYield ∨ t = TResume KSemWait → c' = give P u (status GTH_OK) c.
Proof using Type.
  intros Hs Hr Ht. assert (Hn : ∀ cl a, task_spec cl t a = None) by (by destruct Ht as [->| ->]).
  assert (Hj : ∀ tid i, joins_thread P c t tid i → False) by (intros tid i (_ & _ & [(-> & _)| ->]); by destruct Ht).
  destruct Hs; try same_task; try done; try (by exfalso; eapply Hj); try (by exfalso; eapply runs_exit); try (by destruct Ht);
    by rewrite Hn in *.
Qed.

Lemma step_yield c c' i u :
  cstep P c c' → c_run c = Thr i → runs P c (TCall AYield) u → c' = leave P i (PStop P KYield u) (set_state_of P i GTH_THREAD_READY c).
Proof using Type.
  intros Hs Hrun Hr. destruct Hs; try same_task; try done; try (by exfalso; eapply runs_exit).
  - by destruct H as [?|[?|?]].
  - destruct H as (? & _). congruence.
  - destruct H as (? & _). congruence.
  - destruct H as (? & _). congruence.
  - congruence.
  - destruct H0 as [? _]. congruence.
Qed.

Lemma step_return c c' i u v st :
  cstep P c c' → c_run c = Thr i → c_pc c (Thr i) = PUser P u → p_next P u = AReturn v → state_of P c i = Some st →
  c' = leave P i (PStart P) (set_state_of P i (fst (ended st v))
      {| c with c_thr := <[i := {| (c_thr c i) with t_val := snd (ended st v) |}]> (c_thr c) |}).
Proof using Type.
  intros Hs Hrun Hpc Hn Hst. destruct Hs; try (by exfalso; eapply runs_exit). congruence.
Qed.

Lemma step_create c c' u attr fn arg i :
  cstep P c c' → runs P c (TCall (ACreate true attr fn arg)) u → c_live c = true → fn ≠ 0 → free P c i →
  c' = give P u (mk_resp GTH_OK [c_next c]) (set_state_of P i GTH_THREAD_READY
      {| c with c_thr := <[i := mk_thr (c_next c) fn arg 0]> (c_thr c); c_pc := <[Thr i := PStart P]> (c_pc c); c_next := c_next c + 1 |}).
Proof using Type.
  intros Hs Hr Hl Hfn Hf. assert (Hj : ∀ tid j, joins_thread P c (TCall (ACreate true attr fn arg)) tid j → False)
    by (by intros tid j (_ & _ & [(? & _)|?])).
  destruct Hs; try same_task; try done; try (by exfalso; eapply Hj); try (by exfalso; eapply runs_exit).
  - by destruct H as [?|[?|?]].
  - by rewrite (free_unique c i i0).
  - destruct H0 as [[? _]|[(_ & [?|?] & _)|(_ & _ & _ & Hnf & _)]]; [congruence|done|done|]. by destruct (Hnf i), Hf.
Qed.

Lemma step_init c c' u cfg :
  cstep P c c' → runs P c (TCall (AInit (Some cfg))) u → config_ok cfg → c_live c = false →
  c' = give P u (status GTH_OK) {| c with c_abs := empty_slots (c_abs c); c_next := 1; c_switches := 0; c_live := true |}.
Proof using Type.
  intros Hs Hr Hok Hl. assert (Hj : ∀ tid j, joins_thread P c (TCall (AInit (Some cfg))) tid j → False)
    by (by intros tid j (_ & _ & [(? & _)|?])).
  destruct Hs; try same_task; try done; try (by exfalso; eapply Hj); try (by exfalso; eapply runs_exit).
  - by destruct H as [?|[?|?]].
  - destruct H0 as [[? _]|(_ & ? & _)]; [done|congruence].
Qed.

Lemma step_shutdown c c' u :
  cstep P c c' → runs P c (TCall AShutdown) u → c_live c = true →
  c' = give P u (status GTH_OK) {| c with c_abs := empty_slots (c_abs c); c_next := 0; c_switches := 0; c_live := false |}.
Proof using Type.
  intros Hs Hr Hl. assert (Hj : ∀ tid j, joins_thread P c (TCall AShutdown) tid j → False) by (by intros tid j (_ & _ & [(? & _)|?])).
  destruct Hs; try same_task; try done; try (by exfalso; eapply Hj); try (by exfalso; eapply runs_exit).
  - by destruct H as [?|[?|?]].
  - destruct H0 as [? _]. congruence.
Qed.

Lemma step_told c c' a u r :
  cstep P c c' → runs P c (TCall a) u → match a with AGetStats _ | ASelf => told P c a r | _ => False end → c' = give P u r c.
Proof using Type.
  intros Hs Hr Ht. assert (Hj : ∀ tid j, joins_thread P c (TCall a) tid j → False)
    by (intros tid j (_ & _ & [(E & _)|E]); [injection E as ->|done]; done).
  destruct Hs; try same_task; try done; try (by exfalso; eapply Hj); try (by exfalso; eapply runs_exit).
  - by destruct a.
  - by destruct a.
  - by destruct H as [?|[?|?]].
  - destruct a; try done; cbn in *; congruence.
Qed.

(** Main joins a thread. *)
Lemma step_join c c' t u tid i :
  cstep P c c' → runs P c t u → joins_thread P c t tid i → (∀ j, is_thread P c tid j → j = i) →
  (∃ st, state_of P c i = Some st ∧ gth_thread_is_terminal st = true ∧
    c' = give P u (mk_resp GTH_OK [t_val (c_thr c i)]) (set_state_of P i GTH_THREAD_EMPTY c)) ∨
  (∃ st, state_of P c i = Some st ∧ gth_thread_is_terminal st = false ∧
    ((∃ j, state_of P c j = Some GTH_THREAD_READY ∧ c' = enter P j (KRunNext 0 (InJoin tid i)) u c) ∨
     (none_ready P c ∧ c' = give P u (status GTH_EBUSY) c))).
Proof using Type.
  intros Hs Hr (Hrun & Hi & Ht) Huniq.
  assert (Hn : ∀ cl a, task_spec cl t a = None) by (by destruct Ht as [[-> _]| ->]).
  assert (Hto : ∀ tid' i', joins_thread P c t tid' i' → tid' = tid ∧ i' = i).
  { intros tid' i' (_ & Hi' & Ht'). destruct Ht as [(-> & _)| ->], Ht' as [([=] & _)|[=]]; subst; eauto. }
  destruct Hs; try same_task; try congruence; try (by rewrite Hn in *).
  - destruct H as [->|[->| ->]]; by destruct Ht as [[? _]|?].
  - destruct (Hto _ _ H) as [-> ->]. left. by exists st.
  - destruct (Hto _ _ H) as [-> ->]. right. exists st. split_and!; [done|done|]. left. by exists j.
  - destruct (Hto _ _ H) as [-> ->]. right. exists st. split_and!; [done|done|]. by right.
  - by destruct Ht as [[? _]|?].
  - by destruct Ht as [[? _]|?].
  - by destruct Ht as [[? _]|?].
  - by destruct Ht as [[? _]|?].
  - by destruct Ht as [[? _]|?].
  - destruct Ht as [([= ->] & Hl & Hnz)|?]; [|done]. cbn in H0. destruct H0 as [_ [[? _]|[(_ & ? & _)|(_ & _ & Hno & _)]]]; [congruence|done|].
    by destruct (Hno i).
Qed.
End inversion.
