(* ===== verification/ForkJoin.v ===== *)
(** * Fork and join

    Rules to go along client code, and the usual shape of a threaded program:
    main creates threads and then joins them all.  What the threads do is
    given by an invariant of the state while main has control ([Pool]): a
    ready thread that is given control gives it back with the invariant
    restored and less left to do.  Then every join succeeds. *)

From S2P Require Import Prelude WaitQueue TraceFormat State Stack TraceBuffer Trace Runtime Replay.
From S2P Require Import Fuzz Sched Thread Mutex Sem Cond Lifecycle Machine Scripts Invariant Ops Switching Safety.
From S2P Require Import SyncSpec Frame Exclusion Waiting ThreadSpec Slots Steps Queues Counting Agree Setup Coop Clients Progress.
Import Sync.

Section client.
Context {mem : Type} (main : user mem Z) (s0 : mem) (thread : Z → Z → user mem Z).
Let P := user_program main s0 thread.
Implicit Types (c : cstate P).

(** The stack [o] has control and executes [p]. *)
Definition code_at (o : owner) (p : user mem Z) (c : cstate P) : cstate P :=
  {| c with c_mem := fst (advance (c_mem c) p) : p_mem P; c_pc := <[o := PUser P (snd (advance (c_mem c) p) : p_state P)]> (c_pc c) |}.

(** The same state, apart from where [o] is. *)
Record alike (o : owner) (c c' : cstate P) : Prop := {
  al_mem : c_mem c' = c_mem c;
  al_abs : c_abs c' = c_abs c;
  al_thr : c_thr c' = c_thr c;
  al_run : c_run c' = c_run c;
  al_next : c_next c' = c_next c;
  al_switches : c_switches c' = c_switches c;
  al_live : c_live c' = c_live c;
  al_pc : ∀ o', o' ≠ o → c_pc c' o' = c_pc c o'
}.

Lemma alike_refl o c : alike o c c.
Proof using Type. done. Qed.

Definition room (c : cstate P) : Prop := c_next c < 2 ^ 64 - 1.

Lemma code_update o f k c : code_at o (UUpdate f k) c = code_at o (k (f (c_mem c))) {| c with c_mem := f (c_mem c) : p_mem P |}.
Proof using Type. done. Qed.

Lemma give_code o a k r c : c_run c = o → give P (UCall a k) r c = code_at o (k r) c.
Proof using Type. intros <-. done. Qed.

Lemma code_pc o p c : c_pc (code_at o p c) o = PUser P (snd (advance (c_mem c) p)).
Proof using Type. apply fn_lookup_insert. Qed.

Lemma code_runs o a k c : c_run c = o → runs P (code_at o (UCall a k) c) (TCall a) (UCall a k).
Proof using Type. intros Hrun. split; [|done]. cbn [c_run code_at]. rewrite Hrun. apply code_pc. Qed.

Lemma code_alike o a k c : alike o c (code_at o (UCall a k) c).
Proof using Type. constructor; try done. intros o' Hne. cbn. by rewrite fn_lookup_insert_ne. Qed.

(** Code at a call can go on. *)
Lemma code_step Q o a k c :
  c_run c = o → basic a = true → room c →
  (∀ c', cstep P (code_at o (UCall a k) c) c' → leads P Q c') → leads P Q (code_at o (UCall a k) c).
Proof using Type.
  intros Hrun Hb Hroom H. destruct (code_runs o a k c Hrun) as [Hpc Hn]. apply ld_step; [|exact H]. split_and!; [|exact Hroom|].
  - intros v (Hm & u & Hu & Hv). rewrite Hm in Hpc. rewrite Hu in Hpc. injection Hpc as ->. done.
  - intros u a' Hu. rewrite Hpc in Hu. injection Hu as <-. by intros [= <-].
Qed.

(** *** Calls *)

Lemma ld_sync Q o a k c st a' :
  c_run c = o → about_objects a = true → room c → sync_spec (ccaller P c) a (c_abs c) = Some (Answer st, a') →
  (∀ c1, alike o (with_abs P a' c) c1 → leads P Q (code_at o (k (mk_resp st [])) c1)) → leads P Q (code_at o (UCall a k) c).
Proof using Type.
  intros Hrun Ha Hroom Hsp H. apply code_step; [done|unfold basic; by rewrite Ha|done|]. intros c' Hs.
  pose proof (step_sync P _ _ (TCall a) (UCall a k) (Answer st) a' Hs (code_runs o a k c Hrun) Hsp) as ->.
  rewrite (give_code o) by done. apply H. constructor; try done. intros o' Hne. cbn. by rewrite fn_lookup_insert_ne.
Qed.

Lemma ld_create Q o attr fn arg k c i :
  c_run c = o → room c → c_live c = true → fn ≠ 0 → free P c i → o ≠ Thr i →
  (∀ c1, alike o (set_state_of P i GTH_THREAD_READY {| c with c_thr := <[i := mk_thr (c_next c) fn arg 0]> (c_thr c);
      c_pc := <[Thr i := PStart P]> (c_pc c); c_next := c_next c + 1 |}) c1 →
    leads P Q (code_at o (k (mk_resp GTH_OK [c_next c])) c1)) →
  leads P Q (code_at o (UCall (ACreate true attr fn arg) k) c).
Proof using Type.
  intros Hrun Hroom Hl Hfn Hf Hne H. apply code_step; [done|done|done|]. intros c' Hs.
  pose proof (step_create P _ _ _ attr fn arg i Hs (code_runs o _ k c Hrun) Hl Hfn Hf) as ->.
  rewrite (give_code o) by done. apply H. constructor; try done. intros o' Hne'. cbn.
  destruct (decide (o' = Thr i)) as [->|Ho]; [by rewrite !fn_lookup_insert|].
  rewrite !(fn_lookup_insert_ne _ (Thr i)) by done. by rewrite fn_lookup_insert_ne.
Qed.

Lemma ld_init Q o cfg k c :
  c_run c = o → room c → config_ok cfg → cfg_stack_size_bytes cfg ≤ GTH_MAX_STACK_SIZE → c_live c = false →
  (∀ c1, alike o {| c with c_abs := empty_slots (c_abs c); c_next := 1; c_switches := 0; c_live := true |} c1 →
    leads P Q (code_at o (k (status GTH_OK)) c1)) →
  leads P Q (code_at o (UCall (AInit (Some cfg)) k) c).
Proof using Type.
  intros Hrun Hroom Hok Hsz Hl H. apply code_step; [done|by apply Z.leb_le|done|]. intros c' Hs.
  pose proof (step_init P _ _ _ cfg Hs (code_runs o _ k c Hrun) Hok Hl) as ->.
  rewrite (give_code o) by done. apply H. constructor; try done. intros o' Hne. cbn. by rewrite fn_lookup_insert_ne.
Qed.

Lemma ld_shutdown Q o k c :
  c_run c = o → room c → c_live c = true →
  (∀ c1, alike o {| c with c_abs := empty_slots (c_abs c); c_next := 0; c_switches := 0; c_live := false |} c1 →
    leads P Q (code_at o (k (status GTH_OK)) c1)) →
  leads P Q (code_at o (UCall AShutdown k) c).
Proof using Type.
  intros Hrun Hroom Hl H. apply code_step; [done|done|done|]. intros c' Hs.
  pose proof (step_shutdown P _ _ _ Hs (code_runs o _ k c Hrun) Hl) as ->.
  rewrite (give_code o) by done. apply H. constructor; try done. intros o' Hne. cbn. by rewrite fn_lookup_insert_ne.
Qed.

Lemma ld_stats Q o k c :
  c_run c = o → room c → c_live c = true →
  (∀ c1, alike o c c1 → leads P Q (code_at o (k (mk_resp GTH_OK
    [c_switches c; countb is_ready_st (a_threads (c_abs c)); countb is_blocked_st (a_threads (c_abs c))])) c1)) →
  leads P Q (code_at o (UCall (AGetStats true) k) c).
Proof using Type.
  intros Hrun Hroom Hl H. apply code_step; [done|done|done|]. intros c' Hs.
  assert (Ht : told P (code_at o (UCall (AGetStats true) k) c) (AGetStats true) (mk_resp GTH_OK
    [c_switches c; countb is_ready_st (a_threads (c_abs c)); countb is_blocked_st (a_threads (c_abs c))])) by (cbn; by rewrite Hl).
  pose proof (step_told P _ _ _ _ _ Hs (code_runs o _ k c Hrun) Ht) as ->.
  rewrite (give_code o) by done. apply H, code_alike.
Qed.

(** *** Switches *)

(** Thread [i] has handed over to main and is left at [p]. *)
Record left_at (i : nat) (p : pc P) (c c' : cstate P) : Prop := {
  la_mem : c_mem c' = c_mem c;
  la_abs : c_abs c' = c_abs c;
  la_thr : c_thr c' = c_thr c;
  la_next : c_next c' = c_next c;
  la_switches : c_switches c' = c_switches c;
  la_live : c_live c' = c_live c;
  la_run : c_run c' = Main;
  la_main : c_pc c' Main = resumed P (c_pc c Main);
  la_pc : c_pc c' (Thr i) = p;
  la_others : ∀ j, j ≠ i → c_pc c' (Thr j) = c_pc c (Thr j)
}.

(** Main, in the call [u] at [k], has handed over to thread [i]. *)
Record gone_to (i : nat) (k : frame) (u : p_state P) (c c' : cstate P) : Prop := {
  gt_mem : c_mem c' = c_mem c;
  gt_abs : c_abs c' = set_thread i GTH_THREAD_RUNNING (c_abs c);
  gt_thr : c_thr c' = c_thr c;
  gt_next : c_next c' = c_next c;
  gt_switches : c_switches c' = u64 (c_switches c + 1);
  gt_live : c_live c' = c_live c;
  gt_run : c_run c' = Thr i;
  gt_main : c_pc c' Main = PStop P k u;
  gt_others : ∀ j, j ≠ i → c_pc c' (Thr j) = c_pc c (Thr j)
}.

Lemma ld_yield Q i k c :
  c_run c = Thr i → room c →
  (∀ c1, left_at i (PStop P KYield (UCall AYield k)) (set_state_of P i GTH_THREAD_READY c) c1 → leads P Q c1) →
  leads P Q (code_at (Thr i) (UCall AYield k) c).
Proof using Type.
  intros Hrun Hroom H. apply code_step; [done|done|done|]. intros c' Hs.
  pose proof (step_yield P _ _ i _ Hs Hrun (code_runs (Thr i) _ k c Hrun)) as ->. apply H. constructor; cbn; try done.
  - by rewrite fn_lookup_insert_ne, fn_lookup_insert.
  - intros j Hj. by rewrite !fn_lookup_insert_ne by congruence.
Qed.

Lemma ld_park Q i a k c fr a' :
  c_run c = Thr i → about_objects a = true → room c → sync_spec (ccaller P c) a (c_abs c) = Some (Park fr, a') →
  (∀ c1, left_at i (PStop P fr (UCall a k)) (with_abs P a' c) c1 → leads P Q c1) →
  leads P Q (code_at (Thr i) (UCall a k) c).
Proof using Type.
  intros Hrun Ha Hroom Hsp H. apply code_step; [done|unfold basic; by rewrite Ha|done|]. intros c' Hs.
  pose proof (step_sync P _ _ (TCall a) (UCall a k) (Park fr) a' Hs (code_runs (Thr i) a k c Hrun) Hsp) as (i' & Hi' & ->).
  cbn in Hi'. rewrite Hrun in Hi'. injection Hi' as <-. apply H. constructor; cbn; try done.
  - by rewrite fn_lookup_insert_ne, fn_lookup_insert.
  - intros j Hj. by rewrite !fn_lookup_insert_ne by congruence.
Qed.

Lemma ld_exit Q i v c st :
  c_run c = Thr i → room c → state_of P c i = Some st →
  (∀ c1, left_at i (PStart P) (set_state_of P i (fst (ended st v))
      {| c with c_thr := <[i := {| (c_thr c i) with t_val := snd (ended st v) |}]> (c_thr c) |}) c1 → leads P Q c1) →
  leads P Q (code_at (Thr i) (UReturn v) c).
Proof using Type.
  intros Hrun Hroom Hst H. assert (Hpc : c_pc (code_at (Thr i) (UReturn v) c) (Thr i) = PUser P (UReturn v)) by apply code_pc.
  apply ld_step.
  - split_and!; [|exact Hroom|].
    + intros v' (Hm & _). cbn in Hm. congruence.
    + cbn [c_run code_at]. rewrite Hrun. intros u a Hu. rewrite Hpc in Hu. by injection Hu as <-.
  - intros c' Hs. pose proof (step_return P _ _ i (UReturn v) v st Hs Hrun Hpc eq_refl Hst) as ->. apply H. constructor; cbn; try done.
    + by rewrite fn_lookup_insert_ne, fn_lookup_insert.
    + intros j Hj. by rewrite !fn_lookup_insert_ne by congruence.
Qed.

Lemma ld_start Q i k u c :
  c_pc c (Thr i) = PStart P →
  (∀ c1, gone_to i k u c c1 → leads P Q (code_at (Thr i) (thread (t_fn (c_thr c i)) (t_arg (c_thr c i))) c1)) →
  leads P Q (enter P i k u c).
Proof using Type.
  intros Hpc H. unfold enter. rewrite Hpc. set (c1 := set_state_of P i GTH_THREAD_RUNNING
    {| c with c_run := Thr i; c_switches := u64 (c_switches c + 1); c_pc := <[Main := PStop P k u]> (c_pc c) |}).
  assert (Hg : gone_to i k u c c1).
  { by constructor. }
  exact (H c1 Hg).
Qed.

(** A thread goes on after a yield or a wait on a semaphore. *)
Lemma ld_go_on Q i k u c fr a k' :
  c_pc c (Thr i) = PStop P fr (UCall a k') → fr = KYield ∨ fr = KSemWait → room c →
  (∀ c1, gone_to i k u c c1 → leads P Q (code_at (Thr i) (k' (status GTH_OK)) c1)) →
  leads P Q (enter P i k u c).
Proof using Type.
  intros Hpc Hfr Hroom H. unfold enter. rewrite Hpc. cbn [resumed].
  set (c1 := set_state_of P i GTH_THREAD_RUNNING _).
  assert (Hr : runs P c1 (TResume fr) (UCall a k')) by (cbn; by rewrite fn_lookup_insert).
  apply ld_step.
  - split_and!; [by intros v (? & _)|exact Hroom|]. cbn. intros u' a'. by rewrite fn_lookup_insert.
  - intros c' Hs. assert (Ht : TResume fr = TResume KYield ∨ TResume fr = TResume KSemWait) by (destruct Hfr as [->| ->]; auto).
    pose proof (step_go_on P c1 c' _ _ Hs Hr Ht) as ->. rewrite (give_code (Thr i)) by done. apply H.
    constructor; try done; cbn. intros j Hj. by rewrite !fn_lookup_insert_ne by congruence.
Qed.

(** ** Joining *)

(** The threads are the same ones. *)
Record kept (c c' : cstate P) : Prop := {
  kp_live : c_live c' = c_live c;
  kp_next : c_next c' = c_next c;
  kp_threads : ∀ tid i, is_thread P c' tid i ↔ is_thread P c tid i
}.

Lemma kept_alike o c c' : alike o c c' → kept c c'.
Proof using Type. intros []. constructor; try done. intros tid i. unfold is_thread, state_of. by rewrite al_abs0, al_thr0. Qed.

(** An invariant of the state while main has control; [n] bounds what the
    threads have left to do. *)
Class Pool (I : nat → cstate P → Prop) : Prop := {
  pl_alike n c c' : alike Main c c' → I n c → I n c';
  pl_main n c : I n c → c_run c = Main ∧ c_live c = true ∧ room c;
  pl_unique n c tid i j : I n c → is_thread P c tid i → is_thread P c tid j → i = j;
  pl_progress n c i st : I n c → state_of P c i = Some st → st ≠ GTH_THREAD_EMPTY → gth_thread_is_terminal st = false →
    ∃ j, state_of P c j = Some GTH_THREAD_READY;
  pl_run n c j k u : I n c → state_of P c j = Some GTH_THREAD_READY →
    leads P (λ c', ∃ n', I n' c' ∧ (n' < n)%nat ∧ c_pc c' Main = PResume P k u ∧ kept c c') (enter P j k u c);
  pl_reap n c i st : I n c → state_of P c i = Some st → gth_thread_is_terminal st = true →
    I n (set_state_of P i GTH_THREAD_EMPTY c)
}.

Section pool.
Context (I : nat → cstate P → Prop) `{!Pool I}.

Lemma state_set i st c j :
  state_of P (set_state_of P i st c) j = if decide (i = j) then (λ _, st) <$> state_of P c j else state_of P c j.
Proof using Type.
  unfold state_of, set_state_of, set_thread. cbn. case_decide as E; [subst; by rewrite list_lookup_alter_eq|by rewrite list_lookup_alter_ne].
Qed.

Lemma reaped_thread i c tid j :
  is_thread P (set_state_of P i GTH_THREAD_EMPTY c) tid j ↔ j ≠ i ∧ is_thread P c tid j.
Proof using Type.
  unfold is_thread. rewrite state_set. case_decide as E.
  - split; [|by intros [? _]]. intros [(st & Hst & Hne) _]. by destruct (state_of P c j); cbn in Hst; simplify_eq.
  - split; [by split; [congruence|]|by intros [_ ?]].
Qed.

Lemma join_loop tid i n : ∀ c t u,
  I n c → joins_thread P c t tid i → runs P c t u →
  leads P (λ c', ∃ n1 c1 v, c' = give P u (mk_resp GTH_OK [v]) c1 ∧ I n1 c1 ∧ ∀ tid' j, is_thread P c1 tid' j ↔ j ≠ i ∧ is_thread P c tid' j) c.
Proof using All.
  induction n as [n IH] using lt_wf_ind. intros c t u Hi Hj Hr. destruct (pl_main n c Hi) as (Hrun & Hlive & Hroom).
  pose proof Hj as (_ & Hit & Ht). apply ld_step.
  { split_and!; [|exact Hroom|].
    - intros v (_ & u' & Hpc & Hv). destruct Ht as [[-> _]| ->].
      + destruct Hr as [Hr Hn']. rewrite Hrun, Hpc in Hr. injection Hr as ->. by rewrite Hv in Hn'.
      + unfold runs in Hr. by rewrite Hrun, Hpc in Hr.
    - intros u' a Hpc Ha. destruct Ht as [[-> _]| ->].
      + destruct Hr as [Hr Hn']. rewrite Hpc in Hr. injection Hr as ->. rewrite Ha in Hn'. by injection Hn' as ->.
      + unfold runs in Hr. by rewrite Hpc in Hr. }
  intros c' Hs. destruct (step_join P c c' t u tid i Hs Hr Hj) as [(st & Hst & Hterm & ->)|(st & Hst & Hterm & Hor)].
  - intros j Hj'. by apply (pl_unique n c tid j i Hi).
  - apply ld_now. eexists _, _, _. split; [done|]. split; [by eapply pl_reap|]. intros tid' j. apply reaped_thread.
  - assert (Hne : st ≠ GTH_THREAD_EMPTY) by (destruct Hit as [(st' & Hst' & Hne) _]; congruence).
    destruct Hor as [(j & Hready & ->)|[Hnone _]].
    + eapply leads_bind; [by apply (pl_run n c j)|]. intros c1 (n1 & Hi1 & Hlt & Hpc1 & [Hk1 Hk2 Hk3]).
      destruct (pl_main n1 c1 Hi1) as (Hrun1 & _). eapply leads_bind.
      * eapply (IH n1 Hlt c1 (TResume (KRunNext 0 (InJoin tid i))) u); [done| |cbn; by rewrite Hrun1].
        split_and!; [done|by apply Hk3|by right].
      * intros c2 (n3 & c3 & v & -> & Hi3 & Hth). apply ld_now. exists n3, c3, v. split_and!; [done|done|].
        intros tid' j'. rewrite Hth. by rewrite Hk3.
    + destruct (pl_progress n c i st Hi Hst Hne Hterm) as [j Hj']. by destruct (Hnone j).
Qed.

Lemma ld_join Q tid i k n c :
  I n c → is_thread P c tid i → tid ≠ 0 →
  (∀ n1 c1 v, I n1 c1 → (∀ tid' j, is_thread P c1 tid' j ↔ j ≠ i ∧ is_thread P c tid' j) →
    leads P Q (code_at Main (k (mk_resp GTH_OK [v])) c1)) →
  leads P Q (code_at Main (UCall (AJoin tid) k) c).
Proof using All.
  intros Hi Hit Hnz H. destruct (pl_main n c Hi) as (Hrun & Hlive & _). pose proof (code_alike Main (AJoin tid) k c) as Hal.
  pose proof (kp_threads _ _ (kept_alike _ _ _ Hal)) as Hth. pose proof (pl_alike n _ _ Hal Hi) as Hi'.
  eapply leads_bind; [eapply (join_loop tid i n _ (TCall (AJoin tid)) (UCall (AJoin tid) k)); [done| |by apply code_runs]|].
  - split_and!; [done|by apply Hth|by left].
  - intros c2 (n3 & c3 & v & -> & Hi3 & Hth3). destruct (pl_main n3 c3 Hi3) as (Hrun3 & _). rewrite (give_code Main) by done.
    apply (H n3); [done|]. intros tid' j. by rewrite Hth3, Hth.
Qed.

Fixpoint join_all (tids : list Z) : user mem unit :=
  match tids with [] => UReturn tt | tid :: tids' => call (AJoin tid);~ join_all tids' end.

(** [jobs]: the ids that are joined, with their slots. *)
Lemma ld_join_all Q rest jobs : ∀ n c,
  I n c → (∀ tid i, (tid, i) ∈ jobs → is_thread P c tid i ∧ tid ≠ 0) → NoDup (snd <$> jobs) →
  (∀ n1 c1, I n1 c1 → (∀ tid j, is_thread P c1 tid j ↔ (j ∉ (snd <$> jobs)) ∧ is_thread P c tid j) → leads P Q (code_at Main rest c1)) →
  leads P Q (code_at Main (join_all (fst <$> jobs);~ rest) c).
Proof using All.
  induction jobs as [|[tid i] jobs IH]; intros n c Hi Hf Hnd H.
  - apply (H n); [done|]. intros tid j. split; [by split; [apply not_elem_of_nil|]|by intros [_ ?]].
  - cbn [fmap list_fmap fst snd] in *. apply NoDup_cons in Hnd as [Hni Hnd].
    change (join_all (tid :: (fst <$> jobs));~ rest) with (UCall (AJoin tid) (λ _, join_all (fst <$> jobs);~ rest)).
    destruct (Hf tid i) as [Hit Hnz]; [by left|]. apply (ld_join _ tid i _ n); [done..|]. intros n1 c1 v Hi1 Hth. apply (IH n1); [done| |done|].
    + intros tid' i' Hin. destruct (Hf tid' i') as [Hit' Hnz']; [by right|]. split; [|done]. apply Hth. split; [|done].
      intros ->. apply Hni, list_elem_of_fmap. by exists (tid', i).
    + intros n2 c2 Hi2 Hth2. apply (H n2); [done|]. intros tid' j. rewrite Hth2, Hth, not_elem_of_cons. tauto.
Qed.
End pool.

(** ** Giving control to a thread *)

(** What thread [i] executes when it is given control. *)
Definition will (c : cstate P) (i : nat) (p : user mem Z) : Prop :=
  match c_pc c (Thr i) with
  | PStart _ => p = thread (t_fn (c_thr c i)) (t_arg (c_thr c i))
  | PStop _ fr (UCall _ k) => (fr = KYield ∨ fr = KSemWait) ∧ p = k (status GTH_OK)
  | _ => False
  end.

Lemma ld_enter Q i p k u c :
  will c i p → room c → (∀ c1, gone_to i k u c c1 → leads P Q (code_at (Thr i) p c1)) → leads P Q (enter P i k u c).
Proof using Type.
  unfold will. intros Hw Hroom H. destruct (c_pc c (Thr i)) as [|u'|k' u'|fr u'] eqn:Hpc; try done.
  - subst p. by apply ld_start.
  - destruct u' as [| |a k']; try done. destruct Hw as [Hfr ->]. by eapply ld_go_on.
Qed.

(** ** Creating *)

(** [n] threads have been created and none has run; [job i] is the function
    and the argument of thread [i], which is in slot [i]. *)
Record forked (job : nat → Z * Z) (base : Z) (n : nat) (c : cstate P) : Prop := {
  fk_run : c_run c = Main;
  fk_live : c_live c = true;
  fk_next : c_next c = base + Z.of_nat n;
  fk_slots : length (a_threads (c_abs c)) = GTH_MAX_THREADS;
  fk_ready : ∀ i, (i < n)%nat → state_of P c i = Some GTH_THREAD_READY ∧ will c i (thread (fst (job i)) (snd (job i))) ∧
    t_tid (c_thr c i) = base + Z.of_nat i;
  fk_empty : ∀ i, (n ≤ i < GTH_MAX_THREADS)%nat → state_of P c i = Some GTH_THREAD_EMPTY
}.

(** The objects, the memory and the counter of switches. *)
Definition surroundings (c : cstate P) : p_mem P * (Z → amutex) * (Z → asem) * (Z → acond) * Z :=
  (c_mem c, a_mutex (c_abs c), a_sem (c_abs c), a_cond (c_abs c), c_switches c).

Lemma ld_fork Q job base n k c :
  forked job base n c → (n < GTH_MAX_THREADS)%nat → fst (job n) ≠ 0 → room c →
  (∀ c1, forked job base (S n) c1 → surroundings c1 = surroundings c →
    leads P Q (code_at Main (k (mk_resp GTH_OK [base + Z.of_nat n])) c1)) →
  leads P Q (code_at Main (UCall (ACreate true None (fst (job n)) (snd (job n))) k) c).
Proof using Type.
  intros [Hrun Hlive Hnext Hlen Hready Hempty] Hn Hfn Hroom H. rewrite <- Hnext in H.
  assert (Hf : free P c n).
  { split; [by apply Hempty|]. intros j Hj. by rewrite (proj1 (Hready j Hj)). }
  apply (ld_create Q Main None (fst (job n)) (snd (job n)) k c n); try done. intros c1 Hal. destruct Hal. cbn in *.
  apply H; [|unfold surroundings; by rewrite al_mem0, al_abs0, al_switches0].
  assert (Hst : ∀ j, state_of P c1 j = if decide (n = j) then (λ _, GTH_THREAD_READY) <$> state_of P c j else state_of P c j).
  { intros j. unfold state_of. rewrite al_abs0. apply (state_set n GTH_THREAD_READY c j). }
  constructor; [congruence|congruence|rewrite al_next0; lia|rewrite al_abs0; cbn; by rewrite length_alter|..].
  - intros i Hi. rewrite Hst. destruct (decide (n = i)) as [<-|Hne].
    + rewrite (Hempty n) by lia. split_and!; [done| |]; [unfold will; rewrite al_pc0 by done|]; rewrite ?fn_lookup_insert, ?al_thr0, ?fn_lookup_insert; done.
    + destruct (Hready i ltac:(lia)) as (H1 & H2 & H3). split_and!; [done| |].
      * unfold will in *. rewrite al_pc0, fn_lookup_insert_ne by congruence. rewrite al_thr0, fn_lookup_insert_ne by done. exact H2.
      * rewrite al_thr0, fn_lookup_insert_ne by done. exact H3.
  - intros i Hi. rewrite Hst, decide_False by lia. apply Hempty. lia.
Qed.
End client.
