(* ===== verification/Crew.v ===== *)
(** * Crews

    The threads that a program creates at its start, followed through their
    work.  A [roster] says for each of them what it executes when it is next
    given control and whether it is ready; what the program's own invariant
    says of the roster and of the objects is all that is left to prove
    ([Shift]), the bookkeeping of slots, ids and joins is done here. *)

From S2P Require Import Prelude WaitQueue TraceFormat State Stack TraceBuffer Trace Runtime Replay.
From S2P Require Import Fuzz Sched Thread Mutex Sem Cond Lifecycle Machine Scripts Invariant Ops Switching Safety.
From S2P Require Import SyncSpec Frame Exclusion Waiting ThreadSpec Slots Steps Queues Counting Agree Setup Coop Clients Progress ForkJoin.
Import Sync.

(** What a thread that has not ended is up to. *)
Abbreviation roster mem := (nat → option (gth_thread_state_t * user mem Z)).

Section crew.
Context {mem : Type} (main : user mem Z) (s0 : mem) (thread : Z → Z → user mem Z).
Abbreviation P := (user_program main s0 thread).
Context (base : Z) (N : nat) (Hbase : 0 < base) (Hroom : base + Z.of_nat N < 2 ^ 64 - 1).
Implicit Types (c : cstate P).

Definition stands (c : cstate P) (i : nat) (x : option (gth_thread_state_t * user mem Z)) : Prop :=
  match x with
  | Some (st, p) => state_of P c i = Some st ∧ (st = GTH_THREAD_READY ∨ st = GTH_THREAD_BLOCKED) ∧ will main s0 thread c i p
  | None => ∀ st, state_of P c i = Some st → st = GTH_THREAD_EMPTY ∨ st = GTH_THREAD_DONE
  end.

(** [there i]: slot [i] holds a thread that has not been joined. *)
Record crew (run : owner) (there : nat → Prop) (g : roster mem) (c : cstate P) : Prop := {
  cr_run : c_run c = run;
  cr_live : c_live c = true;
  cr_next : c_next c = base + Z.of_nat N;
  cr_slots : length (a_threads (c_abs c)) = GTH_MAX_THREADS;
  cr_there : ∀ i, there i ↔ ∃ st, state_of P c i = Some st ∧ st ≠ GTH_THREAD_EMPTY;
  cr_size : ∀ i, there i → (i < N)%nat;
  cr_tid : ∀ i, (i < N)%nat → t_tid (c_thr c i) = base + Z.of_nat i;
  cr_at : ∀ i, (i < N)%nat → run ≠ Thr i → stands c i (g i)
}.

(** Thread [j] has control, and main is at [p]. *)
Record on_duty (j : nat) (p : pc P) (there : nat → Prop) (g : roster mem) (c : cstate P) : Prop := {
  od_crew : crew (Thr j) there g c;
  od_lt : (j < N)%nat;
  od_state : state_of P c j = Some GTH_THREAD_RUNNING;
  od_main : c_pc c Main = p
}.

Abbreviation surr := (surroundings main s0 thread).
Definition counting (s : p_mem P * (Z → amutex) * (Z → asem) * (Z → acond) * Z) :=
  let '(m, am, sm, cm, n) := s in (m, am, sm, cm, u64 (n + 1)).

Lemma crew_threads run there g c tid i :
  crew run there g c → is_thread P c tid i ↔ there i ∧ tid = base + Z.of_nat i.
Proof using Type.
  intros Hc. unfold is_thread. rewrite <- (cr_there _ _ _ _ Hc). split.
  - intros [Ht <-]. split; [done|]. by apply (cr_tid _ _ _ _ Hc), (cr_size _ _ _ _ Hc).
  - intros [Ht ->]. split; [done|]. by apply (cr_tid _ _ _ _ Hc), (cr_size _ _ _ _ Hc).
Qed.

Lemma crew_room run there g c : crew run there g c → room main s0 thread c.
Proof using Hroom. intros Hc. unfold room. rewrite (cr_next _ _ _ _ Hc). lia. Qed.

Lemma duty_room j p there g c : on_duty j p there g c → room main s0 thread c.
Proof using Hroom. intros []. by eapply crew_room. Qed.

Lemma stands_same c c' i x :
  state_of P c' i = state_of P c i → c_pc c' (Thr i) = c_pc c (Thr i) → c_thr c' i = c_thr c i → stands c i x → stands c' i x.
Proof using Type. unfold stands, will. intros -> -> ->. done. Qed.

(** *** Steps of the thread that has control *)

Lemma duty_alike j p there g c c' : alike main s0 thread (Thr j) c c' → on_duty j p there g c → on_duty j p there g c'.
Proof using Type.
  intros [] [[] Hlt Hst Hm]. assert (Hs : ∀ i, state_of P c' i = state_of P c i) by (intros i; unfold state_of; by rewrite al_abs).
  constructor; [constructor; try congruence| | |].
  - intros i. by rewrite Hs.
  - done.
  - intros i Hi. rewrite al_thr. auto.
  - intros i Hi Hne. eapply stands_same; [by rewrite Hs|by apply al_pc; congruence|by rewrite al_thr|by apply cr_at0].
  - done.
  - by rewrite Hs.
  - by rewrite al_pc.
Qed.

(** A change of the memory and of the objects. *)
Lemma duty_objects j p there g c m a :
  a_threads a = a_threads (c_abs c) → on_duty j p there g c →
  on_duty j p there g ({| (with_abs P a c) with c_mem := m : p_mem P |}).
Proof using Type.
  intros Ht [[] Hlt Hst Hm]. assert (Hs : ∀ i, state_of P {| (with_abs P a c) with c_mem := m : p_mem P |} i = state_of P c i)
    by (intros i; unfold state_of; cbn; by rewrite Ht).
  constructor; [constructor; try done| | |]; cbn.
  - by rewrite Ht.
  - intros i. by rewrite Hs.
  - intros i Hi Hne. eapply stands_same; [by rewrite Hs|done|done|by apply cr_at0].
  - done.
  - by rewrite Hs.
  - done.
Qed.

Lemma duty_update j p there g c Q f k :
  on_duty j p there g c →
  (∀ c1, on_duty j p there g c1 → surr c1 = (f (c_mem c), a_mutex (c_abs c), a_sem (c_abs c), a_cond (c_abs c), c_switches c) →
    leads P Q (code_at main s0 thread (Thr j) (k (f (c_mem c))) c1)) →
  leads P Q (code_at main s0 thread (Thr j) (UUpdate f k) c).
Proof using Type.
  intros Hd H. rewrite code_update. apply H; [|done].
  exact (duty_objects j p there g c (f (c_mem c)) (c_abs c) eq_refl Hd).
Qed.

(** The caller of a synchronisation function. *)
Definition member (j : nat) : caller := mk_caller (base + Z.of_nat j) (Some j).

Lemma duty_caller j p there g c : on_duty j p there g c → ccaller P c = member j.
Proof using Type.
  intros [[] Hlt _ _]. unfold ccaller, self, member. rewrite cr_run0. by rewrite cr_tid0.
Qed.

Lemma duty_call j p there g c Q a k st a' :
  on_duty j p there g c → about_objects a = true → sync_spec (member j) a (c_abs c) = Some (Answer st, a') →
  a_threads a' = a_threads (c_abs c) →
  (∀ c1, on_duty j p there g c1 → surr c1 = (c_mem c, a_mutex a', a_sem a', a_cond a', c_switches c) →
    leads P Q (code_at main s0 thread (Thr j) (k (mk_resp st [])) c1)) →
  leads P Q (code_at main s0 thread (Thr j) (UCall a k) c).
Proof using Hroom.
  intros Hd Ha Hsp Ht H. eapply ld_sync; [by apply (cr_run _ _ _ _ (od_crew _ _ _ _ _ Hd))|done|by eapply duty_room|by erewrite duty_caller|].
  intros c1 Hal. apply H.
  - eapply duty_alike; [exact Hal|]. exact (duty_objects j p there g c (c_mem c) a' Ht Hd).
  - destruct Hal. unfold surroundings. by rewrite al_mem, al_abs, al_switches.
Qed.

(** A call that wakes member [i]. *)
Lemma duty_wake j p there g c Q a k a' i p' :
  on_duty j p there g c → about_objects a = true → sync_spec (member j) a (c_abs c) = Some (Answer GTH_OK, a') →
  (i < N)%nat → i ≠ j → g i = Some (GTH_THREAD_BLOCKED, p') → a_threads a' = a_threads (wake (Z.of_nat i) (c_abs c)) →
  (∀ c1, on_duty j p there (<[i := Some (GTH_THREAD_READY, p')]> g) c1 →
    surr c1 = (c_mem c, a_mutex a', a_sem a', a_cond a', c_switches c) →
    leads P Q (code_at main s0 thread (Thr j) (k (status GTH_OK)) c1)) →
  leads P Q (code_at main s0 thread (Thr j) (UCall a k) c).
Proof using Hroom.
  intros Hd Ha Hsp Hi Hij Hg Ht H. eapply ld_sync; [by apply (cr_run _ _ _ _ (od_crew _ _ _ _ _ Hd))|done|by eapply duty_room|by erewrite duty_caller|].
  intros c1 Hal. apply H; [|destruct Hal; unfold surroundings; by rewrite al_mem, al_abs, al_switches].
  eapply duty_alike; [exact Hal|]. destruct Hd as [[] Hlt Hst Hm].
  pose proof (cr_at0 i Hi) as Hat. rewrite Hg in Hat. destruct Hat as (Hb & _ & Hw); [congruence|].
  assert (Hs : ∀ i', state_of P (with_abs P a' c) i' = if decide (i = i') then Some GTH_THREAD_READY else state_of P c i').
  { intros i'. unfold state_of. cbn. rewrite Ht. cbn. rewrite Nat2Z.id. case_decide as E; [subst i'|by apply list_lookup_alter_ne].
    unfold state_of in Hb. by rewrite list_lookup_alter_eq, Hb. }
  constructor; [constructor; try done|done| |done]; cbn.
  - rewrite Ht. cbn. by rewrite length_alter.
  - intros i'. rewrite Hs, cr_there0. case_decide as E; [subst i'|done]. rewrite Hb. naive_solver.
  - intros i' Hi' Hne. destruct (decide (i = i')) as [<-|E].
    + rewrite fn_lookup_insert. split_and!; [by rewrite Hs, decide_True|by left|exact Hw].
    + rewrite fn_lookup_insert_ne by done. eapply stands_same; [by rewrite Hs, decide_False|done|done|by apply cr_at0].
  - by rewrite Hs, decide_False.
Qed.

(** Thread [j] hands over, in state [st]. *)
Lemma duty_over j p there g c c0 c' q st x :
  on_duty j p there g c → left_at main s0 thread j q c0 c' →
  a_threads (c_abs c0) = alter (λ _, st) j (a_threads (c_abs c)) → st ≠ GTH_THREAD_EMPTY →
  c_pc c0 = c_pc c → c_next c0 = c_next c → c_live c0 = c_live c →
  t_tid (c_thr c0 j) = t_tid (c_thr c j) → (∀ i, i ≠ j → c_thr c0 i = c_thr c i) →
  (state_of P c' j = Some st → stands c' j x) →
  crew Main there (<[j := x]> g) c' ∧ c_pc c' Main = resumed P p.
Proof using Type.
  intros [[] Hlt Hst Hm] [] Ht Hne Hpc Hnext Hlive Htid Hthr Hx.
  assert (Hs : ∀ i, state_of P c' i = if decide (j = i) then Some st else state_of P c i).
  { intros i. unfold state_of. rewrite la_abs, Ht. case_decide as E; [subst i|by apply list_lookup_alter_ne].
    unfold state_of in Hst. by rewrite list_lookup_alter_eq, Hst. }
  split; [|by rewrite la_main, Hpc, Hm]. constructor; try congruence.
  - by rewrite la_abs, Ht, length_alter.
  - intros i. rewrite Hs, cr_there0. case_decide as E; [subst i|done]. rewrite Hst. naive_solver.
  - done.
  - intros i Hi. rewrite la_thr. destruct (decide (i = j)) as [->|E]; [rewrite Htid|rewrite Hthr by done]; auto.
  - intros i Hi _. destruct (decide (j = i)) as [<-|E].
    + rewrite fn_lookup_insert. apply Hx. by rewrite Hs, decide_True.
    + rewrite fn_lookup_insert_ne by done.
      eapply stands_same; [by rewrite Hs, decide_False|by rewrite la_others, Hpc by done|by rewrite la_thr, Hthr by done|apply cr_at0; congruence].
Qed.

Lemma duty_yield j p there g c Q k :
  on_duty j p there g c →
  (∀ c1, crew Main there (<[j := Some (GTH_THREAD_READY, k (status GTH_OK))]> g) c1 → c_pc c1 Main = resumed P p → surr c1 = surr c → leads P Q c1) →
  leads P Q (code_at main s0 thread (Thr j) (UCall AYield k) c).
Proof using Hroom.
  intros Hd H. apply ld_yield; [by apply (cr_run _ _ _ _ (od_crew _ _ _ _ _ Hd))|by eapply duty_room|]. intros c1 Hl.
  edestruct duty_over as [Hc Hm]; [exact Hd|exact Hl|done..| |by eapply H; [exact Hc|exact Hm|destruct Hl; unfold surroundings; by rewrite la_mem, la_abs, la_switches]].
  intros Hs. split_and!; [done|by left|]. unfold will. rewrite (la_pc _ _ _ _ _ _ _ Hl). auto.
Qed.

(** A wait on a semaphore that blocks. *)
Lemma duty_wait j p there g c Q s k a' :
  on_duty j p there g c → sync_spec (member j) (ASemWait s) (c_abs c) = Some (Park KSemWait, set_thread j GTH_THREAD_BLOCKED a') →
  a_threads a' = a_threads (c_abs c) →
  (∀ c1, crew Main there (<[j := Some (GTH_THREAD_BLOCKED, k (status GTH_OK))]> g) c1 → c_pc c1 Main = resumed P p →
    surr c1 = (c_mem c, a_mutex a', a_sem a', a_cond a', c_switches c) → leads P Q c1) →
  leads P Q (code_at main s0 thread (Thr j) (UCall (ASemWait s) k) c).
Proof using Hroom.
  intros Hd Hsp Ht H. eapply ld_park; [by apply (cr_run _ _ _ _ (od_crew _ _ _ _ _ Hd))|done|by eapply duty_room|by erewrite duty_caller|].
  intros c1 Hl. edestruct duty_over as [Hc Hm]; [exact Hd|exact Hl|cbn; by rewrite Ht|done..| |
    by eapply H; [exact Hc|exact Hm|destruct Hl; unfold surroundings; by rewrite la_mem, la_abs, la_switches]].
  intros Hs. split_and!; [done|by right|]. unfold will. rewrite (la_pc _ _ _ _ _ _ _ Hl). auto.
Qed.

Lemma duty_exit j p there g c Q v :
  on_duty j p there g c →
  (∀ c1, crew Main there (<[j := None]> g) c1 → c_pc c1 Main = resumed P p → surr c1 = surr c → leads P Q c1) →
  leads P Q (code_at main s0 thread (Thr j) (UReturn v) c).
Proof using Hroom.
  intros Hd H. eapply ld_exit; [by apply (cr_run _ _ _ _ (od_crew _ _ _ _ _ Hd))|by eapply duty_room|by apply (od_state _ _ _ _ _ Hd)|]. intros c1 Hl.
  edestruct (duty_over j p there g c) as [Hc Hm]; [exact Hd|exact Hl|done..| | |
    |by eapply H; [exact Hc|exact Hm|destruct Hl; unfold surroundings; by rewrite la_mem, la_abs, la_switches]].
  - cbn. by rewrite fn_lookup_insert.
  - intros i Hi. cbn. by rewrite fn_lookup_insert_ne.
  - intros Hs st. rewrite Hs. intros [= <-]. by right.
Qed.

(** ** What the members do *)

(** An invariant [G n g s] of the roster and of the surroundings while main
    has control; [n] bounds what there is left to do.  A member that is given
    control hands over with the invariant restored and less left. *)
Class Shift (G : nat → roster mem → p_mem P * (Z → amutex) * (Z → asem) * (Z → acond) * Z → Prop) : Prop := {
  sh_progress n g s i x : G n g s → (i < N)%nat → g i = Some x → ∃ j p, (j < N)%nat ∧ g j = Some (GTH_THREAD_READY, p);
  sh_run n g s j p pm there Q c : G n g s → (j < N)%nat → g j = Some (GTH_THREAD_READY, p) →
    on_duty j pm there g c → surr c = counting s →
    (∀ n' g' c', crew Main there g' c' → c_pc c' Main = resumed P pm → G n' g' (surr c') → (n' < n)%nat → leads P Q c') →
    leads P Q (code_at main s0 thread (Thr j) p c)
}.

Definition at_work G (n : nat) (c : cstate P) : Prop := ∃ there g, crew Main there g c ∧ G n g (surr c).

Lemma crew_alike there g c c' : alike main s0 thread Main c c' → crew Main there g c → crew Main there g c'.
Proof using Type.
  intros [] []. assert (Hs : ∀ i, state_of P c' i = state_of P c i) by (intros i; unfold state_of; by rewrite al_abs).
  constructor; try congruence.
  - intros i. by rewrite Hs.
  - done.
  - intros i Hi. rewrite al_thr. auto.
  - intros i Hi Hne. eapply stands_same; [by rewrite Hs|by apply al_pc|by rewrite al_thr|by apply cr_at0].
Qed.

Lemma crew_ready there g c i : crew Main there g c → state_of P c i = Some GTH_THREAD_READY → (i < N)%nat ∧ ∃ p, g i = Some (GTH_THREAD_READY, p).
Proof using Type.
  intros [] Hi. assert (Hlt : (i < N)%nat) by (apply cr_size0, cr_there0; by exists GTH_THREAD_READY). split; [done|].
  pose proof (cr_at0 i Hlt) as Hat. destruct (g i) as [[st p]|].
  - destruct Hat as (Hs & _); [done|]. exists p. congruence.
  - by destruct (Hat ltac:(done) _ Hi).
Qed.

Lemma crew_reap there g c i st :
  crew Main there g c → state_of P c i = Some st → gth_thread_is_terminal st = true →
  crew Main (λ j, there j ∧ j ≠ i) g (set_state_of P i GTH_THREAD_EMPTY c).
Proof using Type.
  intros [] Hi Ht. assert (Hs := state_set main s0 thread i GTH_THREAD_EMPTY c). constructor; try done.
  - cbn. by rewrite length_alter.
  - intros j. rewrite Hs, cr_there0. case_decide as E; [subst j; rewrite Hi; cbn|]; naive_solver.
  - intros j [Hj _]. auto.
  - intros j Hj _. pose proof (cr_at0 j Hj ltac:(done)) as Hat. destruct (decide (i = j)) as [<-|E].
    + destruct (g i) as [[st' p]|].
      * destruct Hat as (Hs' & Hor & _). rewrite Hi in Hs'. injection Hs' as <-. by destruct Hor as [->| ->].
      * intros st'. rewrite Hs, decide_True, Hi by done. intros [= <-]. by left.
    + eapply stands_same; [by rewrite Hs, decide_False|done..].
Qed.

(** Main gives control to a member. *)
Lemma crew_enter there g c j k u c1 :
  crew Main there g c → (j < N)%nat → state_of P c j = Some GTH_THREAD_READY → gone_to main s0 thread j k u c c1 →
  on_duty j (PStop P k u) there g c1 ∧ surr c1 = counting (surr c).
Proof using Type.
  intros [] Hj Hr []. assert (Hs : ∀ i, state_of P c1 i = if decide (j = i) then Some GTH_THREAD_RUNNING else state_of P c i).
  { intros i. unfold state_of. rewrite gt_abs. cbn. case_decide as E; [subst i|by apply list_lookup_alter_ne].
    unfold state_of in Hr. by rewrite list_lookup_alter_eq, Hr. }
  split; [|unfold surroundings, counting; by rewrite gt_mem, gt_abs, gt_switches].
  constructor; [constructor; try congruence|done|by rewrite Hs, decide_True|done].
  - rewrite gt_abs. cbn. by rewrite length_alter.
  - intros i. rewrite Hs, cr_there0. case_decide as E; [subst i; rewrite Hr|done]. naive_solver.
  - done.
  - intros i Hi. rewrite gt_thr. auto.
  - intros i Hi Hne. assert (E : j ≠ i) by congruence.
    eapply stands_same; [by rewrite Hs, decide_False|by apply gt_others|by rewrite gt_thr|by apply cr_at0].
Qed.

#[global] Instance at_work_pool G `{!Shift G} : Pool main s0 thread (at_work G).
Proof using Hroom.
  constructor.
  - intros n c c' Hal (there & g & Hc & HG). exists there, g. split; [by eapply crew_alike|].
    destruct Hal. unfold surroundings in *. by rewrite al_mem, al_abs, al_switches.
  - intros n c (there & g & Hc & HG). pose proof Hc as []. split_and!; [done|done|by eapply crew_room].
  - intros n c tid i j (there & g & Hc & HG). rewrite !(crew_threads _ _ _ _ _ _ Hc). intros [_ ->] [_ ?]. lia.
  - intros n c i st (there & g & Hc & HG) Hst Hne Ht. pose proof Hc as [].
    assert (Hlt : (i < N)%nat) by (apply cr_size0, cr_there0; by exists st). pose proof (cr_at0 i Hlt ltac:(done)) as Hat.
    destruct (g i) as [x|] eqn:Hg; [|by destruct (Hat _ Hst) as [->| ->]].
    destruct (sh_progress n g _ i x HG Hlt Hg) as (j & p & Hj & Hgj). exists j. pose proof (cr_at0 j Hj ltac:(done)) as Hat'.
    rewrite Hgj in Hat'. by destruct Hat' as [? _].
  - intros n c j k u (there & g & Hc & HG) Hr. destruct (crew_ready _ _ _ _ Hc Hr) as [Hj [p Hg]].
    pose proof (cr_at _ _ _ _ Hc j Hj ltac:(done)) as Hat. rewrite Hg in Hat. destruct Hat as (_ & _ & Hw).
    apply (ld_enter main s0 thread _ j p); [done|by eapply crew_room|]. intros c1 Hgone.
    destruct (crew_enter _ _ _ _ _ _ _ Hc Hj Hr Hgone) as [Hd Hsu]. eapply (sh_run n g (surr c) j p); [done..|].
    intros n' g' c' Hc' Hm HG' Hlt. apply ld_now. exists n'. split_and!; [by exists there, g'|done|done|].
    constructor; [by rewrite (cr_live _ _ _ _ Hc'), (cr_live _ _ _ _ Hc)|by rewrite (cr_next _ _ _ _ Hc'), (cr_next _ _ _ _ Hc)|].
    intros tid i. by rewrite (crew_threads _ _ _ _ _ _ Hc), (crew_threads _ _ _ _ _ _ Hc').
  - intros n c i st (there & g & Hc & HG) Hst Ht. exists (λ j, there j ∧ j ≠ i), g. split; [by eapply crew_reap|done].
Qed.

(** The members have been created. *)
Lemma crew_forked job c :
  forked main s0 thread job base N c → (N ≤ GTH_MAX_THREADS)%nat →
  crew Main (λ i, (i < N)%nat) (λ i, Some (GTH_THREAD_READY, thread (fst (job i)) (snd (job i)))) c.
Proof using Type.
  intros [] HN. constructor; try done.
  - intros i. split.
    + intros Hi. exists GTH_THREAD_READY. by destruct (fk_ready i Hi).
    + intros (st & Hst & Hne). destruct (decide (i < N)%nat) as [?|Hge]; [done|]. rewrite fk_empty in Hst by
        (split; [lia|]; rewrite <- fk_slots; by eapply lookup_lt_Some). by injection Hst as <-.
  - intros i Hi. by destruct (fk_ready i Hi) as (_ & _ & ?).
  - intros i Hi _. destruct (fk_ready i Hi) as (? & ? & _). split_and!; [done|by left|done].
Qed.

(** All members have been joined. *)
Lemma crew_joined there g c :
  crew Main there g c → (∀ i, (i < N)%nat → ¬ is_thread P c (base + Z.of_nat i) i) →
  (∀ i, (i < N)%nat → g i = None) ∧ ∀ i, (i < GTH_MAX_THREADS)%nat → state_of P c i = Some GTH_THREAD_EMPTY.
Proof using Type.
  intros Hc Hall. assert (Hno : ∀ i, ¬ there i).
  { intros i Hi. pose proof (cr_size _ _ _ _ Hc i Hi) as Hlt. apply (Hall i Hlt). by apply (crew_threads _ _ _ _ _ _ Hc). }
  destruct Hc. assert (He : ∀ i st, state_of P c i = Some st → st = GTH_THREAD_EMPTY).
  { intros i st Hst. destruct (decide (st = GTH_THREAD_EMPTY)) as [?|Hne]; [done|]. destruct (Hno i). apply cr_there0. by exists st. }
  split; intros i Hi.
  - pose proof (cr_at0 i Hi ltac:(done)) as Hat. destruct (g i) as [[st p]|]; [|done].
    destruct Hat as (Hs & Hor & _). rewrite (He _ _ Hs) in Hor. by destruct Hor.
  - unfold state_of in *. destruct (lookup_lt_is_Some_2 (a_threads (c_abs c)) i) as [st Hst]; [lia|]. by rewrite Hst, (He i st Hst).
Qed.

(** Joining all members, in any order. *)
Lemma ld_crew_join G `{!Shift G} Q rest order job n c :
  forked main s0 thread job base N c → (N ≤ GTH_MAX_THREADS)%nat → order ≡ₚ seq 0 N →
  G n (λ i, Some (GTH_THREAD_READY, thread (fst (job i)) (snd (job i)))) (surr c) →
  (∀ n1 there g c1, crew Main there g c1 → (∀ i, (i < N)%nat → g i = None) →
    (∀ i, (i < GTH_MAX_THREADS)%nat → state_of P c1 i = Some GTH_THREAD_EMPTY) → G n1 g (surr c1) → leads P Q (code_at main s0 thread Main rest c1)) →
  leads P Q (code_at main s0 thread Main (join_all ((λ i, base + Z.of_nat i) <$> order);~ rest) c).
Proof using Hbase Hroom.
  intros Hf HN Hord HG H. pose proof (crew_forked job c Hf HN) as Hc.
  assert (Hin : ∀ i, i ∈ order ↔ (i < N)%nat) by (intros i; rewrite Hord, elem_of_seq; lia).
  set (jobs := (λ i, (base + Z.of_nat i, i)) <$> order).
  assert (Hfst : (λ i, base + Z.of_nat i) <$> order = fst <$> jobs) by (unfold jobs; by rewrite <- list_fmap_compose).
  assert (Hsnd : snd <$> jobs = order) by (unfold jobs; rewrite <- list_fmap_compose; apply list_fmap_id).
  rewrite Hfst. apply (ld_join_all main s0 thread (at_work G) Q rest jobs n).
  - by eexists _, _.
  - intros tid i (i' & [= -> ->] & Hi')%list_elem_of_fmap. apply Hin in Hi'. split; [|lia]. by apply (crew_threads _ _ _ _ _ _ Hc).
  - rewrite Hsnd, Hord. apply NoDup_seq.
  - intros n1 c1 (there & g & Hc1 & HG1) Hth. destruct (crew_joined there g c1 Hc1) as [Hg He].
    { intros i Hi Hit. apply Hth in Hit as [Hni _]. apply Hni. rewrite Hsnd. by apply Hin. }
    by eapply H.
Qed.
End crew.
