(* ===== verification/Benchmarks.v ===== *)
(** * The benchmark programs (src/benchmarks/)

    The four programs of src/benchmarks/ as client code of [Machine], for any
    number of threads and iterations; the sizes of the sources are constants
    below.  What they print is a log, apart from the figures computed from the
    clock: the two [clock_gettime] calls, [elapsed_ns] and the time figures
    change nothing else.

    [benchmarks_report]: each program runs to its end and prints the figures
    that its comments announce, whatever order the scheduler chooses.  The
    proofs go along the abstract machine of [Coop] with the rules of
    [ForkJoin] and [Crew]; what is proved here is each program's own
    invariant. *)

From S2P Require Import Prelude WaitQueue TraceFormat State Stack TraceBuffer Trace Runtime Replay.
From S2P Require Import Fuzz Sched Thread Mutex Sem Cond Lifecycle Machine Scripts Invariant Ops Switching Safety.
From S2P Require Import SyncSpec Frame Exclusion Waiting ThreadSpec Slots Steps Queues Counting Agree Setup Coop Clients Progress ForkJoin Crew.
Import Sync.

(** ** The programs *)

(** The static variables, the argument records and the output. *)
Record statics := mk_statics {
  b_args : gmap Z Z;                  (* the [int] of each argument record, by address *)
  g_counter : Z;
  g_consumer_count : Z;
  g_total_expected : Z;
  b_stdout : list (string * list Z);
  b_stderr : list (string * list Z)
}.

Definition no_statics : statics := mk_statics ∅ 0 0 0 [] [].

Abbreviation code A := (user statics A).

Definition put (line : string * list Z) (m : statics) : statics := {| m with b_stdout := b_stdout m ++ [line] |}.
Definition printf (fmt : string) (args : list Z) : code unit := update (put (fmt, args)).
Definition eprintf (fmt : string) (args : list Z) : code unit :=
  update (λ m, {| m with b_stderr := b_stderr m ++ [(fmt, args)] |}).

(** [&args[i]], and what is stored there. *)
Definition arg_addr (i : nat) : Z := 0x7000 + 4 * Z.of_nat i.
Definition set_arg (p v : Z) (m : statics) : statics := {| m with b_args := <[p := v]> (b_args m) |}.
Definition arg_at (m : statics) (p : Z) : Z := default 0 (b_args m !! p).

(** The largest [int]; the counters of the programs stay below it. *)
Definition INT_MAX : Z := 2 ^ 31 - 1.

Definition g_mutex : Z := 0x5000.
Definition g_sem : Z := 0x6000.

Definition bench_config : gth_runtime_config_t := mk_config (64 * 1024) GTH_SCHED_RR 1000 0 0 0.

(** The loop that fills in argument [i] and creates thread [i]; it ends at the first failure. *)
Fixpoint create_loop (msg : string) (fn v : Z) (n i : nat) (tids : list Z) : code (option (list Z)) :=
  match n with
  | O => UReturn (Some tids)
  | S n' =>
      update (set_arg (arg_addr i) v);~
      r <~ call (ACreate true None fn (arg_addr i));
      if negb (ok r) then eprintf msg [Z.of_nat i];~ UReturn None
      else create_loop msg fn v n' (S i) (tids ++ [out r 0])
  end.

(** *** bench_context_switch.c *)

(** [n] is the value of [ya->iterations], so the [int] index stays in range. *)
Definition yield_loop (n from : nat) : code unit := for_loop n from tt (λ _ _, call AYield;~ UReturn tt).

Definition yield_fn (arg : Z) : code Z :=
  m <~ read;
  yield_loop (Z.to_nat (arg_at m arg)) 0;~
  UReturn 0.

Definition context_switch_main (NUM_THREADS YIELD_COUNT : nat) : code Z :=
  r <~ call (AInit (Some bench_config));
  if negb (ok r) then eprintf "runtime init failed" [];~ UReturn 1
  else
    created <~ create_loop "thread create failed at %d" 1 (Z.of_nat YIELD_COUNT) NUM_THREADS 0 [];
    match created with
    | None => call AShutdown;~ UReturn 1
    | Some tids =>
        join_all tids;~
        let total_yields := Z.of_nat NUM_THREADS * Z.of_nat YIELD_COUNT in
        stats <~ call (AGetStats true);
        printf "--- Context Switch Benchmark ---" [];~
        printf "Threads:            %d" [Z.of_nat NUM_THREADS];~
        printf "Yields per thread:  %d" [Z.of_nat YIELD_COUNT];~
        printf "Total yields:       %.0f" [total_yields];~
        printf "Total ctx switches: %lu" [out stats 0];~
        call AShutdown;~
        UReturn 0
    end.

Definition bench_context_switch (NUM_THREADS YIELD_COUNT : nat) : program :=
  user_program (context_switch_main NUM_THREADS YIELD_COUNT) no_statics (λ _, yield_fn).

(** *** bench_mutex.c *)

Definition lock_loop (n from : nat) : code unit :=
  for_loop n from tt (λ _ _,
    call (ALock g_mutex);~
    update (λ m, {| m with g_counter := g_counter m + 1 |});~
    call (AUnlock g_mutex);~
    UReturn tt).

Definition mutex_worker (arg : Z) : code Z :=
  m <~ read;
  lock_loop (Z.to_nat (arg_at m arg)) 0;~
  UReturn 0.

Definition mutex_main (NUM_THREADS LOCK_CYCLES : nat) : code Z :=
  r <~ call (AInit (Some bench_config));
  if negb (ok r) then eprintf "runtime init failed" [];~ UReturn 1
  else
    r <~ call (AMutexInit g_mutex);
    if negb (ok r) then eprintf "mutex init failed" [];~ call AShutdown;~ UReturn 1
    else
      update (λ m, {| m with g_counter := 0 |});~
      created <~ create_loop "thread create failed at %d" 1 (Z.of_nat LOCK_CYCLES) NUM_THREADS 0 [];
      match created with
      | None => call (AMutexDestroy g_mutex);~ call AShutdown;~ UReturn 1
      | Some tids =>
          join_all tids;~
          let total_cycles := Z.of_nat NUM_THREADS * Z.of_nat LOCK_CYCLES in
          printf "--- Mutex Contention Benchmark ---" [];~
          printf "Threads:            %d" [Z.of_nat NUM_THREADS];~
          printf "Lock cycles/thread: %d" [Z.of_nat LOCK_CYCLES];~
          printf "Total cycles:       %.0f" [total_cycles];~
          m <~ read;
          printf "Counter:            %d (expected: %.0f)" [g_counter m; total_cycles];~
          call (AMutexDestroy g_mutex);~
          call AShutdown;~
          UReturn 0
      end.

Definition bench_mutex (NUM_THREADS LOCK_CYCLES : nat) : program :=
  user_program (mutex_main NUM_THREADS LOCK_CYCLES) no_statics (λ _, mutex_worker).

(** *** bench_semaphore.c *)

Definition post_loop (n from : nat) : code unit := for_loop n from tt (λ _ _, call (ASemPost g_sem);~ UReturn tt).

Definition producer_fn (arg : Z) : code Z :=
  m <~ read;
  post_loop (Z.to_nat (arg_at m arg)) 0;~
  UReturn 0.

(** [n] rounds of the loop are left. *)
Fixpoint consume (n : nat) (consumed : Z) : code Z :=
  match n with
  | O => UReturn consumed
  | S n' => call (ASemWait g_sem);~ consume n' (consumed + 1)
  end.

Definition consumer_fn : code Z :=
  m <~ read;
  consumed <~ consume (Z.to_nat (g_total_expected m)) 0;
  update (λ m, {| m with g_consumer_count := consumed |});~
  UReturn 0.

Definition semaphore_main (NUM_PRODUCERS POSTS_PER_PRODUCER : nat) : code Z :=
  r <~ call (AInit (Some bench_config));
  if negb (ok r) then eprintf "runtime init failed" [];~ UReturn 1
  else
    r <~ call (ASemInit g_sem 0);
    if negb (ok r) then eprintf "sem init failed" [];~ call AShutdown;~ UReturn 1
    else
      update (λ m, {| m with g_total_expected := Z.of_nat NUM_PRODUCERS * Z.of_nat POSTS_PER_PRODUCER |});~
      update (λ m, {| m with g_consumer_count := 0 |});~
      r <~ call (ACreate true None 2 0);
      if negb (ok r) then eprintf "consumer create failed" [];~ call (ASemDestroy g_sem);~ call AShutdown;~ UReturn 1
      else
        created <~ create_loop "producer create failed at %d" 1 (Z.of_nat POSTS_PER_PRODUCER) NUM_PRODUCERS 0 [];
        match created with
        | None => call (ASemDestroy g_sem);~ call AShutdown;~ UReturn 1
        | Some tids =>
            join_all tids;~
            call (AJoin (out r 0));~
            m <~ read;
            let total_ops := g_total_expected m in
            printf "--- Semaphore Throughput Benchmark ---" [];~
            printf "Producers:          %d" [Z.of_nat NUM_PRODUCERS];~
            printf "Posts/producer:     %d" [Z.of_nat POSTS_PER_PRODUCER];~
            printf "Total operations:   %.0f" [total_ops];~
            m <~ read;
            printf "Consumed:           %d" [g_consumer_count m];~
            call (ASemDestroy g_sem);~
            call AShutdown;~
            UReturn 0
        end.

Definition bench_semaphore (NUM_PRODUCERS POSTS_PER_PRODUCER : nat) : program :=
  user_program (semaphore_main NUM_PRODUCERS POSTS_PER_PRODUCER) no_statics
    (λ fn arg, if fn =? 2 then consumer_fn else producer_fn arg).

(** *** bench_thread_create.c *)

Definition noop_fn : code Z := call AYield;~ UReturn 0.

(** Creates a thread and joins it, [n] times; false at the first failure. *)
Fixpoint create_join_loop (n i : nat) : code bool :=
  match n with
  | O => UReturn true
  | S n' =>
      r <~ call (ACreate true None 1 0);
      if negb (ok r) then eprintf "thread create failed at %d" [Z.of_nat i];~ UReturn false
      else call (AJoin (out r 0));~ create_join_loop n' (S i)
  end.

Definition thread_create_main (NUM_THREADS : nat) : code Z :=
  r <~ call (AInit (Some bench_config));
  if negb (ok r) then eprintf "runtime init failed" [];~ UReturn 1
  else
    done <~ create_join_loop NUM_THREADS 0;
    if negb done then call AShutdown;~ UReturn 1
    else
      printf "--- Thread Create/Join Benchmark ---" [];~
      printf "Threads created:    %d" [Z.of_nat NUM_THREADS];~
      call AShutdown;~
      UReturn 0.

Definition bench_thread_create (NUM_THREADS : nat) : program :=
  user_program (thread_create_main NUM_THREADS) no_statics (λ _ _, noop_fn).

(** *** The benchmarks and their sizes *)

Inductive bench :=
| ContextSwitch (NUM_THREADS YIELD_COUNT : nat)
| MutexContention (NUM_THREADS LOCK_CYCLES : nat)
| SemaphoreThroughput (NUM_PRODUCERS POSTS_PER_PRODUCER : nat)
| ThreadCreate (NUM_THREADS : nat).

(** With the sizes of the sources. *)
Definition context_switch_sizes : bench := ContextSwitch 100 1000.
Definition mutex_sizes : bench := MutexContention 10 1000.
Definition semaphore_sizes : bench := SemaphoreThroughput 5 1000.
Definition thread_create_sizes : bench := ThreadCreate 1000.

Definition bench_main (b : bench) : code Z :=
  match b with
  | ContextSwitch n k => context_switch_main n k
  | MutexContention n k => mutex_main n k
  | SemaphoreThroughput n k => semaphore_main n k
  | ThreadCreate n => thread_create_main n
  end.

Definition bench_thread (b : bench) (fn arg : Z) : code Z :=
  match b with
  | ContextSwitch _ _ => yield_fn arg
  | MutexContention _ _ => mutex_worker arg
  | SemaphoreThroughput _ _ => if fn =? 2 then consumer_fn else producer_fn arg
  | ThreadCreate _ => noop_fn
  end.

Definition bench_program (b : bench) : program := user_program (bench_main b) no_statics (bench_thread b).

(** ** Sums over threads *)

Fixpoint total (w : nat → nat) (n : nat) : nat := match n with O => 0 | S n' => w n' + total w n' end.

Lemma total_insert w j x n : (j < n)%nat → (total (<[j := x]> w) n + w j = total w n + x)%nat.
Proof.
  assert (Hge : ∀ n, (n ≤ j)%nat → total (<[j := x]> w) n = total w n).
  { intros k. induction k as [|k IH]; intros Hk; cbn; [done|]. rewrite fn_lookup_insert_ne by lia. rewrite IH; lia. }
  induction n as [|n IH]; intros Hj; cbn; [lia|]. destruct (decide (j = n)) as [->|Hne].
  - rewrite fn_lookup_insert, Hge by lia. lia.
  - rewrite fn_lookup_insert_ne by done. specialize (IH ltac:(lia)). lia.
Qed.

Lemma total_const w x n : (∀ i, (i < n)%nat → w i = x) → total w n = (n * x)%nat.
Proof. intros H. induction n as [|n IH]; cbn; [done|]. rewrite H, IH by (intros; auto with lia). lia. Qed.

Lemma total_le w j n : (j < n)%nat → (w j ≤ total w n)%nat.
Proof. induction n as [|n IH]; intros Hj; cbn; [lia|]. destruct (decide (j = n)) as [->|Hne]; [lia|]. specialize (IH ltac:(lia)). lia. Qed.

Lemma total_nonzero w n : total w n ≠ 0%nat → ∃ j, (j < n)%nat ∧ w j ≠ 0%nat.
Proof.
  induction n as [|n IH]; cbn; [done|]. intros Hne. destruct (decide (w n = 0%nat)) as [E|E]; [|eauto with lia].
  destruct IH as (j & Hj & Hw); [lia|]. eauto with lia.
Qed.

Lemma few_ids N : (N ≤ GTH_MAX_THREADS)%nat → 1 + Z.of_nat N < 2 ^ 64 - 1.
Proof. unfold GTH_MAX_THREADS. lia. Qed.

(** ** The rules for the creation loop *)

(** The memory after arguments [i] to [i + n - 1] were set to [v]. *)
Fixpoint filled (v : Z) (n i : nat) (m : statics) : statics :=
  match n with O => m | S n' => filled v n' (S i) (set_arg (arg_addr i) v m) end.

Lemma filled_keeps v n : ∀ i m, ∃ args, filled v n i m = {| m with b_args := args |}.
Proof.
  induction n as [|n IH]; intros i m; cbn; [by exists (b_args m); destruct m|].
  destruct (IH (S i) (set_arg (arg_addr i) v m)) as [args ->]. by exists args.
Qed.

Lemma filled_before v n : ∀ i m j, (j < i)%nat → b_args (filled v n i m) !! arg_addr j = b_args m !! arg_addr j.
Proof.
  induction n as [|n IH]; intros i m j Hj; cbn; [done|]. rewrite IH by lia. cbn. rewrite lookup_insert_ne; [done|]. unfold arg_addr. lia.
Qed.

Lemma filled_arg v n : ∀ i m j, (i ≤ j < i + n)%nat → arg_at (filled v n i m) (arg_addr j) = v.
Proof.
  induction n as [|n IH]; intros i m j Hj; cbn; [lia|]. destruct (decide (i = j)) as [->|Hne]; [|apply IH; lia].
  unfold arg_at. rewrite filled_before by lia. cbn. by rewrite lookup_insert_eq.
Qed.

Section rules.
Context (main : code Z) (s0 : statics) (thread : Z → Z → code Z).
Abbreviation P := (user_program main s0 thread).
Abbreviation surr := (surroundings main s0 thread).
Abbreviation forked := (forked main s0 thread).
Abbreviation code_at := (code_at main s0 thread).
Implicit Types (c : cstate P).

Lemma forked_update job base n c (m : statics) : forked job base n c → forked job base n {| c with c_mem := m : p_mem P |}.
Proof using Type. by intros []. Qed.

Lemma ld_update Q o f k c :
  leads P Q (code_at o (k (f (c_mem c))) {| c with c_mem := f (c_mem c) : p_mem P |}) → leads P Q (code_at o (UUpdate f k) c).
Proof using Type. by rewrite code_update. Qed.

Lemma ld_fork_at Q job base n fn arg k c :
  forked job base n c → job n = (fn, arg) → (n < GTH_MAX_THREADS)%nat → fn ≠ 0 → 0 < base < 2 ^ 63 →
  (∀ c1, forked job base (S n) c1 → surr c1 = surr c → leads P Q (code_at Main (k (mk_resp GTH_OK [base + Z.of_nat n])) c1)) →
  leads P Q (code_at Main (UCall (ACreate true None fn arg) k) c).
Proof using Type.
  intros Hf Hj Hn Hfn Hb H. pose proof (ld_fork main s0 thread Q job base n k c Hf Hn) as Hfork. rewrite Hj in Hfork.
  apply Hfork; [done| |done]. unfold room. rewrite (fk_next _ _ _ _ _ _ _ Hf). unfold GTH_MAX_THREADS in *. lia.
Qed.

Lemma ld_create_loop Q job base off msg fn v rest n : ∀ i c tids,
  forked job base (off + i) c → (off + i + n ≤ GTH_MAX_THREADS)%nat → 0 < base < 2 ^ 63 → fn ≠ 0 →
  (∀ j, (i ≤ j < i + n)%nat → job (off + j)%nat = (fn, arg_addr j)) →
  (∀ c1, forked job base (off + i + n) c1 →
    surr c1 = (filled v n i (c_mem c), a_mutex (c_abs c), a_sem (c_abs c), a_cond (c_abs c), c_switches c) →
    leads P Q (code_at Main (rest (Some (tids ++ ((λ j, base + Z.of_nat (off + j)) <$> seq i n)))) c1)) →
  leads P Q (code_at Main (created <~ create_loop msg fn v n i tids; rest created) c).
Proof using Type.
  induction n as [|n IH]; intros i c tids Hf Hlen Hb Hfn Hjob H.
  - cbn. rewrite !Nat.add_0_r in H. specialize (H c Hf eq_refl). cbn in H. by rewrite app_nil_r in H.
  - cbn [create_loop ubind update]. apply ld_update. cbn [ubind call].
    apply forked_update with (m := set_arg (arg_addr i) v (c_mem c)) in Hf as Hf'.
    apply (ld_fork_at Q job base (off + i)); [done|apply Hjob; lia|lia|done|done|].
    intros c1 Hf1 Hs1. rewrite <- Nat.add_succ_r in Hf1.
    apply (IH (S i) c1 (tids ++ [base + Z.of_nat (off + i)])); [done|lia|done|done|intros j Hj; apply Hjob; lia|]. intros c2 Hf2 Hs2.
    replace (off + S i + n)%nat with (off + i + S n)%nat in Hf2 by lia. unfold surroundings in Hs1. injection Hs1 as E1 E2 E3 E4 E5.
    specialize (H c2 Hf2). cbn [seq fmap list_fmap] in H. rewrite <- app_assoc. apply H. rewrite Hs2, E1, E2, E3, E4, E5. done.
Qed.

(** A call of main that leaves the threads as they are. *)
Lemma ld_fork_sync Q job base n f k c a' :
  forked job base n c → base + Z.of_nat n < 2 ^ 64 - 1 → about_objects f = true →
  sync_spec (mk_caller 0 None) f (c_abs c) = Some (Answer GTH_OK, a') → a_threads a' = a_threads (c_abs c) →
  (∀ c1, forked job base n c1 → surr c1 = (c_mem c, a_mutex a', a_sem a', a_cond a', c_switches c) →
    leads P Q (code_at Main (k (status GTH_OK)) c1)) →
  leads P Q (code_at Main (UCall f k) c).
Proof using Type.
  intros [] Hids Hf Hsp Ht H. eapply (ld_sync main s0 thread); [done|done|unfold room; by rewrite fk_next| |].
  { unfold ccaller, self. rewrite fk_run. exact Hsp. }
  intros c1 []. apply H; [|unfold surroundings; by rewrite al_mem, al_abs, al_switches].
  assert (Hs : ∀ i, state_of P c1 i = state_of P c i) by (intros i; unfold state_of; rewrite al_abs; cbn; by rewrite Ht).
  constructor; [exact (eq_trans al_run fk_run)|exact (eq_trans al_live fk_live)|exact (eq_trans al_next fk_next)| | |].
  - rewrite al_abs. cbn. by rewrite Ht.
  - intros i Hi. destruct (fk_ready i Hi) as (H1 & H2 & H3). rewrite Hs, al_thr. split_and!; [done| |done].
    unfold will in *. by rewrite al_pc, al_thr.
  - intros i Hi. rewrite Hs. auto.
Qed.

(** The initial call. *)
Lemma ld_main_init Q job k :
  main = UCall (AInit (Some bench_config)) k →
  (∀ c1, forked job 1 0 c1 →
    surr c1 = (s0, (λ _, mk_amutex false None []), (λ _, mk_asem false 0 []), (λ _, mk_acond false []), 0) →
    leads P Q (code_at Main (k (status GTH_OK)) c1)) →
  leads P Q (cboot P).
Proof using Type.
  intros Hmain H. set (c0 := {| (cboot P) with c_mem := s0 : p_mem P; c_pc := λ _, PStart P |} : cstate P).
  assert (E : ∀ p, p = main → cboot P = code_at Main p c0) by (by intros p ->). rewrite (E _ (eq_sym Hmain)).
  apply ld_init; [done|done|by split_and!; [|done|left]|done|done|]. intros c1 []. cbn in *.
  apply H; [|unfold surroundings; by rewrite al_mem, al_abs, al_switches].
  constructor; try congruence; [by rewrite al_next|by rewrite al_abs|lia|]. intros i Hi. unfold state_of. rewrite al_abs.
  apply lookup_replicate_2. lia.
Qed.

(** Main has control and the runtime is initialised; [m] is the memory and
    [a] the abstract state. *)
Record in_main (m : statics) (a : astate) (c : cstate P) : Prop := {
  im_run : c_run c = Main;
  im_live : c_live c = true;
  im_room : room main s0 thread c;
  im_mem : c_mem c = m;
  im_abs : c_abs c = a
}.

Lemma in_main_alike m a a' c c' : in_main m a c → alike main s0 thread Main (with_abs P a' c) c' → in_main m a' c'.
Proof using Type.
  intros [] []. constructor; [exact (eq_trans al_run im_run0)|exact (eq_trans al_live im_live0)| |exact (eq_trans al_mem im_mem0)|exact al_abs].
  unfold room in *. by rewrite al_next.
Qed.

Lemma main_update Q m a c f k :
  in_main m a c → (∀ c1, in_main (f m) a c1 → leads P Q (code_at Main (k (f m)) c1)) → leads P Q (code_at Main (UUpdate f k) c).
Proof using Type. intros [] H. rewrite <- im_mem0 in *. rewrite code_update. apply H. by constructor. Qed.

Lemma main_sync Q m a c f k st a' :
  in_main m a c → about_objects f = true → sync_spec (mk_caller 0 None) f a = Some (Answer st, a') →
  (∀ c1, in_main m a' c1 → leads P Q (code_at Main (k (mk_resp st [])) c1)) → leads P Q (code_at Main (UCall f k) c).
Proof using Type.
  intros Hm Hf Hsp H. pose proof Hm as []. eapply (ld_sync main s0 thread); [done|done|done| |].
  - unfold ccaller, self. rewrite im_run0, im_abs0. exact Hsp.
  - intros c1 Hal. apply H. by eapply in_main_alike.
Qed.

Lemma main_stats Q m a c k :
  in_main m a c →
  (∀ c1, in_main m a c1 → leads P Q (code_at Main (k (mk_resp GTH_OK
    [c_switches c; countb is_ready_st (a_threads a); countb is_blocked_st (a_threads a)])) c1)) →
  leads P Q (code_at Main (UCall (AGetStats true) k) c).
Proof using Type.
  intros Hm H. pose proof Hm as []. apply ld_stats; [done..|]. intros c1 Hal. rewrite im_abs0. apply H. destruct Hal.
  constructor; [congruence..| |congruence|congruence]. unfold room in *. by rewrite al_next.
Qed.

(** The end of main. *)
Lemma main_end R v m a c :
  in_main m a c → R m → leads P (λ c', final P v c' ∧ R (c_mem c')) (code_at Main (call AShutdown;~ UReturn v) c).
Proof using Type.
  intros [] HR. apply ld_shutdown; [done..|]. intros c1 []. apply ld_now. cbn in *. split; [|by rewrite al_mem, im_mem0].
  split; [by rewrite <- im_run0|]. exists (UReturn v). split; [apply fn_lookup_insert|done].
Qed.

Lemma crew_in_main base N there g c :
  base + Z.of_nat N < 2 ^ 64 - 1 → crew main s0 thread base N Main there g c → in_main (c_mem c) (c_abs c) c.
Proof using Type. intros Hids Hc. pose proof Hc as []. constructor; [done..|by eapply crew_room|done|done]. Qed.

Lemma forked_in_main job base n c : base + Z.of_nat n < 2 ^ 64 - 1 → forked job base n c → in_main (c_mem c) (c_abs c) c.
Proof using Type. intros Hids []. constructor; [done..| |done|done]. unfold room. by rewrite fk_next. Qed.
End rules.

(** ** bench_context_switch.c *)

Section context_switch.
Context (N K : nat) (HN : (N ≤ GTH_MAX_THREADS)%nat) (HK : Z.of_nat (N * (K + 1)) < 2 ^ 64).
Context (m0 : statics) (Hargs : ∀ i, (i < N)%nat → arg_at m0 (arg_addr i) = Z.of_nat K).
Abbreviation main := (context_switch_main N K).
Abbreviation thread := (λ _, yield_fn).
Abbreviation P := (user_program main no_statics thread).
Abbreviation surr := (surroundings main no_statics thread).
Abbreviation code_at := (code_at main no_statics thread).
Abbreviation surroundings_t := (p_mem P * (Z → amutex) * (Z → asem) * (Z → acond) * Z)%type.

(** Thread [i] will be given control [k] times. *)
Definition turns (i k : nat) (x : option (gth_thread_state_t * code Z)) : Prop :=
  match k with
  | O => x = None
  | S k' => (∃ from, x = Some (GTH_THREAD_READY, yield_loop k' from;~ UReturn 0)) ∨ k' = K ∧ x = Some (GTH_THREAD_READY, yield_fn (arg_addr i))
  end.

Record yielding (n : nat) (g : roster statics) (s : surroundings_t) : Prop := {
  yi_turns : ∃ w, n = total w N ∧ ∀ i, (i < N)%nat → turns i (w i) (g i);
  yi_mem : s.1.1.1.1 = m0;
  yi_left : (n ≤ N * (K + 1))%nat;
  yi_switches : s.2 = Z.of_nat (N * (K + 1) - n)
}.

(** Thread [j] has been given control and has [k] yields to go. *)
Lemma yield_loop_run n w g s j k from pm there Q c :
  yielding n g s → n = total w N → (∀ i, (i < N)%nat → turns i (w i) (g i)) → (j < N)%nat → w j = S k →
  on_duty main no_statics thread 1 N j pm there g c → c_mem c = m0 → c_switches c = u64 (s.2 + 1) →
  (∀ n' g' c', crew main no_statics thread 1 N Main there g' c' → c_pc c' Main = resumed P pm → yielding n' g' (surr c') → (n' < n)%nat → leads P Q c') →
  leads P Q (code_at (Thr j) (yield_loop k from;~ UReturn 0) c).
Proof using HN HK.
  intros [_ Hmem Hle Hsw] En Ht Hj Ew Hd Hm Hs H. pose proof (total_le w j N Hj) as Hwj.
  assert (Es : c_switches c = Z.of_nat (N * (K + 1) - (n - 1))).
  { rewrite Hs, Hsw. unfold u64. rewrite Z.mod_small; lia. }
  assert (Hnew : ∀ x c', turns j k x → surr c' = surr c → yielding (n - 1) (<[j := x]> g) (surr c')).
  { intros x c' Hx [= E1 E2 E3 E4 E5]. constructor; [|exact (eq_trans E1 Hm)|lia|exact (eq_trans E5 Es)]. exists (<[j := k]> w).
    pose proof (total_insert w j k N Hj) as Hins. split; [lia|]. intros i Hi.
    destruct (decide (j = i)) as [<-|Hne]; [by rewrite !fn_lookup_insert|rewrite !fn_lookup_insert_ne by done; auto]. }
  pose proof (few_ids N HN) as Hroom.
  destruct k as [|k].
  - eapply duty_exit; [exact Hroom|exact Hd|]. intros c1 Hc1 Hm1 Hs1. eapply H; [exact Hc1|done|by apply Hnew|lia].
  - change (yield_loop (S k) from;~ UReturn 0) with (UCall AYield (λ _, yield_loop k (S from);~ UReturn 0)).
    eapply duty_yield; [exact Hroom|exact Hd|]. intros c1 Hc1 Hm1 Hs1. eapply H; [exact Hc1|done|apply Hnew; [|done]|lia].
    left. by exists (S from).
Qed.

#[local] Instance yielding_shift : Shift main no_statics thread 1 N yielding.
Proof using HN HK Hargs.
  constructor.
  - intros n g s i x [(w & En & Ht) _ _ _] Hi Hg. exists i. pose proof (Ht i Hi) as Hti. rewrite Hg in Hti. rewrite Hg.
    destruct (w i); [done|]. destruct Hti as [[from [= ->]]|[_ [= ->]]]; eauto.
  - intros n g s j p pm there Q c HG Hj Hg Hd Hs H. pose proof HG as [(w & En & Ht) Hmem _ _]. pose proof (Ht j Hj) as Htj. rewrite Hg in Htj.
    destruct s as [[[[m am] sm] cm] sw]. cbn in Hmem. subst m. injection Hs as E1 E2 E3 E4 E5.
    destruct (w j) as [|k] eqn:Ew; [done|]. destruct Htj as [[from [= ->]]|[-> [= ->]]].
    + by eapply yield_loop_run.
    + eapply duty_update; [exact Hd|]. intros c1 Hd1 Hs1. rewrite E1. cbn [ubind]. rewrite Hargs, Nat2Z.id by done.
      injection Hs1 as F1 F2 F3 F4 F5. eapply yield_loop_run; [done..|exact Hd1|by rewrite F1|by rewrite F5|done].
Qed.
End context_switch.

Definition context_switch_report (N K : nat) : list (string * list Z) := [
  ("--- Context Switch Benchmark ---", []);
  ("Threads:            %d", [Z.of_nat N]);
  ("Yields per thread:  %d", [Z.of_nat K]);
  ("Total yields:       %.0f", [Z.of_nat N * Z.of_nat K]);
  ("Total ctx switches: %lu", [Z.of_nat (N * (K + 1))])].

Lemma context_switch_leads N K :
  (N ≤ GTH_MAX_THREADS)%nat → Z.of_nat (N * (K + 1)) < 2 ^ 64 →
  leads (bench_context_switch N K) (λ c, final (bench_context_switch N K) 0 c ∧ b_stdout (c_mem c) = context_switch_report N K)
    (cboot (bench_context_switch N K)).
Proof.
  intros HN HK. pose proof (few_ids N HN) as Hids. unfold bench_context_switch. eapply (ld_main_init _ _ _ _ (λ i, (1, arg_addr i))); [reflexivity|]. intros c1 Hf1 Hs1.
  refine (ld_create_loop _ _ _ _ (λ i, (1, arg_addr i)) 1 0 _ 1 (Z.of_nat K) _ N 0 c1 [] Hf1 _ _ _ _ _); [lia|lia|done|done|].
  intros c2 Hf2 Hs2. cbn [app Nat.add] in *. injection Hs1 as E1 _ _ _ E5. injection Hs2 as F1 _ _ _ F5. rewrite E1 in F1.
  set (m0 := filled (Z.of_nat K) N 0 no_statics) in F1.
  assert (Hargs : ∀ i, (i < N)%nat → arg_at m0 (arg_addr i) = Z.of_nat K) by (intros i Hi; apply filled_arg; lia).
  pose proof (yielding_shift N K HN HK m0 Hargs) as Hshift.
  refine (ld_crew_join _ _ _ 1 N _ _ (yielding N K m0) _ _ _ (λ i, (1, arg_addr i)) (N * (K + 1)) c2 Hf2 HN _ _ _);
    [lia|done|done|..].
  - assert (c_switches c2 = Z.of_nat (N * (K + 1) - N * (K + 1))) as Hz by (rewrite F5, E5; lia).
    constructor; [|exact F1|lia|exact Hz]. exists (λ _, (K + 1)%nat). split; [by rewrite (total_const _ (K + 1))|].
    intros i Hi. rewrite Nat.add_1_r. by right.
  - intros n there g c3 Hc3 Hnone _ [(w & En & Ht) Hmem _ Hsw]. pose proof Hc3 as [].
    assert (n = 0%nat) as ->.
    { rewrite En, (total_const w 0); [lia|]. intros i Hi. specialize (Ht i Hi). rewrite Hnone in Ht by done. destruct (w i); [done|].
      by destruct Ht as [[from ?]|[_ ?]]. }
    change (c_mem c3 = m0) in Hmem. change (c_switches c3 = Z.of_nat (N * (K + 1) - 0)) in Hsw. rewrite Nat.sub_0_r in Hsw.
    apply (crew_in_main _ _ _ 1 N there g c3 Hids) in Hc3. rewrite Hmem in Hc3.
    eapply main_stats; [exact Hc3|]. rewrite Hsw. intros c4 Hal.
    do 5 (eapply main_update; [eassumption|clear dependent c4; intros c4 Hal]).
    eapply (main_end _ _ _ (λ m, b_stdout m = context_switch_report N K)); [exact Hal|].
    unfold m0. destruct (filled_keeps (Z.of_nat K) N 0 no_statics) as [args ->]. reflexivity.
Qed.

(** ** bench_mutex.c *)

Definition set_counter (x : Z) (m : statics) : statics := {| m with g_counter := x |}.

Section mutex.
Context (N K : nat) (HN : (N ≤ GTH_MAX_THREADS)%nat).
Context (m0 : statics) (Hargs : ∀ i, (i < N)%nat → arg_at m0 (arg_addr i) = Z.of_nat K).
Abbreviation main := (mutex_main N K).
Abbreviation thread := (λ _, mutex_worker).
Abbreviation P := (user_program main no_statics thread).
Abbreviation surr := (surroundings main no_statics thread).
Abbreviation code_at := (code_at main no_statics thread).
Abbreviation surroundings_t := (p_mem P * (Z → amutex) * (Z → asem) * (Z → acond) * Z)%type.

Definition unlocked : amutex := mk_amutex true None [].

(** [k] is 1 for a thread that has not run, and 0 for one that has ended. *)
Definition locks (i k : nat) (x : option (gth_thread_state_t * code Z)) : Prop :=
  k = 1%nat ∧ x = Some (GTH_THREAD_READY, mutex_worker (arg_addr i)) ∨ k = 0%nat ∧ x = None.

Record locking (n : nat) (g : roster statics) (s : surroundings_t) : Prop := {
  lk_work : ∃ w, n = total w N ∧ ∀ i, (i < N)%nat → locks i (w i) (g i);
  lk_left : (n ≤ N)%nat;
  lk_mem : s.1.1.1.1 = set_counter (Z.of_nat ((N - n) * K)) m0;
  lk_mutex : s.1.1.1.2 g_mutex = unlocked
}.

(** No thread gives up control while it holds the mutex, so the mutex is free whenever it is locked. *)
Lemma lock_loop_run j pm there g Q rest k : ∀ from x c,
  on_duty main no_statics thread 1 N j pm there g c → c_mem c = set_counter x m0 → a_mutex (c_abs c) g_mutex = unlocked →
  (∀ c1, on_duty main no_statics thread 1 N j pm there g c1 → c_mem c1 = set_counter (x + Z.of_nat k) m0 →
    a_mutex (c_abs c1) g_mutex = unlocked → leads P Q (code_at (Thr j) rest c1)) →
  leads P Q (code_at (Thr j) (lock_loop k from;~ rest) c).
Proof using HN.
  pose proof (few_ids N HN) as Hids. induction k as [|k IH]; intros from x c Hd Hm Hf H.
  { apply (H c); [done|rewrite Hm; f_equal; lia|done]. }
  change (lock_loop (S k) from;~ rest) with (UCall (ALock g_mutex) (λ _, UUpdate (λ m, {| m with g_counter := g_counter m + 1 |})
    (λ _, UCall (AUnlock g_mutex) (λ _, lock_loop k (S from);~ rest)))).
  eapply duty_call; [done|exact Hd|done|cbn [sync_spec]; unfold m_lock; rewrite Hf; reflexivity|done|]. intros c1 Hd1 Hs1. injection Hs1 as E1 E2 _ _ _.
  eapply duty_update; [exact Hd1|]. rewrite E1, Hm. intros c2 Hd2 Hs2. injection Hs2 as F1 F2 _ _ _.
  assert (Hmx : a_mutex (c_abs c2) g_mutex = mk_amutex true (Some (1 + Z.of_nat j)) []) by (rewrite F2, E2; cbn; by rewrite fn_lookup_insert).
  eapply duty_call; [done|exact Hd2|done| | |].
  - cbn [sync_spec]. unfold m_unlock. rewrite Hmx. cbn [am_live am_owner am_waiters negb cl_self member]. rewrite Z.eqb_refl, andb_false_r. reflexivity.
  - done.
  - intros c3 Hd3 Hs3. injection Hs3 as G1 G2 _ _ _. eapply (IH (S from) (x + 1)); [exact Hd3|by rewrite G1, F1|by rewrite G2; apply fn_lookup_insert|].
    intros c4 Hd4 Hm4 Hf4. apply H; [done|rewrite Hm4; f_equal; lia|done].
Qed.

#[local] Instance locking_shift : Shift main no_statics thread 1 N locking.
Proof using HN Hargs.
  pose proof (few_ids N HN) as Hids. constructor.
  - intros n g s i x [(w & En & Ht) _ _ _] Hi Hg. exists i. destruct (Ht i Hi) as [[_ E]|[_ E]]; [|congruence]. eauto.
  - intros n g s j p pm there Q c [(w & En & Ht) Hle Hmem Hmx] Hj Hg Hd Hs H. destruct (Ht j Hj) as [[Ew E]|[_ E]]; [|congruence].
    rewrite Hg in E. injection E as ->. destruct s as [[[[m am] sm] cm] sw]. cbn in Hmem, Hmx. injection Hs as E1 E2 E3 E4 E5.
    eapply duty_update; [exact Hd|]. intros c1 Hd1 Hs1. injection Hs1 as F1 F2 _ _ _. rewrite E1, Hmem in F1 |- *. cbn [ubind].
    change (arg_at (id (set_counter _ m0)) (arg_addr j)) with (arg_at m0 (arg_addr j)). rewrite Hargs, Nat2Z.id by done.
    eapply lock_loop_run; [exact Hd1|exact F1|by rewrite F2, E2|]. intros c2 Hd2 Hm2 Hf2.
    eapply duty_exit; [done|exact Hd2|]. intros c3 Hc3 Hp3 Hs3. pose proof (total_le w j N Hj) as Hwj.
    injection Hs3 as G1 G2 _ _ _. eapply (H (n - 1)%nat); [exact Hc3|done| |lia].
    pose proof (total_insert w j 0 N Hj) as Hins. constructor.
    + exists (<[j := 0%nat]> w). split; [lia|]. intros i Hi.
      destruct (decide (j = i)) as [<-|Hne]; [rewrite !fn_lookup_insert; by right|rewrite !fn_lookup_insert_ne by done; auto].
    + lia.
    + refine (eq_trans (eq_trans G1 Hm2) _). f_equal. nia.
    + exact (eq_trans (f_equal (λ f, f g_mutex) G2) Hf2).
Qed.
End mutex.

Definition mutex_report (N K : nat) : list (string * list Z) := [
  ("--- Mutex Contention Benchmark ---", []);
  ("Threads:            %d", [Z.of_nat N]);
  ("Lock cycles/thread: %d", [Z.of_nat K]);
  ("Total cycles:       %.0f", [Z.of_nat N * Z.of_nat K]);
  ("Counter:            %d (expected: %.0f)", [Z.of_nat N * Z.of_nat K; Z.of_nat N * Z.of_nat K])].

Lemma mutex_leads N K :
  (N ≤ GTH_MAX_THREADS)%nat →
  leads (bench_mutex N K) (λ c, final (bench_mutex N K) 0 c ∧ b_stdout (c_mem c) = mutex_report N K) (cboot (bench_mutex N K)).
Proof.
  intros HN. pose proof (few_ids N HN) as Hids. unfold bench_mutex.
  eapply (ld_main_init _ _ _ _ (λ i, (1, arg_addr i))); [reflexivity|]. intros c1 Hf1 Hs1.
  refine (ld_fork_sync _ _ _ _ _ 1 0 (AMutexInit g_mutex) _ c1 _ Hf1 _ _ _ _ _); [lia|done|reflexivity|done|]. intros c2 Hf2 Hs2.
  apply ld_update. apply (forked_update _ _ _ _ _ _ _ (set_counter 0 (c_mem c2))) in Hf2.
  refine (ld_create_loop _ _ _ _ (λ i, (1, arg_addr i)) 1 0 _ 1 (Z.of_nat K) _ N 0 _ [] Hf2 _ _ _ _ _); [lia|lia|done|done|].
  intros c3 Hf3 Hs3. cbn [app Nat.add] in *. injection Hs1 as E1 _ _ _ _. injection Hs2 as F1 F2 _ _ _. injection Hs3 as G1 G2 _ _ _.
  assert (Em : c_mem c3 = filled (Z.of_nat K) N 0 (set_counter 0 (c_mem c2))) by exact G1. rewrite F1, E1 in Em.
  set (m0 := filled (Z.of_nat K) N 0 (set_counter 0 no_statics)) in Em.
  assert (Hargs : ∀ i, (i < N)%nat → arg_at m0 (arg_addr i) = Z.of_nat K) by (intros i Hi; apply filled_arg; lia).
  destruct (filled_keeps (Z.of_nat K) N 0 (set_counter 0 no_statics)) as [args Eargs]. fold m0 in Eargs.
  pose proof (locking_shift N K HN m0 Hargs) as Hshift.
  refine (ld_crew_join _ _ _ 1 N _ _ (locking N K m0) _ _ _ (λ i, (1, arg_addr i)) N c3 Hf3 HN _ _ _); [lia|done|done|..].
  - constructor; [|lia| |].
    + exists (λ _, 1%nat). split; [rewrite (total_const _ 1); [lia|done]|]. intros i Hi. by left.
    + refine (eq_trans Em _). by rewrite Nat.sub_diag, Eargs.
    + refine (eq_trans (f_equal (λ f, f g_mutex) G2) _). change (a_mutex (c_abs c2) g_mutex = unlocked). rewrite F2. apply fn_lookup_insert.
  - intros n there g c4 Hc4 Hnone _ [(w & En & Ht) _ Hmem Hmx].
    assert (n = 0%nat) as ->.
    { rewrite En, (total_const w 0); [lia|]. intros i Hi. specialize (Ht i Hi). rewrite Hnone in Ht by done. by destruct Ht as [[_ ?]|[? _]]. }
    change (c_mem c4 = set_counter (Z.of_nat ((N - 0) * K)) m0) in Hmem. rewrite Nat.sub_0_r, Nat2Z.inj_mul in Hmem.
    apply (crew_in_main _ _ _ 1 N there g c4 Hids) in Hc4 as Hm. rewrite Hmem in Hm. clear Hc4.
    do 6 (eapply main_update; [exact Hm|clear Hm; intros ? Hm]).
    eapply main_sync; [exact Hm|done|cbn [sync_spec]; unfold m_destroy; change (a_mutex (c_abs c4) g_mutex = unlocked) in Hmx; rewrite Hmx; reflexivity|].
    clear Hm. intros ? Hm. eapply (main_end _ _ _ (λ m, b_stdout m = mutex_report N K)); [exact Hm|]. by rewrite Eargs.
Qed.

(** ** bench_semaphore.c *)

Definition set_consumed (x : Z) (m : statics) : statics := {| m with g_consumer_count := x |}.

(** The consumer with [n] rounds to go. *)
Definition consumer_rest (n : nat) (consumed : Z) : code Z :=
  consumed <~ consume n consumed; update (set_consumed consumed);~ UReturn 0.

Section semaphore.
Context (N K : nat) (HN : (S N ≤ GTH_MAX_THREADS)%nat) (HK : Z.of_nat (N * K) ≤ INT_MAX).
Context (m0 : statics) (Hargs : ∀ i, (i < N)%nat → arg_at m0 (arg_addr i) = Z.of_nat K) (Htotal : g_total_expected m0 = Z.of_nat (N * K)).
Abbreviation main := (semaphore_main N K).
Abbreviation thread := (λ fn arg, if fn =? 2 then consumer_fn else producer_fn arg).
Abbreviation P := (user_program main no_statics thread).
Abbreviation surr := (surroundings main no_statics thread).
Abbreviation code_at := (code_at main no_statics thread).
Abbreviation surroundings_t := (p_mem P * (Z → amutex) * (Z → asem) * (Z → acond) * Z)%type.
Abbreviation duty := (on_duty main no_statics thread 1 (S N)).

(** The consumer when [p] posts have been made, with the semaphore and
    [g_consumer_count]: not started, waiting for a post, woken by one, or
    ended.  The second argument is 1 if it is ready. *)
Inductive consuming (p : nat) : option (gth_thread_state_t * code Z) → nat → asem → Z → Prop :=
| co_start : consuming p (Some (GTH_THREAD_READY, consumer_fn)) 1 (mk_asem true (Z.of_nat p) []) 0
| co_blocked n : (n + 1 + p = N * K)%nat →
    consuming p (Some (GTH_THREAD_BLOCKED, consumer_rest n (Z.of_nat p + 1))) 0 (mk_asem true 0 [0]) 0
| co_woken n c : (n + 1 + c = N * K)%nat → (c < p)%nat →
    consuming p (Some (GTH_THREAD_READY, consumer_rest n (Z.of_nat c + 1))) 1 (mk_asem true (Z.of_nat (p - c - 1)) []) 0
| co_done : p = (N * K)%nat → consuming p None 0 (mk_asem true 0 []) (Z.of_nat (N * K)).

(** [k] is 1 for a producer that has not run, and 0 for one that has ended. *)
Definition posting (i k : nat) (x : option (gth_thread_state_t * code Z)) : Prop :=
  k = 1%nat ∧ x = Some (GTH_THREAD_READY, producer_fn (arg_addr i)) ∨ k = 0%nat ∧ x = None.

Definition holds (c : cstate P) (sm : asem) (gc : Z) : Prop := c_mem c = set_consumed gc m0 ∧ a_sem (c_abs c) g_sem = sm.

Record flowing (n : nat) (g : roster statics) (s : surroundings_t) : Prop := {
  fl_work : ∃ w busy gc, n = (2 * total w N + busy)%nat ∧ (total w N ≤ N)%nat ∧ (∀ i, (i < N)%nat → posting i (w i) (g (S i))) ∧
    consuming ((N - total w N) * K) (g O) busy (s.1.1.2 g_sem) gc ∧ s.1.1.1.1 = set_consumed gc m0
}.

(** One post. *)
Lemma post_step j pm there g Q k p busy sm gc c :
  duty (S j) pm there g c → holds c sm gc → consuming p (g O) busy sm gc → (p < N * K)%nat →
  (∀ g' busy' sm' c1, duty (S j) pm there g' c1 → (∀ i, g' (S i) = g (S i)) → holds c1 sm' gc → consuming (S p) (g' O) busy' sm' gc →
    leads P Q (code_at (Thr (S j)) (k (status GTH_OK)) c1)) →
  leads P Q (code_at (Thr (S j)) (UCall (ASemPost g_sem) k) c).
Proof using HN HK Htotal.
  intros Hd [Hm Hs] Hc Hp H. pose proof (few_ids (S N) HN) as Hids. unfold INT_MAX in HK.
  assert (Hcount : ∀ x, a_sem (c_abs c) g_sem = mk_asem true x [] → 0 ≤ x < 2 ^ 31 → consuming (S p) (g O) busy (mk_asem true (x + 1) []) gc →
    leads P Q (code_at (Thr (S j)) (UCall (ASemPost g_sem) k) c)).
  { intros x Hx Hb Hc'. eapply duty_call; [done|exact Hd|done| | |].
    - cbn [sync_spec]. unfold s_post. rewrite Hx. cbn [as_live as_waiters as_count negb].
      rewrite (proj2 (Z.eqb_neq x UINT32_MAX)) by (unfold UINT32_MAX; lia). reflexivity.
    - done.
    - intros c1 Hd1 Hs1. injection Hs1 as E1 _ E3 _ _. eapply (H g); [exact Hd1|done| |exact Hc']. split; [by rewrite E1|].
      rewrite E3. apply fn_lookup_insert. }
  remember (g O) as x0 eqn:Hx0. destruct Hc as [|n Hn|n c0 Hn Hlt|Hn].
  - apply (Hcount _ Hs); [lia|]. replace (Z.of_nat p + 1) with (Z.of_nat (S p)) by lia. constructor.
  - eapply (duty_wake _ _ _ 1 (S N)) with (i := 0%nat); [done|exact Hd|done|cbn [sync_spec]; unfold s_post; rewrite Hs; reflexivity|lia|lia|done|done|].
    intros c1 Hd1 Hs1. injection Hs1 as E1 _ E3 _ _. eapply H; [exact Hd1|intros i; by rewrite fn_lookup_insert_ne by done|
      split; [by rewrite E1|by rewrite E3; apply fn_lookup_insert]|].
    rewrite fn_lookup_insert. pose proof (co_woken (S p) n p) as Hw. replace (S p - p - 1)%nat with 0%nat in Hw by lia. apply Hw; lia.
  - apply (Hcount _ Hs); [lia|]. replace (Z.of_nat (p - c0 - 1) + 1) with (Z.of_nat (S p - c0 - 1)) by lia. constructor; lia.
  - lia.
Qed.

Lemma post_loop_run j pm there Q rest k : ∀ from p g busy sm gc c,
  duty (S j) pm there g c → holds c sm gc → consuming p (g O) busy sm gc → (p + k ≤ N * K)%nat →
  (∀ g' busy' sm' c1, duty (S j) pm there g' c1 → (∀ i, g' (S i) = g (S i)) → holds c1 sm' gc → consuming (p + k) (g' O) busy' sm' gc →
    leads P Q (code_at (Thr (S j)) rest c1)) →
  leads P Q (code_at (Thr (S j)) (post_loop k from;~ rest) c).
Proof using HN HK Htotal.
  induction k as [|k IH]; intros from p g busy sm gc c Hd Hh Hc Hp H.
  { rewrite Nat.add_0_r in H. by eapply (H g). }
  change (post_loop (S k) from;~ rest) with (UCall (ASemPost g_sem) (λ _, post_loop k (S from);~ rest)).
  eapply post_step; [done..|lia|]. intros g1 busy1 sm1 c1 Hd1 Hg1 Hh1 Hc1. eapply IH; [done..|lia|].
  intros g2 busy2 sm2 c2 Hd2 Hg2 Hh2 Hc2. eapply (H g2); [done|intros i; by rewrite Hg2|done|]. by replace (p + S k)%nat with (S p + k)%nat by lia.
Qed.

(** The consumer takes what there is, and ends or waits. *)
Lemma consumer_run pm there g Q n : ∀ c x p,
  duty O pm there g c → holds c (mk_asem true (Z.of_nat (p - x)) []) 0 → (n + x = N * K)%nat → (x ≤ p ≤ N * K)%nat →
  (∀ y sm gc c1, crew main no_statics thread 1 (S N) Main there (<[O := y]> g) c1 → c_pc c1 Main = resumed P pm →
    holds c1 sm gc → consuming p y 0 sm gc → leads P Q c1) →
  leads P Q (code_at (Thr O) (consumer_rest n (Z.of_nat x)) c).
Proof using HN HK Htotal.
  pose proof (few_ids (S N) HN) as Hids. induction n as [|n IH]; intros c x p Hd [Hm Hs] Hn Hp H.
  - change (consumer_rest 0 (Z.of_nat x)) with (UUpdate (set_consumed (Z.of_nat x)) (λ _, UReturn 0)).
    eapply duty_update; [exact Hd|]. intros c1 Hd1 Hs1. injection Hs1 as E1 _ E3 _ _.
    eapply duty_exit; [done|exact Hd1|]. intros c2 Hc2 Hp2 Hs2. injection Hs2 as F1 _ F3 _ _. eapply H; [exact Hc2|done|split; [|done]|].
    + rewrite F1, E1, Hm. reflexivity.
    + rewrite F3, E3, Hs. assert (x = N * K)%nat as -> by lia. assert (p = N * K)%nat as -> by lia. rewrite Nat.sub_diag. by constructor.
  - change (consumer_rest (S n) (Z.of_nat x)) with (UCall (ASemWait g_sem) (λ _, consumer_rest n (Z.of_nat x + 1))).
    destruct (decide (x = p)) as [->|Hne].
    + eapply duty_wait; [done|exact Hd| | |].
      * cbn [sync_spec]. unfold s_wait. rewrite Hs, Nat.sub_diag. reflexivity.
      * done.
      * intros c1 Hc1 Hp1 Hs1. injection Hs1 as E1 _ E3 _ _. eapply H; [exact Hc1|done|split; [by rewrite E1|reflexivity]|].
        rewrite E3. rewrite fn_lookup_insert. constructor. lia.
    + eapply duty_call; [done|exact Hd|done| | |].
      * cbn [sync_spec]. unfold s_wait. rewrite Hs. cbn [as_live as_count negb].
        rewrite (proj2 (Z.eqb_neq (Z.of_nat (p - x)) 0)) by lia. reflexivity.
      * done.
      * intros c1 Hd1 Hs1. injection Hs1 as E1 _ E3 _ _. replace (Z.of_nat x + 1) with (Z.of_nat (S x)) by lia.
        apply (IH c1 (S x) p); [done| |lia|lia|done]. split; [by rewrite E1|]. rewrite E3, fn_lookup_insert. f_equal. lia.
Qed.

(** A producer that is given control makes all its posts. *)
Lemma producer_turn n g s j pm there Q c :
  flowing n g s → (j < N)%nat → g (S j) = Some (GTH_THREAD_READY, producer_fn (arg_addr j)) → duty (S j) pm there g c → surr c = counting main no_statics thread s →
  (∀ n' g' c', crew main no_statics thread 1 (S N) Main there g' c' → c_pc c' Main = resumed P pm → flowing n' g' (surr c') → (n' < n)%nat → leads P Q c') →
  leads P Q (code_at (Thr (S j)) (producer_fn (arg_addr j)) c).
Proof using All.
  intros [(w & busy & gc & En & Hle & Hw & Hc & Hm)] Hj Hg Hd Hs H. pose proof (few_ids (S N) HN) as Hids.
  destruct (Hw j Hj) as [[Ew _]|[_ E]]; [|congruence]. pose proof (total_le w j N Hj) as Hwj. pose proof (total_insert w j 0 N Hj) as Hins.
  destruct s as [[[[m am] sm] cm] sw]. cbn in Hm, Hc. injection Hs as E1 E2 E3 E4 E5.
  eapply duty_update; [exact Hd|]. intros c1 Hd1 Hs1. injection Hs1 as F1 _ F3 _ _. rewrite E1, Hm in F1 |- *. cbn [ubind].
  change (arg_at (id (set_consumed gc m0)) (arg_addr j)) with (arg_at m0 (arg_addr j)). rewrite Hargs, Nat2Z.id by done.
  eapply post_loop_run; [exact Hd1|split; [exact F1|by rewrite F3, E3]|exact Hc|nia|]. intros g2 busy2 sm2 c2 Hd2 Hg2 [Hm2 Hs2] Hc2.
  eapply duty_exit; [done|exact Hd2|]. intros c3 Hc3 Hp3 Hs3. injection Hs3 as G1 _ G3 _ _.
  assert (busy2 ≤ 1)%nat by (destruct Hc2; lia).
  eapply (H (2 * (total w N - 1) + busy2)%nat); [exact Hc3|done| |lia]. constructor. exists (<[j := 0%nat]> w), busy2, gc.
  replace (total (<[j:=0%nat]> w) N) with (total w N - 1)%nat by lia. split_and!; [done|lia| | |exact (eq_trans G1 Hm2)].
  - intros i Hi. destruct (decide (j = i)) as [<-|Hne]; [rewrite !fn_lookup_insert; by right|].
    rewrite !fn_lookup_insert_ne by congruence. rewrite Hg2. auto.
  - rewrite fn_lookup_insert_ne by done. change (consuming ((N - (total w N - 1)) * K) (g2 O) busy2 (a_sem (c_abs c3) g_sem) gc).
    rewrite G3, Hs2. replace ((N - (total w N - 1)) * K)%nat with ((N - total w N) * K + K)%nat by nia. done.
Qed.

(** The consumer that is given control. *)
Lemma consumer_turn n g s p pm there Q c :
  flowing n g s → g O = Some (GTH_THREAD_READY, p) → duty O pm there g c → surr c = counting main no_statics thread s →
  (∀ n' g' c', crew main no_statics thread 1 (S N) Main there g' c' → c_pc c' Main = resumed P pm → flowing n' g' (surr c') → (n' < n)%nat → leads P Q c') →
  leads P Q (code_at (Thr O) p c).
Proof using All.
  intros [(w & busy & gc & En & Hle & Hw & Hc & Hm)] Hg Hd Hs H. destruct s as [[[[m am] sm] cm] sw]. cbn in Hm, Hc. injection Hs as E1 E2 E3 E4 E5.
  set (q := ((N - total w N) * K)%nat) in *. assert (Hq : (q ≤ N * K)%nat) by (unfold q; nia).
  assert (Hend : (0 < busy)%nat → ∀ y sm1 gc1 c1, crew main no_statics thread 1 (S N) Main there (<[O := y]> g) c1 → c_pc c1 Main = resumed P pm →
    holds c1 sm1 gc1 → consuming q y 0 sm1 gc1 → leads P Q c1).
  { intros Hb y sm1 gc1 c1 Hc1 Hp1 [Hm1 Hs1] Hco. eapply (H (2 * total w N + 0)%nat); [exact Hc1|done| |lia]. constructor. exists w, O, gc1.
    split_and!; [done|done|intros i Hi; rewrite fn_lookup_insert_ne by done; auto| |exact Hm1].
    rewrite fn_lookup_insert. change (consuming q y 0 (a_sem (c_abs c1) g_sem) gc1). by rewrite Hs1. }
  remember (sm g_sem) as sg eqn:Hsg. rewrite Hg in Hc. inversion Hc as [Hx Hbz Hsm Hgc|nn Hn Hx|nn c0 Hn Hlt Hx Hbz Hsm Hgc|]; subst p busy gc; [|].
  - eapply duty_update; [exact Hd|]. intros c1 Hd1 Hs1. injection Hs1 as F1 _ F3 _ _. rewrite E1, Hm in F1 |- *. cbn [ubind].
    change (g_total_expected (id (set_consumed 0 m0))) with (g_total_expected m0). rewrite Htotal, Nat2Z.id.
    apply (consumer_run pm there g Q (N * K) c1 0 q); [done| |lia|lia|apply Hend; lia].
    split; [exact F1|]. rewrite F3, E3, <- Hsg, Nat.sub_0_r. done.
  - replace (Z.of_nat c0 + 1) with (Z.of_nat (S c0)) by lia.
    apply (consumer_run pm there g Q nn c (S c0) q); [done| |lia|lia|apply Hend; lia].
    split; [by rewrite E1, Hm|]. rewrite E3, <- Hsg, <- Hsm. do 2 f_equal. lia.
Qed.

#[local] Instance flowing_shift : Shift main no_statics thread 1 (S N) flowing.
Proof using All.
  constructor.
  - intros n g s i x [(w & busy & gc & En & Hle & Hw & Hc & Hm)] Hi Hg.
    destruct (decide (total w N = 0)%nat) as [Hz|Hnz].
    + rewrite Hz, Nat.sub_0_r in Hc. destruct i as [|i].
      * exists O. rewrite Hg in Hc. inversion Hc; subst; [|lia|]; (eexists; split; [lia|exact Hg]).
      * destruct (Hw i ltac:(lia)) as [[Ew _]|[_ E]]; [|congruence]. pose proof (total_le w i N ltac:(lia)). lia.
    + assert (∃ j, (j < N)%nat ∧ w j ≠ O) as (j & Hj & Hwj) by (by apply total_nonzero).
      exists (S j). destruct (Hw j Hj) as [[_ E]|[E _]]; [|done]. eexists. split; [lia|exact E].
  - intros n g s j p pm there Q c HG Hj Hg Hd Hs H. destruct j as [|j]; [by eapply consumer_turn|].
    pose proof HG as [(w & busy & gc & _ & _ & Hw & _)]. destruct (Hw j ltac:(lia)) as [[_ E]|[_ E]]; [|congruence].
    rewrite Hg in E. injection E as ->. eapply producer_turn; [done|lia|done..].
Qed.
End semaphore.

Definition semaphore_report (N K : nat) : list (string * list Z) := [
  ("--- Semaphore Throughput Benchmark ---", []);
  ("Producers:          %d", [Z.of_nat N]);
  ("Posts/producer:     %d", [Z.of_nat K]);
  ("Total operations:   %.0f", [Z.of_nat N * Z.of_nat K]);
  ("Consumed:           %d", [Z.of_nat N * Z.of_nat K])].

(** Slot 0 is the consumer's. *)
Definition semaphore_job (i : nat) : Z * Z := match i with O => (2, 0) | S i' => (1, arg_addr i') end.

Lemma join_all_app {mem} (rest : user mem Z) l tid : (join_all l;~ call (AJoin tid);~ rest) = (join_all (l ++ [tid]);~ rest).
Proof. induction l as [|t l IH]; [done|]. cbn [app join_all call ubind] in *. by rewrite <- IH. Qed.

(** After the creation of all threads. *)
Lemma semaphore_joins N K c :
  (S N ≤ GTH_MAX_THREADS)%nat → Z.of_nat (N * K) ≤ INT_MAX →
  let main := semaphore_main N K in
  let thread := λ fn arg, if fn =? 2 then consumer_fn else producer_fn arg in
  forked main no_statics thread semaphore_job 1 (S N) c →
  c_mem c = filled (Z.of_nat K) N 0 (set_consumed 0 {| no_statics with g_total_expected := Z.of_nat N * Z.of_nat K |}) →
  a_sem (c_abs c) g_sem = mk_asem true 0 [] →
  leads (user_program main no_statics thread) (λ c, final (bench_semaphore N K) 0 c ∧ b_stdout (c_mem c) = semaphore_report N K)
    (code_at main no_statics thread Main (
      join_all ((λ j, 1 + Z.of_nat (S j)) <$> seq 0 N);~
      call (AJoin 1);~
      m <~ read;
      printf "--- Semaphore Throughput Benchmark ---" [];~
      printf "Producers:          %d" [Z.of_nat N];~
      printf "Posts/producer:     %d" [Z.of_nat K];~
      printf "Total operations:   %.0f" [g_total_expected m];~
      m <~ read;
      printf "Consumed:           %d" [g_consumer_count m];~
      call (ASemDestroy g_sem);~
      call AShutdown;~
      UReturn 0) c).
Proof.
  intros HN HK main thread Hf Hm Hs. pose proof (few_ids (S N) HN) as Hids.
  set (mi := set_consumed 0 _) in Hm. set (m0 := filled (Z.of_nat K) N 0 mi) in Hm.
  assert (Hargs : ∀ i, (i < N)%nat → arg_at m0 (arg_addr i) = Z.of_nat K) by (intros i Hi; apply filled_arg; lia).
  destruct (filled_keeps (Z.of_nat K) N 0 mi) as [args Eargs]. fold m0 in Eargs.
  assert (Htotal : g_total_expected m0 = Z.of_nat (N * K)) by (rewrite Eargs; cbn; lia).
  pose proof (flowing_shift N K HN HK m0 Hargs Htotal) as Hshift.
  rewrite join_all_app. replace (((λ j, 1 + Z.of_nat (S j)) <$> seq 0 N) ++ [1]) with ((λ i, 1 + Z.of_nat i) <$> (seq 1 N ++ [0%nat]))
    by (rewrite fmap_app, <- fmap_S_seq, <- list_fmap_compose; done).
  refine (ld_crew_join _ _ _ 1 (S N) _ _ (flowing N K m0) _ _ _ semaphore_job (2 * N + 1) c Hf HN _ _ _); [lia|done|..].
  - by rewrite Permutation_app_comm.
  - constructor. exists (λ _, 1%nat), 1%nat, 0. rewrite (total_const _ 1), Nat.mul_1_r by done. split_and!; [done|done| | |].
    + intros i Hi. by left.
    + rewrite Nat.sub_diag. refine (eq_rect_r (λ x, consuming N K _ _ _ x _) (co_start N K 0) Hs).
    + refine (eq_trans Hm _). by rewrite Eargs.
  - intros n there g c1 Hc1 Hnone _ [(w & busy & gc & En & _ & _ & Hc & Hmem)]. rewrite Hnone in Hc by lia. inversion Hc as [| | |Hp Hx Hb Hsm Hgc]. subst gc.
    apply (crew_in_main _ _ _ 1 (S N) there g c1 Hids) in Hc1 as Hin. change (c_mem c1 = set_consumed (Z.of_nat (N * K)) m0) in Hmem. rewrite Hmem in Hin.
    change (mk_asem true 0 [] = a_sem (c_abs c1) g_sem) in Hsm.
    do 7 (eapply main_update; [exact Hin|clear Hin; intros ? Hin]).
    eapply main_sync; [exact Hin|done|cbn [sync_spec]; unfold s_destroy; rewrite <- Hsm; reflexivity|].
    clear Hin. intros ? Hin. eapply (main_end _ _ _ (λ m, b_stdout m = semaphore_report N K)); [exact Hin|].
    cbn. rewrite Eargs. cbn. by rewrite Nat2Z.inj_mul.
Qed.

Lemma semaphore_leads N K :
  (S N ≤ GTH_MAX_THREADS)%nat → Z.of_nat (N * K) ≤ INT_MAX →
  leads (bench_semaphore N K) (λ c, final (bench_semaphore N K) 0 c ∧ b_stdout (c_mem c) = semaphore_report N K) (cboot (bench_semaphore N K)).
Proof.
  intros HN HK. pose proof (few_ids (S N) HN) as Hids. unfold bench_semaphore.
  eapply (ld_main_init _ _ _ _ semaphore_job); [reflexivity|]. intros c1 Hf1 Hs1.
  refine (ld_fork_sync _ _ _ _ _ 1 0 (ASemInit g_sem 0) _ c1 _ Hf1 _ _ _ _ _); [lia|done|reflexivity|done|]. intros c2 Hf2 Hs2.
  apply ld_update, ld_update. set (mi := set_consumed 0 {| no_statics with g_total_expected := Z.of_nat N * Z.of_nat K |}).
  injection Hs1 as E1 _ _ _ _. injection Hs2 as F1 _ F3 _ _. rewrite E1 in F1. cbn [c_mem]. rewrite F1.
  apply (forked_update _ _ _ _ _ _ _ mi) in Hf2.
  refine (ld_fork_at _ _ _ _ semaphore_job 1 0 2 0 _ _ Hf2 _ _ _ _ _); [done|lia|done|lia|]. intros c3 Hf3 Hs3. injection Hs3 as G1 _ G3 _ _.
  refine (ld_create_loop _ _ _ _ semaphore_job 1 1 _ 1 (Z.of_nat K) _ N 0 c3 [] Hf3 _ _ _ _ _); [lia|lia|done|done|].
  intros c4 Hf4 Hs4. cbn [app Nat.add] in *. injection Hs4 as H1 _ H3 _ _.
  apply semaphore_joins; [done..|by rewrite H1, G1|by rewrite H3, G3, F3; apply fn_lookup_insert].
Qed.

(** ** bench_thread_create.c *)

Section thread_create.
Context (N : nat) (m0 : statics) (base : Z) (Hbase : 0 < base < 2 ^ 63).
Abbreviation main := (thread_create_main N).
Abbreviation thread := (λ _ _, noop_fn).
Abbreviation P := (user_program main no_statics thread).
Abbreviation surroundings_t := (p_mem P * (Z → amutex) * (Z → asem) * (Z → acond) * Z)%type.
Abbreviation code_at := (code_at main no_statics thread).

(** The thread will be given control [n] times. *)
Definition one_yield (n : nat) (g : roster statics) (s : surroundings_t) : Prop :=
  s.1.1.1.1 = m0 ∧
  match n with
  | 2%nat => g O = Some (GTH_THREAD_READY, noop_fn)
  | 1%nat => g O = Some (GTH_THREAD_READY, UReturn 0)
  | _ => g O = None
  end.

#[local] Instance one_yield_shift : Shift main no_statics thread base 1 one_yield.
Proof using Hbase.
  assert (Hids : base + Z.of_nat 1 < 2 ^ 64 - 1) by lia. constructor.
  - intros n g s i x [_ Hn] Hi Hg. exists O. assert (i = O) as -> by lia. destruct n as [|[|[|n]]]; [congruence|eauto with lia..|congruence].
  - intros n g s j p pm there Q c [Hm Hn] Hj Hg Hd Hs H. assert (j = O) as -> by lia. rewrite Hg in Hn.
    destruct s as [[[[m am] sm] cm] sw]. cbn in Hm. injection Hs as E1 _ _ _ _. destruct n as [|[|[|n]]]; [done| | |done]; injection Hn as ->.
    + eapply duty_exit; [done|exact Hd|]. intros c1 Hc1 Hp1 Hs1. injection Hs1 as F1 _ _ _ _.
      eapply (H O); [exact Hc1|done|split; [exact (eq_trans F1 (eq_trans E1 Hm))|apply fn_lookup_insert]|lia].
    + eapply duty_yield; [done|exact Hd|]. intros c1 Hc1 Hp1 Hs1. injection Hs1 as F1 _ _ _ _.
      eapply (H 1%nat); [exact Hc1|done|split; [exact (eq_trans F1 (eq_trans E1 Hm))|apply fn_lookup_insert]|lia].
Qed.

(** One round: the thread is created, runs to its end and is joined. *)
Lemma create_join_round Q k rest c :
  forked main no_statics thread (λ _, (1, 0)) base 0 c → c_mem c = m0 → k (mk_resp GTH_OK [base]) = (call (AJoin base);~ rest) →
  (∀ c1, forked main no_statics thread (λ _, (1, 0)) (base + 1) 0 c1 → c_mem c1 = m0 → leads P Q (code_at Main rest c1)) →
  leads P Q (code_at Main (UCall (ACreate true None 1 0) k) c).
Proof using Hbase.
  intros Hf Hm Hk H. refine (ld_fork_at _ _ _ _ (λ _, (1, 0)) base 0 1 0 _ _ Hf _ _ _ _ _); [done|unfold GTH_MAX_THREADS; lia|done|done|].
  intros c1 Hf1 Hs1. injection Hs1 as E1 _ _ _ _. rewrite Z.add_0_r, Hk.
  change (call (AJoin base);~ rest) with (join_all ([base]);~ rest). rewrite <- (Z.add_0_r base) at 1.
  refine (ld_crew_join _ _ _ base 1 _ _ one_yield Q rest [0%nat] (λ _, (1, 0)) 2 c1 Hf1 _ _ _ _); [lia|lia|unfold GTH_MAX_THREADS; lia|done|..].
  - split; [exact (eq_trans E1 Hm)|done].
  - intros n there g c2 Hc2 _ Hempty [Hm2 _]. pose proof Hc2 as []. apply H; [|exact Hm2].
    constructor; [done|done|lia|done|lia|]. intros i Hi. apply Hempty. lia.
Qed.
End thread_create.

Lemma create_join_loop_run N m0 Q rest n : ∀ i base c,
  let main := thread_create_main N in
  forked main no_statics (λ _ _, noop_fn) (λ _, (1, 0)) base 0 c → c_mem c = m0 → 0 < base → base + Z.of_nat n < 2 ^ 63 →
  (∀ c1, forked main no_statics (λ _ _, noop_fn) (λ _, (1, 0)) (base + Z.of_nat n) 0 c1 → c_mem c1 = m0 →
    leads (bench_thread_create N) Q (code_at main no_statics (λ _ _, noop_fn) Main (rest true) c1)) →
  leads (bench_thread_create N) Q (code_at main no_statics (λ _ _, noop_fn) Main (done <~ create_join_loop n i; rest done) c).
Proof.
  induction n as [|n IH]; intros i base c main Hf Hm Hb Hlt H.
  - rewrite Z.add_0_r in H. by apply H.
  - refine (create_join_round N m0 base _ Q _ (done <~ create_join_loop n (S i); rest done) c Hf Hm _ _); [lia|reflexivity|].
    intros c1 Hf1 Hm1. apply (IH (S i) (base + 1)); [done..|lia|lia|]. intros c2 Hf2 Hm2. apply H; [|done].
    by replace (base + Z.of_nat (S n)) with (base + 1 + Z.of_nat n) by lia.
Qed.

Definition thread_create_report (N : nat) : list (string * list Z) := [
  ("--- Thread Create/Join Benchmark ---", []);
  ("Threads created:    %d", [Z.of_nat N])].

Lemma thread_create_leads N :
  Z.of_nat N ≤ INT_MAX →
  leads (bench_thread_create N) (λ c, final (bench_thread_create N) 0 c ∧ b_stdout (c_mem c) = thread_create_report N) (cboot (bench_thread_create N)).
Proof.
  unfold INT_MAX. intros HN. unfold bench_thread_create. eapply (ld_main_init _ _ _ _ (λ _, (1, 0))); [reflexivity|]. intros c1 Hf1 Hs1.
  injection Hs1 as E1 _ _ _ _. refine (create_join_loop_run N no_statics _ _ N 0 1 c1 Hf1 E1 _ _ _); [lia|lia|]. intros c2 Hf2 Hm2.
  apply forked_in_main in Hf2 as Hin; [|lia]. rewrite Hm2 in Hin. do 2 (eapply main_update; [exact Hin|clear Hin; intros ? Hin]).
  by eapply (main_end _ _ _ (λ m, b_stdout m = thread_create_report N)).
Qed.

(** ** The benchmarks run to their end *)

(** The threads fit into the table.  The sizes are [int] constants, the loops
    over them have [int] indices and the totals of the mutex and the semaphore
    programs are [int] products: they are at most [INT_MAX]. *)
Definition bench_fits (b : bench) : Prop :=
  match b with
  | ContextSwitch n k => (n ≤ GTH_MAX_THREADS)%nat ∧ Z.of_nat k ≤ INT_MAX
  | MutexContention n k => (n ≤ GTH_MAX_THREADS)%nat ∧ Z.of_nat k ≤ INT_MAX ∧ Z.of_nat (n * k) ≤ INT_MAX
  | SemaphoreThroughput n k => (S n ≤ GTH_MAX_THREADS)%nat ∧ Z.of_nat k ≤ INT_MAX ∧ Z.of_nat (n * k) ≤ INT_MAX
  | ThreadCreate n => Z.of_nat n ≤ INT_MAX
  end.

(** What is printed, apart from the figures of the clock. *)
Definition bench_report (b : bench) : list (string * list Z) :=
  match b with
  | ContextSwitch n k => context_switch_report n k
  | MutexContention n k => mutex_report n k
  | SemaphoreThroughput n k => semaphore_report n k
  | ThreadCreate n => thread_create_report n
  end.

Lemma bench_disciplined b : disciplined (bench_program b).
Proof.
  apply user_disciplined. intros fn arg.
  destruct b; cbn [bench_thread]; unfold yield_fn, mutex_worker, producer_fn, noop_fn, yield_loop, lock_loop, post_loop; eauto 20 with calls_only.
  case_match; [|eauto 20 with calls_only]. unfold consumer_fn. apply calls_only_bind; [eauto with calls_only|]. intros m.
  apply calls_only_bind; [|eauto with calls_only]. generalize 0. induction (Z.to_nat (g_total_expected m)); intros z; cbn; eauto with calls_only.
Qed.

Lemma bench_leads b :
  bench_fits b → leads (bench_program b) (λ c, final (bench_program b) 0 c ∧ b_stdout (c_mem c) = bench_report b) (cboot (bench_program b)).
Proof.
  destruct b as [n k|n k|n k|n]; cbn [bench_fits].
  - intros [Hn Hk]. apply (context_switch_leads n k Hn). unfold INT_MAX, GTH_MAX_THREADS in *. nia.
  - intros [Hn _]. exact (mutex_leads n k Hn).
  - intros (Hn & _ & Hk). exact (semaphore_leads n k Hn Hk).
  - exact (thread_create_leads n).
Qed.

(** C19. On a system that grants memory, each benchmark runs to its end and
    main returns 0, for all sizes that fit ([bench_fits]: the thread table, and
    [int] for the sizes and totals): no thread is left waiting and no call that
    it checks fails.  It then has printed the figures it is meant to measure,
    apart from those of the clock: N threads that yield K times are given control N * (K + 1) times, the counter that N
    threads increment K times under the mutex is N * K, and the consumer has
    taken all N * K posts. *)
Theorem benchmarks_report b os fuel page_bits :
  bench_fits b → 0 ≤ page_bits ≤ 30 → os_page_size os = 2 ^ page_bits →
  (∀ n size, is_Some (os_mmap os n size)) → (∀ n, os_mprotect os n = true) →
  ∃ n m, run (bench_program b) n (boot (bench_program b) os fuel) = Next (bench_program b) m ∧
    step (bench_program b) m = Exit (bench_program b) 0 ∧ b_stdout (m_mem (bench_program b) m) = bench_report b.
Proof.
  intros Hfits Hbits Hp Hmm Hmp. apply (leads_exit (bench_program b) (bench_disciplined b) page_bits Hbits (λ m, b_stdout m = bench_report b)); [done..|].
  by apply bench_leads.
Qed.

(** The programs with the sizes of the sources. *)
Lemma benchmarks_report_witness : Forall (λ b, ∃ n m,
    run (bench_program b) n (boot (bench_program b) sunny_os 0) = Next (bench_program b) m ∧
    step (bench_program b) m = Exit (bench_program b) 0 ∧ b_stdout (m_mem (bench_program b) m) = bench_report b)
  [context_switch_sizes; mutex_sizes; semaphore_sizes; thread_create_sizes].
Proof.
  assert (H : ∀ b, bench_fits b → ∃ n m, run (bench_program b) n (boot (bench_program b) sunny_os 0) = Next (bench_program b) m ∧
    step (bench_program b) m = Exit (bench_program b) 0 ∧ b_stdout (m_mem (bench_program b) m) = bench_report b).
  { intros b Hb. by apply (benchmarks_report b sunny_os 0 12). }
  apply (Forall_impl bench_fits); [|exact H]. rewrite !Forall_cons, Forall_nil.
  unfold bench_fits, context_switch_sizes, mutex_sizes, semaphore_sizes, thread_create_sizes, INT_MAX, GTH_MAX_THREADS. lia.
Defined.
