(* ===== verification/Examples.v ===== *)
(** * The example programs (src/examples/)

    The three programs of src/examples/ as client code of [Machine].  What
    [printf] writes is a log in the memory that main and the threads share.
    [remove] on the trace file, which is not a call of the library, is left out:
    the file does not exist before the first call and is not read after the
    last.

    [examples_succeed]: the two that use no trace file succeed on every system
    that never refuses memory and has pages of 4 KiB.  They are evaluated on
    [sunny_os], and Reproducible.v carries the outcome over. *)

From S2P Require Import Prelude WaitQueue TraceFormat State Stack TraceBuffer Trace Runtime Replay.
From S2P Require Import Fuzz Sched Thread Mutex Sem Cond Lifecycle Machine Scripts Invariant Ops Switching Safety Reproducible Clients.

(** ** User code *)

Inductive val := VInt (z : Z) | VStr (s : string) | VStatus (st : gth_status_t).

#[export] Instance val_eq_dec : EqDecision val.
Proof. solve_decision. Defined.

(** [worker_arg_t] and [incrementor_arg_t]. *)
Record worker_arg_t := mk_worker { wk_name : string; wk_count : nat; wk_result : Z }.

Record memory := mk_memory {
  u_args : gmap Z worker_arg_t;             (* the argument records, by address *)
  g_counter : Z;
  u_stdout : list (string * list val)       (* newest first *)
}.

Abbreviation user A := (Clients.user memory A).

Definition printf (fmt : string) (args : list val) : user unit :=
  update (λ mem, {| mem with u_stdout := (fmt, args) :: u_stdout mem |}).

(** Addresses of the argument records and of their [result] fields. *)
Definition args_base : Z := 0x7000.
Definition arg_addr (i : nat) : Z := args_base + 16 * Z.of_nat i.
Definition arg_at (mem : memory) (p : Z) : worker_arg_t := default (mk_worker EmptyString 0 0) (u_args mem !! p).
Definition set_result (p v : Z) (mem : memory) : memory :=
  {| mem with u_args := <[p := {| (arg_at mem p) with wk_result := v |}]> (u_args mem) |}.
Definition store_args (base : nat) (ws : list worker_arg_t) (mem : memory) : memory :=
  {| mem with u_args := list_to_map (imap (λ i w, (arg_addr (base + i), w)) ws) ∪ u_args mem |}.

Definition empty_memory : memory := mk_memory ∅ 0 [].

(** The configuration the examples share. *)
Definition example_config (seed trace : Z) : gth_runtime_config_t :=
  mk_config (64 * 1024) GTH_SCHED_RR 1000 seed trace 0.

(** ** basic_threads.c *)

Module BasicThreads.

Definition worker_fn (arg : Z) : user Z :=
  mem <~ read;
  let w := arg_at mem arg in
  self <~ call ASelf;
  printf "[%s] started (TID: %lu)" [VStr (wk_name w); VInt (out self 0)];~
  sum <~ for_loop (wk_count w) 0 0 (λ i sum,
    let sum := sum + (Z.of_nat i + 1) in
    printf "[%s] iteration %d/%d, partial sum = %d"
      [VStr (wk_name w); VInt (Z.of_nat i + 1); VInt (Z.of_nat (wk_count w)); VInt sum];~
    call AYield;~
    UReturn sum);
  update (set_result arg sum);~
  printf "[%s] finished, result = %d" [VStr (wk_name w); VInt sum];~
  UReturn (arg + 12).

Definition workers : list worker_arg_t :=
  [mk_worker "worker-A" 3 0; mk_worker "worker-B" 4 0; mk_worker "worker-C" 2 0].

Definition name (i : nat) : val := VStr (default EmptyString (wk_name <$> workers !! i)).

(** The creation loop stops at the first failure. *)
Fixpoint basic_create (n i : nat) (tids : list Z) : user (option (list Z)) :=
  match n with
  | O => UReturn (Some tids)
  | S n' =>
      r <~ call (ACreate true None 1 (arg_addr i));
      if negb (ok r) then
        printf "Failed to create thread %d: %d" [VInt (Z.of_nat i); VStatus (r_status r)];~ UReturn None
      else
        printf "Created thread %s with TID %lu" [name i; VInt (out r 0)];~
        basic_create n' (S i) (tids ++ [out r 0])
  end.

Definition basic_main : user Z :=
  printf "Initializing gthreads runtime..." [];~
  r <~ call (AInit (Some (example_config 0 0)));
  if negb (ok r) then printf "Failed to init runtime: %d" [VStatus (r_status r)];~ UReturn 1
  else
    update (store_args 0 workers);~
    created <~ basic_create 3 0 [];
    match created with
    | None => call AShutdown;~ UReturn 1
    | Some tids =>
        printf "--- Joining threads ---" [];~
        for_each 3 (λ i,
          r <~ call (AJoin (default 0 (tids !! i)));
          if negb (ok r) then printf "Failed to join thread %s: %d" [name i; VStatus (r_status r)]
          else printf "Joined %s (result pointer: %p)" [name i; VInt (out r 0)]);~
        r <~ call (AGetStats true);
        (if ok r then
           printf "--- Runtime stats ---" [];~
           printf "Context switches: %lu" [VInt (out r 0)];~
           printf "Runnable threads: %lu" [VInt (out r 1)];~
           printf "Blocked threads:  %lu" [VInt (out r 2)]
         else UReturn tt);~
        printf "Shutting down runtime..." [];~
        r <~ call AShutdown;
        if negb (ok r) then printf "Failed to shut down: %d" [VStatus (r_status r)];~ UReturn 1
        else printf "Done." [];~ UReturn 0
    end.

Definition basic_threads : program := user_program basic_main empty_memory (λ _ arg, worker_fn arg).
End BasicThreads.

(** ** sync_demo.c *)

Module SyncDemo.

Definition INCREMENTS_PER_THREAD : nat := 5.

(** The address of [g_mutex]. *)
Definition g_mutex : Z := 0x4000.

Definition incrementor_fn (arg : Z) : user Z :=
  mem <~ read;
  let ia := arg_at mem arg in
  self <~ call ASelf;
  printf "[%s] started (TID: %lu)" [VStr (wk_name ia); VInt (out self 0)];~
  for_each (wk_count ia) (λ _,
    call (ALock g_mutex);~
    mem <~ read;
    let before := g_counter mem in
    update (λ mem, {| mem with g_counter := g_counter mem + 1 |});~
    printf "[%s] locked, counter: %d -> %d" [VStr (wk_name ia); VInt before; VInt (before + 1)];~
    call AYield;~
    call (AUnlock g_mutex);~
    printf "[%s] unlocked" [VStr (wk_name ia)]);~
  printf "[%s] finished" [VStr (wk_name ia)];~
  UReturn 0.

Definition args : list worker_arg_t :=
  [mk_worker "thread-A" INCREMENTS_PER_THREAD 0; mk_worker "thread-B" INCREMENTS_PER_THREAD 0].

Fixpoint demo_create (n i : nat) (tids : list Z) : user (option (list Z)) :=
  match n with
  | O => UReturn (Some tids)
  | S n' =>
      r <~ call (ACreate true None 1 (arg_addr i));
      if negb (ok r) then
        printf "Failed to create thread %d: %d" [VInt (Z.of_nat i); VStatus (r_status r)];~ UReturn None
      else demo_create n' (S i) (tids ++ [out r 0])
  end.

Definition expected : Z := 2 * Z.of_nat INCREMENTS_PER_THREAD.

Definition demo_main : user Z :=
  printf "Initializing gthreads runtime..." [];~
  r <~ call (AInit (Some (example_config 0 0)));
  if negb (ok r) then printf "Failed to init runtime: %d" [VStatus (r_status r)];~ UReturn 1
  else
    r <~ call (AMutexInit g_mutex);
    if negb (ok r) then printf "Failed to init mutex: %d" [VStatus (r_status r)];~ call AShutdown;~ UReturn 1
    else
      update (λ mem, {| mem with g_counter := 0 |});~
      update (store_args 0 args);~
      created <~ demo_create 2 0 [];
      match created with
      | None => call (AMutexDestroy g_mutex);~ call AShutdown;~ UReturn 1
      | Some tids =>
          for_each 2 (λ i,
            r <~ call (AJoin (default 0 (tids !! i)));
            if negb (ok r) then printf "Failed to join thread %d: %d" [VInt (Z.of_nat i); VStatus (r_status r)] else UReturn tt);~
          mem <~ read;
          printf "--- Result ---" [];~
          printf "Counter: %d (expected: %d)" [VInt (g_counter mem); VInt expected];~
          (if g_counter mem =? expected then printf "PASS: Mutual exclusion preserved." []
           else printf "FAIL: Race condition detected!" []);~
          r <~ call (AMutexDestroy g_mutex);
          (if negb (ok r) then printf "Failed to destroy mutex: %d" [VStatus (r_status r)] else UReturn tt);~
          printf "Shutting down runtime..." [];~
          call AShutdown;~
          printf "Done." [];~
          mem <~ read;
          UReturn (if g_counter mem =? expected then 0 else 1)
      end.

Definition sync_demo : program := user_program demo_main empty_memory (λ _ arg, incrementor_fn arg).
End SyncDemo.

(** ** trace_replay.c *)

Module TraceReplay.

Definition TRACE_FILE : string := "/tmp/gthreads_example_trace.bin".

Definition traced_worker (arg : Z) : user Z :=
  mem <~ read;
  for_each (wk_count (arg_at mem arg)) (λ i,
    update (λ mem, set_result arg (wk_result (arg_at mem arg) + (Z.of_nat i + 1)) mem);~
    call AYield;~
    UReturn tt);~
  UReturn (arg + 12).

Fixpoint replay_create (n i : nat) (tids : list Z) : user (option (list Z)) :=
  match n with
  | O => UReturn (Some tids)
  | S n' =>
      r <~ call (ACreate true None 1 (arg_addr i));
      if negb (ok r) then printf "Thread create failed: %d" [VStatus (r_status r)];~ UReturn None
      else replay_create n' (S i) (tids ++ [out r 0])
  end.

Definition total (base : nat) (mem : memory) : Z :=
  foldl (λ s i, s + wk_result (arg_at mem (arg_addr (base + i)))) 0 (seq 0 3).

(** The workload of a phase: its workers are stored from index [base] on.  [None] if a thread could
    not be created; otherwise the sum of the workers' results. *)
Definition workload (base : nat) : user (option Z) :=
  created <~ replay_create 3 base [];
  match created with
  | None => UReturn None
  | Some tids =>
      for_each 6 (λ _, call AYield;~ UReturn tt);~
      for_each 3 (λ i, call (AJoin (default 0 (tids !! i)));~ UReturn tt);~
      mem <~ read;
      UReturn (Some (total base mem))
  end.

Definition workers : list worker_arg_t :=
  [mk_worker "rec-A" 3 0; mk_worker "rec-B" 2 0; mk_worker "rec-C" 4 0].
Definition replay_workers : list worker_arg_t :=
  [mk_worker "replay-A" 3 0; mk_worker "replay-B" 2 0; mk_worker "replay-C" 4 0].

(** Phase 1; [None] is an early [return 1]. *)
Definition record_phase : user (option Z) :=
  printf "=== Phase 1: Record ===" [];~
  r <~ call (AInit (Some (example_config 42 1)));
  if negb (ok r) then printf "Runtime init failed: %d" [VStatus (r_status r)];~ UReturn None
  else
    r <~ call (ATraceStart (Some TRACE_FILE));
    if negb (ok r) then
      printf "Trace start failed: %d" [VStatus (r_status r)];~ call AShutdown;~ UReturn None
    else
      printf "Recording trace to %s" [VStr TRACE_FILE];~
      update (store_args 0 workers);~
      record_total <~ workload 0;
      match record_total with
      | None => call AShutdown;~ UReturn None
      | Some record_total =>
          printf "Record phase worker sum: %d" [VInt record_total];~
          stats <~ call (AGetStats true);
          printf "Record phase context switches: %lu" [VInt (out stats 0)];~
          r <~ call ATraceStop;
          if negb (ok r) then
            printf "Trace stop failed: %d" [VStatus (r_status r)];~ call AShutdown;~ UReturn None
          else
            printf "Trace saved to %s" [VStr TRACE_FILE];~
            call AShutdown;~
            UReturn (Some record_total)
      end.

(** Phase 2. *)
Definition replay_phase : user (option Z) :=
  printf "=== Phase 2: Replay ===" [];~
  r <~ call (AInit (Some (example_config 42 1)));
  if negb (ok r) then printf "Runtime init failed: %d" [VStatus (r_status r)];~ UReturn None
  else
    r <~ call (AReplayFrom (Some TRACE_FILE));
    if negb (ok r) then
      printf "Replay setup failed: %d" [VStatus (r_status r)];~ call AShutdown;~ UReturn None
    else
      printf "Replaying from %s" [VStr TRACE_FILE];~
      update (store_args 3 replay_workers);~
      replay_total <~ workload 3;
      match replay_total with
      | None => call AShutdown;~ UReturn None
      | Some replay_total =>
          printf "Replay phase worker sum: %d" [VInt replay_total];~
          r <~ call (AReplayStats true);
          (if ok r then
             printf "Replay events consumed: %lu / %lu" [VInt (out r 1); VInt (out r 0)];~
             printf "Replay diverged: %s" [VStr (if out r 2 =? 0 then "no" else "YES")]
           else UReturn tt);~
          stats <~ call (AGetStats true);
          printf "Replay phase context switches: %lu" [VInt (out stats 0)];~
          call AShutdown;~
          UReturn (Some replay_total)
      end.

Definition summary (record_total replay_total : Z) : user unit :=
  printf "=== Summary ===" [];~
  printf "Record sum: %d, Replay sum: %d" [VInt record_total; VInt replay_total];~
  (if record_total =? replay_total then printf "PASS: Replay produced identical results." []
   else printf "INFO: Worker sums differ (expected for deterministic scheduling replay)." []);~
  printf "Done." [].

Definition replay_main : user Z :=
  recorded <~ record_phase;
  match recorded with
  | None => UReturn 1
  | Some record_total =>
      replayed <~ replay_phase;
      match replayed with
      | None => UReturn 1
      | Some replay_total =>
          summary record_total replay_total;~
          UReturn 0
      end
  end.

Definition trace_replay : program :=
  user_program replay_main empty_memory (λ _ arg, traced_worker arg).
End TraceReplay.

(** ** Outcomes *)

(** What a program has printed, oldest line first. *)
Definition printed {main mem thread} (r : step_result (user_program main mem thread)) : list (string * list val) :=
  match r with Next _ m => reverse (u_stdout (m_mem _ m)) | _ => [] end.

Definition exec (P : program) (n : nat) : step_result P := run P n (boot P sunny_os 0).

(** The lines are among those printed, and the exit value is 0. *)
Definition shows (lines : list (string * list val)) (mem : memory) (v : Z) : bool :=
  (v =? 0) && bool_decide (Forall (λ line, line ∈ u_stdout mem) lines).

(** What basic_threads is written to show: each worker computes its sum, and main joins it with a pointer to the sum. *)
Definition basic_lines : list (string * list val) :=
  [("Joined %s (result pointer: %p)", [VStr "worker-A"; VInt (arg_addr 0 + 12)]);
   ("Joined %s (result pointer: %p)", [VStr "worker-B"; VInt (arg_addr 1 + 12)]);
   ("Joined %s (result pointer: %p)", [VStr "worker-C"; VInt (arg_addr 2 + 12)]);
   ("[%s] finished, result = %d", [VStr "worker-A"; VInt 6]);
   ("[%s] finished, result = %d", [VStr "worker-B"; VInt 10]);
   ("[%s] finished, result = %d", [VStr "worker-C"; VInt 3]);
   ("Context switches: %lu", [VInt 12])].

Definition demo_lines : list (string * list val) :=
  [("Counter: %d (expected: %d)", [VInt 10; VInt 10]); ("PASS: Mutual exclusion preserved.", [])].

(** trace_replay, which works on a file, on a system that refuses nothing: it
    replays its own recording without divergence, with the same sums and the
    same number of context switches in both phases. *)
Lemma trace_replay_succeeds :
  exits_with_0 (exec TraceReplay.trace_replay 101) = true ∧
  (∀ line, line ∈ [("Record phase context switches: %lu", [VInt 12]);
                   ("Replay phase context switches: %lu", [VInt 12]);
                   ("Replay diverged: %s", [VStr "no"]);
                   ("Record sum: %d, Replay sum: %d", [VInt 19; VInt 19]);
                   ("PASS: Replay produced identical results.", [])] →
           line ∈ printed (exec TraceReplay.trace_replay 100)).
Proof.
  split; [by vm_compute|]. rewrite <- list.Forall_forall; apply (bool_decide_eq_true_1 _); by vm_compute.
Qed.

(** ** Safety on every operating system *)

Lemma basic_threads_disciplined : disciplined BasicThreads.basic_threads.
Proof.
  apply user_disciplined. intros _ arg. unfold BasicThreads.worker_fn, printf. eauto 20 with calls_only.
Qed.

Lemma sync_demo_disciplined : disciplined SyncDemo.sync_demo.
Proof.
  apply user_disciplined. intros _ arg. unfold SyncDemo.incrementor_fn, printf, for_each. eauto 20 with calls_only.
Qed.

Lemma trace_replay_disciplined : disciplined TraceReplay.trace_replay.
Proof.
  apply user_disciplined. intros _ arg. unfold TraceReplay.traced_worker, for_each. eauto 20 with calls_only.
Qed.

(** The example programs never run into undefined behaviour, whatever the
    operating system does: with any pattern of failing allocations, mappings
    and file operations, their error paths included, no step of their
    execution is a fault. *)
Theorem examples_never_fault os fuel n :
  Z.of_nat n < 2 ^ 64 - 2 →
  run BasicThreads.basic_threads n (boot BasicThreads.basic_threads os fuel) ≠ Fault BasicThreads.basic_threads ∧
  run SyncDemo.sync_demo n (boot SyncDemo.sync_demo os fuel) ≠ Fault SyncDemo.sync_demo ∧
  run TraceReplay.trace_replay n (boot TraceReplay.trace_replay os fuel) ≠ Fault TraceReplay.trace_replay.
Proof.
  auto using run_no_fault, basic_threads_disciplined, sync_demo_disciplined, trace_replay_disciplined.
Qed.

(** An operating system on which everything fails. *)
Definition rainy_os : OS :=
  mk_os 4096 (λ _, false) (λ _ _, None) (λ _, false) (λ _, 0) (λ _, None) (λ _, false) (λ _ _, O) (λ _, false).

Lemma examples_never_fault_witness :
  run SyncDemo.sync_demo 5 (boot SyncDemo.sync_demo rainy_os 0) ≠ Fault SyncDemo.sync_demo.
Proof. apply (examples_never_fault rainy_os 0 5). lia. Defined.

(** ** Success on every operating system that grants memory *)

Lemma basic_ends fuel : ends_well BasicThreads.basic_threads fuel 50 (shows basic_lines) = true.
Proof. vm_compute. reflexivity. Qed.

Lemma demo_ends fuel : ends_well SyncDemo.sync_demo fuel 80 (shows demo_lines) = true.
Proof. vm_compute. reflexivity. Qed.

Lemma shows_lines lines mem v : shows lines mem v = true → v = 0 ∧ ∀ line, line ∈ lines → line ∈ u_stdout mem.
Proof. intros [Hv Hl]%andb_true_iff. apply Z.eqb_eq in Hv. apply bool_decide_eq_true in Hl. rewrite list.Forall_forall in Hl. done. Qed.

(** C38. basic_threads and sync_demo do what they were written to show, on
    every system that never refuses memory and has pages of 4 KiB, whatever the
    clock says and wherever memory is mapped: both run to their end and main
    returns 0.  basic_threads then has joined its three workers, each with a
    pointer to its result, after 12 context switches; sync_demo has counted to
    10 under the mutex. *)
Theorem examples_succeed os fuel :
  generous os → os_page_size os = 4096 →
  (∃ n m, run BasicThreads.basic_threads n (boot BasicThreads.basic_threads os fuel) = Next BasicThreads.basic_threads m ∧
    step BasicThreads.basic_threads m = Exit BasicThreads.basic_threads 0 ∧
    ∀ line, line ∈ basic_lines → line ∈ u_stdout (m_mem BasicThreads.basic_threads m)) ∧
  (∃ n m, run SyncDemo.sync_demo n (boot SyncDemo.sync_demo os fuel) = Next SyncDemo.sync_demo m ∧
    step SyncDemo.sync_demo m = Exit SyncDemo.sync_demo 0 ∧
    ∀ line, line ∈ demo_lines → line ∈ u_stdout (m_mem SyncDemo.sync_demo m)).
Proof.
  intros Hg Hp. split.
  - destruct (ends_everywhere BasicThreads.basic_threads os fuel 50 (shows basic_lines)) as (k & m & v & E & Ex & Hv);
      [apply basic_threads_disciplined|done|done|lia|apply basic_ends|]. apply shows_lines in Hv as [-> Hl]. by exists k, m.
  - destruct (ends_everywhere SyncDemo.sync_demo os fuel 80 (shows demo_lines)) as (k & m & v & E & Ex & Hv);
      [apply sync_demo_disciplined|done|done|lia|apply demo_ends|]. apply shows_lines in Hv as [-> Hl]. by exists k, m.
Qed.

Lemma examples_succeed_witness : ∃ n m,
  run SyncDemo.sync_demo n (boot SyncDemo.sync_demo other_os 3) = Next SyncDemo.sync_demo m ∧
  step SyncDemo.sync_demo m = Exit SyncDemo.sync_demo 0.
Proof.
  destruct (examples_succeed other_os 3) as [_ (n & m & E & Ex & _)].
  - constructor; intros; [by eexists|reflexivity|reflexivity].
  - reflexivity.
  - exists n, m. split; [exact E|exact Ex].
Defined.
