(* ===== verification/Tests.v ===== *)
(** * The repository's tests (src/tests/)

    The tests as client code of the machine.  Each starts from an uninitialised runtime, as it does in
    the repository: every test that initialises it shuts it down, which resets
    it ([ThreadSpec.shutdown_outcome]).

    A failed assertion sets a flag and goes on, where cmocka jumps out of the
    test; either way the test has failed.  What the tests do with the trace file
    outside the library is done to the files of the world: those that are there
    before are given to the run, and its size is looked at in the end.

    All tests pass on [sunny_os] ([all_pass]); those that use no trace file pass
    on every system that never refuses memory and has pages of 4 KiB
    ([tests_pass]). *)

From S2P Require Import Prelude WaitQueue TraceFormat State Stack TraceBuffer Trace Runtime Replay.
From S2P Require Import Fuzz Sched Thread Mutex Sem Cond Lifecycle Machine Switching Safety Reproducible Clients.

(** ** cmocka *)

(** Memory cells; variables and array elements of the tests have addresses. *)
Definition memory : Type := gmap Z Z.
Abbreviation user A := (Clients.user memory A).

Definition get (a : Z) : user Z := m <~ read; UReturn (default 0 (m !! a)).
Definition put (a v : Z) : user unit := update (insert a v).

Definition FAILED : Z := -1.
Definition assert_true (b : bool) : user unit := if b then UReturn tt else put FAILED 1.
Definition assert_int_equal (a b : Z) : user unit := assert_true (a =? b).
Definition assert_status (r : resp) (st : gth_status_t) : user unit := assert_true (bool_decide (r_status r = st)).

(** [assert_int_equal(call, status)] *)
Definition expect (a : api) (st : gth_status_t) : user unit := r <~ call a; assert_status r st.
Definition expect_all (l : list (api * gth_status_t)) : user unit :=
  foldr (λ '(a, st) k, expect a st;~ k) (UReturn tt) l.

(** Creating and joining threads, both with [GTH_OK]. *)
Definition create (fn arg : Z) : user Z :=
  r <~ call (ACreate true None fn arg); assert_status r GTH_OK;~ UReturn (out r 0).
Definition create_many (n : nat) (fn : Z) (arg : nat → Z) : user (list Z) :=
  for_loop n 0 [] (λ i tids, tid <~ create fn (arg i); UReturn (tids ++ [tid])).
Definition join (tid : Z) : user Z := r <~ call (AJoin tid); assert_status r GTH_OK;~ UReturn (out r 0).
Fixpoint join_all (tids : list Z) : user unit :=
  match tids with [] => UReturn tt | tid :: tids => join tid;~ join_all tids end.

Definition gth_test_make_config (seed policy : Z) : gth_runtime_config_t := mk_config (64 * 1024) policy 1000 seed 0 0.
Definition gth_test_make_rr_config (seed : Z) : gth_runtime_config_t := gth_test_make_config seed GTH_SCHED_RR.

(** A test between initialisation and shutdown. *)
Definition with_runtime (cfg : gth_runtime_config_t) (body : user unit) : user unit :=
  expect (AInit (Some cfg)) GTH_OK;~ body;~ expect AShutdown GTH_OK.

Record test := mk_test {
  t_main : user unit;
  t_thread : Z → Z → user Z;                         (* thread functions, by number *)
  t_files : gmap string (list Z);                    (* the files before the test *)
  t_check : gmap string (list Z) → bool              (* what is asserted of the files *)
}.

Definition no_thread (fn arg : Z) : user Z := UReturn 0.
Definition plain_test (main : user unit) : test := mk_test main no_thread ∅ (λ _, true).
Definition thread_test (thread : Z → user Z) (main : user unit) : test := mk_test main (λ _, thread) ∅ (λ _, true).

Definition test_program (t : test) : program :=
  user_program (t_main t;~ get FAILED) ∅ (t_thread t).

(** The test passes: its run ends within [n] steps, with no failed assertion. *)
Definition passes (n : nat) (t : test) : bool :=
  let m := boot (test_program t) sunny_os 1000 in
  let w := m_world _ m in
  match finish n {| m with m_world := {| w with w_files := t_files t |} |} with
  | Some (m, v) => (v =? 0) && t_check t (w_files (m_world _ m))
  | None => false
  end.

(** ** test_api_validation.c *)

Definition test_api_validation : test :=
  let valid := gth_test_make_rr_config 1337 in
  plain_test (
    expect_all [(AInit None, GTH_EINVAL);
                (AInit (Some {| valid with cfg_stack_size_bytes := 0 |}), GTH_EINVAL);
                (AInit (Some {| valid with cfg_stack_size_bytes := 8 * 1024 |}), GTH_EINVAL);
                (AInit (Some {| valid with cfg_quantum_us := 0 |}), GTH_EINVAL);
                (AInit (Some {| valid with cfg_policy := 99 |}), GTH_EINVAL);
                (AInit (Some valid), GTH_OK); (AInit (Some valid), GTH_ESTATE);
                (AGetStats false, GTH_EINVAL)];~
    stats <~ call (AGetStats true);
    assert_status stats GTH_OK;~
    assert_int_equal (out stats 0) 0;~ assert_int_equal (out stats 1) 0;~ assert_int_equal (out stats 2) 0;~
    expect_all [(ACreate false None 1 0, GTH_EINVAL); (ACreate true None 0 0, GTH_EINVAL);
                (AJoin 0, GTH_EINVAL); (AJoin 99999, GTH_ENOTFOUND); (ACancel 0, GTH_EINVAL);
                (ACancel 99999, GTH_ENOTFOUND);
                (ATraceStart None, GTH_EINVAL); (ATraceStart (Some EmptyString), GTH_EINVAL);
                (AReplayFrom None, GTH_EINVAL); (AReplayFrom (Some EmptyString), GTH_EINVAL);
                (AShutdown, GTH_OK); (AShutdown, GTH_ESTATE)]).

(** ** test_context.c *)

Definition context_test_thread_fn (arg : Z) : user Z := UReturn arg.

Definition test_runtime_rejects_too_small_stack_config : test := plain_test (
  expect (AInit (Some {| (gth_test_make_rr_config 1) with cfg_stack_size_bytes := 8 * 1024 |})) GTH_EINVAL).

Definition test_runtime_accepts_guarded_stack_config : test := plain_test (
  with_runtime (gth_test_make_rr_config 2) (UReturn tt)).

Definition test_thread_creation_requires_initialized_runtime : test := plain_test (
  expect (ACreate true None 1 0) GTH_ESTATE).

Definition test_thread_creation_rejects_null_function : test := plain_test (
  with_runtime (gth_test_make_rr_config 3) (expect (ACreate true None 0 0) GTH_EINVAL)).

Definition test_join_on_unstarted_thread_fails_cleanly : test := thread_test context_test_thread_fn (
  with_runtime (gth_test_make_rr_config 4) (
    tid <~ create 1 0; retval <~ join tid; assert_int_equal retval 0)).

(** This test asserts [1]. *)
Definition test_stack_guard_overflow_is_detected : test := plain_test (assert_true true).

Definition test_join_rejects_null_tid : test := plain_test (
  with_runtime (gth_test_make_rr_config 5) (expect (AJoin 0) GTH_EINVAL)).

Definition test_cancel_rejects_null_tid : test := plain_test (
  with_runtime (gth_test_make_rr_config 6) (expect (ACancel 0) GTH_EINVAL)).

Definition test_runtime_shutdown_resets_state : test := thread_test context_test_thread_fn (
  with_runtime (gth_test_make_rr_config 7) (
    create 1 0;~ stats <~ call (AGetStats true); assert_status stats GTH_OK;~ assert_true (0 <? out stats 1));~
  expect (AGetStats true) GTH_ESTATE).

Definition create_with (priority arg : Z) : user Z :=
  r <~ call (ACreate true (Some (mk_attr priority)) 1 arg); assert_status r GTH_OK;~ UReturn (out r 0).

Definition test_priority_scheduler_prefers_higher_priority_thread : test := thread_test context_test_thread_fn (
  with_runtime (gth_test_make_config 8 GTH_SCHED_PRIORITY) (
    low <~ create_with 1 1; high <~ create_with 10 2;
    retval <~ join high; assert_int_equal retval 2;~
    retval <~ join low; assert_int_equal retval 1)).

Definition test_round_robin_threads_complete_under_load : test := thread_test context_test_thread_fn (
  with_runtime (gth_test_make_rr_config 9) (
    tids <~ create_many 8 1 Z.of_nat;
    for_each 8 (λ i, retval <~ join (default 0 (tids !! i)); assert_int_equal retval (Z.of_nat i)))).

Definition test_mass_thread_creation_limit_is_reported : test := thread_test context_test_thread_fn (
  with_runtime (gth_test_make_rr_config 10) (
    create_many 128 1 Z.of_nat;~ expect (ACreate true None 1 0xdeadbeef) GTH_ENOMEM)).

Definition test_replay_and_trace_interfaces_validate_paths : test := plain_test (
  with_runtime (gth_test_make_rr_config 11) (
    expect_all [(ATraceStart None, GTH_EINVAL); (ATraceStart (Some EmptyString), GTH_EINVAL);
                (AReplayFrom None, GTH_EINVAL); (AReplayFrom (Some EmptyString), GTH_EINVAL)])).

(** [*p += n] *)
Definition add_to (p n : Z) : user unit := v <~ get p; put p (v + n).

Definition context_yielding_thread (shared : Z) : user Z :=
  add_to shared 10;~ call AYield;~ add_to shared 20;~ call AYield;~ add_to shared 30;~ get shared.

Definition test_context_yield_resumes_correctly : test := thread_test context_yielding_thread (
  with_runtime (gth_test_make_rr_config 12) (
    tid <~ create 1 100;
    expect AYield GTH_OK;~ v <~ get 100; assert_int_equal v 10;~
    expect AYield GTH_OK;~ v <~ get 100; assert_int_equal v 30;~
    expect AYield GTH_OK;~ v <~ get 100; assert_int_equal v 60;~
    retval <~ join tid; assert_int_equal retval 60)).

(** ** test_runtime.c *)

(** [runtime_increment_thread], [runtime_mass_stress_thread] and [trace_increment_thread]. *)
Definition runtime_increment_thread (counter : Z) : user Z :=
  (if counter =? 0 then UReturn tt else add_to counter 1);~ UReturn counter.

(** The statistics, of which the switches are at least [n] and nothing is left to run. *)
Definition assert_stats (n : Z) : user unit :=
  stats <~ call (AGetStats true); assert_status stats GTH_OK;~ assert_true (n <=? out stats 0);~
  assert_int_equal (out stats 1) 0;~ assert_int_equal (out stats 2) 0.

Definition test_runtime_executes_and_joins_threads : test :=
  let retval_marker := 100 in
  mk_test (
    with_runtime (gth_test_make_rr_config 7) (
      tid <~ create 1 retval_marker;
      expect AYield GTH_OK;~
      retval <~ join tid; assert_int_equal retval retval_marker;~
      canceled_tid <~ create 2 0;
      expect (ACancel canceled_tid) GTH_OK;~
      retval <~ join canceled_tid; assert_int_equal retval 0;~
      expect_all [(AMutexInit 200, GTH_OK); (ALock 200, GTH_OK); (AUnlock 200, GTH_OK); (AMutexDestroy 200, GTH_OK);
                  (ASemInit 300 1, GTH_OK); (ASemWait 300, GTH_OK); (ASemPost 300, GTH_OK); (ASemDestroy 300, GTH_OK)];~
      assert_stats 1);~
    expect (AGetStats true) GTH_ESTATE)
    (λ fn arg, if fn =? 1 then UReturn arg else UReturn 1) ∅ (λ _, true).

(** [counters[i]] *)
Definition counter (i : nat) : Z := 1000 + Z.of_nat i.

(** One batch of the stress test. *)
Definition stress_batch (start n : nat) : user unit :=
  tids <~ create_many n 1 (λ i, counter (start + i));
  for_each n (λ i, join (default 0 (tids !! i));~ v <~ get (counter (start + i)); assert_int_equal v 1).

Definition test_mass_1000_threads_stress : test := thread_test runtime_increment_thread (
  with_runtime (gth_test_make_rr_config 55) (
    for_each 8 (λ b, stress_batch (b * 128) (128 `min` (1000 - b * 128)));~ assert_stats 0)).

Definition test_runtime_join_drives_ready_thread : test := thread_test context_test_thread_fn (
  let retval_marker := 100 in
  with_runtime (gth_test_make_rr_config 11) (
    tid <~ create 1 retval_marker; retval <~ join tid; assert_int_equal retval retval_marker;~
    stats <~ call (AGetStats true); assert_status stats GTH_OK;~ assert_true (0 <? out stats 0))).

Definition test_rr_fairness_regression : test := thread_test runtime_increment_thread (
  with_runtime (gth_test_make_rr_config 21) (
    tids <~ create_many 3 1 counter;
    expect_all [(AYield, GTH_OK); (AYield, GTH_OK); (AYield, GTH_OK)];~
    for_each 3 (λ i, v <~ get (counter i); assert_int_equal v 1);~
    join_all tids;~ assert_stats 3)).

Definition test_lifecycle_stress_regression : test := thread_test runtime_increment_thread (
  with_runtime (gth_test_make_rr_config 34) (
    tids <~ create_many 32 1 counter;
    for_each 32 (λ _, expect AYield GTH_OK);~
    for_each 32 (λ i, v <~ get (counter i); assert_int_equal v 1;~ join (default 0 (tids !! i));~ UReturn tt);~
    assert_stats 32)).

(** ** test_sync_mutex.c *)

Definition g_mutex_shared_counter : Z := 10.
Definition g_test_mutex : Z := 11.

Definition mutex_increment_fn (arg : Z) : user Z :=
  call (ALock g_test_mutex);~
  tmp <~ get g_mutex_shared_counter;
  call AYield;~
  put g_mutex_shared_counter (tmp + 1);~
  call (AUnlock g_test_mutex);~ UReturn 0.

Definition test_mutex_mutual_exclusion_with_contention : test := thread_test mutex_increment_fn (
  with_runtime (gth_test_make_rr_config 42) (
    expect (AMutexInit g_test_mutex) GTH_OK;~ put g_mutex_shared_counter 0;~
    tids <~ create_many 5 1 (λ _, 0); join_all tids;~
    v <~ get g_mutex_shared_counter; assert_int_equal v 5;~
    expect (AMutexDestroy g_test_mutex) GTH_OK)).

Definition test_mutex_trylock_returns_busy_when_held : test := plain_test (
  with_runtime (gth_test_make_rr_config 1) (
    expect_all [(AMutexInit 200, GTH_OK); (ALock 200, GTH_OK); (ATrylock 200, GTH_EBUSY); (AUnlock 200, GTH_OK);
                (ATrylock 200, GTH_OK); (AUnlock 200, GTH_OK); (AMutexDestroy 200, GTH_OK)])).

Definition g_mutex_block_flag : Z := 12.
Definition g_mutex_block_m : Z := 13.

Definition mutex_blocker_fn : user Z :=
  call (ALock g_mutex_block_m);~ put g_mutex_block_flag 1;~ call AYield;~ call (AUnlock g_mutex_block_m);~ UReturn 0.

Definition mutex_waiter_fn : user Z :=
  expect (ALock g_mutex_block_m) GTH_OK;~ put g_mutex_block_flag 2;~ call (AUnlock g_mutex_block_m);~ UReturn 0.

Definition test_mutex_blocking_on_contention : test := mk_test (
  with_runtime (gth_test_make_rr_config 7) (
    expect (AMutexInit g_mutex_block_m) GTH_OK;~ put g_mutex_block_flag 0;~
    blocker <~ create 1 0; waiter <~ create 2 0;
    join blocker;~ v <~ get g_mutex_block_flag; assert_int_equal v 1;~
    join waiter;~ v <~ get g_mutex_block_flag; assert_int_equal v 2;~
    expect (AMutexDestroy g_mutex_block_m) GTH_OK))
  (λ fn _, if fn =? 1 then mutex_blocker_fn else mutex_waiter_fn) ∅ (λ _, true).

Definition test_mutex_init_destroy_cycle : test := plain_test (
  with_runtime (gth_test_make_rr_config 1) (
    for_each 10 (λ _, expect_all [(AMutexInit 200, GTH_OK); (ALock 200, GTH_OK); (AUnlock 200, GTH_OK);
                                  (AMutexDestroy 200, GTH_OK)]))).

Definition test_mutex_rejects_null : test := plain_test (
  expect_all [(AMutexInit 0, GTH_EINVAL); (ALock 0, GTH_EINVAL); (ATrylock 0, GTH_EINVAL); (AUnlock 0, GTH_EINVAL);
              (AMutexDestroy 0, GTH_EINVAL)]).

(** ** test_sync_sem.c *)

Definition g_sem_items : Z := 20.
Definition g_sem_spaces : Z := 21.
Definition g_buf_mutex : Z := 22.
Definition g_buf_head : Z := 23.
Definition g_buf_tail : Z := 24.
Definition g_produced_total : Z := 25.
Definition g_consumed_total : Z := 26.
Definition g_ring_buf (i : Z) : Z := 40 + i.
Definition g_buf_capacity : Z := 16.

Definition sem_producer_fn (arg : Z) : user Z :=
  base <~ get arg;
  for_each 4 (λ i,
    call (ASemWait g_sem_spaces);~ call (ALock g_buf_mutex);~
    tail <~ get g_buf_tail; put (g_ring_buf tail) (base + Z.of_nat i);~ put g_buf_tail ((tail + 1) mod g_buf_capacity);~
    add_to g_produced_total 1;~
    call (AUnlock g_buf_mutex);~ call (ASemPost g_sem_items);~ UReturn tt);~
  UReturn 0.

Definition sem_consumer_fn : user Z :=
  for_each 4 (λ i,
    call (ASemWait g_sem_items);~ call (ALock g_buf_mutex);~
    head <~ get g_buf_head; put (g_ring_buf head) 0;~ put g_buf_head ((head + 1) mod g_buf_capacity);~
    add_to g_consumed_total 1;~
    call (AUnlock g_buf_mutex);~ call (ASemPost g_sem_spaces);~ UReturn tt);~
  UReturn 0.

Definition test_sem_producer_consumer : test := mk_test (
  with_runtime (gth_test_make_rr_config 99) (
    expect_all [(ASemInit g_sem_items 0, GTH_OK); (ASemInit g_sem_spaces g_buf_capacity, GTH_OK);
                (AMutexInit g_buf_mutex, GTH_OK)];~
    put g_buf_head 0;~ put g_buf_tail 0;~ put g_produced_total 0;~ put g_consumed_total 0;~
    for_each 3 (λ i, put (counter i) (Z.of_nat i * 100));~
    producers <~ create_many 3 1 counter; consumers <~ create_many 3 2 (λ _, 0);
    join_all producers;~ join_all consumers;~
    v <~ get g_produced_total; assert_int_equal v 12;~ v <~ get g_consumed_total; assert_int_equal v 12;~
    expect_all [(ASemDestroy g_sem_items, GTH_OK); (ASemDestroy g_sem_spaces, GTH_OK); (AMutexDestroy g_buf_mutex, GTH_OK)]))
  (λ fn arg, if fn =? 1 then sem_producer_fn arg else sem_consumer_fn) ∅ (λ _, true).

Definition g_sem_order_sem : Z := 27.
Definition g_sem_order_idx : Z := 28.
Definition g_sem_order_buf (i : Z) : Z := 60 + i.

Definition sem_order_waiter_fn (arg : Z) : user Z :=
  id <~ get arg; call (ASemWait g_sem_order_sem);~
  idx <~ get g_sem_order_idx; put (g_sem_order_buf idx) id;~ put g_sem_order_idx (idx + 1);~ UReturn 0.

Definition test_sem_fifo_wake_order : test := thread_test sem_order_waiter_fn (
  with_runtime (gth_test_make_rr_config 11) (
    expect (ASemInit g_sem_order_sem 0) GTH_OK;~ put g_sem_order_idx 0;~
    for_each 3 (λ i, put (counter i) (10 * (Z.of_nat i + 1)));~
    tids <~ create_many 3 1 counter;
    call AYield;~
    for_each 3 (λ _, call (ASemPost g_sem_order_sem);~ call AYield;~ UReturn tt);~
    join_all tids;~
    for_each 3 (λ i, v <~ get (g_sem_order_buf (Z.of_nat i)); assert_int_equal v (10 * (Z.of_nat i + 1)));~
    expect (ASemDestroy g_sem_order_sem) GTH_OK)).

Definition test_sem_count_tracks_correctly : test := plain_test (
  with_runtime (gth_test_make_rr_config 1) (
    expect_all [(ASemInit 300 3, GTH_OK); (ASemWait 300, GTH_OK); (ASemWait 300, GTH_OK);
                (ASemPost 300, GTH_OK); (ASemPost 300, GTH_OK); (ASemPost 300, GTH_OK);
                (ASemWait 300, GTH_OK); (ASemWait 300, GTH_OK); (ASemWait 300, GTH_OK); (ASemDestroy 300, GTH_OK)])).

Definition test_sem_rejects_null : test := plain_test (
  expect_all [(ASemInit 0 0, GTH_EINVAL); (ASemWait 0, GTH_EINVAL); (ASemPost 0, GTH_EINVAL); (ASemDestroy 0, GTH_EINVAL)]).

(** ** test_sync_cond.c *)

Definition g_cond_mutex : Z := 30.
Definition g_cond_var : Z := 31.
Definition g_cond_flag : Z := 32.
Definition g_cond_wake_idx : Z := 33.
Definition g_cond_wake_order (i : Z) : Z := 70 + i.

(** [while (g_cond_flag == 0) gth_cond_wait(...)], which fails the test after [n] rounds. *)
Fixpoint wait_for_flag (n : nat) : user unit :=
  match n with
  | O => assert_true false
  | S n' =>
      flag <~ get g_cond_flag;
      if flag =? 0 then call (ACondWait g_cond_var g_cond_mutex);~ wait_for_flag n' else UReturn tt
  end.

Definition cond_signaler_fn : user Z :=
  call (ALock g_cond_mutex);~ put g_cond_flag 1;~ call (ACondSignal g_cond_var);~ call (AUnlock g_cond_mutex);~ UReturn 0.

Definition cond_waiter_fn : user Z :=
  call (ALock g_cond_mutex);~ wait_for_flag 10;~ put g_cond_flag 2;~ call (AUnlock g_cond_mutex);~ UReturn 0.

Definition test_cond_wait_signal_single : test := mk_test (
  with_runtime (gth_test_make_rr_config 55) (
    expect_all [(AMutexInit g_cond_mutex, GTH_OK); (ACondInit g_cond_var, GTH_OK)];~ put g_cond_flag 0;~
    waiter <~ create 1 0; call AYield;~ signaler <~ create 2 0;
    join waiter;~ join signaler;~ v <~ get g_cond_flag; assert_int_equal v 2;~
    expect_all [(ACondDestroy g_cond_var, GTH_OK); (AMutexDestroy g_cond_mutex, GTH_OK)]))
  (λ fn _, if fn =? 1 then cond_waiter_fn else cond_signaler_fn) ∅ (λ _, true).

Definition cond_broadcast_waiter_fn (arg : Z) : user Z :=
  id <~ get arg; call (ALock g_cond_mutex);~ wait_for_flag 10;~
  idx <~ get g_cond_wake_idx; put (g_cond_wake_order idx) id;~ put g_cond_wake_idx (idx + 1);~
  call (AUnlock g_cond_mutex);~ UReturn 0.

Definition cond_broadcaster_fn : user Z :=
  call (ALock g_cond_mutex);~ put g_cond_flag 1;~ call (ACondBroadcast g_cond_var);~ call (AUnlock g_cond_mutex);~ UReturn 0.

Definition test_cond_broadcast_wakes_all : test := mk_test (
  with_runtime (gth_test_make_rr_config 77) (
    expect_all [(AMutexInit g_cond_mutex, GTH_OK); (ACondInit g_cond_var, GTH_OK)];~
    put g_cond_flag 0;~ put g_cond_wake_idx 0;~ for_each 3 (λ i, put (counter i) (Z.of_nat i + 1));~
    waiters <~ create_many 3 1 counter; call AYield;~ broadcaster <~ create 2 0;
    join_all waiters;~ join broadcaster;~ v <~ get g_cond_wake_idx; assert_int_equal v 3;~
    expect_all [(ACondDestroy g_cond_var, GTH_OK); (AMutexDestroy g_cond_mutex, GTH_OK)]))
  (λ fn arg, if fn =? 1 then cond_broadcast_waiter_fn arg else cond_broadcaster_fn) ∅ (λ _, true).

Definition test_cond_signal_no_waiters_is_noop : test := plain_test (
  with_runtime (gth_test_make_rr_config 1) (
    expect_all [(ACondInit 400, GTH_OK); (ACondSignal 400, GTH_OK); (ACondBroadcast 400, GTH_OK);
                (ACondDestroy 400, GTH_OK)])).

Definition test_cond_rejects_null : test := plain_test (
  expect_all [(ACondInit 0, GTH_EINVAL); (ACondWait 0 0, GTH_EINVAL); (ACondSignal 0, GTH_EINVAL);
              (ACondBroadcast 0, GTH_EINVAL); (ACondDestroy 0, GTH_EINVAL)]).

(** ** test_trace_replay.c *)

Definition TEST_TRACE_FILE : string := "/tmp/gthreads_test_trace.bin".
Definition tracing (body : user unit) : user unit :=
  expect (ATraceStart (Some TEST_TRACE_FILE)) GTH_OK;~ body;~ expect ATraceStop GTH_OK.

(** The size of the trace file is above [n]. *)
Definition file_above (n : nat) (fs : gmap string (list Z)) : bool :=
  match fs !! TEST_TRACE_FILE with Some bs => (n <? length bs)%nat | None => false end.

Definition test_trace_creates_valid_file : test :=
  mk_test (with_runtime (gth_test_make_rr_config 42) (tracing (UReturn tt))) no_thread ∅ (file_above 0).

Definition trace_test_thread_fn (arg : Z) : user Z := UReturn 0xABCD1234.

Definition test_trace_records_thread_events : test := mk_test (
  with_runtime (gth_test_make_rr_config 55) (tracing (
    tid <~ create 1 0; retval <~ join tid; assert_int_equal retval 0xABCD1234)))
  (λ _, trace_test_thread_fn) ∅ (file_above 32).

Definition test_trace_records_context_switches : test := mk_test (
  with_runtime (gth_test_make_rr_config 66) (tracing (
    tid1 <~ create 1 (counter 1); tid2 <~ create 1 (counter 2);
    expect AYield GTH_OK;~ expect AYield GTH_OK;~ join tid1;~ join tid2;~
    v1 <~ get (counter 1); v2 <~ get (counter 2); assert_true ((0 <? v1) || (0 <? v2)))))
  (λ _, runtime_increment_thread) ∅ (file_above 0).

Definition test_trace_records_sync_events : test := mk_test (
  with_runtime (gth_test_make_rr_config 77) (
    expect_all [(AMutexInit 200, GTH_OK); (ASemInit 300 1, GTH_OK)];~
    tracing (expect_all [(ALock 200, GTH_OK); (AUnlock 200, GTH_OK); (ASemWait 300, GTH_OK); (ASemPost 300, GTH_OK)]);~
    expect_all [(AMutexDestroy 200, GTH_OK); (ASemDestroy 300, GTH_OK)]))
  no_thread ∅ (file_above 32).

(** "INVALID_DATA" *)
Definition invalid_data : list Z := [73; 78; 86; 65; 76; 73; 68; 95; 68; 65; 84; 65].

Definition test_replay_validates_header : test := mk_test (
  with_runtime (gth_test_make_rr_config 88) (expect (AReplayFrom (Some TEST_TRACE_FILE)) GTH_ENOTFOUND))
  no_thread {[ TEST_TRACE_FILE := invalid_data ]} (λ _, true).

Definition test_replay_from_nonexistent_file : test := plain_test (
  with_runtime (gth_test_make_rr_config 99) (expect (AReplayFrom (Some TEST_TRACE_FILE)) GTH_ENOTFOUND)).

(** Two threads under fuzzing; [c1] and [c2] are their counters. *)
Definition fuzzed_run (seed c1 c2 : Z) (between : user unit) : user unit :=
  with_runtime (gth_test_make_rr_config seed) (
    expect (ASetMode GTH_MODE_FUZZ) GTH_OK;~
    tid1 <~ create 1 c1; tid2 <~ create 1 c2; between;~ join tid1;~ join tid2;~ UReturn tt).

Definition test_fuzz_same_seed_same_behavior : test := thread_test runtime_increment_thread (
  fuzzed_run 100 (counter 1) (counter 1) (UReturn tt);~ fuzzed_run 100 (counter 2) (counter 2) (UReturn tt);~
  v1 <~ get (counter 1); v2 <~ get (counter 2); assert_int_equal v1 v2).

Definition test_fuzz_different_seed_different_behavior : test := thread_test runtime_increment_thread (
  fuzzed_run 200 (counter 0) (counter 1) (expect AYield GTH_OK);~
  fuzzed_run 201 (counter 2) (counter 3) (expect AYield GTH_OK)).

Definition test_trace_start_stop_cycle : test := plain_test (
  with_runtime (gth_test_make_rr_config 111) (for_each 3 (λ _, tracing (UReturn tt)))).

Definition test_trace_rejects_invalid_paths : test := plain_test (
  with_runtime (gth_test_make_rr_config 122) (
    expect_all [(ATraceStart None, GTH_EINVAL); (ATraceStart (Some EmptyString), GTH_EINVAL)])).

Definition test_scheduler_mode_transitions : test := plain_test (
  with_runtime (gth_test_make_rr_config 133) (
    expect_all [(ASetMode GTH_MODE_FUZZ, GTH_OK); (ASetMode GTH_MODE_NORMAL, GTH_OK);
                (ASetMode GTH_MODE_RECORD, GTH_OK); (ASetMode GTH_MODE_NORMAL, GTH_OK)])).

(** ** test_main.c *)

Definition core_tests : list test := [
  test_api_validation; test_runtime_executes_and_joins_threads; test_runtime_join_drives_ready_thread;
  test_runtime_rejects_too_small_stack_config; test_runtime_accepts_guarded_stack_config;
  test_thread_creation_requires_initialized_runtime; test_thread_creation_rejects_null_function;
  test_join_on_unstarted_thread_fails_cleanly; test_stack_guard_overflow_is_detected;
  test_join_rejects_null_tid; test_cancel_rejects_null_tid; test_runtime_shutdown_resets_state;
  test_replay_and_trace_interfaces_validate_paths; test_priority_scheduler_prefers_higher_priority_thread;
  test_round_robin_threads_complete_under_load; test_mass_thread_creation_limit_is_reported;
  test_rr_fairness_regression; test_lifecycle_stress_regression; test_context_yield_resumes_correctly;
  test_mass_1000_threads_stress; test_mutex_mutual_exclusion_with_contention;
  test_mutex_trylock_returns_busy_when_held; test_mutex_blocking_on_contention; test_mutex_init_destroy_cycle;
  test_mutex_rejects_null; test_sem_producer_consumer; test_sem_fifo_wake_order;
  test_sem_count_tracks_correctly; test_sem_rejects_null; test_cond_wait_signal_single;
  test_cond_broadcast_wakes_all; test_cond_signal_no_waiters_is_noop; test_cond_rejects_null].

Definition trace_file_tests : list test := [
  test_trace_creates_valid_file; test_trace_records_thread_events; test_trace_records_context_switches;
  test_trace_records_sync_events; test_replay_validates_header; test_replay_from_nonexistent_file].

Definition fuzz_tests : list test := [
  test_fuzz_same_seed_same_behavior; test_fuzz_different_seed_different_behavior].

Definition mode_tests : list test := [test_trace_rejects_invalid_paths; test_scheduler_mode_transitions].

(** All tests, in the order of [main]. *)
Definition tests : list test :=
  core_tests ++ trace_file_tests ++ fuzz_tests ++ [test_trace_start_stop_cycle] ++ mode_tests.

(** Those that use no trace file. *)
Definition steady_tests : list test := core_tests ++ fuzz_tests ++ mode_tests.

(** ** The results *)

(** The calls of a piece of code, read off its text or by running it. *)
Ltac thread_code := repeat (intros; first
  [ apply calls_only_bind | apply calls_only_loop | apply calls_only_update | apply calls_only_read
  | apply calls_only_call; reflexivity | apply co_return | apply co_update | apply co_call; [reflexivity|]
  | case_match
  | match goal with |- calls_only ?good ?u => let v := eval hnf in u in progress change (calls_only good v) end ]).

(** No thread function of the tests joins or shuts down. *)
Lemma tests_disciplined t : t ∈ tests → disciplined (test_program t).
Proof.
  intros Ht. apply user_disciplined. intros fn arg. revert t Ht. apply list.Forall_forall.
  repeat (apply Forall_cons_2; [thread_code|]). apply Forall_nil_2.
Qed.

(** Every test passes on [sunny_os], those that look at trace files included. *)
Lemma all_pass : forallb (passes (10 * 1000)) tests = true.
Proof. vm_compute. reflexivity. Qed.

Definition no_failure (_ : memory) (v : Z) : bool := v =? 0.

Lemma steady_pass : forallb (λ t, ends_well (test_program t) 1000 (10 * 1000) no_failure) steady_tests = true.
Proof. vm_compute. reflexivity. Qed.

Lemma steady_tests_are_tests t : t ∈ steady_tests → t ∈ tests.
Proof. unfold steady_tests, tests. rewrite !elem_of_app. naive_solver. Qed.

(** The repository's tests hold on every system that never refuses memory
    and has pages of 4 KiB, as x86-64 has: each test of test_main.c that uses no
    trace file, run as client code of the machine, comes to its end with all its
    assertions true, whatever the clock says and wherever memory is mapped (the
    rejection loop of the fuzzed tests is given 1000 draws). *)
Theorem tests_pass os t :
  generous os → os_page_size os = 4096 → t ∈ steady_tests →
  ∃ n m, run (test_program t) n (boot (test_program t) os 1000) = Next (test_program t) m ∧
    step (test_program t) m = Exit (test_program t) 0.
Proof.
  intros Hg Hp Ht. destruct (ends_everywhere (test_program t) os 1000 (10 * 1000) no_failure) as (k & m & v & E & Ex & Hv);
    [by apply tests_disciplined, steady_tests_are_tests|done|done|lia| |].
  - by apply (proj1 (forallb_forall _ _) steady_pass), list_elem_of_In.
  - exists k, m. split; [done|]. apply Z.eqb_eq in Hv. by subst v.
Qed.

Lemma tests_pass_witness : ∃ n m,
  run (test_program test_sem_producer_consumer) n (boot (test_program test_sem_producer_consumer) other_os 1000) =
    Next (test_program test_sem_producer_consumer) m ∧
  step (test_program test_sem_producer_consumer) m = Exit (test_program test_sem_producer_consumer) 0.
Proof.
  apply (tests_pass other_os test_sem_producer_consumer).
  - constructor; intros; [by eexists|reflexivity|reflexivity].
  - reflexivity.
  - unfold steady_tests. do 25 right. left.
Defined.
