(* ===== verification/Findings.v ===== *)
(** * Behaviours that differ from what the code means to do

    Two of them for every consistent state: a join from a green thread loses
    the point at which main is suspended, and a post is lost on a cancelled
    waiter.  Then closed runs of the machine and of single functions, decided by
    evaluating the definitions. *)

From S2P Require Import Prelude WaitQueue TraceFormat State Stack TraceBuffer Trace Runtime Replay.
From S2P Require Import Fuzz Sched Thread Mutex Sem Cond Lifecycle Machine Scripts Invariant Ops Switching Safety.
From S2P Require Import SyncSpec Frame ThreadSpec Exclusion Agree Lockstep.

(** ** Joining from a green thread *)







(** The runs of the witness: main creates two threads and joins the first,
    which joins the second. *)
Definition nested : program := script_program
  [AInit (Some demo_config); ACreate true None 1 0; ACreate true None 2 0; AJoin 1]
  (λ fn, if fn =? 1 then [AJoin 2; AYield] else [AYield]).

(** The first [n] steps start in states whose next call is no join and no shutdown from a green thread. *)
Fixpoint safe_run {P} (n : nat) (m : machine P) : bool :=
  match n with
  | O => true
  | S n' => safe_now P m && match step P m with Next _ m1 => safe_run n' m1 | _ => false end
  end.

Lemma safe_run_ok P n : ∀ m b,
  mach_ok P m → rt_next_tid (w_rt (m_world P m)) ≤ b → 0 < b → b + Z.of_nat n < 2 ^ 64 - 1 → safe_run n m = true →
  ∃ m', run P n m = Next P m' ∧ mach_ok P m'.
Proof.
  induction n as [|n IH]; intros m b Hm Hb Hpos Hlt Hs; [by exists m|]. cbn [safe_run run] in *.
  apply andb_true_iff in Hs as [Hnow Hs]. pose proof (safe_step_preserves P m Hm ltac:(unfold tid_room; lia) Hnow) as Hok.
  destruct (step P m) as [m1| | |]; try done. destruct Hok as [Hm1 Hb1]. apply (IH m1 (b + 1)); try done; lia.
Qed.

(** A run that goes on, as its last machine. *)
Lemma machine_after_ok P os fuel n :
  Z.of_nat n < 2 ^ 64 - 2 → safe_run n (boot P os fuel) = true → mach_ok P (machine_after n (boot P os fuel)).
Proof.
  intros Hn Hs. destruct (safe_run_ok P n (boot P os fuel) 1 (boot_ok P os fuel)) as (m & E & Hm); [cbn; lia|lia|lia|done|].
  unfold machine_after. by rewrite E.
Qed.


(** ** Posting to a cancelled waiter *)

(** A post that finds at the head of the queue a slot whose thread is not
    blocked drops it and wakes nobody. *)
Lemma post_dead_waiter s slot q i t w :
  world_ok w → s ≠ 0 → sm_initialized (sem_at w s) ≠ 0 → wq_elems (sm_wq (sem_at w s)) = slot :: q →
  i = Z.to_nat slot → rt_threads (w_rt w) !! i = Some t → is_blocked t = false →
  returns (gth_sem_post s) w (λ st w', st = GTH_OK ∧ rt_threads (w_rt w') = rt_threads (w_rt w) ∧
    sm_count (sem_at w' s) = sm_count (sem_at w s) ∧ wq_elems (sm_wq (sem_at w' s)) = q).
Proof.
  intros Hw Hnz Hini Hq -> Ht Hb. destruct (so_sem _ (wo_sync _ Hw) s Hini) as (Hwq & _ & _).
  unfold gth_sem_post. destruct (Z.eqb_spec s 0); [done|]. apply returns_bind, returns_gets.
  destruct (Z.eqb_spec (sm_initialized (sem_at w s)) 0); [done|]. apply returns_bind, returns_gets.
  rewrite gth_wq_is_empty_spec by apply Hwq. rewrite Hq. cbn [negb].
  destruct (wq_ok_dequeue _ Hwq) as (wq' & E & Hwq' & Hel). rewrite Hq in E, Hel. cbn in E, Hel.
  apply returns_bind. eapply returns_deref; [exact E|]. cbn [fst snd]. apply returns_bind, returns_modify.
  set (w1 := set_sem s {| (sem_at w s) with sm_wq := wq' |} w).
  assert (H1 : rt_threads (w_rt w1) = rt_threads (w_rt w) ∧ sem_at w1 s = {| (sem_at w s) with sm_wq := wq' |}).
  { split; [done|]. unfold w1, sem_at, set_sem. cbn. by rewrite lookup_insert_eq. }
  clearbody w1. destruct H1 as [Hts1 Es1].
  assert (Hgoal : ∀ w2, untrace w2 = untrace w1 → GTH_OK = GTH_OK ∧ rt_threads (w_rt w2) = rt_threads (w_rt w) ∧
    sm_count (sem_at w2 s) = sm_count (sem_at w s) ∧ wq_elems (sm_wq (sem_at w2 s)) = q).
  { intros w2 E2. assert (sem_at w2 s = sem_at w1 s) as -> by (unfold sem_at; by rewrite (ut_sems _ _ E2)).
    rewrite Es1, (ut_threads _ _ E2). done. }
  apply returns_bind. destruct (negb (slot =? 255)).
  - apply returns_bind, returns_modify. unfold gth_trace_sem_wake. set (w2 := gth_trace_record _ _ _ _ w1).
    assert (E2 : untrace w2 = untrace w1) by apply untrace_record. clearbody w2.
    assert (Hun : ∃ st, gth_thread_unblock_slot (Z.to_nat slot) w2 = Done (st, w2)).
    { unfold gth_thread_unblock_slot. destruct (negb _); [by eexists|]. destruct (_ <=? _)%nat; [by eexists|].
      unfold bind, thread_at, deref. rewrite (ut_threads _ _ E2), Hts1, Ht, Hb. by eexists. }
    destruct Hun as [st Hun]. unfold returns, bind, ret, modify. rewrite Hun. apply Hgoal.
    unfold gth_trace_sem_post. by rewrite untrace_record.
  - unfold returns, bind, ret, modify. apply Hgoal. unfold gth_trace_sem_post. by rewrite untrace_record.
Qed.

Definition cancel_then_post (tid s : Z) : M (gth_status_t * gth_status_t) :=
  st1 <- gth_thread_cancel tid;; st2 <- gth_sem_post s;; ret (st1, st2).

(** C40. A post is lost on a cancelled waiter.  Take any consistent state with a
    thread blocked at the head of a semaphore's queue, and any number of threads
    waiting behind it.  Cancel that thread and post: both calls succeed, but the
    post goes to the cancelled thread.  The count stays at 0, and the threads
    that wait are as blocked as before; the only change is the cancellation. *)
Theorem cancelled_waiter_takes_the_post cur s slot q i t w :
  world_ok w → cur_ok cur (w_rt w) → rt_initialized (w_rt w) = true →
  s ≠ 0 → sm_initialized (sem_at w s) ≠ 0 → wq_elems (sm_wq (sem_at w s)) = slot :: q →
  i = Z.to_nat slot → rt_threads (w_rt w) !! i = Some t → is_blocked t = true →
  returns (cancel_then_post (th_tid t) s) w (λ r w',
    r = (GTH_OK, GTH_OK) ∧ rt_threads (w_rt w') = <[i := canceled t]> (rt_threads (w_rt w)) ∧
    sm_count (sem_at w' s) = 0 ∧ wq_elems (sm_wq (sem_at w' s)) = q).
Proof.
  intros Hw Hc Hrt Hnz Hini Hq Hi Ht Hb. destruct (so_sem _ (wo_sync _ Hw) s Hini) as (_ & _ & Hcount).
  assert (Hzero : sm_count (sem_at w s) = 0) by (destruct Hcount as [|Hn]; [done|by rewrite Hq in Hn]).
  pose proof (wo_table _ Hw) as Htab. unfold cancel_then_post. apply returns_bind.
  eapply returns_mono; [apply returns_and; [apply (cancel_spec cur (th_tid t) w Hw Hc)|apply (keeps_cancel cur (th_tid t) w Hw Hc)]|].
  intros st1 w1 [H1 Hok]. cbn beta in H1. rewrite Hrt in H1. cbn [negb] in H1.
  assert (Hfind : gth_runtime_find_thread (w_rt w) (th_tid t) = Some i ∧ th_tid t ≠ 0).
  { assert (He : is_empty t = false) by (unfold is_blocked, is_empty in *; by destruct (th_state t)).
    split; [by apply find_thread_unique|]. pose proof (tb_tid _ _ _ _ _ _ Htab i t Ht He). lia. }
  destruct Hfind as [Hfind Htid]. destruct (Z.eqb_spec (th_tid t) 0); [done|]. rewrite Hfind in H1.
  destruct H1 as (t' & Ht' & _ & H1). assert (t' = t) as -> by congruence.
  assert (gth_thread_is_terminal (th_state t) = false) as Hterm by (unfold is_blocked in Hb; by destruct (th_state t)).
  rewrite Hterm in H1. destruct H1 as (-> & Hts & _ & _ & [= _ Hsem _]).
  assert (Es : sem_at w1 s = sem_at w s) by (unfold sem_at; by rewrite Hsem).
  apply returns_bind. eapply returns_mono.
  { apply (post_dead_waiter s slot q i (canceled t) w1); rewrite ?Es; try done; [apply Hok|].
    rewrite Hts. apply list_lookup_insert_eq. by eapply lookup_lt_Some. }
  intros st2 w2 (-> & Hts2 & Hc2 & Hq2). cbn. split_and!; [done|by rewrite Hts2, Hts|by rewrite Hc2, Es, Hzero|done].
Qed.

(** Main, after a thread has started to wait for semaphore 5. *)
Definition waiting : program := script_program
  [AInit (Some demo_config); ASemInit 5 0; ACreate true None 1 0; AYield; ASelf] (λ _, [ASemWait 5]).

Definition waiting_machine : machine waiting := machine_after 6 (boot waiting sunny_os 0).

Lemma waiting_machine_ok : mach_ok waiting waiting_machine.
Proof. apply machine_after_ok; [cbn; lia|vm_compute; reflexivity]. Qed.

Definition waiter : gth_thread_record_t :=
  default thread_zero (rt_threads (w_rt (m_world waiting waiting_machine)) !! 0%nat).

Lemma waiting_machine_cur : cur_ok None (w_rt (m_world waiting waiting_machine)).
Proof.
  assert (Er : m_run waiting waiting_machine = Main) by (vm_compute; reflexivity).
  assert (Eu : ∃ u tid, m_ctl waiting waiting_machine (m_run waiting waiting_machine) = Some (mk_ctl waiting tid (User waiting u)))
    by (exists ([ASelf], [status GTH_OK; mk_resp GTH_OK [1]; status GTH_OK; status GTH_OK]), 0; vm_compute; reflexivity).
  destruct Eu as (u & Eu). destruct (user_call_ok _ _ u waiting_machine_ok Eu) as (_ & Hc & _). by rewrite Er in Hc.
Qed.

Lemma cancelled_waiter_takes_the_post_witness :
  returns (cancel_then_post (th_tid waiter) 5) (m_world waiting waiting_machine)
    (λ r w', r = (GTH_OK, GTH_OK) ∧ sm_count (sem_at w' 5) = 0 ∧ wq_elems (sm_wq (sem_at w' 5)) = []).
Proof.
  eapply returns_mono; [apply (cancelled_waiter_takes_the_post None 5 0 [] 0 waiter)|].
  - apply (mo_world _ _ waiting_machine_ok).
  - exact waiting_machine_cur.
  - vm_compute. reflexivity.
  - congruence.
  - vm_compute. congruence.
  - vm_compute. reflexivity.
  - reflexivity.
  - vm_compute. reflexivity.
  - vm_compute. reflexivity.
  - intros r w' (H1 & _ & H2 & H3). split; [exact H1|]. split; [exact H2|exact H3].
Defined.

(** ** Closed runs *)

Definition is_fault {P} (r : step_result P) : bool := match r with Fault _ => true | _ => false end.

Definition start_script (main : list api) (threads : Z → list api) (n : nat) :=
  run (script_program main threads) n (boot (script_program main threads) sunny_os 0).

(** After a nested join, the second switch to the scheduler lands in a context that has already been left. *)
Lemma nested_join_faults : is_fault (run nested 11 (boot nested sunny_os 0)) = true.
Proof. by vm_compute. Qed.

(** The lost post, seen by a program: the second waiter, which comes after the post, is never woken.
    The last answer is that of joining it. *)
Lemma post_never_arrives :
  main_statuses (start_script
    [AInit (Some demo_config); ASemInit 5 0; ACreate true None 1 0; AYield; ACancel 1; ASemPost 5;
     ACreate true None 1 0; AJoin 2]
    (λ _, [ASemWait 5]) 12) =
  Some [(GTH_OK, []); (GTH_OK, []); (GTH_OK, [1]); (GTH_OK, []); (GTH_OK, []); (GTH_OK, []);
        (GTH_OK, [2]); (GTH_EBUSY, [])].
Proof. by vm_compute. Qed.

(** Thread 1 is cancelled while it waits for semaphore 5 and its slot is given to thread 2, which
    waits for semaphore 6.  A post on 5 wakes thread 2, whose wait on 6 returns although nothing
    was ever posted there: joining it succeeds. *)
Lemma stale_slot_wakes_another_thread :
  main_statuses (start_script
    [AInit (Some demo_config); ASemInit 5 0; ASemInit 6 0; ACreate true None 5 0; AYield; ACancel 1;
     AJoin 1; ACreate true None 6 0; AYield; ASemPost 5; AJoin 2]
    (λ fn, [ASemWait fn]) 18) =
  Some [(GTH_OK, []); (GTH_OK, []); (GTH_OK, []); (GTH_OK, [1]); (GTH_OK, []); (GTH_OK, []);
        (GTH_OK, [0]); (GTH_OK, [2]); (GTH_OK, []); (GTH_OK, []); (GTH_OK, [0])].
Proof. by vm_compute. Qed.

(** Main holds the mutex; a thread that does not hold it unlocks it, and main's [trylock], which
    answers [GTH_EBUSY] on a held mutex, then succeeds. *)
Lemma main_mutex_unlocked_by_thread :
  main_statuses (start_script
    [AInit (Some demo_config); AMutexInit 5; ALock 5; ACreate true None 1 0; AYield; ATrylock 5]
    (λ _, [AUnlock 5]) 9) =
  Some [(GTH_OK, []); (GTH_OK, []); (GTH_OK, []); (GTH_OK, [1]); (GTH_OK, []); (GTH_OK, [])].
Proof. by vm_compute. Qed.

(** A thread that cancels itself and yields is runnable again: the statistics count it. *)
Lemma cancelled_thread_rescheduled :
  main_statuses (start_script
    [AInit (Some demo_config); ACreate true None 1 0; AYield; AGetStats true]
    (λ _, [ACancel 1; AYield]) 7) =
  Some [(GTH_OK, []); (GTH_OK, [1]); (GTH_OK, []); (GTH_OK, [1; 1; 0])].
Proof. by vm_compute. Qed.

(** A configuration that is accepted although no thread can be created under it. *)
Lemma accepted_config_creates_no_thread :
  main_statuses (start_script
    [AInit (Some (mk_config (128 * 1024 * 1024) GTH_SCHED_RR 1000 0 0 0)); ACreate true None 1 0]
    (λ _, []) 2) =
  Some [(GTH_OK, []); (GTH_EINVAL, [])].
Proof. by vm_compute. Qed.

(** The first write of a flush accepts 3 of 4 bytes; the next flush writes all 4 again, so the
    file has 7. *)
Definition short_write_os : OS :=
  mk_os 4096 (λ _, true) (λ _ _, None) (λ _, true) (λ _, 0) (λ _, None) (λ _, true)
        (λ n k, if (n =? 0)%nat then 3%nat else k) (λ _, true).

Lemma short_write_duplicates :
  let '(n1, b1, fp1, w1) := gth_trace_buffer_flush (mk_buffer [1; 2; 3; 4] 2 2 2)
    (mk_file "t"%string []) (mk_world rt_zero ∅ ∅ ∅ ∅ ∅ 0 short_write_os 0 0) in
  let '(n2, _, fp2, _) := gth_trace_buffer_flush b1 fp1 w1 in
  (n1, n2, f_pending fp2) = (0, 2, [1; 2; 3; 1; 2; 3; 4]).
Proof. by vm_compute. Qed.

(** The second half of this run repeats the first under replay, step for step and with the same
    answers.  Its first yield finds nothing to run, as the recorded one did, but the trace still
    has a switch ahead: replay takes that for a divergence and reports one in the end. *)
Lemma faithful_replay_reported_diverged :
  main_statuses (start_script
    [AInit (Some demo_config); ATraceStart (Some "t"%string); AYield; ACreate true None 1 0; AYield; AJoin 1;
     ATraceStop; AShutdown;
     AInit (Some demo_config); AReplayFrom (Some "t"%string); AYield; ACreate true None 1 0; AYield; AJoin 1;
     AReplayStats true]
    (λ _, [AYield]) 25) =
  Some [(GTH_OK, []); (GTH_OK, []); (GTH_ENOTFOUND, []); (GTH_OK, [1]); (GTH_OK, []); (GTH_OK, [0]);
        (GTH_OK, []); (GTH_OK, []);
        (GTH_OK, []); (GTH_OK, []); (GTH_ENOTFOUND, []); (GTH_OK, [1]); (GTH_OK, []); (GTH_OK, [0]);
        (GTH_OK, [7; 5; 1])].
Proof. by vm_compute. Qed.
